(** * linear-bridge: trigger dispatch, deduplication, permission policy and
    the agent session runner.

    A shallow embedding of the TypeScript sources
      src/triggers/{base,label,hashtag,mention,matcher}.ts,
      src/plugins/registry.ts, src/webhook.ts, src/github-webhook.ts and
      src/sandbox.ts
    together with the properties stated about them.

    Conventions.  A JavaScript string is a [string]; every [ascii] stands
    for one UTF-16 code unit below 256.  [Date.now()] is a [Z] (milliseconds).
    A [Map<string, number>] is a [gmap string Z].  An optional field
    [f?: T] is an [option T]. *)

From Stdlib Require Import ZArith List String Ascii Bool Lia.
From stdpp Require Import base option list gmap strings pretty.

Local Open Scope string_scope.
Local Open Scope Z_scope.
Local Open Scope list_scope.

(** ** JavaScript string primitives *)
Module Js.

Definition code (c : ascii) : N := N_of_ascii c.

(** WhiteSpace and LineTerminator code units below 256 (ECMA-262 12.2, 12.3):
    TAB, LF, VT, FF, CR, SP, NBSP. *)
Definition isWhiteSpace (c : ascii) : bool :=
  let n := code c in
  (((9 <=? n) && (n <=? 13)) || (n =? 32) || (n =? 160))%N.

Definition isLineTerminator (c : ascii) : bool :=
  let n := code c in ((n =? 10) || (n =? 13))%N.

(** [\w] of a RegExp without the u flag: [A-Za-z0-9_]. *)
Definition isWordChar (c : ascii) : bool :=
  let n := code c in
  (((65 <=? n) && (n <=? 90)) || ((97 <=? n) && (n <=? 122))
   || ((48 <=? n) && (n <=? 57)) || (n =? 95))%N.

(** [String.prototype.toLowerCase] on one code unit below 256.  Strings are
    modelled by their code units below 256; there lower-casing maps unit to
    unit, which it does not do beyond (U+0130 becomes two units), so no
    statement below is about the length of a lower-cased string. *)
Definition lowerChar (c : ascii) : ascii :=
  let n := code c in
  if (((65 <=? n) && (n <=? 90))
      || ((192 <=? n) && (n <=? 222) && negb (n =? 215)))%N
  then ascii_of_N (n + 32) else c.

Fixpoint toLowerCase (s : string) : string :=
  match s with
  | EmptyString => EmptyString
  | String c s' => String (lowerChar c) (toLowerCase s')
  end.

Fixpoint trimStart (s : string) : string :=
  match s with
  | String c s' => if isWhiteSpace c then trimStart s' else s
  | EmptyString => EmptyString
  end.

(** [trimEnd] keeps a character when it is not white space or when
    something that is kept follows it. *)
Fixpoint trimEnd (s : string) : string :=
  match s with
  | EmptyString => EmptyString
  | String c s' =>
      match trimEnd s' with
      | EmptyString => if isWhiteSpace c then EmptyString else String c EmptyString
      | r => String c r
      end
  end.

Definition trim (s : string) : string := trimEnd (trimStart s).

(** Truthiness of a string value: only the empty string is falsy. *)
Definition truthy (s : string) : bool :=
  match s with EmptyString => false | _ => true end.

(** Truthiness of [string | undefined] and [string | null]. *)
Definition truthyOpt (o : option string) : bool :=
  match o with Some s => truthy s | None => false end.

Fixpoint startsWith (p s : string) : bool :=
  match p, s with
  | EmptyString, _ => true
  | String a p', String b s' => Ascii.eqb a b && startsWith p' s'
  | String _ _, EmptyString => false
  end.

(** [s.includes(p)] *)
Fixpoint includes (p s : string) : bool :=
  startsWith p s ||
  match s with
  | EmptyString => false
  | String _ s' => includes p s'
  end.

(** [s.slice(n)] for a non-negative [n]. *)
Fixpoint sliceFrom (n : nat) (s : string) : string :=
  match n, s with
  | O, _ => s
  | S n', String _ s' => sliceFrom n' s'
  | S _, EmptyString => EmptyString
  end.

(** [s.split(sep)] for a one-character separator: the result is never empty. *)
Fixpoint splitChar (sep : ascii) (s : string) : list string :=
  match s with
  | EmptyString => [EmptyString]
  | String c s' =>
      if Ascii.eqb c sep then EmptyString :: splitChar sep s'
      else match splitChar sep s' with
           | hd :: tl => String c hd :: tl
           | [] => [String c EmptyString]
           end
  end.

(** [parts.join(sep)] *)
Fixpoint join (sep : string) (parts : list string) : string :=
  match parts with
  | [] => EmptyString
  | [x] => x
  | x :: rest => x +:+ sep +:+ join sep rest
  end.

(** [arr.includes(x)] on an array of strings. *)
Definition arrayIncludes (l : list string) (x : string) : bool :=
  existsb (String.eqb x) l.

End Js.

Example trim_example : Js.trim "  Bug Fix  " = "Bug Fix".
Proof. reflexivity. Qed.

Example split_example : Js.splitChar "010" (" M a.ts" +:+ String "010" "?? b.ts") = [" M a.ts"; "?? b.ts"].
Proof. reflexivity. Qed.

(** ** Trigger rules and the change events they are matched against
    (src/config/schema.ts, src/triggers/base.ts) *)
Module Triggers.

Inductive TriggerType := label | hashtag | mention.
Inductive TriggerAction := full | quick | context | guide | plan | reply | review | github.
Inductive TriggerEvent := create | update | remove.
Inductive SandboxAgent := claude | codex | opencode | amp.
Inductive EventType := Issue | Comment.

Definition TriggerEvent_eqb (a b : TriggerEvent) : bool :=
  match a, b with
  | create, create | update, update | remove, remove => true
  | _, _ => false
  end.

Definition EventType_eqb (a b : EventType) : bool :=
  match a, b with
  | Issue, Issue | Comment, Comment => true
  | _, _ => false
  end.

(** [TriggerSchema]: [agent] and [on] are optional. *)
Record TriggerConfig := {
  trigger_type : TriggerType;
  trigger_value : string;
  trigger_action : TriggerAction;
  trigger_agent : option SandboxAgent;
  trigger_on : option (list TriggerEvent)
}.

Record TriggerLabel := { label_id : string; label_name : string }.

Record TriggerIssue := {
  issue_id : string;
  issue_identifier : option string;
  issue_title : option string;
  issue_description : option string;
  issue_labels : option (list string);
  issue_labelsDetailed : option (list TriggerLabel);
  issue_labelIds : option (list string);
  issue_updatedFromLabelIds : option (list string);
  issue_teamId : option string;
  issue_projectId : option string
}.

Record TriggerComment := { comment_id : string; comment_body : string }.

Record TriggerContext := {
  ctx_eventType : EventType;
  ctx_action : TriggerEvent;
  ctx_issue : TriggerIssue;
  ctx_comment : option TriggerComment
}.

Record TriggerMatch := { match_trigger : TriggerConfig; match_action : TriggerAction }.

(** How a call completes: it returns a value, or it throws. *)
Inductive Completion (A : Type) :=
| Returns (a : A)
| Throws.
Arguments Returns {A} a.
Arguments Throws {A}.

Record TriggerEvaluator := {
  evaluator_type : TriggerType;
  matches : TriggerConfig -> TriggerContext -> Completion bool
}.

(** The key under which an evaluator is registered: the string literal of
    its [type]. *)
Definition typeName (t : TriggerType) : string :=
  match t with label => "label" | hashtag => "hashtag" | mention => "mention" end.

(** *** src/triggers/label.ts *)

(** [trigger.value.trim().toLowerCase()] *)
Definition wantedOf (trigger : TriggerConfig) : string :=
  Js.toLowerCase (Js.trim (trigger_value trigger)).

(** [labels.some((label) => label.trim().toLowerCase() === wanted)] over
    [context.issue.labels ?? []] *)
Definition hasLabel (wanted : string) (issue : TriggerIssue) : bool :=
  existsb (fun l => String.eqb (Js.toLowerCase (Js.trim l)) wanted)
          (default [] (issue_labels issue)).

(** [context.issue.labelIds ?? context.issue.labelsDetailed?.map((label) => label.id) ?? []] *)
Definition currentLabelIds (issue : TriggerIssue) : list string :=
  match issue_labelIds issue with
  | Some ids => ids
  | None =>
      match issue_labelsDetailed issue with
      | Some ls => map label_id ls
      | None => []
      end
  end.

(** [context.issue.labelsDetailed?.find((label) => label.name.trim().toLowerCase() === wanted)?.id] *)
Definition wantedLabelId (wanted : string) (issue : TriggerIssue) : option string :=
  match issue_labelsDetailed issue with
  | Some ls =>
      match find (fun l => String.eqb (Js.toLowerCase (Js.trim (label_name l))) wanted) ls with
      | Some l => Some (label_id l)
      | None => None
      end
  | None => None
  end.

Definition label_matches (trigger : TriggerConfig) (context : TriggerContext) : bool :=
  if negb (EventType_eqb (ctx_eventType context) Issue) then false else
  let wanted := wantedOf trigger in
  if negb (Js.truthy wanted) then false else
  if negb (hasLabel wanted (ctx_issue context)) then false else
  if negb (TriggerEvent_eqb (ctx_action context) update) then true else
  match issue_updatedFromLabelIds (ctx_issue context) with
  | None => false
  | Some previousLabelIds =>
      let currentLabelIds := currentLabelIds (ctx_issue context) in
      let labelId := wantedLabelId wanted (ctx_issue context) in
      if negb (Js.truthyOpt labelId) then false else
      match labelId with
      | Some labelId =>
          negb (Js.arrayIncludes previousLabelIds labelId)
          && Js.arrayIncludes currentLabelIds labelId
      | None => false
      end
  end.

Definition labelTriggerEvaluator : TriggerEvaluator :=
  {| evaluator_type := label;
     matches := fun trigger context => Returns (label_matches trigger context) |}.

(** *** src/triggers/hashtag.ts and src/triggers/mention.ts *)

(** The character class [[.*+?^${}()|[\\]] of the pattern in [escapeRegex]. *)
Definition isEscapeClass (c : ascii) : bool :=
  existsb (Ascii.eqb c)
    ["."; "*"; "+"; "?"; "^"; "$"; "{"; "}"; "("; ")"; "|"; "["; "\"]%char.

(** [value.replace(/[.*+?^${}()|[\\]\\\\]/g, '\\\\$&')]: the pattern is the
    class followed by two backslashes and a closing bracket; every match is
    replaced by two backslashes followed by the match. *)
Fixpoint escapeRegex (value : string) : string :=
  match value with
  | EmptyString => EmptyString
  | String c rest =>
      match rest with
      | String "\" (String "\" (String "]" rest')) =>
          if isEscapeClass c
          then String "\" (String "\" (String c (String "\" (String "\" (String "]" (escapeRegex rest'))))))
          else String c (escapeRegex rest)
      | _ => String c (escapeRegex rest)
      end
  end.

Section WithRegExp.

(** [newRegExp source flags] is [new RegExp(source, flags)] of the
    JavaScript runtime: [None] when the constructor throws a SyntaxError, as
    it does for the pattern [c++] (nothing to repeat), and otherwise the
    [test] method of the regular expression. *)
Variable newRegExp : string -> string -> option (string -> bool).

Definition hashtag_matches (trigger : TriggerConfig) (context : TriggerContext)
    : Completion bool :=
  match ctx_eventType context, ctx_comment context with
  | Comment, Some comment =>
      let value :=
        if Js.startsWith "#" (trigger_value trigger) then trigger_value trigger
        else "#" +:+ trigger_value trigger in
      match newRegExp (escapeRegex value +:+ "\b") "i" with
      | None => Throws
      | Some test => Returns (test (comment_body comment))
      end
  | _, _ => Returns false
  end.

Definition hashtagTriggerEvaluator : TriggerEvaluator :=
  {| evaluator_type := hashtag; matches := hashtag_matches |}.

Definition mention_matches (trigger : TriggerConfig) (context : TriggerContext)
    : Completion bool :=
  match ctx_eventType context, ctx_comment context with
  | Comment, Some comment =>
      let wanted := Js.trim (trigger_value trigger) in
      if negb (Js.truthy wanted) then Returns false else
      match newRegExp ("^\s*" +:+ escapeRegex wanted +:+ "\b") "i" with
      | None => Throws
      | Some test => Returns (test (comment_body comment))
      end
  | _, _ => Returns false
  end.

Definition mentionTriggerEvaluator : TriggerEvaluator :=
  {| evaluator_type := mention; matches := mention_matches |}.

(** *** src/plugins/registry.ts *)

Definition registerTrigger (evaluator : TriggerEvaluator)
    (reg : gmap string TriggerEvaluator) : gmap string TriggerEvaluator :=
  <[ typeName (evaluator_type evaluator) := evaluator ]> reg.

Definition getTrigger (reg : gmap string TriggerEvaluator) (type : TriggerType)
    : option TriggerEvaluator :=
  reg !! typeName type.

(** The registry after the three module-level registrations of matcher.ts. *)
Definition pluginRegistry : gmap string TriggerEvaluator :=
  registerTrigger mentionTriggerEvaluator
    (registerTrigger hashtagTriggerEvaluator
      (registerTrigger labelTriggerEvaluator ∅)).

(** *** src/triggers/matcher.ts *)

(** [trigger.on && !trigger.on.includes(context.action)]: an array, even an
    empty one, is truthy; an absent [on] is not. *)
Definition skippedByOn (trigger : TriggerConfig) (action : TriggerEvent) : bool :=
  match trigger_on trigger with
  | Some on => negb (existsb (TriggerEvent_eqb action) on)
  | None => false
  end.

(** The loop of [matchTriggers], together with the list of the rules the
    loop body ran for (in order): the call returns a match or [null], or an
    evaluator throws and the call throws with it. *)
Fixpoint matchTriggersVisited (triggers : list TriggerConfig) (context : TriggerContext)
    : Completion (option TriggerMatch) * list TriggerConfig :=
  match triggers with
  | [] => (Returns None, [])
  | trigger :: rest =>
      let continue :=
        let '(r, visited) := matchTriggersVisited rest context in
        (r, trigger :: visited) in
      if skippedByOn trigger (ctx_action context) then continue else
      match getTrigger pluginRegistry (trigger_type trigger) with
      | None => continue
      | Some evaluator =>
          match matches evaluator trigger context with
          | Throws => (Throws, [trigger])
          | Returns true =>
              (Returns (Some {| match_trigger := trigger;
                                match_action := trigger_action trigger |}),
               [trigger])
          | Returns false => continue
          end
      end
  end.

Definition matchTriggers (triggers : list TriggerConfig) (context : TriggerContext)
    : Completion (option TriggerMatch) :=
  fst (matchTriggersVisited triggers context).

End WithRegExp.

(** *** Properties of the label evaluator *)

Lemma arrayIncludes_In (l : list string) (x : string) :
  Js.arrayIncludes l x = true <-> In x l.
Proof.
  unfold Js.arrayIncludes. rewrite existsb_exists. split.
  - intros [y [Hy Heq]]. apply String.eqb_eq in Heq. now subst.
  - intros Hin. exists x. split; [assumption | apply String.eqb_refl].
Qed.

Lemma truthy_nonempty (s : string) : Js.truthy s = true <-> s <> "".
Proof. destruct s; simpl; split; congruence. Qed.

Lemma TriggerEvent_eqb_eq (a b : TriggerEvent) : TriggerEvent_eqb a b = true <-> a = b.
Proof. destruct a, b; simpl; split; congruence. Qed.

Lemma EventType_eqb_eq (a b : EventType) : EventType_eqb a b = true <-> a = b.
Proof. destruct a, b; simpl; split; congruence. Qed.

(** An issue that carries the label [review] and is being removed. *)
Definition removedIssue : TriggerContext :=
  {| ctx_eventType := Issue;
     ctx_action := remove;
     ctx_issue :=
       {| issue_id := "i1"; issue_identifier := None; issue_title := None;
          issue_description := None;
          issue_labels := Some ["review"];
          issue_labelsDetailed := Some [ {| label_id := "L1"; label_name := "review" |} ];
          issue_labelIds := Some ["L1"];
          issue_updatedFromLabelIds := None;
          issue_teamId := None; issue_projectId := None |};
     ctx_comment := None |}.

Definition reviewRule : TriggerConfig :=
  {| trigger_type := label; trigger_value := "review"; trigger_action := review;
     trigger_agent := None; trigger_on := None |}.

(** C3, as stated, fails: the evaluator accepts a [remove] event of an issue
    that carries the wanted label, an operation that is neither create nor
    update. *)
Lemma label_matches_remove_counterexample :
  label_matches reviewRule removedIssue = true
  /\ ctx_action removedIssue <> create
  /\ ctx_action removedIssue <> update.
Proof. split; [reflexivity | split; discriminate]. Qed.

(** C3 (amended): the label evaluator returns true exactly when the event
    is an Issue event carrying the wanted label (by trimmed, lower-cased
    name) and either the operation is not update (create or remove), or the
    operation is update, the previous-label-ids snapshot is present, and the
    wanted label's id is in the current label ids and not in the previous
    ones; on an update without a snapshot it returns false whatever labels
    are present. *)
Theorem label_matches_spec (trigger : TriggerConfig) (context : TriggerContext) :
  (label_matches trigger context = true <->
     ctx_eventType context = Issue
     /\ wantedOf trigger <> ""
     /\ hasLabel (wantedOf trigger) (ctx_issue context) = true
     /\ (ctx_action context <> update
         \/ (ctx_action context = update
             /\ exists previousLabelIds labelId,
                 issue_updatedFromLabelIds (ctx_issue context) = Some previousLabelIds
                 /\ wantedLabelId (wantedOf trigger) (ctx_issue context) = Some labelId
                 /\ labelId <> ""
                 /\ In labelId (currentLabelIds (ctx_issue context))
                 /\ ~ In labelId previousLabelIds)))
  /\ (ctx_action context = update ->
      issue_updatedFromLabelIds (ctx_issue context) = None ->
      label_matches trigger context = false).
Proof.
  unfold label_matches. split.
  - destruct (EventType_eqb (ctx_eventType context) Issue) eqn:Hty; simpl.
    2:{ split; [discriminate |]. intros [H _]. apply EventType_eqb_eq in H. congruence. }
    apply EventType_eqb_eq in Hty.
    destruct (Js.truthy (wantedOf trigger)) eqn:Hw; simpl.
    2:{ split; [discriminate |]. intros (_ & H & _). apply truthy_nonempty in H. congruence. }
    apply truthy_nonempty in Hw.
    destruct (hasLabel (wantedOf trigger) (ctx_issue context)) eqn:Hl; simpl.
    2:{ split; [discriminate |]. intros (_ & _ & H & _). discriminate. }
    destruct (TriggerEvent_eqb (ctx_action context) update) eqn:Hact; simpl.
    2:{ split; [| reflexivity]. intros _. repeat split; try assumption.
        left. intros Heq. apply TriggerEvent_eqb_eq in Heq. congruence. }
    apply TriggerEvent_eqb_eq in Hact.
    destruct (issue_updatedFromLabelIds (ctx_issue context)) as [prev|] eqn:Hprev.
    2:{ split; [discriminate |]. intros (_ & _ & _ & [H | (_ & p & i & H & _)]); congruence. }
    destruct (wantedLabelId (wantedOf trigger) (ctx_issue context)) as [lid|] eqn:Hid; simpl.
    2:{ split; [discriminate |].
        intros (_ & _ & _ & [H | (_ & p & i & _ & H & _)]); congruence. }
    destruct (Js.truthy lid) eqn:Hlid; simpl.
    2:{ split; [discriminate |].
        intros (_ & _ & _ & [H | (_ & p & i & _ & H & Hne & _)]); [congruence |].
        injection H as <-. apply truthy_nonempty in Hne. congruence. }
    apply truthy_nonempty in Hlid.
    rewrite andb_true_iff, negb_true_iff. split.
    + intros [Hnp Hc]. repeat split; try assumption. right. split; [assumption |].
      exists prev, lid. repeat split; try assumption.
      * now apply arrayIncludes_In.
      * intros Hin. apply arrayIncludes_In in Hin. congruence.
    + intros (_ & _ & _ & [H | (_ & p & i & Hp & Hi & _ & Hc & Hnp)]); [congruence |].
      injection Hp as <-. injection Hi as <-. split.
      * destruct (Js.arrayIncludes prev lid) eqn:E; [| reflexivity].
        apply arrayIncludes_In in E. contradiction.
      * now apply arrayIncludes_In.
  - intros Hact Hprev. rewrite Hprev.
    apply TriggerEvent_eqb_eq in Hact. rewrite Hact. simpl.
    destruct (EventType_eqb _ _); simpl; [| reflexivity].
    destruct (Js.truthy _); simpl; [| reflexivity].
    destruct (hasLabel _ _); reflexivity.
Qed.

(** *** Properties of [matchTriggers] *)

Section MatcherFacts.

Variable newRegExp : string -> string -> option (string -> bool).

(** The matcher of each rule kind. *)
Definition kindMatcher (type : TriggerType)
    : TriggerConfig -> TriggerContext -> Completion bool :=
  match type with
  | label => fun trigger context => Returns (label_matches trigger context)
  | hashtag => hashtag_matches newRegExp
  | mention => mention_matches newRegExp
  end.

(** The operations a rule is allowed for: its [on] list, and every operation
    when the optional [on] is absent. *)
Definition allowedOperations (trigger : TriggerConfig) : list TriggerEvent :=
  default [create; update; remove] (trigger_on trigger).

(** A rule accepts an event when its allowed operations contain the event's
    operation and the matcher of its kind returns true. *)
Definition accepts (trigger : TriggerConfig) (context : TriggerContext) : Prop :=
  In (ctx_action context) (allowedOperations trigger)
  /\ kindMatcher (trigger_type trigger) trigger context = Returns true.

(** A rule declines an event when its allowed operations leave the event's
    operation out, in which case its matcher is not run, or its matcher
    returns false. *)
Definition declines (trigger : TriggerConfig) (context : TriggerContext) : Prop :=
  ~ In (ctx_action context) (allowedOperations trigger)
  \/ kindMatcher (trigger_type trigger) trigger context = Returns false.

(** The matcher of a rule whose allowed operations contain the event's
    operation throws. *)
Definition throwsOn (trigger : TriggerConfig) (context : TriggerContext) : Prop :=
  In (ctx_action context) (allowedOperations trigger)
  /\ kindMatcher (trigger_type trigger) trigger context = Throws.

Definition matchOf (trigger : TriggerConfig) : TriggerMatch :=
  {| match_trigger := trigger; match_action := trigger_action trigger |}.

Lemma getTrigger_registered (type : TriggerType) :
  exists evaluator,
    getTrigger (pluginRegistry newRegExp) type = Some evaluator
    /\ matches evaluator = kindMatcher type.
Proof.
  unfold getTrigger, pluginRegistry, registerTrigger. simpl.
  destruct type; simpl.
  - rewrite lookup_insert_ne by discriminate.
    rewrite lookup_insert_ne by discriminate.
    rewrite lookup_insert_eq. eexists; split; reflexivity.
  - rewrite lookup_insert_ne by discriminate.
    rewrite lookup_insert_eq. eexists; split; reflexivity.
  - rewrite lookup_insert_eq. eexists; split; reflexivity.
Qed.

Lemma skippedByOn_allowed (trigger : TriggerConfig) (action : TriggerEvent) :
  skippedByOn trigger action = false <-> In action (allowedOperations trigger).
Proof.
  unfold skippedByOn, allowedOperations.
  destruct (trigger_on trigger) as [on|]; simpl.
  - rewrite negb_false_iff, existsb_exists. split.
    + intros [x [Hin Heq]]. apply TriggerEvent_eqb_eq in Heq. now subst.
    + intros Hin. exists action. split; [assumption |]. now apply TriggerEvent_eqb_eq.
  - split; [| reflexivity]. intros _. destruct action; simpl; auto.
Qed.

(** A rule accepts, declines or throws, and does one of the three only. *)
Lemma accepts_not_declines (trigger : TriggerConfig) (context : TriggerContext) :
  accepts trigger context -> ~ declines trigger context.
Proof. intros [Hin Hk] [Hout | Hfalse]; [contradiction | congruence]. Qed.

Lemma throwsOn_not_declines (trigger : TriggerConfig) (context : TriggerContext) :
  throwsOn trigger context -> ~ declines trigger context.
Proof. intros [Hin Hk] [Hout | Hfalse]; [contradiction | congruence]. Qed.

Lemma accepts_not_throwsOn (trigger : TriggerConfig) (context : TriggerContext) :
  accepts trigger context -> ~ throwsOn trigger context.
Proof. intros [_ Hk] [_ Hthrows]. congruence. Qed.

(** One iteration of the loop: the rule wins when it accepts, the call
    throws when its matcher throws, and the loop goes on when it declines. *)
Lemma matchTriggersVisited_cons (trigger : TriggerConfig) (rest : list TriggerConfig)
    (context : TriggerContext) :
  (accepts trigger context
   /\ matchTriggersVisited newRegExp (trigger :: rest) context
      = (Returns (Some (matchOf trigger)), [trigger]))
  \/ (throwsOn trigger context
      /\ matchTriggersVisited newRegExp (trigger :: rest) context = (Throws, [trigger]))
  \/ (declines trigger context
      /\ matchTriggersVisited newRegExp (trigger :: rest) context
         = (fst (matchTriggersVisited newRegExp rest context),
            trigger :: snd (matchTriggersVisited newRegExp rest context))).
Proof.
  simpl. unfold accepts, throwsOn, declines.
  destruct (matchTriggersVisited newRegExp rest context) as [r visited]; simpl.
  destruct (skippedByOn trigger (ctx_action context)) eqn:Hon.
  - right. right. split; [| reflexivity]. left. intros Hin.
    apply skippedByOn_allowed in Hin. congruence.
  - apply skippedByOn_allowed in Hon.
    destruct (getTrigger_registered (trigger_type trigger)) as [evaluator [-> Hm]].
    rewrite Hm.
    destruct (kindMatcher (trigger_type trigger) trigger context) as [[|] |] eqn:Hk.
    + left. auto.
    + right. right. auto.
    + right. left. auto.
Qed.

(** First-match-wins on two rules that both accept the event. *)
Lemma matchTriggers_two_rules (first second : TriggerConfig) (rest : list TriggerConfig)
    (context : TriggerContext) :
  accepts first context -> accepts second context ->
  matchTriggers newRegExp (first :: second :: rest) context = Returns (Some (matchOf first)).
Proof.
  intros H1 _. unfold matchTriggers.
  destruct (matchTriggersVisited_cons first (second :: rest) context)
    as [[_ ->] | [[Hthrows _] | [Hdeclines _]]]; [reflexivity | |].
  - now contradiction (accepts_not_throwsOn _ _ H1).
  - now contradiction (accepts_not_declines _ _ H1).
Qed.

(** What [matchTriggers] does on every rule list and event: it returns the
    first rule that accepts when every rule before it declines, it returns
    nothing when every rule declines, and it throws when the matcher of a
    rule throws and every rule before that one declines; the loop body runs
    for the rules up to and including the one that decides. *)
Lemma matchTriggers_outcome (triggers : list TriggerConfig) (context : TriggerContext) :
  (forall m,
      matchTriggers newRegExp triggers context = Returns (Some m) <->
      exists pre trigger post,
        triggers = pre ++ trigger :: post
        /\ Forall (fun t => declines t context) pre
        /\ accepts trigger context
        /\ m = matchOf trigger
        /\ snd (matchTriggersVisited newRegExp triggers context) = pre ++ [trigger])
  /\ (matchTriggers newRegExp triggers context = Returns None <->
      Forall (fun t => declines t context) triggers)
  /\ (matchTriggers newRegExp triggers context = Throws <->
      exists pre trigger post,
        triggers = pre ++ trigger :: post
        /\ Forall (fun t => declines t context) pre
        /\ throwsOn trigger context
        /\ snd (matchTriggersVisited newRegExp triggers context) = pre ++ [trigger]).
Proof.
  unfold matchTriggers.
  induction triggers as [| trigger rest (IHsome & IHnone & IHthrows)].
  - split_and!.
    + intros m. simpl. split; [discriminate |].
      intros (pre & t & post & Heq & _). destruct pre; discriminate.
    + simpl. split; auto.
    + simpl. split; [discriminate |].
      intros (pre & t & post & Heq & _). destruct pre; discriminate.
  - destruct (matchTriggersVisited_cons trigger rest context)
      as [[Hacc ->] | [[Hthrows ->] | [Hdeclines ->]]]; simpl.
    + split_and!.
      * intros m. split.
        -- intros [= <-]. exists [], trigger, rest. split_and!; auto.
        -- intros (pre & t & post & Heq & Hpre & _ & -> & _).
           destruct pre as [| p pre]; simpl in Heq; injection Heq as <- _.
           ++ reflexivity.
           ++ inversion Hpre; subst. now contradiction (accepts_not_declines _ _ Hacc).
      * split; [discriminate |]. intros H. inversion H; subst.
        now contradiction (accepts_not_declines _ _ Hacc).
      * split; [discriminate |].
        intros (pre & t & post & Heq & Hpre & Ht & _).
        destruct pre as [| p pre]; simpl in Heq; injection Heq as <- _.
        -- now contradiction (accepts_not_throwsOn _ _ Hacc).
        -- inversion Hpre; subst. now contradiction (accepts_not_declines _ _ Hacc).
    + split_and!.
      * intros m. split; [discriminate |].
        intros (pre & t & post & Heq & Hpre & Ht & _).
        destruct pre as [| p pre]; simpl in Heq; injection Heq as <- _.
        -- now contradiction (accepts_not_throwsOn _ _ Ht).
        -- inversion Hpre; subst. now contradiction (throwsOn_not_declines _ _ Hthrows).
      * split; [discriminate |]. intros H. inversion H; subst.
        now contradiction (throwsOn_not_declines _ _ Hthrows).
      * split; [| reflexivity]. intros _. exists [], trigger, rest. split_and!; auto.
    + split_and!.
      * intros m. rewrite IHsome. split.
        -- intros (pre & t & post & -> & Hpre & Hacc & -> & Hvis).
           exists (trigger :: pre), t, post. split_and!; auto.
           simpl. now rewrite Hvis.
        -- intros (pre & t & post & Heq & Hpre & Hacc & -> & Hvis).
           destruct pre as [| p pre]; simpl in Heq; injection Heq as <- ->.
           ++ now contradiction (accepts_not_declines _ _ Hacc).
           ++ exists pre, t, post. inversion Hpre; subst. split_and!; auto.
              simpl in Hvis. now injection Hvis.
      * rewrite IHnone. split.
        -- intros H. constructor; assumption.
        -- intros H. now inversion H.
      * rewrite IHthrows. split.
        -- intros (pre & t & post & -> & Hpre & Ht & Hvis).
           exists (trigger :: pre), t, post. split_and!; auto.
           simpl. now rewrite Hvis.
        -- intros (pre & t & post & Heq & Hpre & Ht & Hvis).
           destruct pre as [| p pre]; simpl in Heq; injection Heq as <- ->.
           ++ now contradiction (throwsOn_not_declines _ _ Ht).
           ++ exists pre, t, post. inversion Hpre; subst. split_and!; auto.
              simpl in Hvis. now injection Hvis.
Qed.

End MatcherFacts.

(** *** A rule whose pattern does not compile *)

(** A hashtag rule for [c++] before one for [fix], and a new comment that
    holds [#fix]. *)
Definition plusPlusRule : TriggerConfig :=
  {| trigger_type := hashtag; trigger_value := "c++"; trigger_action := full;
     trigger_agent := None; trigger_on := None |}.

Definition fixRule : TriggerConfig :=
  {| trigger_type := hashtag; trigger_value := "fix"; trigger_action := quick;
     trigger_agent := None; trigger_on := Some [create] |}.

Definition fixComment : TriggerContext :=
  {| ctx_eventType := Comment;
     ctx_action := create;
     ctx_issue :=
       {| issue_id := "i1"; issue_identifier := None; issue_title := None;
          issue_description := None; issue_labels := None; issue_labelsDetailed := None;
          issue_labelIds := None; issue_updatedFromLabelIds := None;
          issue_teamId := None; issue_projectId := None |};
     ctx_comment := Some {| comment_id := "c1"; comment_body := "#fix please" |} |}.

(** C4: [matchTriggers] does not return the first rule that accepts when the
    matcher of an earlier rule throws.  [escapeRegex] leaves the value [c++]
    as it is, the constructor rejects the pattern [#c++\b] (nothing to
    repeat), and so, with the rule for [c++] before the rule for [fix], the
    call throws on a comment that the rule for [fix] accepts and the rule for
    [c++] does not: the first rule that accepts is not returned. *)
Theorem matchTriggers_throws_before_match
    (newRegExp : string -> string -> option (string -> bool)) (test : string -> bool) :
  newRegExp "#c++\b" "i" = None ->
  newRegExp "#fix\b" "i" = Some test ->
  test "#fix please" = true ->
  escapeRegex "#c++" = "#c++"
  /\ accepts newRegExp fixRule fixComment
  /\ ~ accepts newRegExp plusPlusRule fixComment
  /\ matchTriggers newRegExp [fixRule] fixComment = Returns (Some (matchOf fixRule))
  /\ matchTriggers newRegExp [plusPlusRule; fixRule] fixComment = Throws.
Proof.
  intros Hplus Hfix Htest.
  assert (kindMatcher newRegExp hashtag fixRule fixComment = Returns true) as Hk.
  { cbn. change (escapeRegex ("#" +:+ "fix") +:+ "\b") with "#fix\b".
    now rewrite Hfix, Htest. }
  assert (kindMatcher newRegExp hashtag plusPlusRule fixComment = Throws) as Hthrows.
  { cbn. change (escapeRegex ("#" +:+ "c++") +:+ "\b") with "#c++\b".
    now rewrite Hplus. }
  assert (accepts newRegExp fixRule fixComment) as Hacc.
  { split; [now left | exact Hk]. }
  assert (throwsOn newRegExp plusPlusRule fixComment) as Hto.
  { split; [now left | exact Hthrows]. }
  split_and!.
  - reflexivity.
  - exact Hacc.
  - intros Hacc'. now apply (accepts_not_throwsOn _ _ _ Hacc').
  - unfold matchTriggers.
    destruct (matchTriggersVisited_cons newRegExp fixRule [] fixComment)
      as [[_ ->] | [[Hthrows' _] | [Hdeclines _]]]; [reflexivity | |].
    + now contradiction (accepts_not_throwsOn _ _ _ Hacc).
    + now contradiction (accepts_not_declines _ _ _ Hacc).
  - unfold matchTriggers.
    destruct (matchTriggersVisited_cons newRegExp plusPlusRule [fixRule] fixComment)
      as [[Hacc' _] | [[_ ->] | [Hdeclines _]]]; [| reflexivity |].
    + now contradiction (accepts_not_throwsOn _ _ _ Hacc').
    + now contradiction (throwsOn_not_declines _ _ _ Hto).
Qed.

(** A constructor that rejects a pattern holding [c++]; the expressions it
    builds test for [#fix]. *)
Definition rejectsPlusPlus (source flags : string) : option (string -> bool) :=
  if Js.includes "c++" source then None else Some (Js.includes "#fix").

Lemma matchTriggers_throws_before_match_witness :
  matchTriggers rejectsPlusPlus [fixRule] fixComment = Returns (Some (matchOf fixRule))
  /\ matchTriggers rejectsPlusPlus [plusPlusRule; fixRule] fixComment = Throws.
Proof.
  destruct (matchTriggers_throws_before_match rejectsPlusPlus (Js.includes "#fix")
              eq_refl eq_refl eq_refl) as (_ & _ & _ & Hfix & Hthrows).
  split; [exact Hfix | exact Hthrows].
Defined.

End Triggers.

(** ** Deduplication guards (src/webhook.ts, src/github-webhook.ts) *)
Module Dedup.

Definition DEDUP_WINDOW_MS : Z := 30000.
Definition GITHUB_DEDUP_WINDOW_MS : Z := 5 * 60000.

(** Truthiness of [processedAt : number | undefined]: [undefined] and [0]
    are falsy (a clock reading is never [NaN]). *)
Definition truthyNumber (o : option Z) : bool :=
  match o with Some t => negb (t =? 0) | None => false end.

(** [processedAt && now - processedAt < window] *)
Definition withinWindow (window now : Z) (processedAt : option Z) : bool :=
  match processedAt with
  | Some t => truthyNumber processedAt && (now - t <? window)
  | None => false
  end.

(** The clean-up loop: every entry with [now - timestamp > window] is
    deleted (deleting the entry being visited is safe for a [Map]). *)
Definition sweep (window now : Z) (m : gmap string Z) : gmap string Z :=
  filter (fun kv : string * Z => ~ (now - kv.2 > window)) m.

(** [isDuplicateEvent(key)], with the clock reading and the map passed in;
    the map after the call is returned with the answer. *)
Definition isDuplicateEvent (now : Z) (key : string) (processedEvents : gmap string Z)
    : bool * gmap string Z :=
  let processedAt := processedEvents !! key in
  if withinWindow DEDUP_WINDOW_MS now processedAt then (true, processedEvents)
  else
    (false,
     if (1000 <? size processedEvents)%nat
     then sweep DEDUP_WINDOW_MS now processedEvents
     else processedEvents).

(** [markEventProcessed(key)] *)
Definition markEventProcessed (now : Z) (key : string) (processedEvents : gmap string Z)
    : gmap string Z :=
  <[ key := now ]> processedEvents.

(** The check the Linear handler performs: [isDuplicateEvent], and when it
    answers false, [markEventProcessed] (each reads the clock). *)
Definition seenLinear (now markedAt : Z) (key : string) (processedEvents : gmap string Z)
    : bool * gmap string Z :=
  let '(duplicate, processedEvents) := isDuplicateEvent now key processedEvents in
  if duplicate then (true, processedEvents)
  else (false, markEventProcessed markedAt key processedEvents).

(** [isDuplicateGithubDelivery(deliveryId)] *)
Definition isDuplicateGithubDelivery (now : Z) (deliveryId : string)
    (processedGithubDeliveries : gmap string Z) : bool * gmap string Z :=
  let processedAt := processedGithubDeliveries !! deliveryId in
  if withinWindow GITHUB_DEDUP_WINDOW_MS now processedAt
  then (true, processedGithubDeliveries)
  else
    let swept :=
      if (2000 <? size processedGithubDeliveries)%nat
      then sweep GITHUB_DEDUP_WINDOW_MS now processedGithubDeliveries
      else processedGithubDeliveries in
    (false, <[ deliveryId := now ]> swept).

(** A sequence of checks, oldest first. *)
Fixpoint runLinear (checks : list (Z * Z * string)) (m : gmap string Z) : gmap string Z :=
  match checks with
  | [] => m
  | (now, markedAt, key) :: rest => runLinear rest (seenLinear now markedAt key m).2
  end.

Fixpoint runGithub (checks : list (Z * string)) (m : gmap string Z) : gmap string Z :=
  match checks with
  | [] => m
  | (now, key) :: rest => runGithub rest (isDuplicateGithubDelivery now key m).2
  end.

(** *** Facts shared by both guards *)

Lemma withinWindow_true (window now t : Z) :
  t <> 0 -> now - t < window -> withinWindow window now (Some t) = true.
Proof.
  intros Hnz Hlt. unfold withinWindow, truthyNumber.
  apply andb_true_intro. split.
  - apply negb_true_iff. now apply Z.eqb_neq.
  - now apply Z.ltb_lt.
Qed.

Lemma withinWindow_expired (window now t : Z) :
  window <= now - t -> withinWindow window now (Some t) = false.
Proof.
  intros Hge. unfold withinWindow.
  apply andb_false_iff. right. apply Z.ltb_ge. exact Hge.
Qed.

(** The sweep deletes only entries older than the window. *)
Lemma sweep_lookup_None (window now : Z) (m : gmap string Z) (k : string) (t : Z) :
  m !! k = Some t -> sweep window now m !! k = None -> now - t > window.
Proof.
  intros Hk Hnone. unfold sweep in Hnone.
  destruct (decide (now - t > window)) as [Hgt | Hle]; [exact Hgt |].
  assert (filter (fun kv : string * Z => ~ (now - kv.2 > window)) m !! k = Some t) as Hs.
  { apply map_lookup_filter_Some. split; [exact Hk | exact Hle]. }
  congruence.
Qed.

Lemma sweep_lookup_keep (window now : Z) (m : gmap string Z) (k : string) (t : Z) :
  m !! k = Some t -> now - t <= window -> sweep window now m !! k = Some t.
Proof.
  intros Hk Hle. unfold sweep. apply map_lookup_filter_Some.
  split; [exact Hk | simpl; lia].
Qed.

Lemma sweep_lookup_Some (window now : Z) (m : gmap string Z) (k : string) (t : Z) :
  sweep window now m !! k = Some t -> m !! k = Some t.
Proof. unfold sweep. intros H. now apply map_lookup_filter_Some in H. Qed.

(** *** The Linear guard *)

Lemma seenLinear_first (now markedAt : Z) (key : string) (m : gmap string Z) :
  m !! key = None ->
  (seenLinear now markedAt key m).1 = false
  /\ (seenLinear now markedAt key m).2 !! key = Some markedAt.
Proof.
  intros Hnone. unfold seenLinear, isDuplicateEvent, markEventProcessed.
  rewrite Hnone. simpl. split; [reflexivity | apply lookup_insert_eq].
Qed.

Lemma seenLinear_second (now markedAt t0 : Z) (key : string) (m : gmap string Z) :
  m !! key = Some t0 -> t0 <> 0 -> now - t0 < DEDUP_WINDOW_MS ->
  seenLinear now markedAt key m = (true, m).
Proof.
  intros Hk Hnz Hlt. unfold seenLinear, isDuplicateEvent.
  rewrite Hk, (withinWindow_true _ _ _ Hnz Hlt). reflexivity.
Qed.

Lemma seenLinear_third (now markedAt t0 : Z) (key : string) (m : gmap string Z) :
  m !! key = Some t0 -> DEDUP_WINDOW_MS <= now - t0 ->
  (seenLinear now markedAt key m).1 = false
  /\ (seenLinear now markedAt key m).2 !! key = Some markedAt.
Proof.
  intros Hk Hge. unfold seenLinear, isDuplicateEvent, markEventProcessed.
  rewrite Hk, (withinWindow_expired _ _ _ Hge). simpl.
  split; [reflexivity | apply lookup_insert_eq].
Qed.

(** A check of any key, made while [key]'s entry is inside the window,
    leaves that entry as it is. *)
Lemma seenLinear_keeps (now markedAt t0 : Z) (key other : string) (m : gmap string Z) :
  m !! key = Some t0 -> t0 <> 0 -> now - t0 < DEDUP_WINDOW_MS ->
  (seenLinear now markedAt other m).2 !! key = Some t0.
Proof.
  intros Hk Hnz Hlt.
  destruct (decide (other = key)) as [-> | Hne].
  - now rewrite (seenLinear_second _ _ _ _ _ Hk Hnz Hlt).
  - unfold seenLinear, isDuplicateEvent, markEventProcessed.
    destruct (withinWindow DEDUP_WINDOW_MS now (m !! other)); simpl; [exact Hk |].
    rewrite lookup_insert_ne by exact Hne.
    destruct (1000 <? size m)%nat; [| exact Hk].
    apply sweep_lookup_keep; [exact Hk | lia].
Qed.

Lemma runLinear_keeps (checks : list (Z * Z * string)) (t0 : Z) (key : string)
    (m : gmap string Z) :
  m !! key = Some t0 -> t0 <> 0 ->
  Forall (fun c : Z * Z * string => c.1.1 - t0 < DEDUP_WINDOW_MS) checks ->
  runLinear checks m !! key = Some t0.
Proof.
  intros Hk Hnz Hall. revert m Hk.
  induction Hall as [| [[now markedAt] other] rest Hc _ IH]; intros m Hk; simpl.
  - exact Hk.
  - apply IH. now apply seenLinear_keeps.
Qed.

(** *** The GitHub guard *)

Lemma github_first (now : Z) (key : string) (m : gmap string Z) :
  m !! key = None ->
  (isDuplicateGithubDelivery now key m).1 = false
  /\ (isDuplicateGithubDelivery now key m).2 !! key = Some now.
Proof.
  intros Hnone. unfold isDuplicateGithubDelivery.
  rewrite Hnone. simpl. split; [reflexivity | apply lookup_insert_eq].
Qed.

Lemma github_second (now t0 : Z) (key : string) (m : gmap string Z) :
  m !! key = Some t0 -> t0 <> 0 -> now - t0 < GITHUB_DEDUP_WINDOW_MS ->
  isDuplicateGithubDelivery now key m = (true, m).
Proof.
  intros Hk Hnz Hlt. unfold isDuplicateGithubDelivery.
  rewrite Hk, (withinWindow_true _ _ _ Hnz Hlt). reflexivity.
Qed.

Lemma github_third (now t0 : Z) (key : string) (m : gmap string Z) :
  m !! key = Some t0 -> GITHUB_DEDUP_WINDOW_MS <= now - t0 ->
  (isDuplicateGithubDelivery now key m).1 = false
  /\ (isDuplicateGithubDelivery now key m).2 !! key = Some now.
Proof.
  intros Hk Hge. unfold isDuplicateGithubDelivery.
  rewrite Hk, (withinWindow_expired _ _ _ Hge). simpl.
  split; [reflexivity | apply lookup_insert_eq].
Qed.

Lemma github_keeps (now t0 : Z) (key other : string) (m : gmap string Z) :
  m !! key = Some t0 -> t0 <> 0 -> now - t0 < GITHUB_DEDUP_WINDOW_MS ->
  (isDuplicateGithubDelivery now other m).2 !! key = Some t0.
Proof.
  intros Hk Hnz Hlt.
  destruct (decide (other = key)) as [-> | Hne].
  - now rewrite (github_second _ _ _ _ Hk Hnz Hlt).
  - unfold isDuplicateGithubDelivery.
    destruct (withinWindow GITHUB_DEDUP_WINDOW_MS now (m !! other)); simpl; [exact Hk |].
    rewrite lookup_insert_ne by exact Hne.
    destruct (2000 <? size m)%nat; [| exact Hk].
    apply sweep_lookup_keep; [exact Hk | lia].
Qed.

Lemma runGithub_keeps (checks : list (Z * string)) (t0 : Z) (key : string)
    (m : gmap string Z) :
  m !! key = Some t0 -> t0 <> 0 ->
  Forall (fun c : Z * string => c.1 - t0 < GITHUB_DEDUP_WINDOW_MS) checks ->
  runGithub checks m !! key = Some t0.
Proof.
  intros Hk Hnz Hall. revert m Hk.
  induction Hall as [| [now other] rest Hc _ IH]; intros m Hk; simpl.
  - exact Hk.
  - apply IH. now apply github_keeps.
Qed.

(** C6: for every key, with clock readings that are not zero (a zero
    [processedAt] is falsy in the source's test): a first check of an unknown
    key answers false and records the key with the clock reading; a check of
    a recorded key inside the window (30 s for Linear events, 5 min for GitHub
    deliveries) answers true and leaves the whole map, so also the stored
    timestamp, unchanged; a check once the window has elapsed answers false
    again and records the key anew; the sweep deletes only entries older than
    the window, so after any sequence of checks made inside the window the key
    is still recorded with its first timestamp and is reported seen. *)
Theorem dedup_guard_contract (key : string) :
  (* first check *)
  (forall m now markedAt, m !! key = None ->
     (seenLinear now markedAt key m).1 = false
     /\ (seenLinear now markedAt key m).2 !! key = Some markedAt)
  /\ (forall m now, m !! key = None ->
     (isDuplicateGithubDelivery now key m).1 = false
     /\ (isDuplicateGithubDelivery now key m).2 !! key = Some now)
  (* second check, inside the window *)
  /\ (forall m t0 now markedAt,
     m !! key = Some t0 -> t0 <> 0 -> now - t0 < 30000 ->
     seenLinear now markedAt key m = (true, m))
  /\ (forall m t0 now,
     m !! key = Some t0 -> t0 <> 0 -> now - t0 < 300000 ->
     isDuplicateGithubDelivery now key m = (true, m))
  (* third check, after the window *)
  /\ (forall m t0 now markedAt,
     m !! key = Some t0 -> 30000 <= now - t0 ->
     (seenLinear now markedAt key m).1 = false)
  /\ (forall m t0 now,
     m !! key = Some t0 -> 300000 <= now - t0 ->
     (isDuplicateGithubDelivery now key m).1 = false)
  (* the sweep deletes only expired entries *)
  /\ (forall window now m t0,
     m !! key = Some t0 -> sweep window now m !! key = None -> now - t0 > window)
  (* no key inside the window is reported unseen *)
  /\ (forall m t0 checks now markedAt,
     m !! key = Some t0 -> t0 <> 0 ->
     Forall (fun c : Z * Z * string => c.1.1 - t0 < 30000) checks ->
     now - t0 < 30000 ->
     runLinear checks m !! key = Some t0
     /\ (seenLinear now markedAt key (runLinear checks m)).1 = true)
  /\ (forall m t0 checks now,
     m !! key = Some t0 -> t0 <> 0 ->
     Forall (fun c : Z * string => c.1 - t0 < 300000) checks ->
     now - t0 < 300000 ->
     runGithub checks m !! key = Some t0
     /\ (isDuplicateGithubDelivery now key (runGithub checks m)).1 = true).
Proof.
  change 30000 with DEDUP_WINDOW_MS.
  change 300000 with GITHUB_DEDUP_WINDOW_MS.
  split_and!.
  - intros. now apply seenLinear_first.
  - intros. now apply github_first.
  - intros. eapply seenLinear_second; eassumption.
  - intros. eapply github_second; eassumption.
  - intros m t0 now markedAt Hk Hge. eapply seenLinear_third; eassumption.
  - intros m t0 now Hk Hge. eapply github_third; eassumption.
  - intros. eapply sweep_lookup_None; eassumption.
  - intros m t0 checks now markedAt Hk Hnz Hall Hlt.
    pose proof (runLinear_keeps checks t0 key m Hk Hnz Hall) as Hkeep.
    split; [exact Hkeep |].
    now rewrite (seenLinear_second _ _ _ _ _ Hkeep Hnz Hlt).
  - intros m t0 checks now Hk Hnz Hall Hlt.
    pose proof (runGithub_keeps checks t0 key m Hk Hnz Hall) as Hkeep.
    split; [exact Hkeep |].
    now rewrite (github_second _ _ _ _ Hkeep Hnz Hlt).
Qed.

(** Two deliveries 2 s apart and a third after 31 s, starting from an empty
    map at clock reading 1000. *)
Example dedup_three_checks :
  let m0 : gmap string Z := ∅ in
  let r1 := seenLinear 1000 1000 "delivery:d1" m0 in
  let r2 := seenLinear 3000 3000 "delivery:d1" r1.2 in
  let r3 := seenLinear 32000 32000 "delivery:d1" r2.2 in
  (r1.1, r2.1, r3.1) = (false, true, false)
  /\ r2.2 !! "delivery:d1" = Some 1000.
Proof. vm_compute. split; reflexivity. Qed.

End Dedup.

(** ** The Linear webhook handler (src/types.ts, src/webhook.ts) *)
Module Webhook.

Import Triggers Dedup.

(** [LinearIssueDataSchema] and [LinearCommentDataSchema] *)
Record LinearIssueData := {
  issueData_id : string;
  issueData_title : string;
  issueData_description : option string;
  issueData_identifier : option string;
  issueData_url : option string;
  issueData_labels : option (list TriggerLabel);
  issueData_labelIds : option (list string)
}.

Record LinearUser := { user_id : string; user_name : string }.

Record LinearCommentData := {
  commentData_id : string;
  commentData_body : string;
  commentData_issueId : string;
  commentData_userId : option string;
  commentData_user : option LinearUser
}.

(** [z.union([LinearCommentDataSchema, LinearIssueDataSchema])]: the value is
    what the first schema that accepts the data produces. *)
Inductive PayloadData :=
| CommentData (comment : LinearCommentData)
| IssueData (issue : LinearIssueData).

(** [payload.data.id] *)
Definition data_id (data : PayloadData) : string :=
  match data with
  | CommentData comment => commentData_id comment
  | IssueData issue => issueData_id issue
  end.

Record LinearWebhookUpdatedFrom := { updatedFrom_labelIds : option (list string) }.

(** [LinearWebhookPayloadSchema]; [webhookId] is [z.string().min(1).optional()]. *)
Record LinearWebhookPayload := {
  payload_action : TriggerEvent;
  payload_type : EventType;
  payload_data : PayloadData;
  payload_updatedFrom : option LinearWebhookUpdatedFrom;
  payload_url : option string;
  payload_createdAt : string;
  payload_webhookTimestamp : option Z;
  payload_webhookId : option string;
  payload_organizationId : option string
}.

Definition eventTypeName (t : EventType) : string :=
  match t with Issue => "Issue" | Comment => "Comment" end.

Definition eventActionName (a : TriggerEvent) : string :=
  match a with create => "create" | update => "update" | remove => "remove" end.

(** [getDeduplicationKey(type, action, dataId)] *)
Definition getDeduplicationKey (type action dataId : string) : string :=
  type +:+ ":" +:+ action +:+ ":" +:+ dataId.

(** The [dedupKey] expression of the handler; [deliveryId] is the
    [linear-delivery] header, [null] when absent. *)
Definition dedupKeyOf (deliveryId : option string) (payload : LinearWebhookPayload) : string :=
  if Js.truthyOpt deliveryId then "delivery:" +:+ default "" deliveryId
  else if Js.truthyOpt (payload_webhookId payload)
  then "webhook:" +:+ default "" (payload_webhookId payload)
  else getDeduplicationKey (eventTypeName (payload_type payload))
         (eventActionName (payload_action payload)) (data_id (payload_data payload)).

(** [normalizeLabels(labels)] *)
Definition normalizeLabels (labels : option (list TriggerLabel)) : list string :=
  map label_name (default [] labels).

Record Request := {
  rawBody : string;
  linearSignature : option string;
  linearDelivery : option string
}.

Inductive ResponseBody :=
| ErrorBody (error : string)
| IgnoredBody (reason : string)
| ProcessingBody (trigger : TriggerType).

Record Response := { status : Z; body : ResponseBody }.

(** The handler answers, or its promise rejects: [matchTriggers] is called
    outside any [try], so what it throws leaves the handler. *)
Inductive Outcome :=
| Responds (response : Response)
| Rejects.

(** What a call leaves behind besides the map: counter increments, and the
    acknowledgment comment whose continuation starts the background workflow
    chosen by the match's action. *)
Inductive Effect :=
| WebhookEventMetric (type action result : string)
| TriggerMatchMetric (triggerType : TriggerType) (action : TriggerAction)
| Dispatch (issueId : string) (m : TriggerMatch) (comment : option TriggerComment).

Definition isDispatch (e : Effect) : bool :=
  match e with Dispatch _ _ _ => true | _ => false end.

Record Config := {
  webhookSecret : string;
  triggers : list TriggerConfig
}.

Section Handler.

(** [hmacSha256Hex secret body] is the hex digest the Web Crypto calls of
    [verifySignature] compute; [parsePayload raw] is
    [LinearWebhookPayloadSchema.parse(JSON.parse(raw))], [None] when either
    throws; [newRegExp] is the constructor the evaluators call. *)
Variable hmacSha256Hex : string -> string -> string.
Variable parsePayload : string -> option LinearWebhookPayload.
Variable newRegExp : string -> string -> option (string -> bool).

Definition verifySignature (body : string) (signature : option string) (secret : string) : bool :=
  match signature with
  | Some sig =>
      if negb (Js.truthy sig) then false
      else String.eqb (hmacSha256Hex secret body) sig
  | None => false
  end.

Definition issueContext (payload : LinearWebhookPayload) (issue : LinearIssueData)
    : TriggerContext :=
  {| ctx_eventType := Issue;
     ctx_action := payload_action payload;
     ctx_issue :=
       {| issue_id := issueData_id issue;
          issue_identifier := issueData_identifier issue;
          issue_title := Some (issueData_title issue);
          issue_description := issueData_description issue;
          issue_labels := Some (normalizeLabels (issueData_labels issue));
          issue_labelsDetailed := issueData_labels issue;
          issue_labelIds :=
            match issueData_labelIds issue with
            | Some ids => Some ids
            | None => option_map (map label_id) (issueData_labels issue)
            end;
          issue_updatedFromLabelIds :=
            match payload_updatedFrom payload with
            | Some u => updatedFrom_labelIds u
            | None => None
            end;
          issue_teamId := None; issue_projectId := None |};
     ctx_comment := None |}.

Definition commentContext (payload : LinearWebhookPayload) (comment : LinearCommentData)
    : TriggerContext :=
  {| ctx_eventType := Comment;
     ctx_action := payload_action payload;
     ctx_issue :=
       {| issue_id := commentData_issueId comment;
          issue_identifier := None; issue_title := None; issue_description := None;
          issue_labels := None; issue_labelsDetailed := None; issue_labelIds := None;
          issue_updatedFromLabelIds := None; issue_teamId := None; issue_projectId := None |};
     ctx_comment :=
       Some {| comment_id := commentData_id comment; comment_body := commentData_body comment |} |}.

(** The handler after the duplicate check: the Issue branch, the create
    gate, the Comment branch. *)
Definition dispatchPayload (config : Config) (payload : LinearWebhookPayload)
    : Outcome * list Effect :=
  match payload_type payload with
  | Issue =>
      match payload_data payload with
      | CommentData _ =>
          (Responds {| status := 400; body := ErrorBody "Invalid issue data" |}, [])
      | IssueData issue =>
          match matchTriggers newRegExp (triggers config) (issueContext payload issue) with
          | Throws => (Rejects, [])
          | Returns None =>
              (Responds {| status := 200; body := IgnoredBody "No trigger match" |}, [])
          | Returns (Some triggerMatch) =>
              (Responds
                 {| status := 200;
                    body := ProcessingBody (trigger_type (match_trigger triggerMatch)) |},
               [TriggerMatchMetric (trigger_type (match_trigger triggerMatch))
                                   (match_action triggerMatch);
                Dispatch (issueData_id issue) triggerMatch None])
          end
      end
  | Comment =>
      if negb (TriggerEvent_eqb (payload_action payload) create)
      then (Responds {| status := 200; body := IgnoredBody "Not a create event" |}, [])
      else
        match payload_data payload with
        | IssueData _ =>
            (Responds {| status := 400; body := ErrorBody "Invalid comment data" |}, [])
        | CommentData comment =>
            match matchTriggers newRegExp (triggers config)
                    (commentContext payload comment) with
            | Throws => (Rejects, [])
            | Returns None =>
                (Responds {| status := 200; body := IgnoredBody "No trigger" |}, [])
            | Returns (Some triggerMatch) =>
                (Responds
                   {| status := 200;
                      body := ProcessingBody (trigger_type (match_trigger triggerMatch)) |},
                 [TriggerMatchMetric (trigger_type (match_trigger triggerMatch))
                                     (match_action triggerMatch);
                  Dispatch (commentData_issueId comment) triggerMatch
                    (Some {| comment_id := commentData_id comment;
                             comment_body := commentData_body comment |})])
            end
        end
  end.

(** [webhookHandler(c)]: [now] and [markedAt] are the clock readings of
    [isDuplicateEvent] and [markEventProcessed]; the result is the outcome,
    the map [processedEvents] after the call, and the effects in order. *)
Definition webhookHandler (config : Config) (now markedAt : Z) (c : Request)
    (processedEvents : gmap string Z) : Outcome * gmap string Z * list Effect :=
  let secret := webhookSecret config in
  let rawBody := rawBody c in
  let signature := linearSignature c in
  let deliveryId := linearDelivery c in
  if negb (verifySignature rawBody signature secret)
  then (Responds {| status := 401; body := ErrorBody "Invalid signature" |}, processedEvents,
        [WebhookEventMetric "unknown" "unknown" "invalid_signature"])
  else
    match parsePayload rawBody with
    | None =>
        (Responds {| status := 400; body := ErrorBody "Invalid payload" |}, processedEvents,
         [WebhookEventMetric "unknown" "unknown" "invalid_payload"])
    | Some payload =>
        let type := eventTypeName (payload_type payload) in
        let action := eventActionName (payload_action payload) in
        let received := WebhookEventMetric type action "received" in
        let dedupKey := dedupKeyOf deliveryId payload in
        let '(duplicate, processedEvents) := isDuplicateEvent now dedupKey processedEvents in
        if duplicate
        then (Responds {| status := 200; body := IgnoredBody "Duplicate event" |},
              processedEvents,
              [received; WebhookEventMetric type action "deduplicated"])
        else
          let processedEvents := markEventProcessed markedAt dedupKey processedEvents in
          let '(outcome, effects) := dispatchPayload config payload in
          (outcome, processedEvents, received :: effects)
    end.

End Handler.

(** *** The deduplication key *)

(** An Issue event delivered without the [linear-delivery] header whose
    payload carries a [webhookId]. *)
Definition payloadWithWebhookId : LinearWebhookPayload :=
  {| payload_action := create;
     payload_type := Issue;
     payload_data :=
       IssueData {| issueData_id := "i1"; issueData_title := "T";
                    issueData_description := None; issueData_identifier := None;
                    issueData_url := None; issueData_labels := None;
                    issueData_labelIds := None |};
     payload_updatedFrom := None;
     payload_url := None;
     payload_createdAt := "2026-01-01T00:00:00.000Z";
     payload_webhookTimestamp := None;
     payload_webhookId := Some "wh-1";
     payload_organizationId := None |}.

(** C8, as stated, fails: without a delivery id the key of this event is not
    the composite of its type, action and subject id, but is built from the
    payload's [webhookId]. *)
Lemma dedupKey_webhookId_counterexample :
  dedupKeyOf None payloadWithWebhookId = "webhook:wh-1"
  /\ dedupKeyOf None payloadWithWebhookId
     <> getDeduplicationKey (eventTypeName (payload_type payloadWithWebhookId))
          (eventActionName (payload_action payloadWithWebhookId))
          (data_id (payload_data payloadWithWebhookId)).
Proof. split; [reflexivity | discriminate]. Qed.

Lemma getDeduplicationKey_inj (t t' : EventType) (a a' : TriggerEvent) (i i' : string) :
  getDeduplicationKey (eventTypeName t) (eventActionName a) i
  = getDeduplicationKey (eventTypeName t') (eventActionName a') i' ->
  t = t' /\ a = a' /\ i = i'.
Proof.
  unfold getDeduplicationKey.
  destruct t, t', a, a'; simpl; intros H; try discriminate;
    injection H as H; subst; auto.
Qed.

(** C8 (amended): the key is ["delivery:"] followed by the delivery id when
    the request carries a non-empty one; otherwise ["webhook:"] followed by
    the payload's webhookId when it carries a non-empty one; otherwise the
    composite [type:action:id] of the event's type, action and subject id,
    which determines the three of them. *)
Theorem dedupKey_precedence (deliveryId : option string) (payload : LinearWebhookPayload) :
  (forall d, deliveryId = Some d -> d <> "" ->
     dedupKeyOf deliveryId payload = "delivery:" +:+ d)
  /\ (forall w, Js.truthyOpt deliveryId = false ->
        payload_webhookId payload = Some w -> w <> "" ->
        dedupKeyOf deliveryId payload = "webhook:" +:+ w)
  /\ (Js.truthyOpt deliveryId = false ->
      Js.truthyOpt (payload_webhookId payload) = false ->
      dedupKeyOf deliveryId payload
      = eventTypeName (payload_type payload) +:+ ":"
        +:+ eventActionName (payload_action payload) +:+ ":"
        +:+ data_id (payload_data payload))
  /\ (forall payload',
        getDeduplicationKey (eventTypeName (payload_type payload))
          (eventActionName (payload_action payload)) (data_id (payload_data payload))
        = getDeduplicationKey (eventTypeName (payload_type payload'))
            (eventActionName (payload_action payload')) (data_id (payload_data payload')) ->
        payload_type payload = payload_type payload'
        /\ payload_action payload = payload_action payload'
        /\ data_id (payload_data payload) = data_id (payload_data payload')).
Proof.
  unfold dedupKeyOf. split_and!.
  - intros d -> Hd. apply Triggers.truthy_nonempty in Hd. simpl. now rewrite Hd.
  - intros w -> -> Hw. apply Triggers.truthy_nonempty in Hw. simpl. now rewrite Hw.
  - intros -> ->. reflexivity.
  - intros payload'. apply getDeduplicationKey_inj.
Qed.

(** *** Rejected requests and the deduplication map *)

Section HandlerFacts.

Variable hmacSha256Hex : string -> string -> string.
Variable parsePayload : string -> option LinearWebhookPayload.
Variable newRegExp : string -> string -> option (string -> bool).

Local Abbreviation handler := (webhookHandler hmacSha256Hex parsePayload newRegExp).

(** A request is rejected when its signature does not verify or its body
    does not parse against the payload schema. *)
Definition rejected (config : Config) (c : Request) : Prop :=
  verifySignature hmacSha256Hex (rawBody c) (linearSignature c) (webhookSecret config) = false
  \/ parsePayload (rawBody c) = None.

Lemma handler_invalid_signature (config : Config) (now markedAt : Z) (c : Request)
    (cache : gmap string Z) :
  verifySignature hmacSha256Hex (rawBody c) (linearSignature c) (webhookSecret config) = false ->
  handler config now markedAt c cache
  = (Responds {| status := 401; body := ErrorBody "Invalid signature" |}, cache,
     [WebhookEventMetric "unknown" "unknown" "invalid_signature"]).
Proof. intros H. unfold webhookHandler. now rewrite H. Qed.

Lemma handler_invalid_payload (config : Config) (now markedAt : Z) (c : Request)
    (cache : gmap string Z) :
  verifySignature hmacSha256Hex (rawBody c) (linearSignature c) (webhookSecret config) = true ->
  parsePayload (rawBody c) = None ->
  handler config now markedAt c cache
  = (Responds {| status := 400; body := ErrorBody "Invalid payload" |}, cache,
     [WebhookEventMetric "unknown" "unknown" "invalid_payload"]).
Proof. intros Hs Hp. unfold webhookHandler. now rewrite Hs, Hp. Qed.

(** For a request that passes both checks the map evolves as the guard
    [seenLinear] on the request's key. *)
Lemma handler_valid_cache (config : Config) (now markedAt : Z) (c : Request)
    (cache : gmap string Z) (payload : LinearWebhookPayload) :
  verifySignature hmacSha256Hex (rawBody c) (linearSignature c) (webhookSecret config) = true ->
  parsePayload (rawBody c) = Some payload ->
  (handler config now markedAt c cache).1.2
  = (seenLinear now markedAt (dedupKeyOf (linearDelivery c) payload) cache).2.
Proof.
  intros Hs Hp. unfold webhookHandler, seenLinear. rewrite Hs, Hp. simpl.
  destruct (isDuplicateEvent now _ cache) as [[|] cache']; simpl; [reflexivity |].
  now destruct (dispatchPayload newRegExp config payload).
Qed.

(** C10: a request whose signature fails verification is answered 401, one
    whose body fails the payload schema is answered 400; either leaves the
    deduplication map unchanged and dispatches no workflow, so any later
    request is handled as if the rejected one had never arrived; the map
    changes only for a request that passed both checks. *)
Theorem rejected_request_leaves_dedup (config : Config) (now markedAt : Z) (c : Request)
    (cache : gmap string Z) :
  (verifySignature hmacSha256Hex (rawBody c) (linearSignature c) (webhookSecret config) = false ->
     (handler config now markedAt c cache).1.1
     = Responds {| status := 401; body := ErrorBody "Invalid signature" |})
  /\ (verifySignature hmacSha256Hex (rawBody c) (linearSignature c) (webhookSecret config) = true ->
      parsePayload (rawBody c) = None ->
      (handler config now markedAt c cache).1.1
      = Responds {| status := 400; body := ErrorBody "Invalid payload" |})
  /\ (rejected config c ->
      (handler config now markedAt c cache).1.2 = cache
      /\ existsb isDispatch (handler config now markedAt c cache).2 = false
      /\ forall now' markedAt' later,
           handler config now' markedAt' later (handler config now markedAt c cache).1.2
           = handler config now' markedAt' later cache)
  /\ ((handler config now markedAt c cache).1.2 <> cache ->
      verifySignature hmacSha256Hex (rawBody c) (linearSignature c) (webhookSecret config) = true
      /\ exists payload, parsePayload (rawBody c) = Some payload).
Proof.
  split_and!.
  - intros H. now rewrite (handler_invalid_signature _ _ _ _ _ H).
  - intros Hs Hp. now rewrite (handler_invalid_payload _ _ _ _ _ Hs Hp).
  - intros Hrej.
    assert ((handler config now markedAt c cache).1.2 = cache
            /\ existsb isDispatch (handler config now markedAt c cache).2 = false) as [Hc Hd].
    { destruct (verifySignature hmacSha256Hex (rawBody c) (linearSignature c)
                  (webhookSecret config)) eqn:Hs.
      - destruct Hrej as [Hf | Hp]; [congruence |].
        rewrite (handler_invalid_payload _ _ _ _ _ Hs Hp). split; reflexivity.
      - rewrite (handler_invalid_signature _ _ _ _ _ Hs). split; reflexivity. }
    split_and!; [exact Hc | exact Hd |]. intros. now rewrite Hc.
  - intros Hchanged.
    destruct (verifySignature hmacSha256Hex (rawBody c) (linearSignature c)
                (webhookSecret config)) eqn:Hs.
    + split; [reflexivity |].
      destruct (parsePayload (rawBody c)) as [payload |] eqn:Hp; [now exists payload |].
      exfalso. apply Hchanged. unfold webhookHandler. now rewrite Hs, Hp.
    + exfalso. apply Hchanged. now rewrite (handler_invalid_signature _ _ _ _ _ Hs).
Qed.

(** After both checks the key is recorded before the event's data is
    validated against the schema of its type: an Issue event whose data
    parsed as comment data is answered 400 with its key recorded. *)
Remark invalid_issue_data_after_recording (config : Config) (now markedAt : Z) (c : Request)
    (cache : gmap string Z) (payload : LinearWebhookPayload) (comment : LinearCommentData) :
  verifySignature hmacSha256Hex (rawBody c) (linearSignature c) (webhookSecret config) = true ->
  parsePayload (rawBody c) = Some payload ->
  payload_type payload = Issue ->
  payload_data payload = CommentData comment ->
  cache !! dedupKeyOf (linearDelivery c) payload = None ->
  (handler config now markedAt c cache).1.1
  = Responds {| status := 400; body := ErrorBody "Invalid issue data" |}
  /\ (handler config now markedAt c cache).1.2 !! dedupKeyOf (linearDelivery c) payload
     = Some markedAt.
Proof.
  intros Hs Hp Hty Hdata Hnew. unfold webhookHandler, isDuplicateEvent, markEventProcessed.
  rewrite Hs, Hp. simpl. rewrite Hnew. simpl.
  unfold dispatchPayload. rewrite Hty, Hdata. simpl.
  split; [reflexivity | apply lookup_insert_eq].
Qed.

End HandlerFacts.

End Webhook.

(** ** Regular expressions of the fragment used by src/sandbox.ts

    Literals, [.], [\s], [\b], [^], sequence, alternation, and [*] / [+] on a
    one-character atom, matched by backtracking with an explicit
    continuation.  [test] is [RegExp.prototype.test] for a pattern without
    the g, y, m, s and u flags. *)
Module RegExp.

Inductive atom :=
| AChar (c : ascii)
| ADot
| ASpace.

Inductive regex :=
| Eps
| Atom (a : atom)
| WordB
| Bol
| Seq (r1 r2 : regex)
| Alt (r1 r2 : regex)
| Star (a : atom)
| Plus (a : atom).

(** Canonicalize of the i flag on a code unit below 256: the upper-case
    letter of a-z and of the accented lower-case letters; the two code
    units whose upper case lies above 255 stay distinct from every other. *)
Definition canonicalize (c : ascii) : ascii :=
  let n := Js.code c in
  if (((97 <=? n) && (n <=? 122))
      || ((224 <=? n) && (n <=? 254) && negb (n =? 247)))%N
  then ascii_of_N (n - 32) else c.

Definition atomMatches (ignoreCase : bool) (a : atom) (c : ascii) : bool :=
  match a with
  | AChar p =>
      if ignoreCase then Ascii.eqb (canonicalize p) (canonicalize c) else Ascii.eqb p c
  | ADot => negb (Js.isLineTerminator c)
  | ASpace => Js.isWhiteSpace c
  end.

Definition isWordOpt (o : option ascii) : bool :=
  match o with Some c => Js.isWordChar c | None => false end.

Definition next (s : string) : option ascii :=
  match s with String c _ => Some c | EmptyString => None end.

Section Match.

Variable ignoreCase : bool.

(** [a*] from the current position: every number of repetitions is offered
    to the continuation. *)
Fixpoint matchStar (a : atom) (prev : option ascii) (s : string)
    (k : option ascii -> string -> bool) : bool :=
  match s with
  | String c s' =>
      (atomMatches ignoreCase a c && matchStar a (Some c) s' k) || k prev s
  | EmptyString => k prev s
  end.

(** [prev] is the code unit before the current position, [None] at the
    start of the input. *)
Fixpoint matchAt (r : regex) (prev : option ascii) (s : string)
    (k : option ascii -> string -> bool) : bool :=
  match r with
  | Eps => k prev s
  | Atom a =>
      match s with
      | String c s' => atomMatches ignoreCase a c && k (Some c) s'
      | EmptyString => false
      end
  | WordB => xorb (isWordOpt prev) (isWordOpt (next s)) && k prev s
  | Bol => match prev with None => k prev s | Some _ => false end
  | Seq r1 r2 => matchAt r1 prev s (fun p s' => matchAt r2 p s' k)
  | Alt r1 r2 => matchAt r1 prev s k || matchAt r2 prev s k
  | Star a => matchStar a prev s k
  | Plus a =>
      match s with
      | String c s' => atomMatches ignoreCase a c && matchStar a (Some c) s' k
      | EmptyString => false
      end
  end.

(** A match may start at any position. *)
Fixpoint searchFrom (r : regex) (prev : option ascii) (s : string) : bool :=
  matchAt r prev s (fun _ _ => true) ||
  match s with
  | String c s' => searchFrom r (Some c) s'
  | EmptyString => false
  end.

End Match.

Definition test (r : regex) (ignoreCase : bool) (s : string) : bool :=
  searchFrom ignoreCase r None s.

(** The characters of a literal, in sequence. *)
Fixpoint lit (s : string) : regex :=
  match s with
  | EmptyString => Eps
  | String c EmptyString => Atom (AChar c)
  | String c s' => Seq (Atom (AChar c)) (lit s')
  end.

(** [(a|b|...)] *)
Fixpoint alts (l : list string) : regex :=
  match l with
  | [] => Eps
  | [x] => lit x
  | x :: rest => Alt (lit x) (alts rest)
  end.

Fixpoint seqs (l : list regex) : regex :=
  match l with
  | [] => Eps
  | [r] => r
  | r :: rest => Seq r (seqs rest)
  end.

End RegExp.

Example regexp_word_boundary :
  RegExp.test (RegExp.seqs [RegExp.WordB; RegExp.lit "rm"; RegExp.WordB]) true "sudo RM -rf x" = true
  /\ RegExp.test (RegExp.seqs [RegExp.WordB; RegExp.lit "rm"; RegExp.WordB]) true "format c:" = false.
Proof. split; reflexivity. Qed.

(** ** The permission policy (src/sandbox.ts: extractPermissionToolNames,
    extractPermissionCommand, decidePermissionReply, isReviewWriteCommand) *)
Module Permission.

(** A JavaScript value as [JSON.parse] produces it, and [undefined]. *)
#[local] Unset Elimination Schemes.
Inductive value :=
| VUndefined
| VNull
| VBool (b : bool)
| VNumber (n : Z)
| VString (s : string)
| VArray (items : list value)
| VObject (fields : list (string * value)).
#[local] Set Elimination Schemes.

(** A computation that returns or throws. *)
Inductive Result (A : Type) :=
| Ok (a : A)
| Throw (error : string).
Arguments Ok {A} a.
Arguments Throw {A} error.

Definition bind {A B : Type} (m : Result A) (f : A -> Result B) : Result B :=
  match m with
  | Ok a => f a
  | Throw e => Throw e
  end.

Notation "'let*' x ':=' m 'in' f" := (bind m (fun x => f))
  (at level 10, x name, m at level 100, f at level 200).

Definition truthy (v : value) : bool :=
  match v with
  | VUndefined | VNull => false
  | VBool b => b
  | VNumber n => negb (n =? 0)
  | VString s => Js.truthy s
  | VArray _ | VObject _ => true
  end.

(** [typeof v === 'object'] *)
Definition typeofObject (v : value) : bool :=
  match v with
  | VNull | VArray _ | VObject _ => true
  | _ => false
  end.

Definition isArray (v : value) : bool :=
  match v with VArray _ => true | _ => false end.

Fixpoint lookupField (fields : list (string * value)) (k : string) : value :=
  match fields with
  | [] => VUndefined
  | (k', v) :: rest => if String.eqb k' k then v else lookupField rest k
  end.

(** [v.k] for a key that no prototype defines: reading a property of
    [undefined] or [null] throws a TypeError, an object yields its own field
    or [undefined], every other value yields [undefined]. *)
Definition getProp (v : value) (k : string) : Result value :=
  match v with
  | VUndefined | VNull => Throw "TypeError"
  | VObject fields => Ok (lookupField fields k)
  | _ => Ok VUndefined
  end.

(** [v?.k] *)
Definition optChain (v : value) (k : string) : Result value :=
  match v with
  | VUndefined | VNull => Ok VUndefined
  | _ => getProp v k
  end.

(** [toolNames.add(x)] on a [Set] kept in insertion order. *)
Definition setAdd (x : string) (s : list string) : list string :=
  if Js.arrayIncludes s x then s else s ++ [x].

(** The inner loop [for (const rule of rules)]. *)
Fixpoint addRuleToolNames (rules : list value) (toolNames : list string)
    : Result (list string) :=
  match rules with
  | [] => Ok toolNames
  | rule :: rest =>
      let* toolName := optChain rule "toolName" in
      match toolName with
      | VString s =>
          if Js.truthy (Js.trim s)
          then addRuleToolNames rest (setAdd (Js.trim s) toolNames)
          else addRuleToolNames rest toolNames
      | _ => addRuleToolNames rest toolNames
      end
  end.

(** The outer loop [for (const suggestion of suggestions)]. *)
Fixpoint addSuggestionToolNames (suggestions : list value) (toolNames : list string)
    : Result (list string) :=
  match suggestions with
  | [] => Ok toolNames
  | suggestion :: rest =>
      let* rules := optChain suggestion "rules" in
      match rules with
      | VArray rules =>
          let* toolNames := addRuleToolNames rules toolNames in
          addSuggestionToolNames rest toolNames
      | _ => addSuggestionToolNames rest toolNames
      end
  end.

Definition extractPermissionToolNames (metadata : value) : Result (list string) :=
  if negb (truthy metadata) || negb (typeofObject metadata) then Ok []
  else
    let* suggestions := getProp metadata "permissionSuggestions" in
    match suggestions with
    | VArray suggestions => addSuggestionToolNames suggestions []
    | _ => Ok []
    end.

(** [string | null] is an [option string]. *)
Definition extractPermissionCommand (metadata : value) : Result (option string) :=
  if negb (truthy metadata) || negb (typeofObject metadata) then Ok None
  else
    let* input := optChain metadata "input" in
    let* cmd := optChain input "command" in
    match cmd with
    | VString s => Ok (Some s)
    | _ => Ok None
    end.

Import RegExp.

(** [/^mcp__.*linear/i] *)
Definition linearMcpToolPattern : regex :=
  seqs [Bol; lit "mcp__"; Star ADot; lit "linear"].

(** [/\bmcp-cli\b/i] and [/\blinear\b/i] *)
Definition mcpCliPattern : regex := seqs [WordB; lit "mcp-cli"; WordB].
Definition linearWordPattern : regex := seqs [WordB; lit "linear"; WordB].

(** The [denied] list of [isReviewWriteCommand]. *)
Definition denied : list regex :=
  [ seqs [WordB; lit "git"; Plus ASpace;
          alts ["commit"; "push"; "merge"; "rebase"; "reset"; "checkout";
                "cherry-pick"; "apply"; "am"];
          WordB];
    seqs [WordB; alts ["rm"; "mv"; "cp"; "chmod"; "chown"; "ln"]; WordB];
    seqs [WordB; lit "tee"; WordB];
    lit ">";
    seqs [WordB; lit "brew"; Plus ASpace; lit "install"; WordB];
    seqs [WordB; lit "bun"; Plus ASpace; lit "install"; WordB];
    seqs [WordB; lit "npm"; Plus ASpace; lit "install"; WordB];
    seqs [WordB; lit "pnpm"; Plus ASpace; lit "install"; WordB];
    seqs [WordB; lit "yarn"; Plus ASpace; lit "install"; WordB] ].

Definition isReviewWriteCommand (command : string) : bool :=
  let cmd := Js.trim command in
  if negb (Js.truthy cmd) then false
  else existsb (fun re => test re true cmd) denied.

(** ['default' | 'mentionReply' | 'review'] *)
Inductive Policy := policyDefault | policyMentionReply | policyReview.
Inductive Reply := once | reject.

(** [PermissionEventData]; a missing [metadata] is [VUndefined]. *)
Record PermissionEventData := {
  permission_id : string;
  perm_action : string;
  metadata : value
}.

Definition isLinearMcpTool (t : string) : bool := test linearMcpToolPattern true t.

Definition decidePermissionReply (data : PermissionEventData) (policy : Policy)
    : Result Reply :=
  match policy with
  | policyDefault => Ok once
  | _ =>
      let* toolNames := extractPermissionToolNames (metadata data) in
      if existsb isLinearMcpTool toolNames then Ok reject else
      let* cmd := extractPermissionCommand (metadata data) in
      if Js.truthyOpt cmd
         && test mcpCliPattern true (default "" cmd)
         && test linearWordPattern true (default "" cmd)
      then Ok reject else
      match policy with
      | policyMentionReply => Ok once
      | _ =>
          if Js.truthyOpt cmd && isReviewWriteCommand (default "" cmd)
          then Ok reject
          else Ok once
      end
  end.

(** *** Totality and the tracker-tool rule *)

Lemma optChain_returns (v : value) (k : string) : exists r, optChain v k = Ok r.
Proof. destruct v; simpl; eauto. Qed.

Lemma setAdd_In (x : string) (s : list string) : In x (setAdd x s).
Proof.
  unfold setAdd. destruct (Js.arrayIncludes s x) eqn:E.
  - now apply Triggers.arrayIncludes_In.
  - apply in_or_app. right. now left.
Qed.

Lemma setAdd_incl (x y : string) (s : list string) : In y s -> In y (setAdd x s).
Proof.
  unfold setAdd. destruct (Js.arrayIncludes s x); [auto |].
  intros H. apply in_or_app. now left.
Qed.

(** The inner loop returns, keeps what was collected, and collects the
    trimmed name of every rule whose [toolName] is a string that is not
    blank. *)
Lemma addRuleToolNames_spec (rules : list value) (toolNames : list string) :
  exists result,
    addRuleToolNames rules toolNames = Ok result
    /\ (forall x, In x toolNames -> In x result)
    /\ (forall rule name,
          In rule rules -> optChain rule "toolName" = Ok (VString name) ->
          Js.truthy (Js.trim name) = true -> In (Js.trim name) result).
Proof.
  revert toolNames. induction rules as [| rule rest IH]; intros toolNames; simpl.
  - exists toolNames. split_and!; [reflexivity | auto | intros ? ? []].
  - destruct (optChain_returns rule "toolName") as [toolName Hrule]. rewrite Hrule. simpl.
    assert (forall acc,
              (forall x, In x toolNames -> In x acc) ->
              (forall name, toolName = VString name -> Js.truthy (Js.trim name) = true ->
                            In (Js.trim name) acc) ->
              exists result,
                addRuleToolNames rest acc = Ok result
                /\ (forall x, In x toolNames -> In x result)
                /\ (forall rule0 name,
                      rule = rule0 \/ In rule0 rest ->
                      optChain rule0 "toolName" = Ok (VString name) ->
                      Js.truthy (Js.trim name) = true -> In (Js.trim name) result)) as Hstep.
    { intros acc Hacc Hnew. destruct (IH acc) as (result & -> & Hkeep & Hrest).
      exists result. split_and!; [reflexivity | auto |].
      intros rule0 name [<- | Hin] Hname Htruthy.
      - apply Hkeep, Hnew; [congruence | exact Htruthy].
      - eapply Hrest; eassumption. }
    destruct toolName as [| | b | n | s | items | fields];
      try (apply Hstep; [auto | intros name [=]]).
    destruct (Js.truthy (Js.trim s)) eqn:Htr.
    + apply Hstep.
      * intros x Hx. now apply setAdd_incl.
      * intros name [= <-] _. apply setAdd_In.
    + apply Hstep; [auto |]. intros name [= <-] H. congruence.
Qed.

Lemma addSuggestionToolNames_spec (suggestions : list value) (toolNames : list string) :
  exists result,
    addSuggestionToolNames suggestions toolNames = Ok result
    /\ (forall x, In x toolNames -> In x result)
    /\ (forall suggestion rules rule name,
          In suggestion suggestions ->
          optChain suggestion "rules" = Ok (VArray rules) ->
          In rule rules -> optChain rule "toolName" = Ok (VString name) ->
          Js.truthy (Js.trim name) = true -> In (Js.trim name) result).
Proof.
  revert toolNames. induction suggestions as [| suggestion rest IH]; intros toolNames; simpl.
  - exists toolNames. split_and!; [reflexivity | auto | intros ? ? ? ? []].
  - destruct (optChain_returns suggestion "rules") as [rules Hrules]. rewrite Hrules. simpl.
    destruct rules as [| | b | n | s | rules | fields];
      try (destruct (IH toolNames) as (result & -> & Hkeep & Hrest);
           exists result; split_and!; [reflexivity | auto |];
           intros suggestion0 rules0 rule name [<- | Hin] Hr; [congruence |];
           now apply (Hrest suggestion0 rules0 rule name)).
    destruct (addRuleToolNames_spec rules toolNames) as (mid & -> & Hkeep1 & Hrules1). simpl.
    destruct (IH mid) as (result & -> & Hkeep & Hrest).
    exists result. split_and!; [reflexivity | auto |].
    intros suggestion0 rules0 rule name [<- | Hin] Hr Hrule Hname Htruthy.
    + rewrite Hrules in Hr. injection Hr as <-.
      apply Hkeep. eapply Hrules1; eassumption.
    + eapply Hrest; eassumption.
Qed.

(** A request names a tool when a rule of one of the permission suggestions
    of its metadata has that tool name. *)
Definition namesTool (metadata : value) (name : string) : Prop :=
  exists fields suggestions suggestion rules rule,
    metadata = VObject fields
    /\ lookupField fields "permissionSuggestions" = VArray suggestions
    /\ In suggestion suggestions
    /\ optChain suggestion "rules" = Ok (VArray rules)
    /\ In rule rules
    /\ optChain rule "toolName" = Ok (VString name).

Lemma extractPermissionToolNames_returns (metadata : value) :
  exists toolNames, extractPermissionToolNames metadata = Ok toolNames.
Proof.
  unfold extractPermissionToolNames.
  destruct metadata as [| | b | n | s | items | fields]; simpl; eauto.
  - destruct b; simpl; eauto.
  - destruct (negb (n =? 0)); simpl; eauto.
  - destruct (Js.truthy s); simpl; eauto.
  - destruct (lookupField fields "permissionSuggestions"); eauto.
    destruct (addSuggestionToolNames_spec items []) as (result & -> & _). eauto.
Qed.

Lemma extractPermissionToolNames_named (metadata : value) (name : string) :
  namesTool metadata name -> Js.truthy (Js.trim name) = true ->
  exists toolNames,
    extractPermissionToolNames metadata = Ok toolNames /\ In (Js.trim name) toolNames.
Proof.
  intros (fields & suggestions & suggestion & rules & rule
          & -> & Hs & Hin & Hrules & Hrule & Hname) Htruthy.
  unfold extractPermissionToolNames. simpl. rewrite Hs.
  destruct (addSuggestionToolNames_spec suggestions []) as (result & -> & _ & Hall).
  exists result. split; [reflexivity |]. eapply Hall; eassumption.
Qed.

Lemma extractPermissionCommand_returns (metadata : value) :
  exists cmd, extractPermissionCommand metadata = Ok cmd.
Proof.
  unfold extractPermissionCommand.
  destruct (negb (truthy metadata) || negb (typeofObject metadata)); [eauto |].
  destruct (optChain_returns metadata "input") as [input ->]. simpl.
  destruct (optChain_returns input "command") as [cmd ->]. simpl.
  destruct cmd; eauto.
Qed.

Lemma isLinearMcpTool_nonempty (t : string) :
  isLinearMcpTool t = true -> Js.truthy t = true.
Proof. destruct t; [discriminate | reflexivity]. Qed.

Lemma decidePermissionReply_returns (data : PermissionEventData) (policy : Policy) :
  decidePermissionReply data policy = Ok once
  \/ decidePermissionReply data policy = Ok reject.
Proof.
  unfold decidePermissionReply.
  destruct policy; [auto | |];
    destruct (extractPermissionToolNames_returns (metadata data)) as [toolNames ->];
    simpl; (destruct (existsb isLinearMcpTool toolNames); [auto |]);
    destruct (extractPermissionCommand_returns (metadata data)) as [cmd ->]; simpl;
    (destruct (_ && _ && _); [auto |]); [auto |].
  destruct (_ && _); auto.
Qed.

(** C5: [decidePermissionReply] returns a verdict, grant-once or reject,
    for every policy and every metadata value (missing, null, a primitive,
    an array, an object of any shape) and never throws; it is a function of
    its two arguments; under the default policy the verdict is grant-once;
    under the mention-reply policy (and the review policy) every request
    naming a tool whose trimmed name matches [/^mcp__.*linear/i], a Linear MCP
    tool, is rejected. *)
Theorem decidePermissionReply_total :
  (forall data policy,
     decidePermissionReply data policy = Ok once
     \/ decidePermissionReply data policy = Ok reject)
  /\ (forall data, decidePermissionReply data policyDefault = Ok once)
  /\ (forall data name,
        namesTool (metadata data) name -> isLinearMcpTool (Js.trim name) = true ->
        decidePermissionReply data policyMentionReply = Ok reject
        /\ decidePermissionReply data policyReview = Ok reject).
Proof.
  split_and!.
  - apply decidePermissionReply_returns.
  - reflexivity.
  - intros data name Hnamed Hlinear.
    destruct (extractPermissionToolNames_named _ _ Hnamed
                (isLinearMcpTool_nonempty _ Hlinear)) as (toolNames & Hex & Hin).
    assert (existsb isLinearMcpTool toolNames = true) as Hexists.
    { apply existsb_exists. eauto. }
    unfold decidePermissionReply. rewrite Hex. simpl. rewrite Hexists. auto.
Qed.

(** Metadata shapes the verdict is computed for, under the review policy. *)
Example decide_on_malformed_metadata :
  map (fun m => decidePermissionReply
                  {| permission_id := "p"; perm_action := "a"; metadata := m |} policyReview)
      [VUndefined; VNull; VNumber 0; VString "x"; VArray [VNull];
       VObject [("permissionSuggestions", VArray [VNull; VNumber 1; VObject [("rules", VString "r")]])];
       VObject [("input", VNull)];
       VObject [("input", VObject [("command", VString "rm -rf /")])]]
  = [Ok once; Ok once; Ok once; Ok once; Ok once; Ok once; Ok once; Ok reject].
Proof. reflexivity. Qed.

(** A mention reply asking for the tracker's comment tool. *)
Example decide_rejects_linear_tool :
  decidePermissionReply
    {| permission_id := "p"; perm_action := "tool";
       metadata :=
         VObject [("permissionSuggestions",
                   VArray [VObject [("rules",
                     VArray [VObject [("toolName", VString " mcp__linear__create_comment ")]])]])] |}
    policyMentionReply = Ok reject.
Proof. reflexivity. Qed.

End Permission.


Example review_denies_git_push :
  Permission.isReviewWriteCommand "git   push origin main" = true
  /\ Permission.isReviewWriteCommand "git status" = false
  /\ Permission.isReviewWriteCommand "echo hi > out.txt" = true
  /\ Permission.isLinearMcpTool "mcp__linear-server__create_comment" = true
  /\ Permission.isLinearMcpTool "Bash" = false.
Proof. repeat split; reflexivity. Qed.

(** ** Result finalization (src/sandbox.ts: buildSummary, finalizeResult,
    getCommittedFiles, getMainBranch, parseGitStatusFiles) *)
Module Finalize.

(** [SandboxResult] of src/types.ts; [reason] is a string because the
    runner casts the runtime's reason to it. *)
Record SandboxResult := {
  success : bool;
  sessionId : string;
  reason : string;
  filesModified : list string;
  summary : string;
  answer : option string;
  error : option string
}.

(** [{ ...result, filesModified: files, summary: buildSummary(files) }] *)
Definition withFiles (result : SandboxResult) (files : list string) (text : string)
    : SandboxResult :=
  {| success := success result;
     sessionId := sessionId result;
     reason := reason result;
     filesModified := files;
     summary := text;
     answer := answer result;
     error := error result |}.

Definition buildSummary (files : list string) : string :=
  if (length files =? 0)%nat then "No files were modified."
  else "Modified " +:+ pretty (length files) +:+ " file(s): " +:+ Js.join ", " files.

(** [s.lastIndexOf(sep) >= 0 ? s.slice(s.lastIndexOf(sep) + sep.length) : none] *)
Fixpoint afterLast (sep s : string) : option string :=
  match s with
  | EmptyString => if Js.startsWith sep s then Some EmptyString else None
  | String _ s' =>
      match afterLast sep s' with
      | Some r => Some r
      | None =>
          if Js.startsWith sep s then Some (Js.sliceFrom (String.length sep) s) else None
      end
  end.

(** [s.replace(pat, '')] for a string pattern: the first occurrence only. *)
Fixpoint removeFirst (pat s : string) : string :=
  if Js.startsWith pat s then Js.sliceFrom (String.length pat) s
  else match s with
       | EmptyString => EmptyString
       | String c s' => String c (removeFirst pat s')
       end.

(** The body of the loop of [parseGitStatusFiles], one line at a time. *)
Definition parseGitStatusLine (files : list string) (line : string) : list string :=
  if negb (Js.truthy (Js.trim line)) then files else
  let pathPart := Js.trim (Js.sliceFrom 3 line) in
  if negb (Js.truthy pathPart) then files else
  let path :=
    match afterLast " -> " pathPart with
    | Some p => p
    | None => pathPart
    end in
  if Js.truthy path && negb (Js.arrayIncludes files path) then files ++ [path] else files.

Definition parseGitStatusFiles (output : string) : list string :=
  fold_left parseGitStatusLine (Js.splitChar "010" output) [].

(** What the three git commands answer in the worktree: their output, or
    [None] when the command fails (the shell call throws). *)
Record Workspace := {
  gitStatusPorcelain : option string;
  gitSymbolicRefOriginHead : option string;
  gitDiffNameOnly : string -> option string
}.

Inductive Query :=
| GitStatus
| GitSymbolicRef
| GitDiff (baseBranch : string).

Section WithWorkspace.

Variable ws : Workspace.

(** [getMainBranch]: [null] when the command fails or names no branch. *)
Definition getMainBranch : option string * list Query :=
  match gitSymbolicRefOriginHead ws with
  | Some result =>
      let branch := removeFirst "refs/remotes/origin/" (Js.trim result) in
      if negb (Js.truthy branch) then (None, [GitSymbolicRef])
      else (Some ("origin/" +:+ branch), [GitSymbolicRef])
  | None => (None, [GitSymbolicRef])
  end.

(** [getCommittedFiles]: [None] when the diff command throws. *)
Definition getCommittedFiles : option (list string) * list Query :=
  let '(baseBranch, queries) := getMainBranch in
  match baseBranch with
  | None => (Some [], queries)
  | Some baseBranch =>
      match gitDiffNameOnly ws baseBranch with
      | Some output =>
          (Some (filter (fun l => Js.truthy l = true) (map Js.trim (Js.splitChar "010" output))),
           queries ++ [GitDiff baseBranch])
      | None => (None, queries ++ [GitDiff baseBranch])
      end
  end.

(** [finalizeResult(result, worktreePath, detectFileChanges)], with the
    git commands it ran. *)
Definition finalizeResult (result : SandboxResult) (detectFileChanges : bool)
    : SandboxResult * list Query :=
  if negb detectFileChanges then (result, []) else
  if (0 <? length (filesModified result))%nat then (result, []) else
  match gitStatusPorcelain ws with
  | None => (result, [GitStatus])
  | Some output =>
      let files := parseGitStatusFiles output in
      if (0 <? length files)%nat
      then (withFiles result files (buildSummary files), [GitStatus])
      else
        let '(committedFiles, queries) := getCommittedFiles in
        match committedFiles with
        | None => (result, GitStatus :: queries)
        | Some committedFiles =>
            if (0 <? length committedFiles)%nat
            then (withFiles result committedFiles (buildSummary committedFiles),
                  GitStatus :: queries)
            else (result, GitStatus :: queries)
        end
  end.

(** The two questions put to the workspace: its uncommitted paths, and the
    paths changed since the default upstream branch ([None]: the command
    failed). *)
Definition listUncommittedPaths : option (list string) :=
  option_map parseGitStatusFiles (gitStatusPorcelain ws).

Definition listPathsChangedSinceUpstream : option (list string) :=
  fst getCommittedFiles.

End WithWorkspace.

(** *** Finalization fills a gap and nothing else *)

Lemma length_pos_nonempty {A : Type} (l : list A) : (0 <? length l)%nat = true <-> l <> [].
Proof.
  destruct l as [| x l]; cbn.
  - split; [discriminate | intros H; now contradiction H].
  - split; [discriminate | reflexivity].
Qed.

Lemma length_pos_empty {A : Type} (l : list A) : (0 <? length l)%nat = false <-> l = [].
Proof.
  destruct l as [| x l]; cbn.
  - split; reflexivity.
  - split; discriminate.
Qed.

Lemma finalizeResult_frame (ws : Workspace) (result : SandboxResult)
    (detectFileChanges : bool) :
  let final := (finalizeResult ws result detectFileChanges).1 in
  success final = success result
  /\ sessionId final = sessionId result
  /\ reason final = reason result
  /\ answer final = answer result
  /\ error final = error result.
Proof.
  cbv zeta. unfold finalizeResult.
  destruct detectFileChanges; simpl; [| auto].
  destruct (0 <? length (filesModified result))%nat; [auto |].
  destruct (gitStatusPorcelain ws) as [output |]; [| auto].
  destruct (0 <? length (parseGitStatusFiles output))%nat; [simpl; auto |].
  destruct (getCommittedFiles ws) as [[committed |] queries]; [| auto].
  destruct (0 <? length committed)%nat; simpl; auto.
Qed.

(** The [filesModified] of a finalized result: the agent's report, or, when
    detection is on and the report is empty, what git reported. *)
Lemma finalizeResult_files (ws : Workspace) (result : SandboxResult)
    (detectFileChanges : bool) :
  let final := (finalizeResult ws result detectFileChanges).1 in
  filesModified final = filesModified result
  \/ (detectFileChanges = true /\ filesModified result = []
      /\ filesModified final <> []
      /\ (listUncommittedPaths ws = Some (filesModified final)
          \/ listPathsChangedSinceUpstream ws = Some (filesModified final))).
Proof.
  cbv zeta. unfold finalizeResult, listUncommittedPaths, listPathsChangedSinceUpstream.
  destruct detectFileChanges; simpl; [| auto].
  destruct (0 <? length (filesModified result))%nat eqn:Hlen; [auto |].
  apply length_pos_empty in Hlen.
  destruct (gitStatusPorcelain ws) as [output |]; [| auto].
  destruct (0 <? length (parseGitStatusFiles output))%nat eqn:Hst.
  - right. apply length_pos_nonempty in Hst. simpl. auto.
  - destruct (getCommittedFiles ws) as [[committed |] queries]; [| auto].
    destruct (0 <? length committed)%nat eqn:Hc; simpl; [| auto].
    right. apply length_pos_nonempty in Hc. auto.
Qed.

(** C7: finalization leaves every field other than [filesModified] and
    [summary] as it was; when the detect-file-changes flag is off or the
    agent reported at least one modified file, the result is returned
    unchanged and no git command is run; when the flag is on and the agent
    reported none, [git status] is asked first, and its paths, if there are
    any, become [filesModified] (with the matching summary); only if there
    are none are the paths changed since the default upstream branch asked
    for and, if there are any, used; otherwise, or when a command fails, the
    result is returned unchanged. *)
Theorem finalizeResult_fills_gap (ws : Workspace) (result : SandboxResult)
    (detectFileChanges : bool) :
  let final := (finalizeResult ws result detectFileChanges).1 in
  let queries := (finalizeResult ws result detectFileChanges).2 in
  (success final = success result
   /\ sessionId final = sessionId result
   /\ reason final = reason result
   /\ answer final = answer result
   /\ error final = error result)
  /\ (detectFileChanges = false \/ filesModified result <> [] ->
      final = result /\ queries = [])
  /\ (detectFileChanges = true -> filesModified result = [] ->
      head queries = Some GitStatus
      /\ match listUncommittedPaths ws with
         | None => final = result /\ queries = [GitStatus]
         | Some (file :: files) =>
             filesModified final = file :: files
             /\ summary final = buildSummary (file :: files)
             /\ queries = [GitStatus]
         | Some [] =>
             match listPathsChangedSinceUpstream ws with
             | Some (file :: files) =>
                 filesModified final = file :: files
                 /\ summary final = buildSummary (file :: files)
             | _ => final = result
             end
         end).
Proof.
  cbv zeta. split; [apply finalizeResult_frame |].
  unfold finalizeResult, listUncommittedPaths, listPathsChangedSinceUpstream.
  split.
  - intros [-> | Hne]; simpl; [auto |].
    apply length_pos_nonempty in Hne. rewrite Hne.
    destruct detectFileChanges; auto.
  - intros -> Hempty. simpl.
    apply length_pos_empty in Hempty. rewrite Hempty.
    destruct (gitStatusPorcelain ws) as [output |]; simpl; [| auto].
    destruct (parseGitStatusFiles output) as [| file files] eqn:Hfiles; simpl; [| auto].
    destruct (getCommittedFiles ws) as [[committed |] queries]; simpl; [| auto].
    destruct committed as [| file files]; simpl; auto.
Qed.

(** Two uncommitted paths fill an empty report; a report of one path is
    left alone. *)
Example reconciliation_two_paths :
  let ws := {| gitStatusPorcelain := Some (" M a.ts" +:+ String "010" "?? b.ts");
               gitSymbolicRefOriginHead := None;
               gitDiffNameOnly := fun _ => None |} in
  let result files :=
    {| success := true; sessionId := "s"; reason := "completed";
       filesModified := files; summary := buildSummary files;
       answer := None; error := None |} in
  filesModified (finalizeResult ws (result []) true).1 = ["a.ts"; "b.ts"]
  /\ finalizeResult ws (result ["c.ts"]) true = (result ["c.ts"], []).
Proof. split; reflexivity. Qed.

End Finalize.


Example parseGitStatusFiles_example :
  Finalize.parseGitStatusFiles
    (" M src/a.ts" +:+ String "010" ("R  old.ts -> new.ts" +:+ String "010"
       ("?? b.ts" +:+ String "010" (" M src/a.ts" +:+ String "010" ""))))
  = ["src/a.ts"; "new.ts"; "b.ts"].
Proof. reflexivity. Qed.

Example buildSummary_example :
  Finalize.buildSummary ["a.ts"; "b.ts"] = "Modified 2 file(s): a.ts, b.ts".
Proof. vm_compute. reflexivity. Qed.

(** ** The agent session runner (src/sandbox.ts: runSandboxAgent,
    handleItemCompleted, isRetryableStreamError) *)
Module Runner.

Import Permission Finalize.

(** *** Events of the agent runtime *)

Inductive ContentPart :=
| TextPart (text : string)
| FileRefPart (path action : string)
| ToolCallPart (name : string)
| OtherPart (type : string).

Record Item := {
  item_kind : string;
  item_role : option string;
  item_status : string;
  item_content : list ContentPart
}.

(** The event types [handleEvent] switches on; [ItemCompleted None] is an
    [item.completed] event whose data carries no item. *)
Inductive UniversalEvent :=
| SessionStarted
| ItemCompleted (item : option Item)
| PermissionRequested (data : PermissionEventData)
| QuestionRequested (question_id : string)
| SessionEnded (endReason : string) (message : option string)
| OtherEvent (type : string).

(** A thrown value, by what [isRetryableStreamError] and the catch clause
    read of it. *)
Record JsError := {
  isDOMException : bool;
  isErrorInstance : bool;
  err_name : string;
  err_message : string;
  err_code : option string
}.

Definition optEqb (o : option string) (s : string) : bool :=
  match o with Some x => String.eqb x s | None => false end.

Definition isRetryableStreamError (error : JsError) : bool :=
  if isDOMException error
  then String.eqb (err_name error) "TimeoutError" || String.eqb (err_name error) "AbortError"
  else
    let message := Js.toLowerCase (err_message error) in
    if isErrorInstance error
       && (Js.includes "timed out" message
           || Js.includes "unable to connect" message
           || Js.includes "connection refused" message)
    then true
    else optEqb (err_code error) "ECONNREFUSED" || optEqb (err_code error) "ConnectionRefused".

(** *** The world a run talks to *)

Inductive Source := FromStream | FromPoll.

(** What a run does, in order: calls of the agent runtime and of the
    progress sink ([StreamTurn] is the call that opens the stream,
    [StreamNext] the wait for its next item), and (for the statements) the
    entry into [handleEvent] with the event's position in the session's event
    log, and the failure of the stream. *)
Inductive Call :=
| CreateSession
| StreamTurn
| StreamNext
| StreamFailed (error : JsError)
| GetEvents (offset limit : nat)
| Handle (src : Source) (sequence : nat) (event : UniversalEvent)
| Progress (type message : string)
| ReplyPermission (permission_id : string) (reply : Reply)
| RejectQuestion (question_id : string)
| Delay (ms : Z)
| TerminateSession
| Log (level message : string).

(** The agent runtime, the clock and the deadline timer.  Time is counted
    in ticks, one per completed await of a collaborator.  [log] is the
    session's event log; the live stream delivers its first [streamed]
    entries and then closes ([streamEnd = None]) or throws; a [getEvents]
    call started at tick [t] returns at most [pageLen t] of the entries from
    its offset on, with [hasMore = hasMoreAt t]; [fails t] is what a
    collaborator call started at tick [t] throws, if it does; the timer has
    fired from tick [abortAt] on. *)
Record Runtime := {
  log : list UniversalEvent;
  streamed : nat;
  streamEnd : option JsError;
  pageLen : nat -> nat;
  hasMoreAt : nat -> bool;
  fails : nat -> option JsError;
  clock : nat -> Z;
  abortAt : nat
}.

(** [SandboxRunConfig], the fields the run loop reads. *)
Record SandboxRunConfig := {
  timeoutMs : Z;
  progressIntervalMs : Z;
  includeToolCalls : bool
}.

(** The local variables of [runSandboxAgent], the tick, and the trace
    (newest entry first, each with the tick it started at). *)
Record RunState := {
  offset : nat;
  filesModified : list string;
  lastAssistantMessage : string;
  lastProgressTime : Z;
  sawCompleted : bool;
  sawFailed : bool;
  sentTurn : bool;
  tick : nat;
  trace : list (nat * Call)
}.

Definition initialState : RunState :=
  {| offset := 0; filesModified := []; lastAssistantMessage := ""; lastProgressTime := 0;
     sawCompleted := false; sawFailed := false; sentTurn := false;
     tick := 0; trace := [] |}.

Definition setOffset (n : nat) (st : RunState) : RunState :=
  {| offset := n; filesModified := filesModified st;
     lastAssistantMessage := lastAssistantMessage st;
     lastProgressTime := lastProgressTime st; sawCompleted := sawCompleted st;
     sawFailed := sawFailed st; sentTurn := sentTurn st; tick := tick st; trace := trace st |}.

Definition setFilesModified (l : list string) (st : RunState) : RunState :=
  {| offset := offset st; filesModified := l;
     lastAssistantMessage := lastAssistantMessage st;
     lastProgressTime := lastProgressTime st; sawCompleted := sawCompleted st;
     sawFailed := sawFailed st; sentTurn := sentTurn st; tick := tick st; trace := trace st |}.

Definition setLastAssistantMessage (s : string) (st : RunState) : RunState :=
  {| offset := offset st; filesModified := filesModified st;
     lastAssistantMessage := s;
     lastProgressTime := lastProgressTime st; sawCompleted := sawCompleted st;
     sawFailed := sawFailed st; sentTurn := sentTurn st; tick := tick st; trace := trace st |}.

Definition setLastProgressTime (t : Z) (st : RunState) : RunState :=
  {| offset := offset st; filesModified := filesModified st;
     lastAssistantMessage := lastAssistantMessage st;
     lastProgressTime := t; sawCompleted := sawCompleted st;
     sawFailed := sawFailed st; sentTurn := sentTurn st; tick := tick st; trace := trace st |}.

Definition setSawCompleted (b : bool) (st : RunState) : RunState :=
  {| offset := offset st; filesModified := filesModified st;
     lastAssistantMessage := lastAssistantMessage st;
     lastProgressTime := lastProgressTime st; sawCompleted := b;
     sawFailed := sawFailed st; sentTurn := sentTurn st; tick := tick st; trace := trace st |}.

Definition setSawFailed (b : bool) (st : RunState) : RunState :=
  {| offset := offset st; filesModified := filesModified st;
     lastAssistantMessage := lastAssistantMessage st;
     lastProgressTime := lastProgressTime st; sawCompleted := sawCompleted st;
     sawFailed := b; sentTurn := sentTurn st; tick := tick st; trace := trace st |}.

Definition setSentTurn (b : bool) (st : RunState) : RunState :=
  {| offset := offset st; filesModified := filesModified st;
     lastAssistantMessage := lastAssistantMessage st;
     lastProgressTime := lastProgressTime st; sawCompleted := sawCompleted st;
     sawFailed := sawFailed st; sentTurn := b; tick := tick st; trace := trace st |}.

(** Record a call at the current tick; the await of it takes one tick. *)
Definition record (c : Call) (st : RunState) : RunState :=
  {| offset := offset st; filesModified := filesModified st;
     lastAssistantMessage := lastAssistantMessage st;
     lastProgressTime := lastProgressTime st; sawCompleted := sawCompleted st;
     sawFailed := sawFailed st; sentTurn := sentTurn st;
     tick := S (tick st); trace := (tick st, c) :: trace st |}.

(** Record an entry at the current tick; no time passes. *)
Definition mark (c : Call) (st : RunState) : RunState :=
  {| offset := offset st; filesModified := filesModified st;
     lastAssistantMessage := lastAssistantMessage st;
     lastProgressTime := lastProgressTime st; sawCompleted := sawCompleted st;
     sawFailed := sawFailed st; sentTurn := sentTurn st;
     tick := tick st; trace := (tick st, c) :: trace st |}.

(** *** Computations that return, throw, or run out of fuel *)

Inductive Outcome (A : Type) :=
| Ret (a : A)
| Exn (error : JsError)
| OutOfFuel.
Arguments Ret {A} a.
Arguments Exn {A} error.
Arguments OutOfFuel {A}.

Definition M (A : Type) : Type := RunState -> Outcome A * RunState.

Definition ret {A : Type} (a : A) : M A := fun st => (Ret a, st).

Definition throw {A : Type} (e : JsError) : M A := fun st => (Exn e, st).

Definition bindM {A B : Type} (m : M A) (f : A -> M B) : M B :=
  fun st =>
    match m st with
    | (Ret a, st') => f a st'
    | (Exn e, st') => (Exn e, st')
    | (OutOfFuel, st') => (OutOfFuel, st')
    end.

(** [try { m } catch (error) { handler(error) }] *)
Definition tryCatch {A : Type} (m : M A) (handler : JsError -> M A) : M A :=
  fun st =>
    match m st with
    | (Exn e, st') => handler e st'
    | r => r
    end.

Definition get : M RunState := fun st => (Ret st, st).

Definition modify (f : RunState -> RunState) : M unit := fun st => (Ret tt, f st).

Notation "'do' x '<-' m ';' f" := (bindM m (fun x => f))
  (at level 10, x name, m at level 100, f at level 200).
Notation "m ';;' f" := (bindM m (fun _ => f))
  (at level 100, f at level 200, right associativity).

(** *** The run *)

Definition indexed (l : list UniversalEvent) : list (nat * UniversalEvent) :=
  combine (seq 0 (length l)) l.

(** [[file paths of parts with type 'text'].join('')] *)
Fixpoint textOf (parts : list ContentPart) : string :=
  match parts with
  | [] => EmptyString
  | TextPart text :: rest => text +:+ textOf rest
  | _ :: rest => textOf rest
  end.

(** [lastAssistantMessage || undefined] *)
Definition orUndefined (s : string) : option string :=
  if Js.truthy s then Some s else None.

Inductive Flow :=
| Proceed
| BreakLoop
| Return (result : SandboxResult).

Section Run.

Variable rt : Runtime.
Variable runConfig : SandboxRunConfig.
Variable session : string.
Variable ws : Workspace.
Variable detectFileChanges : bool.
Variable permissionPolicy : Policy.

(** [`${runConfig.timeoutMs / 1000}`], the runtime's rendering of a number. *)
Variable formatSeconds : Z -> string.

(** [abortController.signal.aborted], and [timedOut]: the timer callback
    sets both. *)
Definition aborted : M bool := fun st => (Ret (abortAt rt <=? tick st)%nat, st).

(** An awaited collaborator call. *)
Definition await (c : Call) : M unit :=
  fun st =>
    match fails rt (tick st) with
    | Some e => (Exn e, record c st)
    | None => (Ret tt, record c st)
    end.

(** An awaited call that does not throw: [delay], and the progress
    callback, whose implementations catch and log their own failures. *)
Definition awaitQuiet (c : Call) : M unit := modify (record c).

Definition note (c : Call) : M unit := modify (mark c).

(** [Date.now()] *)
Definition now : M Z := fun st => (Ret (clock rt (tick st)), st).

Definition outOfFuel {A : Type} : M A := fun st => (OutOfFuel, st).

(** The two steps of the loop body of [handleItemCompleted]: a written or
    patched file reference is pushed unless already there; a tool call is
    reported when tool calls are included and the interval has elapsed. *)
Definition trackFileRef (part : ContentPart) : M unit :=
  match part with
  | FileRefPart path action =>
      do st <- get;
      if (String.eqb action "write" || String.eqb action "patch")
         && negb (Js.arrayIncludes (filesModified st) path)
      then modify (setFilesModified (filesModified st ++ [path]))
      else ret tt
  | _ => ret tt
  end.

Definition reportToolCall (part : ContentPart) (lastProgressTime : Z) : M unit :=
  match part with
  | ToolCallPart name =>
      do t <- now;
      if includeToolCalls runConfig && (progressIntervalMs runConfig <? t - lastProgressTime)
      then awaitQuiet (Progress "tool" ("Running: " +:+ name))
      else ret tt
  | _ => ret tt
  end.

(** The loop over [item.content] of [handleItemCompleted]. *)
Fixpoint handleParts (parts : list ContentPart) (lastProgressTime : Z) : M unit :=
  match parts with
  | [] => ret tt
  | part :: rest =>
      trackFileRef part ;;
      reportToolCall part lastProgressTime ;;
      handleParts rest lastProgressTime
  end.

Definition handleItemCompleted (item : option Item) (lastProgressTime : Z) : M unit :=
  match item with
  | Some item => handleParts (item_content item) lastProgressTime
  | None => ret tt
  end.

Definition finalize (result : SandboxResult) : SandboxResult :=
  (finalizeResult ws result detectFileChanges).1.

Definition resultOf (st : RunState) (ok : bool) (why : string) (text : string)
    (err : option string) : SandboxResult :=
  {| success := ok;
     sessionId := session;
     reason := why;
     Finalize.filesModified := filesModified st;
     summary := text;
     answer := orUndefined (lastAssistantMessage st);
     error := err |}.

Definition typeError : JsError :=
  {| isDOMException := false; isErrorInstance := true; err_name := "TypeError";
     err_message := "Cannot read properties of undefined"; err_code := None |}.

Definition handleEvent (event : UniversalEvent) : M (option SandboxResult) :=
  match event with
  | SessionStarted =>
      awaitQuiet (Progress "status" "Agent session started") ;; ret None
  | ItemCompleted item =>
      (do st <- get; handleItemCompleted item (lastProgressTime st)) ;;
      (do t <- now; modify (setLastProgressTime t)) ;;
      match item with
      | Some item =>
          (if String.eqb (item_status item) "failed" then modify (setSawFailed true) else ret tt) ;;
          (if String.eqb (item_status item) "completed"
           then modify (setSawCompleted true) else ret tt) ;;
          (if String.eqb (item_kind item) "message" && optEqb (item_role item) "assistant"
           then
             let text := textOf (item_content item) in
             if Js.truthy (Js.trim text)
             then modify (setLastAssistantMessage (Js.trim text))
             else ret tt
           else ret tt) ;;
          ret None
      | None => ret None
      end
  | PermissionRequested permData =>
      match decidePermissionReply permData permissionPolicy with
      | Throw _ => throw typeError
      | Ok reply =>
          (match reply with
           | reject => note (Log "warn" "[sandbox] Permission rejected by policy")
           | once => ret tt
           end) ;;
          await (ReplyPermission (permission_id permData) reply) ;;
          ret None
      end
  | QuestionRequested question_id =>
      await (RejectQuestion question_id) ;; ret None
  | SessionEnded endReason message =>
      do st <- get;
      ret (Some (finalize (resultOf st (String.eqb endReason "completed") endReason
                             (buildSummary (filesModified st)) message)))
  | OtherEvent _ => ret None
  end.

(** [for (const event of response.events) { offset += 1; ... }] *)
Fixpoint handlePage (events : list (nat * UniversalEvent)) : M (option SandboxResult) :=
  match events with
  | [] => ret None
  | (sequence, event) :: rest =>
      modify (fun st => setOffset (S (offset st)) st) ;;
      note (Handle FromPoll sequence event) ;;
      do result <- handleEvent event;
      match result with
      | Some result => ret (Some result)
      | None => handlePage rest
      end
  end.

(** [sandboxClient.getEvents(sessionId, { offset, limit: 100 })] *)
Definition getEvents : M (list (nat * UniversalEvent) * bool) :=
  do st <- get;
  await (GetEvents (offset st) 100) ;;
  ret (firstn (Nat.min 100 (pageLen rt (tick st))) (skipn (offset st) (indexed (log rt))),
       hasMoreAt rt (tick st)).

(** The loop of [pollEvents]. *)
Fixpoint pollLoop (fuel : nat) (hasMore : bool) : M (option SandboxResult) :=
  match fuel with
  | O => outOfFuel
  | S fuel' =>
      do isAborted <- aborted;
      if hasMore && negb isAborted then
        do response <- getEvents;
        do result <- handlePage response.1;
        match result with
        | Some result => ret (Some result)
        | None =>
            if (length response.1 =? 0)%nat then ret None
            else pollLoop fuel' response.2
        end
      else ret None
  end.

Definition pollEvents (fuel : nat) : M (option SandboxResult) := pollLoop fuel true.

(** The [for await] loop over the stream: every pull is an await. *)
Fixpoint streamLoop (events : list (nat * UniversalEvent)) : M (option SandboxResult) :=
  match events with
  | [] =>
      awaitQuiet StreamNext ;;
      match streamEnd rt with
      | Some e => note (StreamFailed e) ;; throw e
      | None => ret None
      end
  | (sequence, event) :: rest =>
      awaitQuiet StreamNext ;;
      do isAborted <- aborted;
      if isAborted then ret None
      else
        modify (fun st => setOffset (S (offset st)) st) ;;
        note (Handle FromStream sequence event) ;;
        do result <- handleEvent event;
        match result with
        | Some result => ret (Some result)
        | None => streamLoop rest
        end
  end.

(** The first pass through the loop body: the turn is sent and its stream
    consumed inside [try]; the catch clause leaves the [while] loop when the
    run is aborted, rethrows an error that is not retryable, and otherwise
    falls through to polling. *)
Definition streamPhase : M Flow :=
  modify (setSentTurn true) ;;
  note StreamTurn ;;
  tryCatch
    (do result <- streamLoop (firstn (streamed rt) (indexed (log rt)));
     match result with
     | Some result => ret (Return result)
     | None => ret Proceed
     end)
    (fun error =>
       do isAborted <- aborted;
       if isAborted then ret BreakLoop
       else if negb (isRetryableStreamError error) then throw error
       else ret Proceed).

(** The loop body after the streaming part: poll, look at the latches,
    wait a second and go round again ([continue] is the rest of the loop). *)
Definition afterStreaming (fuel : nat) (continue : M (option SandboxResult))
    : M (option SandboxResult) :=
  do result <- pollEvents fuel;
  match result with
  | Some result => ret (Some result)
  | None =>
      do st <- get;
      if sawFailed st
      then ret (Some (finalize (resultOf st false "error"
                                  (buildSummary (filesModified st))
                                  (Some "Agent reported a failed item"))))
      else if sawCompleted st
      then ret (Some (finalize (resultOf st true "completed"
                                  (buildSummary (filesModified st)) None)))
      else awaitQuiet (Delay 1000) ;; continue
  end.

(** [while (!abortController.signal.aborted) { ... }]: [Some] is a
    [return] from inside the loop, [None] means the loop was left. *)
Fixpoint mainLoop (fuel : nat) : M (option SandboxResult) :=
  match fuel with
  | O => outOfFuel
  | S fuel' =>
      do isAborted <- aborted;
      if isAborted then ret None
      else
        do st <- get;
        do flow <- (if negb (sentTurn st) then streamPhase else ret Proceed);
        match flow with
        | Return result => ret (Some result)
        | BreakLoop => ret None
        | Proceed => afterStreaming (S fuel') (mainLoop fuel')
        end
  end.

Definition timeoutResult (st : RunState) (detail : string) : SandboxResult :=
  finalize (resultOf st false "timeout" (buildSummary (filesModified st))
              (Some ("Timeout after " +:+ formatSeconds (timeoutMs runConfig)
                     +:+ "s - " +:+ detail))).

(** [error instanceof Error ? error.message : String(error)] *)
Definition errorText (e : JsError) : string :=
  if isErrorInstance e then err_message e else err_name e.

(** The termination request of the timeout branch of the [try] block, and
    the one of the [catch] clause: a failure is caught and logged. *)
Definition terminateAfterTimeout : M unit :=
  note (Log "warn" ("[sandbox] Timeout reached, terminating session " +:+ session)) ;;
  tryCatch
    (await TerminateSession ;;
     note (Log "info" ("[sandbox] Session " +:+ session +:+ " terminated successfully")))
    (fun _ => note (Log "error" ("[sandbox] Failed to terminate session " +:+ session))).

Definition terminateAfterError : M unit :=
  note (Log "warn" ("[sandbox] Error during timeout, terminating session " +:+ session)) ;;
  tryCatch
    (await TerminateSession)
    (fun _ => note (Log "error" "[sandbox] Failed to terminate session after error")).

(** [runSandboxAgent]: the session is created, then the [try] block (the
    loop, and the timeout branch after it), its [catch] clause, and the
    fallback after it. *)
Definition runSandboxAgent (fuel : nat) : M SandboxResult :=
  await CreateSession ;;
  do returned <-
    tryCatch
      (do result <- mainLoop fuel;
       match result with
       | Some result => ret (Some result)
       | None =>
           do timedOut <- aborted;
           if timedOut then
             terminateAfterTimeout ;;
             do st <- get;
             ret (Some (timeoutResult st "session terminated"))
           else ret None
       end)
      (fun error =>
         do timedOut <- aborted;
         if timedOut then
           terminateAfterError ;;
           do st <- get;
           ret (Some (timeoutResult st (errorText error)))
         else throw error);
  match returned with
  | Some result => ret result
  | None =>
      do st <- get;
      ret (finalize (resultOf st false "terminated" "Session ended unexpectedly" None))
  end.

(** The fuel that is always enough: one more than the tick of the deadline. *)
Definition run : Outcome SandboxResult * RunState :=
  runSandboxAgent (S (abortAt rt)) initialState.

(** *** What the trace says *)

(** The events handled so far with their sequence numbers, oldest first. *)
Fixpoint handledOf (tr : list (nat * Call)) : list (nat * UniversalEvent) :=
  match tr with
  | [] => []
  | (_, Handle _ sequence event) :: older => handledOf older ++ [(sequence, event)]
  | _ :: older => handledOf older
  end.

(** Calls that neither fetch events nor steer the loop. *)
Definition isSideCall (c : Call) : bool :=
  match c with
  | Progress _ _ | ReplyPermission _ _ | RejectQuestion _ | Log _ _ | StreamNext => true
  | _ => false
  end.

Definition sideOnly (tr' tr : list (nat * Call)) : Prop :=
  exists new, tr' = new ++ tr /\ Forall (fun e : nat * Call => isSideCall e.2 = true) new.

(** [filesModified.push(path)] of one content part. *)
Definition addPart (files : list string) (part : ContentPart) : list string :=
  match part with
  | FileRefPart path action =>
      if (String.eqb action "write" || String.eqb action "patch")
         && negb (Js.arrayIncludes files path)
      then files ++ [path] else files
  | _ => files
  end.

(** The file references a handled event adds: those of the content of a
    completed item. *)
Definition addEvent (files : list string) (event : UniversalEvent) : list string :=
  match event with
  | ItemCompleted (Some item) => fold_left addPart (item_content item) files
  | _ => files
  end.

(** An event that neither ends the session nor sets a latch. *)
Definition quietEvent (event : UniversalEvent) : bool :=
  match event with
  | SessionEnded _ _ => false
  | ItemCompleted (Some item) =>
      negb (String.eqb (item_status item) "failed")
      && negb (String.eqb (item_status item) "completed")
  | _ => true
  end.

Lemma sideOnly_refl (tr : list (nat * Call)) : sideOnly tr tr.
Proof. exists []. split; [reflexivity | constructor]. Qed.

Lemma sideOnly_trans (a b c : list (nat * Call)) :
  sideOnly b a -> sideOnly c b -> sideOnly c a.
Proof.
  intros (n1 & -> & H1) (n2 & -> & H2). exists (n2 ++ n1).
  split; [now rewrite app_assoc | now apply Forall_app].
Qed.

Lemma sideOnly_cons (t : nat) (c : Call) (tr : list (nat * Call)) :
  isSideCall c = true -> sideOnly ((t, c) :: tr) tr.
Proof.
  intros H. exists [(t, c)]. split; [reflexivity |].
  constructor; [exact H | constructor].
Qed.

Lemma handledOf_side (new tr : list (nat * Call)) :
  Forall (fun e : nat * Call => isSideCall e.2 = true) new ->
  handledOf (new ++ tr) = handledOf tr.
Proof.
  induction 1 as [| [t c] new Hc _ IH]; simpl; [reflexivity |].
  destruct c; simpl in Hc; try discriminate; exact IH.
Qed.

(** What every piece of event handling leaves alone. *)
Record Frame (st st' : RunState) : Prop := {
  frame_offset : offset st' = offset st;
  frame_sentTurn : sentTurn st' = sentTurn st;
  frame_tick : (tick st <= tick st')%nat;
  frame_trace : sideOnly (trace st') (trace st)
}.

Lemma Frame_refl (st : RunState) : Frame st st.
Proof. constructor; auto using sideOnly_refl. Qed.

Lemma Frame_trans (a b c : RunState) : Frame a b -> Frame b c -> Frame a c.
Proof.
  intros [] []. constructor; try congruence; try lia.
  eapply sideOnly_trans; eassumption.
Qed.

Lemma Frame_record (c : Call) (st : RunState) :
  isSideCall c = true -> Frame st (record c st).
Proof.
  intros H. constructor; [reflexivity | reflexivity | simpl; lia |].
  now apply sideOnly_cons.
Qed.

Lemma Frame_mark (c : Call) (st : RunState) :
  isSideCall c = true -> Frame st (mark c st).
Proof.
  intros H. constructor; [reflexivity | reflexivity | simpl; lia |].
  now apply sideOnly_cons.
Qed.

Lemma bindM_ret {A B : Type} (m : M A) (k : A -> M B) (st st' : RunState) (a : A) :
  m st = (Ret a, st') -> bindM m k st = k a st'.
Proof. intros H. unfold bindM. now rewrite H. Qed.

Lemma bindM_exn {A B : Type} (m : M A) (k : A -> M B) (st st' : RunState) (e : JsError) :
  m st = (Exn e, st') -> bindM m k st = (Exn e, st').
Proof. intros H. unfold bindM. now rewrite H. Qed.

Lemma trackFileRef_spec (part : ContentPart) (st : RunState) :
  exists st',
    trackFileRef part st = (Ret tt, st')
    /\ Frame st st'
    /\ sawCompleted st' = sawCompleted st
    /\ sawFailed st' = sawFailed st
    /\ lastAssistantMessage st' = lastAssistantMessage st
    /\ filesModified st' = addPart (filesModified st) part.
Proof.
  destruct part as [text | path action | name | type];
    try (exists st; split_and!; auto using Frame_refl; fail).
  simpl. unfold bindM, get, modify, ret. simpl.
  destruct ((String.eqb action "write" || String.eqb action "patch")
            && negb (Js.arrayIncludes (filesModified st) path)).
  - eexists. split_and!; try reflexivity. constructor; simpl; auto using sideOnly_refl.
  - exists st. split_and!; auto using Frame_refl.
Qed.

Lemma reportToolCall_spec (part : ContentPart) (lastTime : Z) (st : RunState) :
  exists st',
    reportToolCall part lastTime st = (Ret tt, st')
    /\ Frame st st'
    /\ sawCompleted st' = sawCompleted st
    /\ sawFailed st' = sawFailed st
    /\ lastAssistantMessage st' = lastAssistantMessage st
    /\ filesModified st' = filesModified st.
Proof.
  destruct part as [text | path action | name | type];
    try (exists st; split_and!; auto using Frame_refl; fail).
  simpl. unfold bindM, now, awaitQuiet, modify, ret. simpl.
  destruct (includeToolCalls runConfig
            && (progressIntervalMs runConfig <? clock rt (tick st) - lastTime)).
  - eexists. split_and!; try reflexivity. now apply Frame_record.
  - exists st. split_and!; auto using Frame_refl.
Qed.

Lemma handleParts_spec (parts : list ContentPart) (lastTime : Z) (st : RunState) :
  exists st',
    handleParts parts lastTime st = (Ret tt, st')
    /\ Frame st st'
    /\ sawCompleted st' = sawCompleted st
    /\ sawFailed st' = sawFailed st
    /\ lastAssistantMessage st' = lastAssistantMessage st
    /\ filesModified st' = fold_left addPart parts (filesModified st).
Proof.
  revert st. induction parts as [| part rest IH]; intros st.
  - exists st. simpl. unfold ret. split_and!; auto using Frame_refl.
  - destruct (trackFileRef_spec part st) as (st1 & E1 & F1 & C1 & D1 & L1 & P1).
    destruct (reportToolCall_spec part lastTime st1) as (st2 & E2 & F2 & C2 & D2 & L2 & P2).
    destruct (IH st2) as (st3 & E3 & F3 & C3 & D3 & L3 & P3).
    exists st3. split_and!.
    + cbn [handleParts]. rewrite (bindM_ret _ _ _ _ _ E1), (bindM_ret _ _ _ _ _ E2). exact E3.
    + eauto using Frame_trans.
    + congruence.
    + congruence.
    + congruence.
    + simpl. rewrite P3, P2, P1. reflexivity.
Qed.

Lemma Frame_set (st st' : RunState) :
  offset st' = offset st -> sentTurn st' = sentTurn st ->
  tick st' = tick st -> trace st' = trace st -> Frame st st'.
Proof.
  intros Ho Hs Ht Htr. constructor; auto; [lia |]. rewrite Htr. apply sideOnly_refl.
Qed.

(** What handling one event does to the state. *)
Lemma handleEvent_spec (event : UniversalEvent) (st : RunState) :
  exists o st',
    handleEvent event st = (o, st')
    /\ Frame st st'
    /\ filesModified st' = addEvent (filesModified st) event
    /\ o <> OutOfFuel
    /\ (forall e, o = Exn e ->
          exists t, (tick st <= t < tick st')%nat /\ fails rt t = Some e)
    /\ (forall r, o = Ret (Some r) -> quietEvent event = false)
    /\ (quietEvent event = true ->
        sawCompleted st' = sawCompleted st /\ sawFailed st' = sawFailed st).
Proof.
  destruct event as [| item | permData | question_id | endReason message | type].
  - (* session.started *)
    eexists _, _. split; [reflexivity |]. simpl.
    split_and!; auto; try discriminate.
    now apply Frame_record.
  - (* item.completed *)
    unfold handleEvent.
    assert (exists st1,
               handleItemCompleted item (lastProgressTime st) st = (Ret tt, st1)
               /\ Frame st st1
               /\ sawCompleted st1 = sawCompleted st
               /\ sawFailed st1 = sawFailed st
               /\ filesModified st1 = addEvent (filesModified st) (ItemCompleted item))
      as (st1 & E1 & F1 & C1 & D1 & P1).
    { destruct item as [item |]; simpl.
      - destruct (handleParts_spec (item_content item) (lastProgressTime st) st)
          as (st1 & E & F & C & D & _ & P).
        exists st1. auto.
      - exists st. unfold ret. split_and!; auto using Frame_refl. }
    assert ((do st0 <- get; handleItemCompleted item (lastProgressTime st0)) st = (Ret tt, st1))
      as E1'.
    { unfold bindM, get. exact E1. }
    rewrite (bindM_ret _ _ _ _ _ E1').
    set (st2 := setLastProgressTime (clock rt (tick st1)) st1).
    assert ((do t <- now; modify (setLastProgressTime t)) st1 = (Ret tt, st2)) as E2 by reflexivity.
    rewrite (bindM_ret _ _ _ _ _ E2).
    assert (Frame st st2) as F2.
    { eapply Frame_trans; [exact F1 |]. now apply Frame_set. }
    destruct item as [item |].
    + unfold bindM, modify, ret.
      destruct (String.eqb (item_status item) "failed") eqn:Hf;
        destruct (String.eqb (item_status item) "completed") eqn:Hc;
        destruct (String.eqb (item_kind item) "message" && optEqb (item_role item) "assistant");
        try destruct (Js.truthy (Js.trim (textOf (item_content item))));
        simpl; eexists _, _; (split; [reflexivity |]); simpl;
        (split_and!;
         [ eapply Frame_trans; [exact F2 | now apply Frame_set]
         | exact P1 | discriminate | discriminate | intros r [=]
         | rewrite ?Hf, ?Hc; simpl; try discriminate;
           intros _; subst st2; simpl; split; congruence ]).
    + eexists _, _. split; [reflexivity |].
      split_and!; auto; try discriminate.
  - (* permission.requested *)
    unfold handleEvent.
    assert (forall reply,
               exists o st',
                 ((match reply with
                   | reject => note (Log "warn" "[sandbox] Permission rejected by policy")
                   | once => ret tt
                   end) ;;
                  await (ReplyPermission (permission_id permData) reply) ;;
                  ret None) st = (o, st')
                 /\ Frame st st'
                 /\ filesModified st' = filesModified st
                 /\ o <> @OutOfFuel (option SandboxResult)
                 /\ (forall e, o = Exn e ->
                       exists t, (tick st <= t < tick st')%nat /\ fails rt t = Some e)
                 /\ (forall r, o = Ret (Some r) -> False)
                 /\ sawCompleted st' = sawCompleted st /\ sawFailed st' = sawFailed st) as Hreply.
    { intros reply. unfold bindM, note, modify, ret, await.
      destruct reply; simpl; destruct (fails rt (tick st)) as [e |] eqn:Hfail;
        eexists _, _; (split; [reflexivity |]); simpl;
        (split_and!;
         [ eapply Frame_trans; [| apply Frame_record; reflexivity];
           first [ apply Frame_refl | apply Frame_mark; reflexivity ]
         | reflexivity | discriminate
         | first [ discriminate | intros e' [= <-]; exists (tick st); split; [lia | exact Hfail] ]
         | intros r [=] | reflexivity | reflexivity ]). }
    destruct (decidePermissionReply_returns permData permissionPolicy) as [-> | ->].
    + destruct (Hreply once) as (o & st' & E & F & P & N & X & R & C & D).
      exists o, st'. split_and!; auto. intros r Hr. destruct (R r Hr).
    + destruct (Hreply reject) as (o & st' & E & F & P & N & X & R & C & D).
      exists o, st'. split_and!; auto. intros r Hr. destruct (R r Hr).
  - (* question.requested *)
    unfold handleEvent, bindM, await, ret.
    destruct (fails rt (tick st)) as [e |] eqn:Hfail;
      eexists _, _; (split; [reflexivity |]); simpl;
      (split_and!;
       [ apply Frame_record; reflexivity | reflexivity | discriminate
       | first [ discriminate | intros e' [= <-]; exists (tick st); split; [lia | exact Hfail] ]
       | intros r [=] | auto ]).
  - (* session.ended *)
    eexists _, _. split; [reflexivity |]. simpl.
    split_and!; auto using Frame_refl; discriminate.
  - (* any other event *)
    eexists _, _. split; [reflexivity |]. simpl.
    split_and!; auto using Frame_refl; discriminate.
Qed.

(** *** The trace discipline *)

(** What must hold of an entry when it is recorded, given the older
    entries: a page is requested with limit 100 from the number of events
    handled so far and before the deadline; a handled event is the next entry
    of the session's log, and a streamed one is accepted before the deadline;
    the turn is streamed once and before the deadline; a delay is one second;
    termination is requested once and not before the deadline. *)
Definition okEntry (older : list (nat * Call)) (t : nat) (c : Call) : Prop :=
  match c with
  | GetEvents o l =>
      l = 100%nat /\ o = length (handledOf older) /\ (t < abortAt rt)%nat
  | Handle src sequence event =>
      nth_error (indexed (log rt)) (length (handledOf older)) = Some (sequence, event)
      /\ (src = FromStream -> (t < abortAt rt)%nat)
  | StreamTurn => (forall t', ~ In (t', StreamTurn) older) /\ (t < abortAt rt)%nat
  | Delay ms => ms = 1000
  | TerminateSession =>
      (forall t', ~ In (t', TerminateSession) older) /\ (abortAt rt <= t)%nat
  | _ => True
  end.

Inductive Good : list (nat * Call) -> Prop :=
| Good_nil : Good []
| Good_cons (t : nat) (c : Call) (older : list (nat * Call)) :
    Good older -> okEntry older t c -> Good ((t, c) :: older).

Lemma okEntry_side (older : list (nat * Call)) (t : nat) (c : Call) :
  isSideCall c = true -> okEntry older t c.
Proof. destruct c; simpl; intros H; try discriminate; exact I. Qed.

Lemma Good_side (new tr : list (nat * Call)) :
  Good tr -> Forall (fun e : nat * Call => isSideCall e.2 = true) new -> Good (new ++ tr).
Proof.
  intros Hg. induction 1 as [| [t c] new Hc _ IH]; simpl; [exact Hg |].
  constructor; [exact IH | now apply okEntry_side].
Qed.

(** The state agrees with the trace: the offset counts the handled events,
    and [filesModified] is what their file references add up to. *)
Record Link (st : RunState) : Prop := {
  link_good : Good (trace st);
  link_offset : offset st = length (handledOf (trace st));
  link_files : filesModified st = fold_left addEvent (map snd (handledOf (trace st))) []
}.

(** The new entries of a piece of code all satisfy [P]. *)
Definition NewOnly (P : Call -> Prop) (tr' tr : list (nat * Call)) : Prop :=
  exists new, tr' = new ++ tr /\ Forall (fun e : nat * Call => P e.2) new.

Lemma NewOnly_refl (P : Call -> Prop) (tr : list (nat * Call)) : NewOnly P tr tr.
Proof. exists []. split; [reflexivity | constructor]. Qed.

Lemma NewOnly_trans (P : Call -> Prop) (a b c : list (nat * Call)) :
  NewOnly P b a -> NewOnly P c b -> NewOnly P c a.
Proof.
  intros (n1 & -> & H1) (n2 & -> & H2). exists (n2 ++ n1).
  split; [now rewrite app_assoc | now apply Forall_app].
Qed.

Lemma NewOnly_cons (P : Call -> Prop) (t : nat) (c : Call) (tr : list (nat * Call)) :
  P c -> NewOnly P ((t, c) :: tr) tr.
Proof. intros H. exists [(t, c)]. split; [reflexivity | constructor; [exact H | constructor]]. Qed.

Lemma NewOnly_weaken (P Q : Call -> Prop) (tr' tr : list (nat * Call)) :
  (forall c, P c -> Q c) -> NewOnly P tr' tr -> NewOnly Q tr' tr.
Proof.
  intros HPQ (new & -> & H). exists new. split; [reflexivity |].
  eapply Forall_impl; [exact H |]. intros [t c]. apply HPQ.
Qed.

Lemma sideOnly_NewOnly (P : Call -> Prop) (tr' tr : list (nat * Call)) :
  (forall c, isSideCall c = true -> P c) -> sideOnly tr' tr -> NewOnly P tr' tr.
Proof.
  intros HP (new & -> & H). exists new. split; [reflexivity |].
  eapply Forall_impl; [exact H |]. intros [t c]. apply HP.
Qed.

(** The follow-up owed by an entry: at the tick a retryable stream failure
    is noted before the deadline, a page is requested; at the tick a delay
    ends before the deadline, a page is requested.  [excuse] is the tick at
    which the request may still be outstanding. *)
Definition followed (tr : list (nat * Call)) (excuse : option nat) (e : nat * Call) : Prop :=
  match e.2 with
  | StreamFailed err =>
      isRetryableStreamError err = true -> (e.1 < abortAt rt)%nat ->
      (exists o, In (e.1, GetEvents o 100) tr) \/ excuse = Some e.1
  | Delay _ =>
      (S e.1 < abortAt rt)%nat ->
      (exists o, In (S e.1, GetEvents o 100) tr) \/ excuse = Some (S e.1)
  | _ => True
  end.

Definition Follow (tr : list (nat * Call)) (excuse : option nat) : Prop :=
  Forall (followed tr excuse) tr.

Definition owesNothing (c : Call) : Prop :=
  match c with StreamFailed _ | Delay _ => False | _ => True end.

Lemma followed_mono (tr : list (nat * Call)) (new : list (nat * Call))
    (excuse : option nat) (e : nat * Call) :
  followed tr excuse e -> followed (new ++ tr) excuse e.
Proof.
  unfold followed. destruct e as [t c]; destruct c; simpl; auto.
  - intros H Hr Ht. destruct (H Hr Ht) as [[o Ho] | Hx]; [left | now right].
    exists o. apply in_or_app. now right.
  - intros H Ht. destruct (H Ht) as [[o Ho] | Hx]; [left | now right].
    exists o. apply in_or_app. now right.
Qed.

Lemma Follow_new (tr' tr : list (nat * Call)) (excuse : option nat) :
  NewOnly owesNothing tr' tr -> Follow tr excuse -> Follow tr' excuse.
Proof.
  intros (new & -> & Hnew) Hf. unfold Follow. apply Forall_app. split.
  - eapply Forall_impl; [exact Hnew |].
    intros [t c] Hc. unfold followed. destruct c; simpl in *; auto; contradiction.
  - eapply Forall_impl; [exact Hf |]. intros e. apply followed_mono.
Qed.

Lemma Follow_discharge (tr : list (nat * Call)) (t o : nat) :
  Follow tr (Some t) -> In (t, GetEvents o 100) tr -> Follow tr None.
Proof.
  intros Hf Hin. eapply Forall_impl; [exact Hf |].
  intros [t' c]. unfold followed. destruct c; simpl; auto.
  - intros H Hr Ht. destruct (H Hr Ht) as [Hex | Heq]; left; [exact Hex |].
    injection Heq as Heq. subst t'. now exists o.
  - intros H Ht. destruct (H Ht) as [Hex | Heq]; left; [exact Hex |].
    injection Heq as Heq. rewrite <- Heq. now exists o.
Qed.

Lemma Follow_aborted (tr : list (nat * Call)) (t : nat) :
  Follow tr (Some t) -> (abortAt rt <= t)%nat -> Follow tr None.
Proof.
  intros Hf Hab. eapply Forall_impl; [exact Hf |].
  intros [t' c]. unfold followed. destruct c; simpl; auto.
  - intros H Hr Ht. destruct (H Hr Ht) as [Hex | Heq]; [now left |].
    injection Heq as Heq. lia.
  - intros H Ht. destruct (H Ht) as [Hex | Heq]; [now left |].
    injection Heq as Heq. lia.
Qed.

Lemma Follow_excuse (tr : list (nat * Call)) (excuse : option nat) :
  Follow tr None -> Follow tr excuse.
Proof.
  intros Hf. eapply Forall_impl; [exact Hf |].
  intros [t' c]. unfold followed. destruct c; simpl; auto.
  - intros H Hr Ht. destruct (H Hr Ht) as [Hex | [=]]. now left.
  - intros H Ht. destruct (H Ht) as [Hex | [=]]. now left.
Qed.

(** *** Handling the events of the log in order *)

Lemma combine_seq_nth (l : list UniversalEvent) (base k sequence : nat)
    (event : UniversalEvent) :
  nth_error (combine (seq base (length l)) l) k = Some (sequence, event) ->
  sequence = (base + k)%nat /\ nth_error l k = Some event.
Proof.
  revert base k. induction l as [| x l IH]; intros base k; simpl.
  - destruct k; discriminate.
  - destruct k as [| k]; simpl.
    + intros [= <- <-]. split; [lia | reflexivity].
    + intros H. apply IH in H. destruct H as [-> H]. split; [lia | exact H].
Qed.

Lemma indexed_nth (l : list UniversalEvent) (k sequence : nat) (event : UniversalEvent) :
  nth_error (indexed l) k = Some (sequence, event) ->
  sequence = k /\ nth_error l k = Some event.
Proof. intros H. apply combine_seq_nth in H. exact H. Qed.

Lemma firstn_skipn_cons {A : Type} (n k : nat) (l : list A) (x : A) (rest : list A) :
  firstn n (skipn k l) = x :: rest ->
  nth_error l k = Some x /\ rest = firstn (pred n) (skipn (S k) l).
Proof.
  revert l. induction k as [| k IH]; intros l.
  - destruct l as [| y l]; destruct n; simpl; try discriminate.
    intros [= -> <-]. split; reflexivity.
  - destruct l as [| y l].
    + simpl. destruct n; discriminate.
    + intros H. apply (IH l) in H. exact H.
Qed.

(** Every event handled so far is quiet. *)
Definition QuietTrace (tr : list (nat * Call)) : Prop :=
  Forall (fun handled : nat * UniversalEvent => quietEvent handled.2 = true) (handledOf tr).

Lemma handledOf_app (new tr : list (nat * Call)) :
  handledOf (new ++ tr) = handledOf tr ++ handledOf new.
Proof.
  induction new as [| [t c] new IH]; simpl; [now rewrite app_nil_r |].
  destruct c; try exact IH. now rewrite IH, app_assoc.
Qed.

Lemma QuietTrace_new (P : Call -> Prop) (tr' tr : list (nat * Call)) :
  NewOnly P tr' tr -> QuietTrace tr' -> QuietTrace tr.
Proof.
  intros (new & -> & _). unfold QuietTrace. rewrite handledOf_app.
  intros H. apply Forall_app in H. apply H.
Qed.


Lemma QuietTrace_In (tr : list (nat * Call)) (sequence : nat) (event : UniversalEvent) :
  QuietTrace tr -> In (sequence, event) (handledOf tr) -> quietEvent event = true.
Proof.
  unfold QuietTrace. rewrite List.Forall_forall. intros Hq Hin. exact (Hq _ Hin).
Qed.

Definition handleCall (src : Source) (c : Call) : Prop :=
  isSideCall c = true \/ exists sequence event, c = Handle src sequence event.

(** An event taken from the log at the offset is handled: the offset is
    advanced, the entry recorded, [handleEvent] run. *)
Lemma deliver_spec (src : Source) (sequence : nat) (event : UniversalEvent) (st : RunState) :
  Link st ->
  nth_error (indexed (log rt)) (offset st) = Some (sequence, event) ->
  (src = FromStream -> (tick st < abortAt rt)%nat) ->
  exists o st',
    handleEvent event (mark (Handle src sequence event) (setOffset (S (offset st)) st))
    = (o, st')
    /\ Link st'
    /\ offset st' = S (offset st)
    /\ (tick st <= tick st')%nat
    /\ sentTurn st' = sentTurn st
    /\ NewOnly (handleCall src) (trace st') (trace st)
    /\ o <> OutOfFuel
    /\ (forall e, o = Exn e ->
          exists t, (tick st <= t < tick st')%nat /\ fails rt t = Some e)
    /\ (forall r, o = Ret (Some r) -> quietEvent event = false)
    /\ (quietEvent event = true ->
        sawCompleted st' = sawCompleted st /\ sawFailed st' = sawFailed st)
    /\ In (sequence, event) (handledOf (trace st')).
Proof.
  intros [Hgood Hoff Hfiles] Hnth Hsrc.
  set (st1 := mark (Handle src sequence event) (setOffset (S (offset st)) st)).
  destruct (handleEvent_spec event st1) as (o & st' & E & [Fo Fs Ft Ftr] & P & N & X & R & Q).
  exists o, st'. split; [exact E |].
  destruct Ftr as (new & Htr & Hside).
  assert (handledOf (trace st') = handledOf (trace st) ++ [(sequence, event)]) as Hh.
  { rewrite Htr, (handledOf_side _ _ Hside). reflexivity. }
  split_and!.
  - constructor.
    + rewrite Htr. apply Good_side; [| exact Hside].
      constructor; [exact Hgood |]. simpl. rewrite <- Hoff. split; [exact Hnth | exact Hsrc].
    + rewrite Fo, Hh, length_app. simpl. lia.
    + rewrite P, Hh, map_app, fold_left_app. simpl. now rewrite <- Hfiles.
  - exact Fo.
  - exact Ft.
  - exact Fs.
  - exists (new ++ [(tick st, Handle src sequence event)]). split.
    + rewrite Htr. now rewrite <- app_assoc.
    + apply Forall_app. split.
      * eapply Forall_impl; [exact Hside |]. intros [t c] H. now left.
      * constructor; [right; eauto | constructor].
  - exact N.
  - exact X.
  - exact R.
  - exact Q.
  - rewrite Hh. apply in_or_app. right. now left.
Qed.

Definition pollCall (c : Call) : Prop :=
  handleCall FromPoll c \/ exists o, c = GetEvents o 100.

(** The events of a page, taken from the log at the offset, are handled
    in order. *)
Lemma handlePage_spec (events : list (nat * UniversalEvent)) (n : nat) (st : RunState) :
  Link st ->
  events = firstn n (skipn (offset st) (indexed (log rt))) ->
  exists o st',
    handlePage events st = (o, st')
    /\ Link st'
    /\ (tick st <= tick st')%nat
    /\ sentTurn st' = sentTurn st
    /\ NewOnly (handleCall FromPoll) (trace st') (trace st)
    /\ o <> OutOfFuel
    /\ (forall e, o = Exn e ->
          exists t, (tick st <= t < tick st')%nat /\ fails rt t = Some e)
    /\ (QuietTrace (trace st') ->
        sawCompleted st' = sawCompleted st /\ sawFailed st' = sawFailed st
        /\ forall r, o <> Ret (Some r)).
Proof.
  revert n st. induction events as [| [sequence event] rest IH]; intros n st Hlink Hev.
  - exists (Ret None), st. simpl. unfold ret.
    split_and!; auto using NewOnly_refl; try discriminate.
  - symmetry in Hev. apply firstn_skipn_cons in Hev. destruct Hev as [Hnth Hrest].
    destruct (deliver_spec FromPoll sequence event st Hlink Hnth)
      as (o & st1 & E & L1 & Hoff1 & T1 & S1 & N1 & F1 & X1 & R1 & Q1 & H1);
      [discriminate |].
    cbn [handlePage]. unfold bindM at 1. unfold modify at 1.
    unfold bindM at 1. unfold note, modify at 1.
    unfold bindM at 1. rewrite E.
    destruct o as [[r |] | e |].
    + exists (Ret (Some r)), st1. unfold ret.
      split_and!; auto; try discriminate.
      intros Hq. pose proof (R1 r eq_refl) as Hnq.
      rewrite (QuietTrace_In _ _ _ Hq H1) in Hnq. discriminate.
    + destruct (IH (pred n) st1 L1) as (o2 & st2 & E2 & L2 & T2 & S2 & N2 & F2 & X2 & Q2).
      { rewrite Hoff1. exact Hrest. }
      exists o2, st2. split_and!; auto.
      * lia.
      * congruence.
      * eapply NewOnly_trans; eassumption.
      * intros e He. destruct (X2 e He) as (t & Ht & Hf). exists t. split; [lia | exact Hf].
      * intros Hq. destruct (Q2 Hq) as (C2 & D2 & R2).
        destruct (Q1 (QuietTrace_In _ _ _ (QuietTrace_new _ _ _ N2 Hq) H1)) as [C1 D1].
        split_and!; [congruence | congruence | exact R2].
    + exists (Exn e), st1. split_and!; auto; try discriminate.
      intros Hq. destruct (Q1 (QuietTrace_In _ _ _ Hq H1)) as [C1 D1].
      split_and!; auto; discriminate.
    + now contradiction F1.
Qed.

Lemma getEvents_eq (st : RunState) :
  getEvents st =
  match fails rt (tick st) with
  | Some e => (Exn e, record (GetEvents (offset st) 100) st)
  | None =>
      (Ret (firstn (Nat.min 100 (pageLen rt (tick st)))
              (skipn (offset st) (indexed (log rt))),
            hasMoreAt rt (tick st)),
       record (GetEvents (offset st) 100) st)
  end.
Proof.
  unfold getEvents, bindM, get, await, ret.
  destruct (fails rt (tick st)); reflexivity.
Qed.

Lemma aborted_eq (st : RunState) : aborted st = (Ret (abortAt rt <=? tick st)%nat, st).
Proof. reflexivity. Qed.

(** Requesting a page before the deadline keeps the state and the trace in
    agreement, and pays what is owed at this tick. *)
Lemma record_fetch (st : RunState) (excuse : option nat) :
  Link st -> (tick st < abortAt rt)%nat ->
  Follow (trace st) excuse -> (excuse = None \/ excuse = Some (tick st)) ->
  Link (record (GetEvents (offset st) 100) st)
  /\ Follow (trace (record (GetEvents (offset st) 100) st)) None.
Proof.
  intros [Hg Ho Hf] Hlt Hfol Hex. split.
  - constructor; simpl; auto.
    constructor; [exact Hg |]. simpl. auto.
  - assert (Follow (trace (record (GetEvents (offset st) 100) st)) excuse) as H.
    { eapply Follow_new; [| exact Hfol]. apply NewOnly_cons. exact I. }
    destruct Hex as [-> | ->]; [exact H |].
    eapply Follow_discharge; [exact H |]. simpl. left. reflexivity.
Qed.

(** The loop of [pollEvents] returns: it keeps the state and the trace in
    agreement, requests pages and handles their events only, and leaves
    nothing owed. *)
Lemma pollLoop_spec (fuel : nat) (hasMore : bool) (st : RunState) (excuse : option nat) :
  Link st ->
  Follow (trace st) excuse ->
  (excuse = None \/ (excuse = Some (tick st) /\ hasMore = true)) ->
  (abortAt rt + 2 <= fuel + tick st)%nat -> (1 <= fuel)%nat ->
  exists o st',
    pollLoop fuel hasMore st = (o, st')
    /\ Link st'
    /\ (tick st <= tick st')%nat
    /\ sentTurn st' = sentTurn st
    /\ NewOnly pollCall (trace st') (trace st)
    /\ Follow (trace st') None
    /\ o <> OutOfFuel
    /\ (forall e, o = Exn e ->
          exists t, (tick st <= t < tick st')%nat /\ fails rt t = Some e)
    /\ (QuietTrace (trace st') ->
        sawCompleted st' = sawCompleted st /\ sawFailed st' = sawFailed st
        /\ forall r, o <> Ret (Some r)).
Proof.
  revert hasMore st excuse.
  induction fuel as [| fuel IH]; intros hasMore st excuse Hlink Hfol Hex Hfuel Hpos; [lia |].
  cbn [pollLoop]. unfold bindM at 1. rewrite aborted_eq.
  destruct (hasMore && negb (abortAt rt <=? tick st)%nat) eqn:Hgo.
  2:{ exists (Ret None), st. unfold ret.
      split_and!; auto using NewOnly_refl; try discriminate.
      destruct Hex as [-> | [-> ->]]; [exact Hfol |].
      simpl in Hgo. apply negb_false_iff, Nat.leb_le in Hgo.
      eapply Follow_aborted; eassumption. }
  apply andb_true_iff in Hgo. destruct Hgo as [-> Hlt].
  apply negb_true_iff, Nat.leb_gt in Hlt.
  assert (excuse = None \/ excuse = Some (tick st)) as Hex' by (destruct Hex as [| []]; auto).
  destruct (record_fetch st excuse Hlink Hlt Hfol Hex') as [L1 Fol1].
  set (st1 := record (GetEvents (offset st) 100) st) in *.
  assert (NewOnly pollCall (trace st1) (trace st)) as N1.
  { apply NewOnly_cons. right. eauto. }
  unfold bindM at 1. rewrite getEvents_eq. fold st1.
  destruct (fails rt (tick st)) as [e |] eqn:Hfail.
  { exists (Exn e), st1.
    split_and!; auto; try discriminate; try (simpl; lia);
      try (intros _; split_and!; auto; discriminate).
    intros e' [= <-]. exists (tick st). simpl. split; [lia | exact Hfail]. }
  set (events := firstn (Nat.min 100 (pageLen rt (tick st)))
                   (skipn (offset st) (indexed (log rt)))).
  destruct (handlePage_spec events (Nat.min 100 (pageLen rt (tick st))) st1 L1 eq_refl)
    as (o & st2 & E2 & L2 & T2 & S2 & N2 & F2 & X2 & Q2).
  assert (NewOnly pollCall (trace st2) (trace st)) as N12.
  { eapply NewOnly_trans; [exact N1 |].
    eapply NewOnly_weaken; [| exact N2]. intros c Hc. now left. }
  assert (Follow (trace st2) None) as Fol2.
  { eapply Follow_new; [| exact Fol1].
    eapply NewOnly_weaken; [| exact N2].
    intros c [Hc | (i & ev & ->)]; [| exact I].
    destruct c; simpl in Hc; try discriminate; exact I. }
  assert (tick st1 = S (tick st)) as Ht1 by reflexivity.
  assert (sentTurn st2 = sentTurn st) as S12 by (rewrite S2; reflexivity).
  unfold bindM at 1. cbn [fst snd]. rewrite E2.
  destruct o as [[r |] | e |].
  - exists (Ret (Some r)), st2. unfold ret.
    split_and!; try first [assumption | reflexivity | discriminate | lia].
  - destruct (length events =? 0)%nat.
    + exists (Ret None), st2. unfold ret.
      split_and!; try first [assumption | reflexivity | discriminate | lia].
    + destruct (IH (hasMoreAt rt (tick st)) st2 None L2 Fol2) as
        (o3 & st3 & E3 & L3 & T3 & S3 & N3 & Fol3 & F3 & X3 & Q3); [auto | lia | lia |].
      exists o3, st3.
      split_and!; try first [assumption | reflexivity | discriminate | lia | congruence].
      * eapply NewOnly_trans; eassumption.
      * intros e He. destruct (X3 e He) as (t & Ht & Hf). exists t. split; [lia | exact Hf].
      * intros Hq. destruct (Q2 (QuietTrace_new _ _ _ N3 Hq)) as (C2 & D2 & _).
        destruct (Q3 Hq) as (C3 & D3 & R3).
        split_and!; [rewrite C3, C2; reflexivity | rewrite D3, D2; reflexivity | exact R3].
  - exists (Exn e), st2.
    split_and!; try first [assumption | reflexivity | discriminate | lia].
    intros e' He'. destruct (X2 e' He') as (t & Ht & Hf). exists t. split; [lia | exact Hf].
  - now contradiction F2.
Qed.

(** *** The loop once the turn has been sent *)

Definition loopCall (c : Call) : Prop := pollCall c \/ c = Delay 1000.

(** What the loop guarantees from a state [st] on. *)
Definition LoopPost (st : RunState) (r : Outcome (option SandboxResult) * RunState) : Prop :=
  Link r.2
  /\ (tick st <= tick r.2)%nat
  /\ sentTurn r.2 = sentTurn st
  /\ NewOnly loopCall (trace r.2) (trace st)
  /\ Follow (trace r.2) None
  /\ r.1 <> OutOfFuel
  /\ (forall e, r.1 = Exn e ->
        exists t, (tick st <= t < tick r.2)%nat /\ fails rt t = Some e)
  /\ (r.1 = Ret None -> (abortAt rt <= tick r.2)%nat)
  /\ (QuietTrace (trace r.2) -> sawCompleted st = false -> sawFailed st = false ->
      forall result, r.1 <> Ret (Some result)).

Lemma pollCall_loopCall (c : Call) : pollCall c -> loopCall c.
Proof. intros H. now left. Qed.

Lemma loopCall_owes (tr' tr : list (nat * Call)) :
  NewOnly pollCall tr' tr -> NewOnly owesNothing tr' tr.
Proof.
  apply NewOnly_weaken.
  intros c [[Hc | (i & ev & ->)] | (o & ->)]; try exact I.
  destruct c; simpl in Hc; try discriminate; exact I.
Qed.

Lemma afterStreaming_spec (fuel : nat) (continue : M (option SandboxResult))
    (st : RunState) (excuse : option nat) :
  Link st ->
  Follow (trace st) excuse -> (excuse = None \/ excuse = Some (tick st)) ->
  (abortAt rt + 2 <= fuel + tick st)%nat -> (1 <= fuel)%nat ->
  (forall st2,
      Link st2 -> sentTurn st2 = sentTurn st -> Follow (trace st2) (Some (tick st2)) ->
      (tick st < tick st2)%nat ->
      (QuietTrace (trace st2) -> sawCompleted st = false -> sawFailed st = false ->
       sawCompleted st2 = false /\ sawFailed st2 = false) ->
      LoopPost st2 (continue st2)) ->
  LoopPost st (afterStreaming fuel continue st).
Proof.
  intros Hlink Hfol Hex Hfuel Hpos Hcont.
  assert (excuse = None \/ excuse = Some (tick st) /\ true = true) as Hex'
      by (destruct Hex; auto).
  destruct (pollLoop_spec fuel true st excuse Hlink Hfol Hex' Hfuel Hpos)
    as (o & st1 & E & L1 & T1 & S1 & N1 & Fol1 & F1 & X1 & Q1).
  unfold afterStreaming, pollEvents, bindM at 1. rewrite E.
  assert (NewOnly loopCall (trace st1) (trace st)) as N1'.
  { eapply NewOnly_weaken; [apply pollCall_loopCall | exact N1]. }
  destruct o as [[r |] | e |].
  - unfold LoopPost, ret; simpl.
    split_and!; try first [assumption | reflexivity | discriminate | lia].
    intros Hq _ _. destruct (Q1 Hq) as (_ & _ & R). exact R.
  - unfold bindM at 1, get.
    destruct (sawFailed st1) eqn:Hsf.
    { unfold LoopPost, ret; simpl.
      split_and!; try first [assumption | reflexivity | discriminate | lia].
      intros Hq _ Hf0. destruct (Q1 Hq) as (_ & D & _). congruence. }
    destruct (sawCompleted st1) eqn:Hsc.
    { unfold LoopPost, ret; simpl.
      split_and!; try first [assumption | reflexivity | discriminate | lia].
      intros Hq Hc0 _. destruct (Q1 Hq) as (C & _ & _). congruence. }
    unfold bindM at 1, awaitQuiet, modify.
    set (st2 := record (Delay 1000) st1).
    assert (Link st2) as L2.
    { destruct L1 as [Hg Ho Hf]. constructor; simpl; auto.
      constructor; [exact Hg | reflexivity]. }
    assert (Follow (trace st2) (Some (tick st2))) as Fol2.
    { unfold Follow. simpl. constructor.
      - unfold followed. simpl. intros _. now right.
      - eapply Forall_impl; [exact (Follow_excuse _ (Some (S (tick st1))) Fol1) |].
        intros e. apply (followed_mono _ [(tick st1, Delay 1000)]). }
    specialize (Hcont st2 L2 S1 Fol2).
    destruct Hcont as (L3 & T3 & S3 & N3 & Fol3 & F3 & X3 & A3 & Q3).
    { simpl. lia. }
    { intros Hq Hc0 Hf0. split; [exact Hsc | exact Hsf]. }
    unfold LoopPost.
    split_and!; try first [assumption | reflexivity | discriminate].
    + simpl in T3. lia.
    + rewrite S3. exact S1.
    + eapply NewOnly_trans; [exact N1' |].
      eapply NewOnly_trans; [| exact N3].
      apply NewOnly_cons. now right.
    + intros e He. destruct (X3 e He) as (t & Ht & Hfl). exists t.
      simpl in Ht. split; [lia | exact Hfl].
    + intros Hq Hc0 Hf0. apply Q3; [exact Hq | exact Hsc | exact Hsf].
  - unfold LoopPost; simpl.
    split_and!; try first [assumption | reflexivity | discriminate | lia].
  - now contradiction F1.
Qed.

Lemma mainLoop_sent_spec (fuel : nat) (st : RunState) :
  Link st -> sentTurn st = true ->
  Follow (trace st) (Some (tick st)) ->
  (abortAt rt + 2 <= fuel + tick st)%nat -> (1 <= fuel)%nat ->
  LoopPost st (mainLoop fuel st).
Proof.
  revert st. induction fuel as [| fuel IH]; intros st Hlink Hsent Hfol Hfuel Hpos; [lia |].
  cbn [mainLoop]. unfold bindM at 1. rewrite aborted_eq.
  destruct (abortAt rt <=? tick st)%nat eqn:Hab.
  - apply Nat.leb_le in Hab. unfold LoopPost, ret; simpl.
    split_and!; try first [assumption | reflexivity | discriminate | lia].
    + apply NewOnly_refl.
    + eapply Follow_aborted; eassumption.
  - apply Nat.leb_gt in Hab.
    unfold bindM at 1, get. rewrite Hsent. simpl negb. cbv iota.
    unfold bindM at 1, ret.
    apply (afterStreaming_spec (S fuel) (mainLoop fuel) st (Some (tick st)));
      auto; try lia.
    intros st2 L2 S2 Fol2 Hlt Hq2. apply IH; auto; try lia. congruence.
Qed.

(** *** The streamed turn *)

Definition streamCall (c : Call) : Prop :=
  handleCall FromStream c \/ exists e, c = StreamFailed e.

Lemma NewOnly_In (P : Call -> Prop) (tr' tr : list (nat * Call)) (t : nat) (c : Call) :
  NewOnly P tr' tr -> ~ P c -> In (t, c) tr' -> In (t, c) tr.
Proof.
  intros (new & -> & Hnew) Hn Hin. apply in_app_or in Hin. destruct Hin as [Hin | Hin]; [| exact Hin].
  rewrite List.Forall_forall in Hnew. apply Hnew in Hin. contradiction.
Qed.

Lemma handleCall_owes (src : Source) (tr' tr : list (nat * Call)) :
  NewOnly (handleCall src) tr' tr -> NewOnly owesNothing tr' tr.
Proof.
  apply NewOnly_weaken. intros c [Hc | (i & ev & ->)]; [| exact I].
  destruct c; simpl in Hc; try discriminate; exact I.
Qed.

Lemma handleCall_not_failed (src : Source) (e : JsError) : ~ handleCall src (StreamFailed e).
Proof. intros [H | (i & ev & H)]; discriminate. Qed.

Lemma streamLoop_spec (events : list (nat * UniversalEvent)) (n : nat) (st : RunState) :
  Link st ->
  events = firstn n (skipn (offset st) (indexed (log rt))) ->
  Follow (trace st) None ->
  exists o st',
    streamLoop events st = (o, st')
    /\ Link st'
    /\ (tick st <= tick st')%nat
    /\ sentTurn st' = sentTurn st
    /\ NewOnly streamCall (trace st') (trace st)
    /\ Follow (trace st') (Some (tick st'))
    /\ o <> OutOfFuel
    /\ (forall t e, In (t, StreamFailed e) (trace st') ->
          In (t, StreamFailed e) (trace st)
          \/ (o = Exn e /\ t = tick st' /\ streamEnd rt = Some e))
    /\ (forall e, o = Exn e ->
          (exists t, (tick st <= t < tick st')%nat /\ fails rt t = Some e)
          \/ streamEnd rt = Some e)
    /\ (QuietTrace (trace st') ->
        sawCompleted st' = sawCompleted st /\ sawFailed st' = sawFailed st
        /\ forall r, o <> Ret (Some r)).
Proof.
  revert n st. induction events as [| [sequence event] rest IH]; intros n st Hlink Hev Hfol.
  - cbn [streamLoop]. unfold bindM at 1, awaitQuiet. unfold modify at 1.
    set (st1 := record StreamNext st).
    assert (Link st1) as L1.
    { destruct Hlink as [Hg Ho Hf]. constructor; simpl; auto.
      constructor; [exact Hg | exact I]. }
    assert (Follow (trace st1) None) as Fol1.
    { eapply Follow_new; [| exact Hfol]. apply NewOnly_cons. exact I. }
    assert (NewOnly streamCall (trace st1) (trace st)) as N1.
    { apply NewOnly_cons. left. now left. }
    destruct (streamEnd rt) as [e |] eqn:Hend.
    + unfold bindM at 1, note, modify, throw.
      set (st2 := mark (StreamFailed e) st1).
      exists (Exn e), st2.
      split_and!; try first [assumption | reflexivity | discriminate].
      * destruct L1 as [Hg Ho Hf]. constructor; simpl; auto.
        constructor; [exact Hg | exact I].
      * simpl. lia.
      * eapply NewOnly_trans; [exact N1 |]. apply NewOnly_cons. right. eauto.
      * unfold Follow. simpl. constructor.
        -- unfold followed. simpl. intros _ _. now right.
        -- eapply Forall_impl; [exact (Follow_excuse _ (Some (S (tick st))) Fol1) |].
           intros x. apply (followed_mono _ [(S (tick st), StreamFailed e)]).
      * intros t e' Hin. simpl in Hin. destruct Hin as [[= <- <-] | [[=] | Hin]].
        -- right. auto.
        -- now left.
      * intros e' [= <-]. now right.
      * intros _. split_and!; try first [reflexivity | discriminate].
    + exists (Ret None), st1. unfold ret.
      split_and!; try first [assumption | reflexivity | discriminate].
      * simpl. lia.
      * now apply Follow_excuse.
      * intros t e' Hin. simpl in Hin. destruct Hin as [[=] | Hin]. now left.
      * intros _. split_and!; try first [reflexivity | discriminate].
  - symmetry in Hev. apply firstn_skipn_cons in Hev. destruct Hev as [Hnth Hrest].
    cbn [streamLoop]. unfold bindM at 1, awaitQuiet. unfold modify at 1.
    set (st1 := record StreamNext st).
    assert (Link st1) as L1.
    { destruct Hlink as [Hg Ho Hf]. constructor; simpl; auto.
      constructor; [exact Hg | exact I]. }
    assert (Follow (trace st1) None) as Fol1.
    { eapply Follow_new; [| exact Hfol]. apply NewOnly_cons. exact I. }
    assert (NewOnly streamCall (trace st1) (trace st)) as N1.
    { apply NewOnly_cons. left. now left. }
    unfold bindM at 1. rewrite aborted_eq.
    destruct (abortAt rt <=? tick st1)%nat eqn:Hab.
    + exists (Ret None), st1. unfold ret.
      split_and!; try first [assumption | reflexivity | discriminate].
      * simpl. lia.
      * now apply Follow_excuse.
      * intros t e' Hin. simpl in Hin. destruct Hin as [[=] | Hin]. now left.
      * intros _. split_and!; try first [reflexivity | discriminate].
    + apply Nat.leb_gt in Hab.
      destruct (deliver_spec FromStream sequence event st1 L1 Hnth (fun _ => Hab))
        as (o & st2 & E & L2 & Hoff2 & T2 & S2 & N2 & F2 & X2 & R2 & Q2 & H2).
      unfold bindM at 1. unfold modify at 1.
      unfold bindM at 1. unfold note, modify at 1.
      unfold bindM at 1. rewrite E.
      assert (NewOnly streamCall (trace st2) (trace st)) as N12.
      { eapply NewOnly_trans; [exact N1 |].
        eapply NewOnly_weaken; [| exact N2]. intros c Hc. now left. }
      assert (Follow (trace st2) None) as Fol2.
      { eapply Follow_new; [apply (handleCall_owes _ _ _ N2) | exact Fol1]. }
      assert (forall t e, In (t, StreamFailed e) (trace st2) -> In (t, StreamFailed e) (trace st))
        as Hnf.
      { intros t e Hin.
        apply (NewOnly_In _ _ _ _ _ N2 (handleCall_not_failed _ e)) in Hin.
        simpl in Hin. destruct Hin as [[=] | Hin]. exact Hin. }
      assert (tick st1 = S (tick st)) as Ht1 by reflexivity.
      destruct o as [[r |] | e |].
      * exists (Ret (Some r)), st2. unfold ret.
        split_and!; try first [assumption | reflexivity | discriminate | lia].
        -- now apply Follow_excuse.
        -- intros t e Hin. left. now apply Hnf.
        -- intros Hq. pose proof (R2 r eq_refl) as Hnq.
           rewrite (QuietTrace_In _ _ _ Hq H2) in Hnq. discriminate.
      * destruct (IH (pred n) st2 L2) as
          (o3 & st3 & E3 & L3 & T3 & S3 & N3 & Fol3 & F3 & SF3 & X3 & Q3).
        { rewrite Hoff2. exact Hrest. }
        { exact Fol2. }
        exists o3, st3.
        split_and!; try first [assumption | reflexivity | discriminate | lia].
        -- rewrite S3. exact S2.
        -- eapply NewOnly_trans; eassumption.
        -- intros t e Hin. destruct (SF3 t e Hin) as [Hold | Hnew]; [| now right].
           left. now apply Hnf.
        -- intros e He. destruct (X3 e He) as [(t & Ht & Hf) | Hend]; [left | now right].
           exists t. split; [lia | exact Hf].
        -- intros Hq. destruct (Q3 Hq) as (C3 & D3 & R3).
           destruct (Q2 (QuietTrace_In _ _ _ (QuietTrace_new _ _ _ N3 Hq) H2)) as [C2 D2].
           split_and!; [rewrite C3, C2; reflexivity | rewrite D3, D2; reflexivity | exact R3].
      * exists (Exn e), st2.
        split_and!; try first [assumption | reflexivity | discriminate | lia].
        -- now apply Follow_excuse.
        -- intros t e' Hin. left. now apply Hnf.
        -- intros e' He'. left. destruct (X2 e' He') as (t & Ht & Hf).
           exists t. split; [lia | exact Hf].
        -- intros Hq. destruct (Q2 (QuietTrace_In _ _ _ Hq H2)) as [C2 D2].
           split_and!; try first [assumption | discriminate].
      * now contradiction F2.
Qed.

Definition firstCall (c : Call) : Prop := streamCall c \/ c = StreamTurn.

Lemma streamPhase_spec (st : RunState) :
  Link st -> offset st = 0%nat -> trace st = [(0%nat, CreateSession)] ->
  (tick st < abortAt rt)%nat ->
  exists o st',
    streamPhase st = (o, st')
    /\ Link st'
    /\ (tick st <= tick st')%nat
    /\ sentTurn st' = true
    /\ NewOnly firstCall (trace st') (trace st)
    /\ Follow (trace st') (Some (tick st'))
    /\ o <> OutOfFuel
    /\ (forall t e, In (t, StreamFailed e) (trace st') ->
          t = tick st' /\ streamEnd rt = Some e
          /\ o = (if (abortAt rt <=? t)%nat then Ret BreakLoop
                  else if isRetryableStreamError e then Ret Proceed else Exn e))
    /\ (forall e, o = Exn e ->
          (tick st' < abortAt rt)%nat /\ isRetryableStreamError e = false
          /\ ((exists t, (tick st <= t < tick st')%nat /\ fails rt t = Some e)
              \/ streamEnd rt = Some e))
    /\ (o = Ret BreakLoop -> (abortAt rt <= tick st')%nat)
    /\ (QuietTrace (trace st') ->
        sawCompleted st' = sawCompleted st /\ sawFailed st' = sawFailed st
        /\ forall r, o <> Ret (Return r)).
Proof.
  intros Hlink Hoff Htr Hlt.
  unfold streamPhase. unfold bindM at 1. unfold modify at 1.
  unfold bindM at 1. unfold note, modify at 1.
  set (st0 := mark StreamTurn (setSentTurn true st)).
  assert (Link st0) as L0.
  { destruct Hlink as [Hg Ho Hf]. constructor; simpl; auto.
    constructor; [exact Hg |]. simpl. split; [| exact Hlt].
    intros t' Hin. rewrite Htr in Hin. simpl in Hin. destruct Hin as [[=] | []]. }
  assert (Follow (trace st0) None) as Fol0.
  { unfold st0. simpl. rewrite Htr. repeat constructor. }
  assert (forall t e, ~ In (t, StreamFailed e) (trace st0)) as Hnf0.
  { intros t e Hin. unfold st0 in Hin. simpl in Hin. rewrite Htr in Hin.
    simpl in Hin. destruct Hin as [[=] | [[=] | []]]. }
  destruct (streamLoop_spec (firstn (streamed rt) (indexed (log rt))) (streamed rt) st0 L0)
    as (o & st1 & E & L1 & T1 & S1 & N1 & Fol1 & F1 & SF1 & X1 & Q1).
  { unfold st0. simpl. rewrite Hoff. reflexivity. }
  { exact Fol0. }
  assert (NewOnly firstCall (trace st1) (trace st)) as N01.
  { eapply NewOnly_trans.
    - apply (NewOnly_cons firstCall (tick st) StreamTurn). now right.
    - eapply NewOnly_weaken; [| exact N1]. intros c Hc. now left. }
  assert (forall t e, In (t, StreamFailed e) (trace st1) ->
                      o = Exn e /\ t = tick st1 /\ streamEnd rt = Some e) as SF1'.
  { intros t e Hin. destruct (SF1 t e Hin) as [Hold | Hnew]; [| exact Hnew].
    now contradiction (Hnf0 t e). }
  unfold tryCatch, bindM at 1. rewrite E.
  destruct o as [[r |] | e |].
  - exists (Ret (Return r)), st1. unfold ret.
    split_and!; try first [assumption | reflexivity | discriminate | (intros _; assumption)].
    + intros t e Hin. destruct (SF1' t e Hin) as ([=] & _).
    + intros Hq. destruct (Q1 Hq) as (_ & _ & R). now contradiction (R r).
  - exists (Ret Proceed), st1. unfold ret.
    split_and!; try first [assumption | reflexivity | discriminate | (intros _; assumption)].
    + intros t e Hin. destruct (SF1' t e Hin) as ([=] & _).
    + intros Hq. destruct (Q1 Hq) as (C & D & _).
      split_and!; try first [assumption | discriminate].
  - unfold bindM at 1. rewrite aborted_eq.
    destruct (abortAt rt <=? tick st1)%nat eqn:Hab.
    + apply Nat.leb_le in Hab. exists (Ret BreakLoop), st1. unfold ret.
      split_and!; try first [assumption | reflexivity | discriminate | (intros _; assumption)].
      * intros t e' Hin. destruct (SF1' t e' Hin) as (_ & -> & Hend).
        split_and!; auto. apply Nat.leb_le in Hab. now rewrite Hab.
      * intros Hq. destruct (Q1 Hq) as (C & D & _).
        split_and!; try first [assumption | discriminate].
    + apply Nat.leb_gt in Hab.
      destruct (isRetryableStreamError e) eqn:Hretry; simpl.
      * exists (Ret Proceed), st1. unfold ret.
        split_and!; try first [assumption | reflexivity | discriminate | (intros _; assumption)].
        -- intros t e' Hin. destruct (SF1' t e' Hin) as ([= <-] & -> & Hend).
           split_and!; auto. apply Nat.leb_gt in Hab. now rewrite Hab, Hretry.
        -- intros Hq. destruct (Q1 Hq) as (C & D & _).
           split_and!; try first [assumption | discriminate].
      * exists (Exn e), st1. unfold throw.
        split_and!; try first [assumption | reflexivity | discriminate | (intros _; assumption)].
        -- intros t e' Hin. destruct (SF1' t e' Hin) as ([= <-] & -> & Hend).
           split_and!; auto. apply Nat.leb_gt in Hab. now rewrite Hab, Hretry.
        -- intros e' [= <-]. split_and!; auto.
        -- intros Hq. destruct (Q1 Hq) as (C & D & _).
           split_and!; try first [assumption | discriminate].
  - now contradiction F1.
Qed.

(** *** The whole loop *)

Definition runCall (c : Call) : Prop := firstCall c \/ loopCall c.

Lemma Follow_no_debt (tr : list (nat * Call)) (excuse : option nat) :
  Follow tr excuse ->
  (forall t e, In (t, StreamFailed e) tr ->
     isRetryableStreamError e = true -> (t < abortAt rt)%nat -> False) ->
  (forall t ms, ~ In (t, Delay ms) tr) ->
  Follow tr None.
Proof.
  intros Hf Hsf Hd. unfold Follow in *. rewrite List.Forall_forall in *.
  intros [t c] Hin. specialize (Hf _ Hin). unfold followed in *. destruct c; simpl in *; auto.
  - intros Hr Ht. exfalso. eapply Hsf; eassumption.
  - exfalso. eapply Hd; eassumption.
Qed.

Lemma firstCall_not_delay (ms : Z) : ~ firstCall (Delay ms).
Proof.
  intros [[[H | (i & ev & H)] | (e & H)] | H]; discriminate.
Qed.

Lemma loopCall_not_failed (e : JsError) : ~ loopCall (StreamFailed e).
Proof.
  intros [[[H | (i & ev & H)] | (o & H)] | H]; discriminate.
Qed.

Lemma mainLoop_first_spec (fuel : nat) (st : RunState) :
  Link st -> offset st = 0%nat -> trace st = [(0%nat, CreateSession)] ->
  sentTurn st = false ->
  (abortAt rt + 2 <= S fuel + tick st)%nat ->
  exists o st',
    mainLoop (S fuel) st = (o, st')
    /\ Link st'
    /\ (tick st <= tick st')%nat
    /\ NewOnly runCall (trace st') (trace st)
    /\ Follow (trace st') None
    /\ o <> OutOfFuel
    /\ (forall t e, In (t, StreamFailed e) (trace st') ->
          (t < abortAt rt)%nat -> isRetryableStreamError e = false ->
          o = Exn e /\ tick st' = t)
    /\ (forall e, o = Exn e ->
          (exists t, (tick st <= t < tick st')%nat /\ fails rt t = Some e)
          \/ (streamEnd rt = Some e /\ isRetryableStreamError e = false))
    /\ (o = Ret None -> (abortAt rt <= tick st')%nat)
    /\ (QuietTrace (trace st') -> sawCompleted st = false -> sawFailed st = false ->
        forall r, o <> Ret (Some r)).
Proof.
  intros Hlink Hoff Htr Hsent Hfuel.
  cbn [mainLoop]. unfold bindM at 1. rewrite aborted_eq.
  destruct (abortAt rt <=? tick st)%nat eqn:Hab.
  { apply Nat.leb_le in Hab. exists (Ret None), st. unfold ret.
    split_and!;
      try first [assumption | reflexivity | discriminate | lia | (intros _; assumption)].
    - apply NewOnly_refl.
    - rewrite Htr. repeat constructor.
    - intros t e Hin. rewrite Htr in Hin. simpl in Hin. destruct Hin as [[=] | []]. }
  apply Nat.leb_gt in Hab.
  unfold bindM at 1, get. rewrite Hsent. simpl negb. cbv iota.
  destruct (streamPhase_spec st Hlink Hoff Htr Hab)
    as (o & st1 & E & L1 & T1 & S1 & N1 & Fol1 & F1 & SF1 & X1 & B1 & Q1).
  unfold bindM at 1. rewrite E.
  assert (NewOnly runCall (trace st1) (trace st)) as N1'.
  { eapply NewOnly_weaken; [| exact N1]. intros c Hc. now left. }
  assert (forall t ms, ~ In (t, Delay ms) (trace st1)) as Hnd.
  { intros t ms Hin. apply (NewOnly_In _ _ _ _ _ N1 (firstCall_not_delay ms)) in Hin.
    rewrite Htr in Hin. simpl in Hin. destruct Hin as [[=] | []]. }
  destruct o as [[| | r] | e |].
  - (* polling after the stream *)
    pose proof (afterStreaming_spec (S fuel) (mainLoop fuel) st1 (Some (tick st1))
                  L1 Fol1 (or_intror eq_refl)) as Hafter.
    destruct Hafter as (L2 & T2 & S2 & N2 & Fol2 & F2 & X2 & A2 & Q2); [lia | lia | |].
    { intros st2 La Sa Fola Hlt Hqa. apply mainLoop_sent_spec; auto; try lia. congruence. }
    destruct (afterStreaming (S fuel) (mainLoop fuel) st1) as [o2 st2] eqn:E2.
    simpl in *. exists o2, st2.
    split_and!; try first [assumption | reflexivity | discriminate | lia].
    + eapply NewOnly_trans; [exact N1' |].
      eapply NewOnly_weaken; [| exact N2]. intros c Hc. now right.
    + intros t e Hin Hlt Hno.
      apply (NewOnly_In _ _ _ _ _ N2 (loopCall_not_failed e)) in Hin.
      destruct (SF1 t e Hin) as (-> & _ & Ho).
      apply Nat.leb_gt in Hlt. rewrite Hlt, Hno in Ho. discriminate.
    + intros e He. left. destruct (X2 e He) as (t & Ht & Hf). exists t. split; [lia | exact Hf].
    + intros Hq Hc Hf. destruct (Q1 (QuietTrace_new _ _ _ N2 Hq)) as (C1 & D1 & _).
      apply Q2; [exact Hq | congruence | congruence].
  - (* the catch clause left the loop *)
    exists (Ret None), st1. unfold ret.
    split_and!;
      try first [assumption | reflexivity | discriminate | lia | (intros _; now apply B1)].
    + eapply Follow_aborted; [exact Fol1 | now apply B1].
    + intros t e Hin Hlt Hno. destruct (SF1 t e Hin) as (-> & _ & _).
      pose proof (B1 eq_refl). lia.
  - (* the session ended on the stream *)
    exists (Ret (Some r)), st1. unfold ret.
    split_and!; try first [assumption | reflexivity | discriminate | lia].
    + eapply Follow_no_debt; [exact Fol1 | | exact Hnd].
      intros t e Hin Hr Hlt. destruct (SF1 t e Hin) as (-> & _ & Ho).
      apply Nat.leb_gt in Hlt. rewrite Hlt, Hr in Ho. discriminate.
    + intros t e Hin Hlt Hno. destruct (SF1 t e Hin) as (-> & _ & Ho).
      apply Nat.leb_gt in Hlt. rewrite Hlt, Hno in Ho. discriminate.
    + intros Hq _ _. destruct (Q1 Hq) as (_ & _ & R). now contradiction (R r).
  - (* the catch clause rethrew *)
    destruct (X1 e eq_refl) as (Hlt1 & Hno1 & Hsrc).
    exists (Exn e), st1.
    split_and!; try first [assumption | reflexivity | discriminate | lia].
    + eapply Follow_no_debt; [exact Fol1 | | exact Hnd].
      intros t e' Hin Hr Hlt. destruct (SF1 t e' Hin) as (-> & _ & Ho).
      apply Nat.leb_gt in Hlt. rewrite Hlt, Hr in Ho. discriminate.
    + intros t e' Hin Hlt Hno. destruct (SF1 t e' Hin) as (-> & _ & Ho).
      apply Nat.leb_gt in Hlt. rewrite Hlt, Hno in Ho. injection Ho as <-.
      split; reflexivity.
    + intros e' [= <-]. destruct Hsrc as [Hf | Hend]; [now left | right; auto].
  - now contradiction F1.
Qed.

(** *** The run as a whole *)

Definition isTerminate (c : Call) : bool :=
  match c with TerminateSession => true | _ => false end.

Definition isStreamTurn (c : Call) : bool :=
  match c with StreamTurn => true | _ => false end.

Fixpoint countCalls (p : Call -> bool) (tr : list (nat * Call)) : nat :=
  match tr with
  | [] => 0
  | (_, c) :: older => ((if p c then 1 else 0) + countCalls p older)%nat
  end.

Lemma countCalls_app (p : Call -> bool) (a b : list (nat * Call)) :
  countCalls p (a ++ b) = (countCalls p a + countCalls p b)%nat.
Proof. induction a as [| [t c] a IH]; simpl; [reflexivity | rewrite IH; lia]. Qed.

Lemma countCalls_NewOnly (P : Call -> Prop) (p : Call -> bool) (tr' tr : list (nat * Call)) :
  NewOnly P tr' tr -> (forall c, P c -> p c = false) -> countCalls p tr' = countCalls p tr.
Proof.
  intros (new & -> & Hnew) HP. rewrite countCalls_app.
  assert (countCalls p new = 0%nat) as ->; [| reflexivity].
  induction Hnew as [| [t c] new Hc _ IH]; simpl; [reflexivity |].
  rewrite (HP c Hc), IH. reflexivity.
Qed.

Lemma countCalls_zero (p : Call -> bool) (tr : list (nat * Call)) (t : nat) (c : Call) :
  countCalls p tr = 0%nat -> p c = true -> ~ In (t, c) tr.
Proof.
  induction tr as [| [t' c'] tr IH]; simpl; [auto |].
  intros H Hp [[= -> ->] | Hin].
  - rewrite Hp in H. discriminate.
  - apply IH; [lia | exact Hp | exact Hin].
Qed.

Lemma runCall_not_terminate (c : Call) : runCall c -> isTerminate c = false.
Proof.
  intros [[[[H | (i & ev & ->)] | (e & ->)] | ->]
         | [[[H | (i & ev & ->)] | (o & ->)] | ->]]; try reflexivity;
    destruct c; simpl in H; try discriminate; reflexivity.
Qed.

Definition StreamOK : Prop :=
  forall e, streamEnd rt = Some e -> isRetryableStreamError e = true.

Definition NoEarlyFailure : Prop :=
  forall t, (t < abortAt rt)%nat -> fails rt t = None.

(** Either termination block issues exactly one request, whose failure is
    logged, and returns. *)
Lemma terminate_spec (block : M unit) (st : RunState) :
  block = terminateAfterTimeout \/ block = terminateAfterError ->
  Link st -> (abortAt rt <= tick st)%nat ->
  countCalls isTerminate (trace st) = 0%nat ->
  Follow (trace st) None ->
  exists st',
    block st = (Ret tt, st')
    /\ Link st'
    /\ Follow (trace st') None
    /\ countCalls isTerminate (trace st') = 1%nat
    /\ In (tick st, TerminateSession) (trace st')
    /\ filesModified st' = filesModified st
    /\ (forall t e, In (t, StreamFailed e) (trace st') -> In (t, StreamFailed e) (trace st))
    /\ (forall e, fails rt (tick st) = Some e ->
          exists message, In (S (tick st), Log "error" message) (trace st')).
Proof.
  intros Hblock [Hg Ho Hf] Hab Hcount Hfol.
  assert (okEntry (trace st) (tick st) TerminateSession) as Hok.
  { simpl. split; [| exact Hab]. intros t'. now apply (countCalls_zero isTerminate). }
  destruct Hblock as [-> | ->];
    unfold terminateAfterTimeout, terminateAfterError, bindM, tryCatch, note, modify, await;
    simpl; destruct (fails rt (tick st)) as [e |] eqn:Hfail; simpl;
    eexists; (split; [reflexivity |]); simpl;
    (split_and!;
     [ constructor; simpl; auto; repeat (constructor; simpl; auto)
     | unfold Follow; simpl; repeat (constructor; [exact I |]);
       eapply Forall_impl; [exact Hfol |]; intros x Hx;
       match goal with
       | |- followed (?a :: ?b :: ?c :: ?tr) _ _ => apply (followed_mono tr [a; b; c]); exact Hx
       | |- followed (?a :: ?b :: ?tr) _ _ => apply (followed_mono tr [a; b]); exact Hx
       end
     | rewrite Hcount; reflexivity
     | auto
     | reflexivity
     | intros t e' Hin; repeat (destruct Hin as [[=] | Hin]); exact Hin
     | first [ intros e' [=] | intros e' _ ] ]).
  all: try (intros t' [[=] | Hin]; revert Hin; now apply (countCalls_zero isTerminate)).
  all: eexists; left; reflexivity.
Qed.

Lemma finalize_keeps (result : SandboxResult) :
  success (finalize result) = success result /\ reason (finalize result) = reason result.
Proof.
  unfold finalize.
  destruct (finalizeResult_frame ws result detectFileChanges) as (Hs & _ & Hr & _).
  split; assumption.
Qed.

(** What holds of every run. *)
Record RunFacts (r : Outcome SandboxResult * RunState) : Prop := {
  facts_returns : r.1 <> OutOfFuel;
  facts_link : Link r.2;
  facts_follow : Follow (trace r.2) None;
  facts_fatal :
    forall t e, In (t, StreamFailed e) (trace r.2) ->
      (t < abortAt rt)%nat -> isRetryableStreamError e = false -> r.1 = Exn e;
  facts_terminate :
    forall t, In (t, TerminateSession) (trace r.2) ->
      forall e, fails rt t = Some e ->
        exists message, In (S t, Log "error" message) (trace r.2);
  facts_timeout :
    QuietTrace (trace r.2) -> StreamOK -> NoEarlyFailure -> fails rt 0%nat = None ->
    exists result,
      r.1 = Ret result /\ success result = false /\ reason result = "timeout"
      /\ countCalls isTerminate (trace r.2) = 1%nat
}.

Lemma Good_terminate_tick (tr : list (nat * Call)) (t : nat) :
  Good tr -> In (t, TerminateSession) tr ->
  (abortAt rt <= t)%nat /\ countCalls isTerminate tr = 1%nat.
Proof.
  induction 1 as [| t' c older Hg IH Hok]; simpl; [intros [] |].
  intros [[= -> ->] | Hin].
  - simpl in Hok. destruct Hok as [Hnone Hab]. split; [exact Hab |].
    assert (countCalls isTerminate older = 0%nat) as ->; [| reflexivity].
    clear -Hnone. induction older as [| [t1 c1] older IH]; simpl; [reflexivity |].
    destruct c1; simpl;
      try (apply IH; intros t' Hin; apply (Hnone t'); now right).
    exfalso. apply (Hnone t1). now left.
  - destruct (IH Hin) as [Hab Hc]. split; [exact Hab |].
    destruct c; simpl; try exact Hc.
    simpl in Hok. destruct Hok as [Hnone _]. now contradiction (Hnone t).
Qed.

Lemma run_facts : RunFacts run.
Proof.
  unfold run, runSandboxAgent.
  unfold bindM at 1, await. cbn [tick initialState].
  set (st1 := record CreateSession initialState).
  assert (Link st1) as L1.
  { constructor; simpl; auto. repeat constructor. }
  destruct (fails rt 0%nat) as [e0 |] eqn:Hf0.
  { constructor; simpl; try first [assumption | discriminate].
    - repeat constructor.
    - intros t e [[=] | []].
    - intros t [[=] | []].
    - intros _ _ _ H. congruence. }
  destruct (mainLoop_first_spec (abortAt rt) st1 L1 eq_refl eq_refl eq_refl)
    as (o & st2 & E & L2 & T2 & N2 & Fol2 & F2 & SF2 & X2 & A2 & Q2); [simpl; lia |].
  assert (countCalls isTerminate (trace st2) = 0%nat) as Hc2.
  { rewrite (countCalls_NewOnly _ _ _ _ N2 runCall_not_terminate). reflexivity. }
  assert (forall t, ~ In (t, TerminateSession) (trace st2)) as Hnt2.
  { intros t. now apply (countCalls_zero isTerminate). }
  unfold bindM at 1, tryCatch. unfold bindM at 1. rewrite E.
  destruct o as [[r |] | e |].
  - (* a result was returned from inside the loop *)
    unfold ret. constructor; simpl; try first [assumption | discriminate].
    + intros t e Hin Hlt Hno. destruct (SF2 t e Hin Hlt Hno) as [[=] _].
    + intros t Hin. now contradiction (Hnt2 t).
    + intros Hq _ _ _. now contradiction (Q2 Hq eq_refl eq_refl r).
  - (* the loop was left: the deadline has passed *)
    pose proof (A2 eq_refl) as Hab.
    unfold bindM at 1. rewrite aborted_eq.
    apply Nat.leb_le in Hab. rewrite Hab. apply Nat.leb_le in Hab.
    destruct (terminate_spec terminateAfterTimeout st2 (or_introl eq_refl) L2 Hab Hc2 Fol2)
      as (st3 & E3 & L3 & Fol3 & C3 & In3 & P3 & SF3 & Lg3).
    unfold bindM at 1. rewrite E3. unfold bindM, get, ret. simpl.
    constructor; simpl; try first [assumption | discriminate].
    + intros t e Hin Hlt Hno. apply SF3 in Hin.
      destruct (SF2 t e Hin Hlt Hno) as [[=] _].
    + intros t Hin e Hfl.
      destruct (Good_terminate_tick _ _ (link_good _ L3) Hin) as [Habt _].
      assert (t = tick st2) as ->; [| eauto].
      destruct (Good_terminate_tick _ _ (link_good _ L3) In3) as [_ Hone].
      clear -Hin In3 Hone Hnt2 E3.
      unfold terminateAfterTimeout, bindM, tryCatch, note, modify, await in E3. simpl in E3.
      destruct (fails rt (tick st2)); simpl in E3; injection E3 as <-; simpl in Hin;
        destruct Hin as [[=] | [[= ->] | [[=] | Hin]]]; try reflexivity;
        now contradiction (Hnt2 t).
    + intros _ _ _ _. eexists. split; [reflexivity |].
      unfold timeoutResult. destruct (finalize_keeps
        (resultOf st3 false "timeout" (buildSummary (filesModified st3))
           (Some ("Timeout after " +:+ formatSeconds (timeoutMs runConfig)
                  +:+ "s - " +:+ "session terminated")))) as [-> ->].
      split_and!; try reflexivity. exact C3.
  - (* an exception reached the catch clause *)
    unfold bindM at 1. rewrite aborted_eq.
    destruct (abortAt rt <=? tick st2)%nat eqn:Hab.
    + apply Nat.leb_le in Hab.
      destruct (terminate_spec terminateAfterError st2 (or_intror eq_refl) L2 Hab Hc2 Fol2)
        as (st3 & E3 & L3 & Fol3 & C3 & In3 & P3 & SF3 & Lg3).
      unfold bindM at 1. rewrite E3. unfold bindM, get, ret. simpl.
      constructor; simpl; try first [assumption | discriminate].
      * intros t e' Hin Hlt Hno. apply SF3 in Hin.
        destruct (SF2 t e' Hin Hlt Hno) as [_ Ht]. lia.
      * intros t Hin e' Hfl.
        assert (t = tick st2) as ->; [| eauto].
        clear -Hin Hnt2 E3.
        unfold terminateAfterError, bindM, tryCatch, note, modify, await in E3. simpl in E3.
        destruct (fails rt (tick st2)); simpl in E3; injection E3 as <-; simpl in Hin;
          repeat (destruct Hin as [[=] | Hin]); subst; try reflexivity;
          now contradiction (Hnt2 t).
      * intros _ _ _ _. eexists. split; [reflexivity |].
        unfold timeoutResult. destruct (finalize_keeps
          (resultOf st3 false "timeout" (buildSummary (filesModified st3))
             (Some ("Timeout after " +:+ formatSeconds (timeoutMs runConfig)
                    +:+ "s - " +:+ errorText e)))) as [-> ->].
        split_and!; try reflexivity. exact C3.
    + apply Nat.leb_gt in Hab. unfold throw. simpl.
      constructor; simpl; try first [assumption | discriminate].
      * intros t e' Hin Hlt Hno. destruct (SF2 t e' Hin Hlt Hno) as [Heq _].
        injection Heq as <-. reflexivity.
      * intros t Hin. now contradiction (Hnt2 t).
      * intros Hq Hs Hn _. exfalso.
        destruct (X2 e eq_refl) as [(t & Ht & Hfl) | [Hend Hno]].
        -- destruct (Nat.lt_ge_cases t (abortAt rt)) as [Hlt | Hge]; [| lia].
           rewrite (Hn t Hlt) in Hfl. discriminate.
        -- rewrite (Hs e Hend) in Hno. discriminate.
  - now contradiction F2.
Qed.

(** *** Reading the trace of a run *)

Lemma Good_split (post pre : list (nat * Call)) (t : nat) (c : Call) :
  Good (post ++ (t, c) :: pre) -> okEntry pre t c /\ Good pre.
Proof.
  induction post as [| [t' c'] post IH]; simpl; intros H; inversion H; subst; auto.
Qed.

Lemma Good_sequence (tr : list (nat * Call)) :
  Good tr ->
  map fst (handledOf tr) = seq 0 (length (handledOf tr))
  /\ map snd (handledOf tr) = firstn (length (handledOf tr)) (log rt).
Proof.
  induction 1 as [| t c older Hg [IH1 IH2] Hok]; simpl; [split; reflexivity |].
  destruct c; simpl; try (split; assumption).
  simpl in Hok. destruct Hok as [Hnth _]. apply indexed_nth in Hnth.
  destruct Hnth as [-> Hnth].
  rewrite !map_app, !length_app. simpl. rewrite Nat.add_1_r. split.
  - rewrite seq_S. simpl. now rewrite IH1.
  - rewrite IH2. clear -Hnth. revert Hnth.
    generalize (length (handledOf older)) as n. generalize (log rt) as l.
    induction l as [| x l IH]; intros n; destruct n as [| n]; simpl; try discriminate.
    + now intros [= ->].
    + intros H. now rewrite <- (IH n H).
Qed.

Lemma Good_streamTurn_once (tr : list (nat * Call)) :
  Good tr -> (countCalls isStreamTurn tr <= 1)%nat.
Proof.
  induction 1 as [| t c older Hg IH Hok]; simpl; [lia |].
  destruct c; simpl; try exact IH.
  simpl in Hok. destruct Hok as [Hnone _].
  assert (countCalls isStreamTurn older = 0%nat) as ->; [| lia].
  clear -Hnone. induction older as [| [t1 c1] older IH]; simpl; [reflexivity |].
  destruct c1; simpl;
    try (apply IH; intros t' Hin; apply (Hnone t'); now right).
  exfalso. apply (Hnone t1). now left.
Qed.

Lemma Follow_In (tr : list (nat * Call)) (t : nat) (c : Call) :
  Follow tr None -> In (t, c) tr -> followed tr None (t, c).
Proof. unfold Follow. rewrite List.Forall_forall. auto. Qed.

(** The trace only grows. *)
Definition grows (tr' tr : list (nat * Call)) : Prop := exists new, tr' = new ++ tr.

Lemma grows_refl (tr : list (nat * Call)) : grows tr tr.
Proof. now exists []. Qed.

Lemma grows_trans (a b c : list (nat * Call)) : grows b a -> grows c b -> grows c a.
Proof. intros [n1 ->] [n2 ->]. exists (n2 ++ n1). now rewrite app_assoc. Qed.

Lemma grows_In (tr' tr : list (nat * Call)) (e : nat * Call) :
  grows tr' tr -> In e tr -> In e tr'.
Proof. intros [new ->] H. apply in_or_app. now right. Qed.

Lemma handlePage_grows (events : list (nat * UniversalEvent)) (st : RunState)
    (o : Outcome (option SandboxResult)) (st' : RunState) :
  handlePage events st = (o, st') ->
  grows (trace st') (trace st) /\ (tick st <= tick st')%nat.
Proof.
  revert st. induction events as [| [sequence event] rest IH]; intros st.
  - simpl. unfold ret. intros [= <- <-]. split; [apply grows_refl | lia].
  - cbn [handlePage]. unfold bindM at 1. unfold modify at 1.
    unfold bindM at 1. unfold note, modify at 1.
    set (st1 := mark (Handle FromPoll sequence event) (setOffset (S (offset st)) st)).
    destruct (handleEvent_spec event st1) as (o1 & st2 & E & [_ _ Ft (new & Htr & _)] & _).
    unfold bindM at 1. rewrite E.
    assert (grows (trace st2) (trace st)) as G2.
    { exists (new ++ [(tick st, Handle FromPoll sequence event)]).
      rewrite Htr. simpl. now rewrite <- app_assoc. }
    simpl in Ft.
    destruct o1 as [[r |] | e |]; try (intros [= <- <-]; split; [exact G2 | exact Ft]).
    intros H. destruct (IH st2 H) as [G3 T3].
    split; [eapply grows_trans; eassumption | lia].
Qed.

(** Polling gives up without a result only when the deadline has passed, or
    the last page requested was empty, or the runtime reported no more
    events with it. *)
Lemma pollLoop_stops (fuel : nat) (hasMore : bool) (st st' : RunState) :
  pollLoop fuel hasMore st = (Ret None, st') ->
  hasMore = false
  \/ (abortAt rt <= tick st')%nat
  \/ exists t o,
       In (t, GetEvents o 100) (trace st') /\ (tick st <= t)%nat
       /\ (firstn (Nat.min 100 (pageLen rt t)) (skipn o (indexed (log rt))) = []
           \/ hasMoreAt rt t = false).
Proof.
  revert hasMore st. induction fuel as [| fuel IH]; intros hasMore st; [discriminate |].
  cbn [pollLoop]. unfold bindM at 1. rewrite aborted_eq.
  destruct hasMore; [| auto].
  destruct (abortAt rt <=? tick st)%nat eqn:Hab; simpl.
  { intros [= <-]. right. left. now apply Nat.leb_le. }
  unfold bindM at 1. rewrite getEvents_eq.
  destruct (fails rt (tick st)); [discriminate |].
  set (st1 := record (GetEvents (offset st) 100) st).
  set (events := firstn (Nat.min 100 (pageLen rt (tick st)))
                   (skipn (offset st) (indexed (log rt)))).
  unfold bindM at 1. cbn [fst snd].
  destruct (handlePage events st1) as [[[r |] | e |] st2] eqn:E2; try discriminate.
  destruct (handlePage_grows _ _ _ _ E2) as [G2 T2].
  assert (In (tick st, GetEvents (offset st) 100) (trace st2)) as Hin.
  { apply (grows_In _ _ _ G2). simpl. now left. }
  destruct (length events =? 0)%nat eqn:Hlen.
  - intros [= <-]. right. right. exists (tick st), (offset st).
    split_and!; [exact Hin | lia |]. left.
    apply Nat.eqb_eq in Hlen. apply List.length_zero_iff_nil. exact Hlen.
  - intros Hrec. destruct (IH _ _ Hrec) as [Hno | [Hab' | (t & o & Hin' & Ht & Hend)]].
    + right. right. exists (tick st), (offset st). split_and!; [| lia | now right].
      assert (grows (trace st') (trace st2)) as G3.
      { clear -Hrec. revert Hrec. generalize (hasMoreAt rt (tick st)) as hm.
        revert st2. induction fuel as [| fuel IHf]; intros st2 hm; [discriminate |].
        cbn [pollLoop]. unfold bindM at 1. rewrite aborted_eq.
        destruct (hm && negb (abortAt rt <=? tick st2)%nat).
        2:{ intros [= <-]. apply grows_refl. }
        unfold bindM at 1. rewrite getEvents_eq.
        destruct (fails rt (tick st2)); [discriminate |].
        unfold bindM at 1. cbn [fst snd].
        match goal with
        | |- context [handlePage ?ev ?s] =>
            destruct (handlePage ev s) as [[[r |] | e |] st3] eqn:Ea; try discriminate
        end.
        destruct (handlePage_grows _ _ _ _ Ea) as [Ga _].
        assert (grows (trace st3) (trace st2)) as Gb.
        { eapply grows_trans; [| exact Ga]. now exists [(tick st2, GetEvents (offset st2) 100)]. }
        match goal with
        | |- context [if ?b then _ else _] => destruct b
        end.
        - intros [= <-]. exact Gb.
        - intros H. eapply grows_trans; [exact Gb |]. eapply IHf. exact H. }
      apply (grows_In _ _ _ G3). exact Hin.
    + auto.
    + right. right. exists t, o. split_and!; auto. simpl in T2. lia.
Qed.

(** *** Where a returned result comes from *)

(** A result is built from the state [st]: its [filesModified] and answer
    are those of [st], before finalization. *)
Definition builtFrom (st : RunState) (result : SandboxResult) : Prop :=
  exists ok why text err, result = finalize (resultOf st ok why text err).

Lemma bindM_inv {A B : Type} (m : M A) (k : A -> M B) (st st' : RunState) (b : B) :
  bindM m k st = (Ret b, st') ->
  exists a st1, m st = (Ret a, st1) /\ k a st1 = (Ret b, st').
Proof.
  unfold bindM. destruct (m st) as [[a | e |] st1]; intros H; try discriminate. eauto.
Qed.

Tactic Notation "invert_bind" hyp(H) "as" ident(a) ident(st) ident(E) :=
  apply bindM_inv in H; destruct H as (a & st & E & H).

Ltac skip_bind H := apply bindM_inv in H; destruct H as (? & ? & _ & H).

Lemma handleEvent_built (event : UniversalEvent) (st st' : RunState) (r : SandboxResult) :
  handleEvent event st = (Ret (Some r), st') -> builtFrom st' r.
Proof.
  destruct event as [| item | permData | question_id | endReason message | type];
    unfold handleEvent; intros H.
  - skip_bind H. discriminate.
  - do 2 skip_bind H. destruct item as [item |]; [| discriminate].
    do 3 skip_bind H. discriminate.
  - destruct (decidePermissionReply permData permissionPolicy); [| discriminate].
    do 2 skip_bind H. discriminate.
  - skip_bind H. discriminate.
  - unfold bindM, get, ret in H. injection H as <- <-. unfold builtFrom. eauto.
  - discriminate.
Qed.

Lemma handlePage_built (events : list (nat * UniversalEvent)) (st st' : RunState)
    (r : SandboxResult) :
  handlePage events st = (Ret (Some r), st') -> builtFrom st' r.
Proof.
  revert st. induction events as [| [sequence event] rest IH]; intros st H; [discriminate |].
  cbn [handlePage] in H. do 2 skip_bind H. invert_bind H as result st1 E.
  destruct result as [r1 |].
  - injection H as <- <-. eapply handleEvent_built. eassumption.
  - eapply IH. eassumption.
Qed.

Lemma pollLoop_built (fuel : nat) (hasMore : bool) (st st' : RunState) (r : SandboxResult) :
  pollLoop fuel hasMore st = (Ret (Some r), st') -> builtFrom st' r.
Proof.
  revert hasMore st. induction fuel as [| fuel IH]; intros hasMore st H; [discriminate |].
  cbn [pollLoop] in H. invert_bind H as isAborted st1 E1.
  destruct (hasMore && negb isAborted); [| discriminate].
  invert_bind H as response st2 E2. invert_bind H as result st3 E3.
  destruct result as [r1 |].
  - injection H as <- <-. eapply handlePage_built. eassumption.
  - destruct (length response.1 =? 0)%nat; [discriminate |]. eapply IH. eassumption.
Qed.

Lemma streamLoop_built (events : list (nat * UniversalEvent)) (st st' : RunState)
    (r : SandboxResult) :
  streamLoop events st = (Ret (Some r), st') -> builtFrom st' r.
Proof.
  revert st. induction events as [| [sequence event] rest IH]; intros st H;
    cbn [streamLoop] in H.
  - skip_bind H. destruct (streamEnd rt); [| discriminate].
    skip_bind H. discriminate.
  - skip_bind H. invert_bind H as isAborted st1 E1. destruct isAborted; [discriminate |].
    do 2 skip_bind H. invert_bind H as result st2 E2. destruct result as [r1 |].
    + injection H as <- <-. eapply handleEvent_built. eassumption.
    + eapply IH. eassumption.
Qed.

Lemma streamPhase_built (st st' : RunState) (r : SandboxResult) :
  streamPhase st = (Ret (Return r), st') -> builtFrom st' r.
Proof.
  unfold streamPhase. intros H. do 2 skip_bind H.
  unfold tryCatch in H.
  match type of H with
  | context [bindM ?m ?k ?s] => destruct (bindM m k s) as [[flow | e |] st1] eqn:E1
  end; try discriminate.
  - injection H as -> <-. invert_bind E1 as result st2 E2.
    destruct result as [r1 |]; [| discriminate].
    injection E1 as <- <-. eapply streamLoop_built. eassumption.
  - invert_bind H as isAborted st2 E2. destruct isAborted; [discriminate |].
    destruct (negb (isRetryableStreamError e)); discriminate.
Qed.

Lemma afterStreaming_built (fuel : nat) (continue : M (option SandboxResult))
    (st st' : RunState) (r : SandboxResult) :
  (forall st1, continue st1 = (Ret (Some r), st') -> builtFrom st' r) ->
  afterStreaming fuel continue st = (Ret (Some r), st') -> builtFrom st' r.
Proof.
  intros Hcont H. unfold afterStreaming, pollEvents in H. invert_bind H as result st1 E1.
  destruct result as [r1 |].
  - injection H as <- <-. eapply pollLoop_built. eassumption.
  - invert_bind H as st2 st3 E2. unfold get in E2. injection E2 as <- <-.
    destruct (sawFailed st1); [injection H as <- <-; unfold builtFrom; eauto |].
    destruct (sawCompleted st1); [injection H as <- <-; unfold builtFrom; eauto |].
    skip_bind H. eapply Hcont. eassumption.
Qed.

Lemma mainLoop_built (fuel : nat) (st st' : RunState) (r : SandboxResult) :
  mainLoop fuel st = (Ret (Some r), st') -> builtFrom st' r.
Proof.
  revert st. induction fuel as [| fuel IH]; intros st H; [discriminate |].
  cbn [mainLoop] in H. invert_bind H as isAborted st1 E1. destruct isAborted; [discriminate |].
  invert_bind H as st2 st3 E2. unfold get in E2. injection E2 as <- <-.
  invert_bind H as flow st4 E4. destruct flow as [| | r1].
  - eapply afterStreaming_built; [| eassumption]. intros st5. apply IH.
  - discriminate.
  - injection H as <- <-.
    destruct (negb (sentTurn st1)); [| discriminate].
    eapply streamPhase_built. eassumption.
Qed.

(** A result a run returns is built from the run's last state. *)
Lemma run_built (result : SandboxResult) :
  run.1 = Ret result -> builtFrom run.2 result.
Proof.
  destruct run as [o st'] eqn:Hrun. simpl. intros ->.
  unfold run, runSandboxAgent in Hrun. skip_bind Hrun. invert_bind Hrun as returned st1 E1.
  assert (forall r, returned = Some r -> builtFrom st1 r) as Hsome.
  { intros r ->. unfold tryCatch in E1.
    match type of E1 with
    | context [bindM ?m ?k ?s] => destruct (bindM m k s) as [[returned | e |] st2] eqn:E2
    end; try discriminate.
    - injection E1 as -> <-. invert_bind E2 as result1 st3 E3. destruct result1 as [r1 |].
      + injection E2 as <- <-. eapply mainLoop_built. eassumption.
      + invert_bind E2 as timedOut st4 E4. destruct timedOut; [| discriminate].
        skip_bind E2. invert_bind E2 as st5 st6 E5. unfold get in E5. injection E5 as <- <-.
        injection E2 as <- <-. unfold builtFrom, timeoutResult. eauto.
    - invert_bind E1 as timedOut st4 E4. destruct timedOut; [| discriminate].
      skip_bind E1. invert_bind E1 as st5 st6 E5. unfold get in E5. injection E5 as <- <-.
      injection E1 as <- <-. unfold builtFrom, timeoutResult. eauto. }
  destruct returned as [r |].
  - injection Hrun as <- <-. now apply Hsome.
  - invert_bind Hrun as st2 st3 E2. unfold get in E2. injection E2 as <- <-.
    injection Hrun as <- <-. unfold builtFrom. eauto.
Qed.

(** *** The modified files, said in the words of the specification *)

(** The paths of the file-modification records of an item's content whose
    action is write or patch, in order of appearance. *)
Definition writtenPathsOf (parts : list ContentPart) : list string :=
  flat_map (fun part =>
              match part with
              | FileRefPart path action =>
                  if String.eqb action "write" || String.eqb action "patch"
                  then [path] else []
              | _ => []
              end) parts.

Definition writtenPaths (event : UniversalEvent) : list string :=
  match event with
  | ItemCompleted (Some item) => writtenPathsOf (item_content item)
  | _ => []
  end.

(** Deduplicated by path, insertion order preserved: every path once, at
    the place of its first occurrence. *)
Fixpoint firstOccurrences (paths : list string) : list string :=
  match paths with
  | [] => []
  | path :: rest =>
      path :: List.filter (fun q => negb (String.eqb q path)) (firstOccurrences rest)
  end.

(** [if (!filesModified.includes(path)) filesModified.push(path)] *)
Definition push (files : list string) (path : string) : list string :=
  if Js.arrayIncludes files path then files else files ++ [path].

Lemma addPart_push (parts : list ContentPart) (files : list string) :
  fold_left addPart parts files = fold_left push (writtenPathsOf parts) files.
Proof.
  revert files. induction parts as [| part rest IH]; intros files; [reflexivity |].
  unfold writtenPathsOf. simpl. rewrite fold_left_app. fold (writtenPathsOf rest).
  rewrite IH. f_equal.
  destruct part as [text | path action | name | type]; try reflexivity.
  simpl. unfold push.
  destruct (String.eqb action "write" || String.eqb action "patch"); [| reflexivity].
  simpl. destruct (Js.arrayIncludes files path); reflexivity.
Qed.

Lemma addEvent_push (event : UniversalEvent) (files : list string) :
  addEvent files event = fold_left push (writtenPaths event) files.
Proof.
  destruct event as [| [item |] | | | |]; try reflexivity. apply addPart_push.
Qed.

Lemma addEvents_push (events : list UniversalEvent) (files : list string) :
  fold_left addEvent events files = fold_left push (flat_map writtenPaths events) files.
Proof.
  revert files. induction events as [| event rest IH]; intros files; [reflexivity |].
  simpl. rewrite fold_left_app, IH, addEvent_push. reflexivity.
Qed.

Lemma filter_filter_and {A : Type} (f g : A -> bool) (l : list A) :
  List.filter f (List.filter g l) = List.filter (fun x => g x && f x) l.
Proof.
  induction l as [| x l IH]; [reflexivity |]. simpl.
  destruct (g x); simpl; [destruct (f x) |]; now rewrite IH.
Qed.

Lemma filter_all {A : Type} (f : A -> bool) (l : list A) :
  (forall x, f x = true) -> List.filter f l = l.
Proof.
  intros H. induction l as [| x l IH]; [reflexivity |]. simpl. now rewrite H, IH.
Qed.

Lemma push_firstOccurrences (paths files : list string) :
  fold_left push paths files
  = files ++ List.filter (fun q => negb (Js.arrayIncludes files q)) (firstOccurrences paths).
Proof.
  revert files. induction paths as [| path rest IH]; intros files.
  - simpl. now rewrite app_nil_r.
  - simpl. unfold push at 2. destruct (Js.arrayIncludes files path) eqn:Hin; simpl.
    + rewrite IH, filter_filter_and. f_equal. apply List.filter_ext. intros q.
      destruct (String.eqb q path) eqn:Hq; [| reflexivity].
      apply String.eqb_eq in Hq. subst q. now rewrite Hin.
    + rewrite IH, <- app_assoc, filter_filter_and. simpl. do 2 f_equal.
      apply List.filter_ext. intros q. unfold Js.arrayIncludes.
      rewrite existsb_app. simpl. rewrite orb_false_r, negb_orb. apply andb_comm.
Qed.

(** The list the loop builds is the list of first occurrences of the
    written and patched paths of the events handled. *)
Lemma addEvents_firstOccurrences (events : list UniversalEvent) :
  fold_left addEvent events [] = firstOccurrences (flat_map writtenPaths events).
Proof.
  rewrite addEvents_push, push_firstOccurrences. simpl.
  apply filter_all. reflexivity.
Qed.

Lemma pushes_firstOccurrences (paths : list string) :
  fold_left push paths [] = firstOccurrences paths.
Proof. rewrite push_firstOccurrences. simpl. apply filter_all. reflexivity. Qed.

Lemma firstOccurrences_In (paths : list string) (path : string) :
  In path (firstOccurrences paths) <-> In path paths.
Proof.
  induction paths as [| p rest IH]; [reflexivity |].
  cbn [firstOccurrences]. split.
  - intros [H | H]; [now left | right].
    apply List.filter_In in H. now apply IH.
  - intros [H | H]; [now left |].
    destruct (String.eqb path p) eqn:Heq.
    + apply String.eqb_eq in Heq. now left.
    + right. apply List.filter_In. split; [now apply IH | now rewrite Heq].
Qed.

Lemma firstOccurrences_NoDup (paths : list string) : List.NoDup (firstOccurrences paths).
Proof.
  induction paths as [| p rest IH]; cbn [firstOccurrences]; constructor.
  - intros H. apply List.filter_In in H. destruct H as [_ H].
    now rewrite String.eqb_refl in H.
  - now apply List.NoDup_filter.
Qed.

Lemma Good_In (tr : list (nat * Call)) (t : nat) (c : Call) :
  Good tr -> In (t, c) tr -> exists pre, okEntry pre t c.
Proof.
  intros Hg Hin. apply in_split in Hin. destruct Hin as (post & pre & ->).
  exists pre. now apply (Good_split post).
Qed.

(** *** The pace of polling *)

(** The page that a request started at tick [t] from offset [o] returns. *)
Definition pageAt (t o : nat) : list (nat * UniversalEvent) :=
  firstn (Nat.min 100 (pageLen rt t)) (skipn o (indexed (log rt))).

(** Going back from the newest entry, the page request that comes before
    any delay, by its tick and offset: [None] when a delay comes first, or
    when no page was requested. *)
Fixpoint lastRequest (tr : list (nat * Call)) : option (nat * nat) :=
  match tr with
  | [] => None
  | (_, Delay _) :: _ => None
  | (t, GetEvents o _) :: _ => Some (t, o)
  | _ :: older => lastRequest older
  end.

(** A page may be requested with the entries [older] behind: a delay has
    passed since the last request, or that request succeeded, returned events
    and came with [hasMore]. *)
Definition mayRequest (older : list (nat * Call)) : Prop :=
  match lastRequest older with
  | Some (t, o) => fails rt t = None /\ pageAt t o <> [] /\ hasMoreAt rt t = true
  | None => True
  end.

(** Every page request of a trace was made when it might be. *)
Inductive Paced : list (nat * Call) -> Prop :=
| Paced_nil : Paced []
| Paced_cons (t : nat) (c : Call) (older : list (nat * Call)) :
    Paced older -> (forall o l, c = GetEvents o l -> mayRequest older) ->
    Paced ((t, c) :: older).

(** Entries that are neither a page request nor a delay. *)
Definition passes (c : Call) : Prop :=
  match c with GetEvents _ _ | Delay _ => False | _ => True end.

Lemma Paced_new (new tr : list (nat * Call)) :
  Forall (fun e : nat * Call => passes e.2) new -> Paced tr -> Paced (new ++ tr).
Proof.
  intros Hnew Htr. induction Hnew as [| [t c] new Hc _ IH]; simpl; [exact Htr |].
  constructor; [exact IH |]. intros o l ->. destruct Hc.
Qed.

Lemma lastRequest_new (new tr : list (nat * Call)) :
  Forall (fun e : nat * Call => passes e.2) new -> lastRequest (new ++ tr) = lastRequest tr.
Proof.
  induction 1 as [| [t c] new Hc _ IH]; simpl; [reflexivity |].
  destruct c; simpl in Hc; try exact IH; destruct Hc.
Qed.

Lemma Paced_split (post pre : list (nat * Call)) (t o l : nat) :
  Paced (post ++ (t, GetEvents o l) :: pre) -> mayRequest pre.
Proof.
  induction post as [| [t' c'] post IH]; simpl; intros H; inversion H; subst; eauto.
Qed.

Lemma side_passes (new : list (nat * Call)) :
  Forall (fun e : nat * Call => isSideCall e.2 = true) new ->
  Forall (fun e : nat * Call => passes e.2) new.
Proof.
  intros Hside. eapply Forall_impl; [exact Hside |].
  intros [t c] H. destruct c; simpl in *; try discriminate; exact I.
Qed.

(** Handling an event, and handling the events of a page or of the stream,
    requests no page and waits for no delay. *)
Lemma deliver_passes (src : Source) (sequence : nat) (event : UniversalEvent)
    (st : RunState) :
  exists new,
    trace (handleEvent event (mark (Handle src sequence event)
                                (setOffset (S (offset st)) st))).2
    = new ++ trace st
    /\ Forall (fun e : nat * Call => passes e.2) new.
Proof.
  set (st1 := mark (Handle src sequence event) (setOffset (S (offset st)) st)).
  destruct (handleEvent_spec event st1) as (o1 & st2 & E & [_ _ _ (new & Htr & Hside)] & _).
  rewrite E. exists (new ++ [(tick st, Handle src sequence event)]). split.
  - cbn [snd]. rewrite Htr. simpl. now rewrite <- app_assoc.
  - apply Forall_app. split; [now apply side_passes |]. repeat constructor.
Qed.

Lemma handlePage_passes (events : list (nat * UniversalEvent)) (st : RunState) :
  exists new,
    trace (handlePage events st).2 = new ++ trace st
    /\ Forall (fun e : nat * Call => passes e.2) new.
Proof.
  revert st. induction events as [| [sequence event] rest IH]; intros st.
  - exists []. split; [reflexivity | constructor].
  - cbn [handlePage]. unfold bindM at 1. unfold modify at 1.
    unfold bindM at 1. unfold note, modify at 1.
    destruct (deliver_passes FromPoll sequence event st) as (new & Htr & Hnew).
    unfold bindM at 1.
    destruct (handleEvent event _) as [[[r |] | e |] st2]; cbn [snd] in *;
      try (exists new; split; [exact Htr | exact Hnew]).
    destruct (IH st2) as (new2 & Htr2 & Hnew2). exists (new2 ++ new). split.
    + rewrite Htr2, Htr. now rewrite app_assoc.
    + now apply Forall_app.
Qed.

Lemma streamLoop_passes (events : list (nat * UniversalEvent)) (st : RunState) :
  exists new,
    trace (streamLoop events st).2 = new ++ trace st
    /\ Forall (fun e : nat * Call => passes e.2) new.
Proof.
  revert st. induction events as [| [sequence event] rest IH]; intros st.
  - cbn [streamLoop]. unfold bindM at 1, awaitQuiet. unfold modify at 1.
    destruct (streamEnd rt) as [e |].
    + exists [(S (tick st), StreamFailed e); (tick st, StreamNext)].
      split; [reflexivity | repeat constructor].
    + exists [(tick st, StreamNext)]. split; [reflexivity | repeat constructor].
  - cbn [streamLoop]. unfold bindM at 1, awaitQuiet. unfold modify at 1.
    set (st1 := record StreamNext st).
    unfold bindM at 1. rewrite aborted_eq.
    destruct (abortAt rt <=? tick st1)%nat.
    + exists [(tick st, StreamNext)]. split; [reflexivity | repeat constructor].
    + unfold bindM at 1. unfold modify at 1.
      unfold bindM at 1. unfold note, modify at 1.
      destruct (deliver_passes FromStream sequence event st1) as (new & Htr & Hnew).
      assert (Forall (fun e : nat * Call => passes e.2) (new ++ [(tick st, StreamNext)]))
        as Hnew1.
      { apply Forall_app. split; [exact Hnew | repeat constructor]. }
      assert (forall st2, trace st2 = new ++ trace st1 ->
                          trace st2 = (new ++ [(tick st, StreamNext)]) ++ trace st) as Hst1.
      { intros st2 ->. now rewrite <- app_assoc. }
      unfold bindM at 1.
      destruct (handleEvent event _) as [[[r |] | e |] st2]; cbn [snd] in *;
        try (exists (new ++ [(tick st, StreamNext)]); split; [now apply Hst1 | exact Hnew1]).
      destruct (IH st2) as (new2 & Htr2 & Hnew2).
      exists (new2 ++ new ++ [(tick st, StreamNext)]). split.
      * rewrite Htr2, (Hst1 _ Htr). now rewrite !app_assoc.
      * now apply Forall_app.
Qed.

Lemma streamPhase_passes (st : RunState) :
  exists new,
    trace (streamPhase st).2 = new ++ trace st
    /\ Forall (fun e : nat * Call => passes e.2) new.
Proof.
  unfold streamPhase. unfold bindM at 1. unfold modify at 1.
  unfold bindM at 1. unfold note, modify at 1.
  set (st0 := mark StreamTurn (setSentTurn true st)).
  destruct (streamLoop_passes (firstn (streamed rt) (indexed (log rt))) st0)
    as (new & Htr & Hnew).
  exists (new ++ [(tick st, StreamTurn)]). split.
  - unfold tryCatch, bindM at 1.
    destruct (streamLoop _ st0) as [[[r |] | e |] st1]; cbn [snd] in *;
      try (unfold ret; cbn [snd]; rewrite Htr; now rewrite <- app_assoc).
    unfold bindM at 1. rewrite aborted_eq.
    destruct (abortAt rt <=? tick st1)%nat; [| destruct (negb _)];
      unfold ret, throw; cbn [snd]; rewrite Htr; now rewrite <- app_assoc.
  - apply Forall_app. split; [exact Hnew | repeat constructor].
Qed.

(** The loop of [pollEvents] asks for the next page only when the page
    before it held events and came with [hasMore]. *)
Lemma pollLoop_paced (fuel : nat) (hasMore : bool) (st : RunState) :
  Paced (trace st) -> (hasMore = true -> mayRequest (trace st)) ->
  Paced (trace (pollLoop fuel hasMore st).2).
Proof.
  revert hasMore st. induction fuel as [| fuel IH]; intros hasMore st Hp Hmay; [exact Hp |].
  cbn [pollLoop]. unfold bindM at 1. rewrite aborted_eq.
  destruct (hasMore && negb (abortAt rt <=? tick st)%nat) eqn:Hgo; [| exact Hp].
  apply andb_true_iff in Hgo. destruct Hgo as [-> _].
  unfold bindM at 1. rewrite getEvents_eq.
  set (st1 := record (GetEvents (offset st) 100) st).
  assert (Paced (trace st1)) as Hp1.
  { constructor; [exact Hp |]. intros _ _ _. now apply Hmay. }
  destruct (fails rt (tick st)) as [e |] eqn:Hfail; [exact Hp1 |].
  unfold bindM at 1. cbn [fst snd].
  fold (pageAt (tick st) (offset st)).
  destruct (handlePage_passes (pageAt (tick st) (offset st)) st1) as (new & Htr & Hnew).
  destruct (handlePage (pageAt (tick st) (offset st)) st1) as [o st2]. cbn [snd] in Htr.
  assert (Paced (trace st2)) as Hp2.
  { rewrite Htr. now apply Paced_new. }
  destruct o as [[r |] | e |]; try exact Hp2.
  destruct (length (pageAt (tick st) (offset st)) =? 0)%nat eqn:Hlen; [exact Hp2 |].
  apply IH; [exact Hp2 |]. intros Hmore. unfold mayRequest.
  rewrite Htr, (lastRequest_new _ _ Hnew). simpl. split_and!; [exact Hfail | | exact Hmore].
  intros Hnil. rewrite Hnil in Hlen. discriminate.
Qed.

Lemma afterStreaming_paced (fuel : nat) (continue : M (option SandboxResult))
    (st : RunState) :
  Paced (trace st) -> mayRequest (trace st) ->
  (forall st2, Paced (trace st2) -> mayRequest (trace st2) -> Paced (trace (continue st2).2)) ->
  Paced (trace (afterStreaming fuel continue st).2).
Proof.
  intros Hp Hmay Hcont. unfold afterStreaming, pollEvents, bindM at 1.
  pose proof (pollLoop_paced fuel true st Hp (fun _ => Hmay)) as Hp1.
  destruct (pollLoop fuel true st) as [[[r |] | e |] st1]; cbn [snd] in Hp1; try exact Hp1.
  unfold bindM at 1, get.
  destruct (sawFailed st1); [exact Hp1 |].
  destruct (sawCompleted st1); [exact Hp1 |].
  unfold bindM at 1, awaitQuiet, modify. apply Hcont.
  - constructor; [exact Hp1 |]. intros o l [=].
  - exact I.
Qed.

Lemma mainLoop_paced (fuel : nat) (st : RunState) :
  Paced (trace st) -> mayRequest (trace st) -> Paced (trace (mainLoop fuel st).2).
Proof.
  revert st. induction fuel as [| fuel IH]; intros st Hp Hmay; [exact Hp |].
  cbn [mainLoop]. unfold bindM at 1. rewrite aborted_eq.
  destruct (abortAt rt <=? tick st)%nat; [exact Hp |].
  unfold bindM at 1, get.
  assert (exists new,
             trace ((if negb (sentTurn st) then streamPhase else ret Proceed) st).2
             = new ++ trace st
             /\ Forall (fun e : nat * Call => passes e.2) new) as (new & Htr & Hnew).
  { destruct (negb (sentTurn st)); [apply streamPhase_passes |].
    exists []. split; [reflexivity | constructor]. }
  unfold bindM at 1.
  destruct ((if negb (sentTurn st) then streamPhase else ret Proceed) st) as [o st1].
  cbn [snd] in Htr.
  assert (Paced (trace st1)) as Hp1 by (rewrite Htr; now apply Paced_new).
  assert (mayRequest (trace st1)) as Hmay1.
  { unfold mayRequest. rewrite Htr, (lastRequest_new _ _ Hnew). exact Hmay. }
  destruct o as [[| | r] | e |]; try exact Hp1.
  apply afterStreaming_paced; auto.
Qed.

(** In a run, a page is requested right after another one, with no delay
    between the two, only when that one succeeded, returned events and came
    with [hasMore]. *)
Lemma run_paced : Paced (trace run.2).
Proof.
  unfold run, runSandboxAgent.
  unfold bindM at 1, await. cbn [tick initialState].
  set (st1 := record CreateSession initialState).
  assert (Paced (trace st1)) as Hp1.
  { constructor; [constructor |]. intros o l [=]. }
  destruct (fails rt 0%nat) as [e0 |]; [exact Hp1 |].
  pose proof (mainLoop_paced (S (abortAt rt)) st1 Hp1 I) as Hp2.
  unfold bindM at 1, tryCatch. unfold bindM at 1.
  destruct (mainLoop (S (abortAt rt)) st1) as [o st2]. cbn [snd] in Hp2.
  assert (forall st3, (exists new, trace st3 = new ++ trace st2
                                   /\ Forall (fun e : nat * Call => passes e.2) new) ->
                      Paced (trace st3)) as Hlater.
  { intros st3 (new & -> & Hnew). now apply Paced_new. }
  destruct o as [[r |] | e |]; try exact Hp2.
  - unfold bindM at 1. rewrite aborted_eq.
    destruct (abortAt rt <=? tick st2)%nat; [| exact Hp2].
    unfold terminateAfterTimeout, bindM, tryCatch, note, modify, await, get, ret.
    cbn [tick trace mark record].
    destruct (fails rt (tick st2)); cbn [snd]; apply Hlater; cbn [trace];
      eexists (_ :: _ :: _ :: []); (split; [reflexivity | repeat constructor]).
  - unfold bindM at 1. rewrite aborted_eq.
    destruct (abortAt rt <=? tick st2)%nat; [| exact Hp2].
    unfold terminateAfterError, bindM, tryCatch, note, modify, await, get, ret.
    cbn [tick trace mark record].
    destruct (fails rt (tick st2)); cbn [snd]; apply Hlater; cbn [trace].
    + eexists (_ :: _ :: _ :: []). split; [reflexivity | repeat constructor].
    + eexists (_ :: _ :: []). split; [reflexivity | repeat constructor].
Qed.


(** *** Where the handled events come from *)















(** *** The run, claim by claim *)

(** C1: a run always returns or throws.  When the stream fails before the
    deadline with a transient error, a page of events is requested at that
    very moment; with any other error the run throws it.  Every page is
    requested before the deadline with limit 100 from the offset that counts
    the events handled so far, so the events handled are an initial segment of
    the session's log, each once, in order.  Polling gives up without a
    result only when the deadline has passed or the last page was empty or
    came with [hasMore = false].  When it gives up and no item has completed
    or failed, the loop waits one second and goes round again; every delay is
    one second, and when it ends before the deadline a page is requested
    then.  A page is requested right after another one, with no delay between
    the two, only when that one returned events and came with [hasMore]: in
    every other case a delay lies between two requests.  The turn is streamed
    at most once in a run, and never again after a delay. *)
Theorem stream_failure_falls_back_to_polling :
  run.1 <> OutOfFuel
  /\ (forall t e, In (t, StreamFailed e) (trace run.2) -> (t < abortAt rt)%nat ->
        if isRetryableStreamError e
        then exists o, In (t, GetEvents o 100) (trace run.2)
        else run.1 = Exn e)
  /\ (forall post pre t o l, trace run.2 = post ++ (t, GetEvents o l) :: pre ->
        l = 100%nat /\ o = length (handledOf pre) /\ (t < abortAt rt)%nat)
  /\ (map fst (handledOf (trace run.2)) = seq 0 (length (handledOf (trace run.2)))
      /\ map snd (handledOf (trace run.2))
         = firstn (length (handledOf (trace run.2))) (log rt))
  /\ (forall fuel st st',
        pollEvents fuel st = (Ret None, st') ->
        (abortAt rt <= tick st')%nat
        \/ exists t o,
             In (t, GetEvents o 100) (trace st') /\ (tick st <= t)%nat
             /\ (firstn (Nat.min 100 (pageLen rt t)) (skipn o (indexed (log rt))) = []
                 \/ hasMoreAt rt t = false))
  /\ (forall fuel continue st st',
        pollEvents fuel st = (Ret None, st') ->
        sawFailed st' = false -> sawCompleted st' = false ->
        afterStreaming fuel continue st = continue (record (Delay 1000) st'))
  /\ (forall fuel st,
        sentTurn st = true -> (tick st < abortAt rt)%nat ->
        mainLoop (S fuel) st = afterStreaming (S fuel) (mainLoop fuel) st)
  /\ (forall t ms, In (t, Delay ms) (trace run.2) ->
        ms = 1000
        /\ ((S t < abortAt rt)%nat -> exists o, In (S t, GetEvents o 100) (trace run.2)))
  /\ (forall post pre t o l, trace run.2 = post ++ (t, GetEvents o l) :: pre ->
        match lastRequest pre with
        | Some (t', o') =>
            fails rt t' = None /\ pageAt t' o' <> [] /\ hasMoreAt rt t' = true
        | None => True
        end)
  /\ (countCalls isStreamTurn (trace run.2) <= 1)%nat.
Proof.
  destruct run_facts as [Hret [Hgood _ _] Hfollow Hfatal _ _].
  split_and!.
  - exact Hret.
  - intros t e Hin Hlt. destruct (isRetryableStreamError e) eqn:Hretry.
    + destruct (Follow_In _ _ _ Hfollow Hin Hretry Hlt) as [Hex | [=]]. exact Hex.
    + now apply (Hfatal t e).
  - intros post pre t o l Htr. rewrite Htr in Hgood.
    apply Good_split in Hgood. destruct Hgood as [Hok _]. exact Hok.
  - apply Good_sequence, Hgood.
  - apply Good_sequence, Hgood.
  - intros fuel st st' H. unfold pollEvents in H.
    destruct (pollLoop_stops _ _ _ _ H) as [[=] | Hstop]. exact Hstop.
  - intros fuel continue st st' Hpoll Hfailed Hcompleted.
    unfold afterStreaming, bindM at 1. rewrite Hpoll.
    unfold bindM at 1, get. rewrite Hfailed, Hcompleted. reflexivity.
  - intros fuel st Hsent Hlt.
    cbn [mainLoop]. unfold bindM at 1. rewrite aborted_eq.
    apply Nat.leb_gt in Hlt. rewrite Hlt.
    unfold bindM at 1, get. rewrite Hsent. reflexivity.
  - intros t ms Hin. split.
    + destruct (Good_In _ _ _ Hgood Hin) as [pre Hok]. exact Hok.
    + intros Hlt. destruct (Follow_In _ _ _ Hfollow Hin Hlt) as [Hex | [=]]. exact Hex.
  - intros post pre t o l Htr. pose proof run_paced as Hpaced. rewrite Htr in Hpaced.
    exact (Paced_split _ _ _ _ _ Hpaced).
  - apply Good_streamTurn_once, Hgood.
Qed.


(** C9: at the end of every run the events handled are an initial segment
    of the session's log, and [filesModified] is the list of the paths of
    their file references with action write or patch, each path once, in the
    order of first occurrence; handling one more event keeps it so.  The
    [filesModified] of a returned result is that list, except when file
    change detection is on and the list is empty: then it may be the
    non-empty list of paths that git reports. *)
Theorem filesModified_first_occurrences :
  let consumed := map snd (handledOf (trace run.2)) in
  consumed = firstn (length consumed) (log rt)
  /\ filesModified run.2 = firstOccurrences (flat_map writtenPaths consumed)
  /\ List.NoDup (filesModified run.2)
  /\ (forall path,
        In path (filesModified run.2) <-> In path (flat_map writtenPaths consumed))
  /\ (forall event seen st,
        filesModified st = firstOccurrences seen ->
        filesModified (handleEvent event st).2
        = firstOccurrences (seen ++ writtenPaths event))
  /\ (forall result, run.1 = Ret result ->
        Finalize.filesModified result = filesModified run.2
        \/ (detectFileChanges = true /\ filesModified run.2 = []
            /\ Finalize.filesModified result <> []
            /\ (listUncommittedPaths ws = Some (Finalize.filesModified result)
                \/ listPathsChangedSinceUpstream ws
                   = Some (Finalize.filesModified result)))).
Proof.
  cbv zeta. destruct run_facts as [_ [Hgood _ Hfiles] _ _ _ _].
  rewrite addEvents_firstOccurrences in Hfiles.
  split_and!.
  - rewrite length_map. apply Good_sequence, Hgood.
  - exact Hfiles.
  - rewrite Hfiles. apply firstOccurrences_NoDup.
  - intros path. rewrite Hfiles. apply firstOccurrences_In.
  - intros event seen st Hseen.
    destruct (handleEvent_spec event st) as (o & st' & E & _ & P & _).
    rewrite E. simpl. rewrite P, addEvent_push, Hseen.
    rewrite <- (pushes_firstOccurrences seen).
    rewrite <- fold_left_app. apply pushes_firstOccurrences.
  - intros result Hres. destruct (run_built result Hres) as (ok & why & text & err & ->).
    unfold finalize. apply finalizeResult_files.
Qed.

End Run.

(** *** Some runs *)



(** What [fetch] throws when nothing listens on the runtime's port. *)
Definition connectionRefused : JsError :=
  {| isDOMException := false; isErrorInstance := true; err_name := "Error";
     err_message := "Unable to connect. Is the computer able to access the url?";
     err_code := Some "ConnectionRefused" |}.

(** The errors the stream is retried by polling for, and one it is not. *)
Example isRetryableStreamError_examples :
  map isRetryableStreamError
    [connectionRefused;
     {| isDOMException := true; isErrorInstance := true; err_name := "TimeoutError";
        err_message := "The operation timed out."; err_code := None |};
     {| isDOMException := true; isErrorInstance := true; err_name := "AbortError";
        err_message := "The operation was aborted."; err_code := None |};
     {| isDOMException := false; isErrorInstance := true; err_name := "Error";
        err_message := "Sandbox Agent API error (500)"; err_code := None |}]
  = [true; true; true; false].
Proof. reflexivity. Qed.

(** A session whose stream cannot be opened and whose log stays empty; the
    deadline is at tick 6. *)
Definition unreachableStream : Runtime :=
  {| log := []; streamed := 0; streamEnd := Some connectionRefused;
     pageLen := fun _ => 100%nat; hasMoreAt := fun _ => false;
     fails := fun _ => None; clock := fun t => 1000 * Z.of_nat t; abortAt := 6 |}.

(** A session that asks two questions and then stays silent; its stream
    closes at once, and the deadline is at tick 4. *)
Definition twoQuestions : Runtime :=
  {| log := [QuestionRequested "q1"; QuestionRequested "q2"];
     streamed := 0; streamEnd := None;
     pageLen := fun _ => 100%nat; hasMoreAt := fun _ => false;
     fails := fun _ => None; clock := fun t => 1000 * Z.of_nat t; abortAt := 4 |}.

Definition fiveSeconds : SandboxRunConfig :=
  {| timeoutMs := 5000; progressIntervalMs := 60000; includeToolCalls := true |}.

Definition cleanWorkspace : Workspace :=
  {| gitStatusPorcelain := Some ""; gitSymbolicRefOriginHead := None;
     gitDiffNameOnly := fun _ => None |}.

(** A worktree with one uncommitted change. *)
Definition dirtyWorkspace : Workspace :=
  {| gitStatusPorcelain := Some " M a.ts"; gitSymbolicRefOriginHead := None;
     gitDiffNameOnly := fun _ => None |}.

(** C1, as first stated, fails: the stream fails with a transient error
    at tick 2, a page is requested, the run waits a second and, well before
    the deadline, goes round the loop again, twice; the turn is streamed at
    tick 1 and never again. *)
Lemma streaming_not_reattempted_counterexample :
  let r := run unreachableStream fiveSeconds "s1" cleanWorkspace true policyDefault
             (fun _ => "5") in
  isRetryableStreamError connectionRefused = true
  /\ rev (trace r.2)
     = [(0%nat, CreateSession); (1%nat, StreamTurn); (1%nat, StreamNext);
        (2%nat, StreamFailed connectionRefused); (2%nat, GetEvents 0 100);
        (3%nat, Delay 1000); (4%nat, GetEvents 0 100); (5%nat, Delay 1000);
        (6%nat, Log "warn" "[sandbox] Timeout reached, terminating session s1");
        (6%nat, TerminateSession);
        (7%nat, Log "info" "[sandbox] Session s1 terminated successfully")]
  /\ countCalls isStreamTurn (trace r.2) = 1%nat.
Proof. cbv zeta. split_and!; vm_compute; reflexivity. Qed.






(** The loop over a fetched page does not look at the deadline, which the
    loop over the stream does for every event: here the deadline passes at
    tick 4, while the first question of a page is being rejected, and the
    second question of that page is still handled, and rejected, at
    tick 4. *)
Lemma fetched_page_handled_after_deadline :
  let r := run twoQuestions fiveSeconds "s1" cleanWorkspace true policyDefault
             (fun _ => "5") in
  abortAt twoQuestions = 4%nat
  /\ rev (trace r.2)
     = [(0%nat, CreateSession); (1%nat, StreamTurn); (1%nat, StreamNext);
        (2%nat, GetEvents 0 100);
        (3%nat, Handle FromPoll 0 (QuestionRequested "q1")); (3%nat, RejectQuestion "q1");
        (4%nat, Handle FromPoll 1 (QuestionRequested "q2")); (4%nat, RejectQuestion "q2");
        (5%nat, Delay 1000);
        (6%nat, Log "warn" "[sandbox] Timeout reached, terminating session s1");
        (6%nat, TerminateSession);
        (7%nat, Log "info" "[sandbox] Session s1 terminated successfully")].
Proof. cbv zeta. split; [reflexivity | vm_compute; reflexivity]. Qed.


(** C9, as first stated, fails: no event is handled, let alone one with a
    file reference, and the result lists the path git reports. *)
Lemma filesModified_from_git_counterexample :
  let r := run unreachableStream fiveSeconds "s1" dirtyWorkspace true policyDefault
             (fun _ => "5") in
  handledOf (trace r.2) = []
  /\ filesModified r.2 = []
  /\ exists result, r.1 = Ret result /\ Finalize.filesModified result = ["a.ts"].
Proof.
  cbv zeta. split_and!; [vm_compute; reflexivity | vm_compute; reflexivity |].
  eexists. split; vm_compute; reflexivity.
Qed.

(** A session that reports edits on the stream, loses the stream, and
    finishes with the assistant's message, which only polling sees. *)
Definition editsThenDone : Runtime :=
  {| log :=
       [ItemCompleted
          (Some {| item_kind := "tool_result"; item_role := None;
                   item_status := "in_progress";
                   item_content :=
                     [FileRefPart "a.ts" "write"; FileRefPart "b.ts" "read";
                      FileRefPart "a.ts" "patch"; FileRefPart "c.ts" "patch"] |});
        ItemCompleted
          (Some {| item_kind := "message"; item_role := Some "assistant";
                   item_status := "completed";
                   item_content := [TextPart " Done. "] |})];
     streamed := 1; streamEnd := Some connectionRefused;
     pageLen := fun _ => 100%nat; hasMoreAt := fun _ => false;
     fails := fun _ => None; clock := fun t => 1000 * Z.of_nat t; abortAt := 50 |}.

(** After the stream is lost at tick 3, polling resumes at offset 1 and the
    run ends with the completed result; each event is handled once. *)
Example fallback_reaches_result :
  let r := run editsThenDone fiveSeconds "s1" cleanWorkspace true policyDefault
             (fun _ => "5") in
  r.1 = Ret {| success := true; sessionId := "s1"; reason := "completed";
               Finalize.filesModified := ["a.ts"; "c.ts"];
               summary := "Modified 2 file(s): a.ts, c.ts";
               answer := Some "Done."; error := None |}
  /\ In (3%nat, StreamFailed connectionRefused) (trace r.2)
  /\ In (3%nat, GetEvents 1 100) (trace r.2)
  /\ map fst (handledOf (trace r.2)) = [0%nat; 1%nat].
Proof.
  cbv zeta. split_and!; try (vm_compute; reflexivity); vm_compute; auto 10.
Qed.

(** A termination request that fails is logged, and the run still returns
    the timeout result. *)
Example failed_termination_is_logged :
  let rt :=
    {| log := [QuestionRequested "q1"; QuestionRequested "q2"];
       streamed := 0; streamEnd := None;
       pageLen := fun _ => 100%nat; hasMoreAt := fun _ => false;
       fails := fun t => if (6 <=? t)%nat then Some connectionRefused else None;
       clock := fun t => 1000 * Z.of_nat t; abortAt := 4 |} in
  let r := run rt fiveSeconds "s1" cleanWorkspace true policyDefault (fun _ => "5") in
  r.1 = Ret {| success := false; sessionId := "s1"; reason := "timeout";
               Finalize.filesModified := []; summary := "No files were modified.";
               answer := None; error := Some "Timeout after 5s - session terminated" |}
  /\ firstn 2 (trace r.2)
     = [(7%nat, Log "error" "[sandbox] Failed to terminate session s1");
        (6%nat, TerminateSession)].
Proof. cbv zeta. split; vm_compute; reflexivity. Qed.

End Runner.

(** * More of the code: the callers, the callees and the helpers *)

(** ** Which rule can match which event (src/triggers/*.ts) *)
Module TriggerFacts.

Import Triggers.

(** [escapeRegex] rewrites only at an occurrence of two backslashes followed
    by a closing bracket. *)
Fixpoint hasEscapeTail (value : string) : bool :=
  match value with
  | EmptyString => false
  | String c rest =>
      Js.startsWith (String "\" (String "\" (String "]" EmptyString))) rest
      || hasEscapeTail rest
  end.

Lemma escapeRegex_step (c : ascii) (rest : string) :
  escapeRegex (String c rest)
  = if Js.startsWith (String "\" (String "\" (String "]" EmptyString))) rest
       && isEscapeClass c
    then String "\" (String "\" (String c (String "\" (String "\" (String "]"
           (escapeRegex (Js.sliceFrom 3 rest)))))))
    else String c (escapeRegex rest).
Proof.
  destruct rest as [| a rest1]; [reflexivity |].
  destruct a as [[] [] [] [] [] [] [] []]; try reflexivity.
  destruct rest1 as [| b rest2]; [reflexivity |].
  destruct b as [[] [] [] [] [] [] [] []]; try reflexivity.
  destruct rest2 as [| d rest3]; [reflexivity |].
  destruct d as [[] [] [] [] [] [] [] []]; reflexivity.
Qed.

(** X1: [escapeRegex] returns its argument unchanged unless the argument
    contains two backslashes followed by a closing bracket: the characters
    [. * + ? ^ $ { } ( ) | [ \ ] reach the pattern unescaped. *)
Theorem escapeRegex_leaves_metacharacters (value : string) :
  hasEscapeTail value = false -> escapeRegex value = value.
Proof.
  induction value as [| c rest IH]; [reflexivity |].
  cbn [hasEscapeTail]. intros H. apply orb_false_iff in H. destruct H as [Htail Hrest].
  rewrite escapeRegex_step, Htail. simpl. now rewrite (IH Hrest).
Qed.

Lemma escapeRegex_leaves_metacharacters_witness :
  escapeRegex "@bot.v2 (c++)" = "@bot.v2 (c++)".
Proof. apply escapeRegex_leaves_metacharacters. reflexivity. Defined.

Section Kinds.

Variable newRegExp : string -> string -> option (string -> bool).

(** A match is one of the configured rules, and that rule accepts the
    event. *)
Lemma matchTriggers_accepts (triggers : list TriggerConfig) (context : TriggerContext)
    (m : TriggerMatch) :
  matchTriggers newRegExp triggers context = Returns (Some m) ->
  In (match_trigger m) triggers
  /\ match_action m = trigger_action (match_trigger m)
  /\ accepts newRegExp (match_trigger m) context.
Proof.
  unfold matchTriggers. induction triggers as [| trigger rest IH]; [discriminate |].
  destruct (matchTriggersVisited_cons newRegExp trigger rest context)
    as [[Hacc ->] | [[Hthrows ->] | [Hdeclines ->]]]; simpl.
  - intros [= <-]. simpl. auto.
  - discriminate.
  - intros H. destruct (IH H) as (Hin & Hact & Hacc). auto.
Qed.

Lemma rule_kind_of_match (triggers : list TriggerConfig)
    (context : TriggerContext) (m : TriggerMatch) :
  matchTriggers newRegExp triggers context = Returns (Some m) ->
  match ctx_eventType context with
  | Issue => trigger_type (match_trigger m) = label
  | Comment =>
      (trigger_type (match_trigger m) = hashtag \/ trigger_type (match_trigger m) = mention)
      /\ exists comment, ctx_comment context = Some comment
  end.
Proof.
  intros H. destruct (matchTriggers_accepts _ _ _ H) as (_ & _ & _ & Hm).
  unfold kindMatcher, label_matches, hashtag_matches, mention_matches in Hm.
  destruct (trigger_type (match_trigger m)), (ctx_eventType context);
    simpl in Hm; try discriminate; try reflexivity;
    destruct (ctx_comment context) as [comment |]; try discriminate; eauto.
Qed.

(** X2: an Issue event is matched only by a label rule, and a Comment event
    only by a hashtag or a mention rule and only when it carries a comment;
    the match is one of the configured rules and carries that rule's
    action. *)
Theorem rule_kind_follows_event_kind (triggers : list TriggerConfig)
    (context : TriggerContext) (m : TriggerMatch) :
  matchTriggers newRegExp triggers context = Returns (Some m) ->
  In (match_trigger m) triggers
  /\ match_action m = trigger_action (match_trigger m)
  /\ match ctx_eventType context with
     | Issue => trigger_type (match_trigger m) = label
     | Comment =>
         (trigger_type (match_trigger m) = hashtag
          \/ trigger_type (match_trigger m) = mention)
         /\ exists comment, ctx_comment context = Some comment
     end.
Proof.
  intros H. destruct (matchTriggers_accepts _ _ _ H) as (Hin & Hact & _).
  split_and!; [exact Hin | exact Hact | exact (rule_kind_of_match _ _ _ H)].
Qed.

End Kinds.

Lemma rule_kind_follows_event_kind_witness :
  In reviewRule [reviewRule] /\ review = review /\ trigger_type reviewRule = label.
Proof.
  apply (rule_kind_follows_event_kind (fun _ _ => Some (fun _ => false)) [reviewRule]
           removedIssue {| match_trigger := reviewRule; match_action := review |}).
  vm_compute. reflexivity.
Defined.

End TriggerFacts.

(** ** The trigger rules of a validated configuration
    (src/config/validator.ts: validateTriggers) *)
Module ConfigValidator.

Import Triggers.

Definition quoted (s : string) : string :=
  String "034"%char s +:+ String "034"%char EmptyString.

Definition actionName (a : TriggerAction) : string :=
  match a with
  | full => "full" | quick => "quick" | context => "context" | guide => "guide"
  | plan => "plan" | reply => "reply" | review => "review" | github => "github"
  end.

Definition TriggerType_eqb (a b : TriggerType) : bool :=
  match a, b with
  | label, label | hashtag, hashtag | mention, mention => true
  | _, _ => false
  end.

Definition TriggerAction_eqb (a b : TriggerAction) : bool :=
  String.eqb (actionName a) (actionName b).

Definition when (b : bool) (message : string) : list string :=
  if b then [message] else [].

(** The messages one pass of the loop body pushes, in order. *)
Definition triggerErrors (trigger : TriggerConfig) : list string :=
  let valueOf := "(value: " +:+ trigger_value trigger +:+ ")" in
  let isMention := TriggerType_eqb (trigger_type trigger) mention in
  let isLabel := TriggerType_eqb (trigger_type trigger) label in
  let isHashtag := TriggerType_eqb (trigger_type trigger) hashtag in
  let action := trigger_action trigger in
  (if isMention
   then when (negb (TriggerAction_eqb action reply))
          ("Mention trigger must use action " +:+ quoted "reply" +:+ " " +:+ valueOf)
        ++ when (match trigger_agent trigger with None => true | Some _ => false end)
             ("Mention trigger requires " +:+ quoted "agent" +:+ " " +:+ valueOf)
   else [])
  ++ when (TriggerAction_eqb action reply && negb isMention)
       ("Action " +:+ quoted "reply" +:+ " is only supported for trigger type "
        +:+ quoted "mention" +:+ " " +:+ valueOf)
  ++ when (TriggerAction_eqb action review && negb isLabel)
       ("Action " +:+ quoted "review" +:+ " is only supported for trigger type "
        +:+ quoted "label" +:+ " " +:+ valueOf)
  ++ when (TriggerAction_eqb action github && negb isLabel)
       ("Action " +:+ quoted "github" +:+ " is only supported for trigger type "
        +:+ quoted "label" +:+ " " +:+ valueOf)
  ++ (if isMention || isHashtag then
        match trigger_on trigger with
        | Some on =>
            let invalid := List.filter (fun event => negb (TriggerEvent_eqb event create)) on in
            when (0 <? length invalid)%nat
              (typeName (trigger_type trigger) +:+ " trigger only supports on: [create] (value: "
               +:+ trigger_value trigger +:+ "; invalid: "
               +:+ Js.join ", " (map Webhook.eventActionName invalid) +:+ ")")
        | None => []
        end
      else []).

(** [validateTriggers(config, errors)]: the array [errors] after the call. *)
Definition validateTriggers (triggers : list TriggerConfig) (errors : list string)
    : list string :=
  fold_left (fun errors trigger => errors ++ triggerErrors trigger) triggers errors.

(** What a rule without complaint looks like. *)
Definition supported (trigger : TriggerConfig) : Prop :=
  (trigger_type trigger = mention ->
   trigger_action trigger = reply /\ trigger_agent trigger <> None)
  /\ (trigger_action trigger = reply -> trigger_type trigger = mention)
  /\ (trigger_action trigger = review -> trigger_type trigger = label)
  /\ (trigger_action trigger = github -> trigger_type trigger = label)
  /\ (trigger_type trigger <> label ->
      forall on, trigger_on trigger = Some on -> Forall (fun event => event = create) on).

Lemma validateTriggers_app (triggers : list TriggerConfig) (errors : list string) :
  validateTriggers triggers errors = errors ++ flat_map triggerErrors triggers.
Proof.
  revert errors. induction triggers as [| t rest IH]; intros errors; simpl.
  - now rewrite app_nil_r.
  - unfold validateTriggers in *. simpl. rewrite IH. now rewrite <- app_assoc.
Qed.

Lemma length_pos_empty_nat {A : Type} (l : list A) : (0 <? length l)%nat = false -> l = [].
Proof. destruct l; [reflexivity | discriminate]. Qed.

Lemma when_nil (b : bool) (message : string) : when b message = [] -> b = false.
Proof. destruct b; [discriminate | reflexivity]. Qed.

Lemma filter_nil_Forall {A : Type} (f : A -> bool) (l : list A) :
  List.filter f l = [] -> Forall (fun x => f x = false) l.
Proof.
  induction l as [| x l IH]; simpl; [constructor |].
  destruct (f x) eqn:Hx; [discriminate |]. intros H. constructor; auto.
Qed.

Lemma triggerErrors_nil (trigger : TriggerConfig) :
  triggerErrors trigger = [] -> supported trigger.
Proof.
  unfold triggerErrors, supported.
  destruct trigger as [type value action agent on]; cbn [trigger_type trigger_value
    trigger_action trigger_agent trigger_on].
  intros H.
  apply app_eq_nil in H; destruct H as [HA H].
  apply app_eq_nil in H; destruct H as [HB H].
  apply app_eq_nil in H; destruct H as [HC H].
  apply app_eq_nil in H; destruct H as [HD HE].
  apply when_nil in HB, HC, HD.
  assert (type <> label ->
          forall on', on = Some on' -> Forall (fun event => event = create) on') as Hon.
  { intros Hne on' ->. destruct type; [now contradiction Hne | |]; simpl in HE;
      apply when_nil, length_pos_empty_nat, filter_nil_Forall in HE;
      (eapply Forall_impl; [exact HE |]); intros event He;
      apply negb_false_iff in He; now apply TriggerEvent_eqb_eq in He. }
  clear HE.
  destruct type, action; simpl in HA, HB, HC, HD; try discriminate;
    (split_and!; [ | | | | exact Hon]);
    try (intros Heq; first [discriminate Heq | reflexivity]).
  intros _. split; [reflexivity |]. destruct agent; [discriminate | discriminate HA].
Qed.

(** A configuration the validator accepts has supported rules only. *)
Lemma validateTriggers_supported (triggers : list TriggerConfig) :
  validateTriggers triggers [] = [] -> Forall supported triggers.
Proof.
  rewrite validateTriggers_app. simpl.
  induction triggers as [| t rest IH]; simpl; [constructor |].
  intros H. apply app_eq_nil in H. destruct H as [Ht Hrest].
  constructor; [now apply triggerErrors_nil | now apply IH].
Qed.

(** The validator accepts hashtag rules whose values hold regex
    metacharacters. *)
Example validateTriggers_accepts_metacharacters :
  validateTriggers [plusPlusRule; fixRule] [] = [].
Proof. reflexivity. Qed.

End ConfigValidator.

(** ** What the Linear webhook handler dispatches (src/webhook.ts:
    createWebhookHandler) *)
Module WebhookFacts.

Import Triggers Dedup Webhook.

(** A signed create event for an issue labelled [review], and a server
    configured with the one rule of [reviewRule]. *)
Definition labelledIssue : LinearWebhookPayload :=
  {| payload_action := create;
     payload_type := Issue;
     payload_data :=
       IssueData {| issueData_id := "i1"; issueData_title := "T";
                    issueData_description := None; issueData_identifier := None;
                    issueData_url := None;
                    issueData_labels := Some [ {| label_id := "L1"; label_name := "review" |} ];
                    issueData_labelIds := None |};
     payload_updatedFrom := None;
     payload_url := None;
     payload_createdAt := "2026-01-01T00:00:00.000Z";
     payload_webhookTimestamp := None;
     payload_webhookId := None;
     payload_organizationId := None |}.

Definition signedRequest : Request :=
  {| rawBody := "{...}"; linearSignature := Some "5d41"; linearDelivery := Some "d-1" |}.

Definition reviewConfig : Config :=
  {| webhookSecret := "secret"; triggers := [reviewRule] |}.

Section Facts.

Variable hmacSha256Hex : string -> string -> string.
Variable parsePayload : string -> option LinearWebhookPayload.
Variable newRegExp : string -> string -> option (string -> bool).

Local Abbreviation handler := (webhookHandler hmacSha256Hex parsePayload newRegExp).

(** Where a dispatch of [dispatchPayload] comes from. *)
Lemma dispatchPayload_dispatch (config : Config) (payload : LinearWebhookPayload)
    (issueId : string) (m : TriggerMatch) (comment : option TriggerComment) :
  In (Dispatch issueId m comment) (dispatchPayload newRegExp config payload).2 ->
  (dispatchPayload newRegExp config payload
   = (Responds {| status := 200; body := ProcessingBody (trigger_type (match_trigger m)) |},
      [TriggerMatchMetric (trigger_type (match_trigger m)) (match_action m);
       Dispatch issueId m comment]))
  /\ ((exists issue,
          payload_type payload = Issue /\ payload_data payload = IssueData issue
          /\ matchTriggers newRegExp (triggers config) (issueContext payload issue)
             = Returns (Some m)
          /\ issueId = issueData_id issue /\ comment = None)
      \/ (exists data,
            payload_type payload = Comment /\ payload_action payload = create
            /\ payload_data payload = CommentData data
            /\ matchTriggers newRegExp (triggers config) (commentContext payload data)
               = Returns (Some m)
            /\ issueId = commentData_issueId data
            /\ comment = Some {| comment_id := commentData_id data;
                                 comment_body := commentData_body data |})).
Proof.
  unfold dispatchPayload.
  destruct (payload_type payload) eqn:Hty.
  - destruct (payload_data payload) as [data | issue] eqn:Hdata; [intros [] |].
    destruct (matchTriggers _ _ (issueContext payload issue)) as [[m' |] |] eqn:Hm;
      [| intros [] | intros []].
    simpl. intros [[=] | [[= <- <- <-] | []]]. split; [reflexivity |]. left. eauto 10.
  - destruct (TriggerEvent_eqb (payload_action payload) create) eqn:Hact; [| intros []].
    apply TriggerEvent_eqb_eq in Hact. simpl.
    destruct (payload_data payload) as [data | issue] eqn:Hdata; [| intros []].
    destruct (matchTriggers _ _ (commentContext payload data)) as [[m' |] |] eqn:Hm;
      [| intros [] | intros []].
    simpl. intros [[=] | [[= <- <- <-] | []]]. split; [reflexivity |]. right. eauto 10.
Qed.

(** Where a dispatch of the handler comes from. *)
Lemma handler_dispatch (config : Config) (now markedAt : Z) (c : Request)
    (cache : gmap string Z) (issueId : string) (m : TriggerMatch)
    (comment : option TriggerComment) :
  In (Dispatch issueId m comment) (handler config now markedAt c cache).2 ->
  exists payload,
    verifySignature hmacSha256Hex (rawBody c) (linearSignature c) (webhookSecret config) = true
    /\ parsePayload (rawBody c) = Some payload
    /\ (isDuplicateEvent now (dedupKeyOf (linearDelivery c) payload) cache).1 = false
    /\ In (Dispatch issueId m comment) (dispatchPayload newRegExp config payload).2
    /\ handler config now markedAt c cache
       = ((dispatchPayload newRegExp config payload).1,
          markEventProcessed markedAt (dedupKeyOf (linearDelivery c) payload)
            (isDuplicateEvent now (dedupKeyOf (linearDelivery c) payload) cache).2,
          WebhookEventMetric (eventTypeName (payload_type payload))
            (eventActionName (payload_action payload)) "received"
          :: (dispatchPayload newRegExp config payload).2).
Proof.
  unfold webhookHandler.
  destruct (verifySignature _ _ _ _) eqn:Hs; simpl; [| intros [[=] | []]].
  destruct (parsePayload (rawBody c)) as [payload |] eqn:Hp; [| intros [[=] | []]].
  destruct (isDuplicateEvent now _ cache) as [[|] cache'] eqn:Hd.
  { intros [[=] | [[=] | []]]. }
  destruct (dispatchPayload newRegExp config payload) as [response effects] eqn:He.
  simpl. intros [[=] | Hin]. exists payload.
  split_and!; try first [assumption | reflexivity]; rewrite ?Hd, ?He; auto.
Qed.

(** X3: every workflow the handler dispatches comes from a request whose
    signature verified, whose body parsed against the payload schema and whose
    key was not a duplicate; the request is answered 200 [processing] with the
    kind of the matched rule, its key is recorded, and it dispatches exactly
    that one workflow; a dispatch for a comment happens on create events
    only, whatever the rules allow. *)
Theorem dispatch_requires_checks (config : Config) (now markedAt : Z) (c : Request)
    (cache : gmap string Z) (issueId : string) (m : TriggerMatch)
    (comment : option TriggerComment) :
  In (Dispatch issueId m comment) (handler config now markedAt c cache).2 ->
  exists payload,
    verifySignature hmacSha256Hex (rawBody c) (linearSignature c) (webhookSecret config) = true
    /\ parsePayload (rawBody c) = Some payload
    /\ (isDuplicateEvent now (dedupKeyOf (linearDelivery c) payload) cache).1 = false
    /\ (handler config now markedAt c cache).1.1
       = Responds {| status := 200; body := ProcessingBody (trigger_type (match_trigger m)) |}
    /\ (handler config now markedAt c cache).1.2 !! dedupKeyOf (linearDelivery c) payload
       = Some markedAt
    /\ List.filter isDispatch (handler config now markedAt c cache).2
       = [Dispatch issueId m comment]
    /\ In (match_trigger m) (triggers config)
    /\ (payload_type payload = Comment -> payload_action payload = create).
Proof.
  intros Hin. destruct (handler_dispatch _ _ _ _ _ _ _ _ Hin)
    as (payload & Hs & Hp & Hd & Hin' & ->).
  destruct (dispatchPayload_dispatch _ _ _ _ _ Hin') as [-> Hfrom].
  exists payload. simpl. split_and!; auto.
  - apply lookup_insert_eq.
  - destruct Hfrom as [(issue & _ & _ & Hm & _) | (data & _ & _ & _ & Hm & _)];
      now apply TriggerFacts.matchTriggers_accepts in Hm.
  - destruct Hfrom as [(issue & Hty & _) | (data & _ & Hact & _)]; [congruence | auto].
Qed.

(** X4: with rules the validator accepts, a workflow dispatched for an
    issue event comes from a label rule and is never the reply workflow; one
    dispatched for a comment comes from a hashtag or a mention rule, is never
    the review or the publish workflow, and for a mention rule it is the reply
    workflow of a rule that names its agent. *)
Theorem validated_rules_dispatch (config : Config) (now markedAt : Z) (c : Request)
    (cache : gmap string Z) (issueId : string) (m : TriggerMatch)
    (comment : option TriggerComment) :
  ConfigValidator.validateTriggers (triggers config) [] = [] ->
  In (Dispatch issueId m comment) (handler config now markedAt c cache).2 ->
  match comment with
  | None =>
      trigger_type (match_trigger m) = label /\ match_action m <> reply
  | Some _ =>
      (trigger_type (match_trigger m) = hashtag \/ trigger_type (match_trigger m) = mention)
      /\ match_action m <> review /\ match_action m <> github
      /\ (trigger_type (match_trigger m) = mention ->
          match_action m = reply /\ trigger_agent (match_trigger m) <> None)
  end.
Proof.
  intros Hvalid Hin.
  destruct (handler_dispatch _ _ _ _ _ _ _ _ Hin) as (payload & _ & _ & _ & Hin' & _).
  destruct (dispatchPayload_dispatch _ _ _ _ _ Hin') as [_ Hfrom].
  apply ConfigValidator.validateTriggers_supported in Hvalid.
  rewrite List.Forall_forall in Hvalid.
  assert (exists context,
             matchTriggers newRegExp (triggers config) context = Returns (Some m)
             /\ ctx_eventType context = match comment with None => Issue | Some _ => Comment end)
    as (context & Hm & Hkind).
  { destruct Hfrom as [(issue & _ & _ & Hm & _ & ->) | (data & _ & _ & _ & Hm & _ & ->)];
      eexists; split; try exact Hm; reflexivity. }
  pose proof (TriggerFacts.rule_kind_of_match _ _ _ _ Hm) as Hrule.
  destruct (TriggerFacts.matchTriggers_accepts _ _ _ _ Hm) as (Hmem & Hact & _).
  destruct (Hvalid _ Hmem) as (Hmention & Hreply & Hreview & Hgithub & _).
  rewrite Hkind in Hrule. rewrite Hact. destruct comment as [cm |].
  - destruct Hrule as [Hrule _]. split_and!.
    + exact Hrule.
    + intros H. apply Hreview in H. destruct Hrule as [Hr | Hr]; congruence.
    + intros H. apply Hgithub in H. destruct Hrule as [Hr | Hr]; congruence.
    + exact Hmention.
  - split; [exact Hrule |]. intros H. apply Hreply in H. congruence.
Qed.

(** X5: a request delivered again under the same key within 30 seconds of
    the moment its first delivery was recorded is answered 200 [ignored,
    Duplicate event], dispatches nothing and leaves the map as it is,
    whatever rule matched the first time. *)
Theorem redelivery_is_ignored (config : Config) (now markedAt now' markedAt' : Z)
    (c c' : Request) (cache : gmap string Z) (payload payload' : LinearWebhookPayload) :
  verifySignature hmacSha256Hex (rawBody c) (linearSignature c) (webhookSecret config) = true ->
  parsePayload (rawBody c) = Some payload ->
  verifySignature hmacSha256Hex (rawBody c') (linearSignature c') (webhookSecret config) = true ->
  parsePayload (rawBody c') = Some payload' ->
  dedupKeyOf (linearDelivery c') payload' = dedupKeyOf (linearDelivery c) payload ->
  (isDuplicateEvent now (dedupKeyOf (linearDelivery c) payload) cache).1 = false ->
  markedAt <> 0 -> now' - markedAt < 30000 ->
  let after := (handler config now markedAt c cache).1.2 in
  handler config now' markedAt' c' after
  = (Responds {| status := 200; body := IgnoredBody "Duplicate event" |}, after,
     [WebhookEventMetric (eventTypeName (payload_type payload'))
        (eventActionName (payload_action payload')) "received";
      WebhookEventMetric (eventTypeName (payload_type payload'))
        (eventActionName (payload_action payload')) "deduplicated"]).
Proof.
  intros Hs Hp Hs' Hp' Hkey Hfirst Hnz Hwin after.
  assert (after !! dedupKeyOf (linearDelivery c) payload = Some markedAt) as Hlook.
  { unfold after. rewrite (Webhook.handler_valid_cache _ _ _ _ _ _ _ _ payload Hs Hp).
    unfold seenLinear. destruct (isDuplicateEvent now _ cache) as [[|] cache']; simpl in *;
      [discriminate |]. apply lookup_insert_eq. }
  unfold webhookHandler at 1. rewrite Hs', Hp', Hkey. simpl.
  unfold isDuplicateEvent. rewrite Hlook.
  rewrite (withinWindow_true DEDUP_WINDOW_MS now' markedAt Hnz Hwin). reflexivity.
Qed.

End Facts.

(** A constructor whose expressions match nothing. *)
Definition neverMatches (source flags : string) : option (string -> bool) :=
  Some (fun _ => false).

(** A signed new comment that holds [#fix]. *)
Definition fixCommentPayload : LinearWebhookPayload :=
  {| payload_action := create;
     payload_type := Comment;
     payload_data :=
       CommentData {| commentData_id := "c1"; commentData_body := "#fix please";
                      commentData_issueId := "i1"; commentData_userId := None;
                      commentData_user := None |};
     payload_updatedFrom := None;
     payload_url := None;
     payload_createdAt := "2026-01-01T00:00:00.000Z";
     payload_webhookTimestamp := None;
     payload_webhookId := None;
     payload_organizationId := None |}.

(** With the rule for [c++] before the rule for [fix], the handler rejects
    on that comment, after the key of the event has been recorded, and
    dispatches nothing. *)
Example unescaped_rule_rejects_comment :
  webhookHandler (fun _ _ => "5d41") (fun _ => Some fixCommentPayload) rejectsPlusPlus
    {| webhookSecret := "secret"; triggers := [plusPlusRule; fixRule] |}
    1000 1001 signedRequest ∅
  = (Rejects, {[ "delivery:d-1" := 1001 ]},
     [WebhookEventMetric "Comment" "create" "received"]).
Proof. vm_compute. reflexivity. Qed.

Lemma dispatch_requires_checks_witness :
  exists payload : LinearWebhookPayload, payload_type payload = Issue.
Proof.
  destruct (dispatch_requires_checks (fun _ _ => "5d41") (fun _ => Some labelledIssue)
              neverMatches reviewConfig 1000 1001 signedRequest ∅ "i1"
              {| match_trigger := reviewRule; match_action := review |} None)
    as (payload & _ & Hp & _).
  - vm_compute. auto.
  - exists payload. injection Hp as <-. reflexivity.
Defined.

Lemma validated_rules_dispatch_witness :
  trigger_type reviewRule = label /\ review <> reply.
Proof.
  apply (validated_rules_dispatch (fun _ _ => "5d41") (fun _ => Some labelledIssue)
           neverMatches reviewConfig 1000 1001 signedRequest ∅ "i1"
           {| match_trigger := reviewRule; match_action := review |} None).
  - vm_compute. reflexivity.
  - vm_compute. auto.
Defined.

Lemma redelivery_is_ignored_witness :
  (webhookHandler (fun _ _ => "5d41") (fun _ => Some labelledIssue) neverMatches
     reviewConfig 2000 2001 signedRequest
     (webhookHandler (fun _ _ => "5d41") (fun _ => Some labelledIssue) neverMatches
        reviewConfig 1000 1001 signedRequest ∅).1.2).1.1
  = Responds {| status := 200; body := IgnoredBody "Duplicate event" |}.
Proof.
  rewrite (redelivery_is_ignored (fun _ _ => "5d41") (fun _ => Some labelledIssue)
             neverMatches reviewConfig 1000 1001 2000 2001 signedRequest signedRequest
             ∅ labelledIssue labelledIssue);
    try reflexivity; try lia.
Defined.

End WebhookFacts.

(** ** Which workspace an issue belongs to (src/workspace.ts) *)
Module Workspace.

(** [WorkspaceConfig], the fields read here; [projectIds] defaults to the
    empty array in the schema. *)
Record WorkspaceConfig := {
  ws_name : string;
  ws_teamId : string;
  ws_projectIds : list string;
  ws_localPath : string
}.

Record IssueContext := {
  issue_id : string;
  issue_identifier : option string;
  issue_teamId : option string;
  issue_projectId : option string
}.

(** [resolveWorkspaceForIssue(config, issue)]: the workspace, or the message
    of the error thrown. *)
Definition resolveWorkspaceForIssue (workspaces : list WorkspaceConfig) (issue : IssueContext)
    : WorkspaceConfig + string :=
  if negb (Js.truthyOpt (issue_teamId issue))
  then inr "Issue teamId is required for workspace resolution"
  else
    let teamId := default "" (issue_teamId issue) in
    let candidates := List.filter (fun workspace => String.eqb (ws_teamId workspace) teamId)
                        workspaces in
    if (length candidates =? 0)%nat
    then inr ("No workspace configured for teamId " +:+ teamId)
    else
      let afterProject :=
        let fallbackMatches :=
          List.filter (fun workspace => (length (ws_projectIds workspace) =? 0)%nat)
            candidates in
        match fallbackMatches with
        | [workspace] => inl workspace
        | _ :: _ :: _ =>
            inr ("Multiple workspaces match teamId " +:+ teamId
                 +:+ " with no projectIds filter")
        | [] =>
            inr ("No workspace configured for teamId " +:+ teamId +:+ " with projectId "
                 +:+ default "none" (issue_projectId issue))
        end in
      if Js.truthyOpt (issue_projectId issue) then
        let projectId := default "" (issue_projectId issue) in
        let projectMatches :=
          List.filter (fun workspace => Js.arrayIncludes (ws_projectIds workspace) projectId)
            candidates in
        match projectMatches with
        | [workspace] => inl workspace
        | _ :: _ :: _ => inr ("Multiple workspaces match projectId " +:+ projectId)
        | [] => afterProject
        end
      else afterProject.

(** The workspaces of a team that list a project, and those that list
    none. *)
Definition listsProject (teamId projectId : string) (workspace : WorkspaceConfig) : Prop :=
  ws_teamId workspace = teamId /\ In projectId (ws_projectIds workspace).

Definition catchAll (teamId : string) (workspace : WorkspaceConfig) : Prop :=
  ws_teamId workspace = teamId /\ ws_projectIds workspace = [].

Lemma filter_singleton {A : Type} (f : A -> bool) (l : list A) (x : A) :
  List.filter f l = [x] ->
  In x l /\ f x = true /\ forall y, In y l -> f y = true -> y = x.
Proof.
  intros H. split_and!.
  - apply (proj1 (List.filter_In f x l)). rewrite H. now left.
  - apply (proj1 (List.filter_In f x l)). rewrite H. now left.
  - intros y Hy Hf. assert (In y (List.filter f l)) as Hin by now apply List.filter_In.
    rewrite H in Hin. destruct Hin as [-> | []]. reflexivity.
Qed.

Lemma filter_nil_none {A : Type} (f : A -> bool) (l : list A) :
  List.filter f l = [] -> forall y, In y l -> f y = false.
Proof.
  intros H y Hy. destruct (f y) eqn:Hf; [| reflexivity].
  assert (In y (List.filter f l)) as Hin by now apply List.filter_In.
  rewrite H in Hin. destruct Hin.
Qed.

Lemma candidates_In (workspaces : list WorkspaceConfig) (teamId : string)
    (workspace : WorkspaceConfig) :
  In workspace (List.filter (fun w => String.eqb (ws_teamId w) teamId) workspaces)
  <-> In workspace workspaces /\ ws_teamId workspace = teamId.
Proof. rewrite List.filter_In. now rewrite String.eqb_eq. Qed.

Lemma length_zero_eqb {A : Type} (l : list A) : (length l =? 0)%nat = true <-> l = [].
Proof. destruct l; simpl; split; auto; discriminate. Qed.

Lemma filter_keeps_two {A : Type} (f : A -> bool) (pre mid post : list A) (a b : A) :
  f a = true -> f b = true ->
  List.filter f (pre ++ a :: mid ++ b :: post)
  = List.filter f pre ++ a :: List.filter f mid ++ b :: List.filter f post.
Proof.
  intros Ha Hb. rewrite List.filter_app. simpl. rewrite Ha, List.filter_app. simpl.
  now rewrite Hb.
Qed.

Lemma two_or_more {A : Type} (pre mid post : list A) (a b : A) :
  exists x y rest, pre ++ a :: mid ++ b :: post = x :: y :: rest.
Proof.
  destruct pre as [| x [| y pre]]; simpl.
  - destruct mid as [| y mid]; simpl; eauto.
  - eauto.
  - eauto.
Qed.

(** X6: a workspace that is returned is a configured workspace of the
    issue's team, and the only possible answer: either the issue has a project
    and this is the one workspace of the team that lists it, or no workspace
    of the team lists the issue's project (or the issue has none) and this is
    the one workspace of the team without a project list. *)
Theorem resolveWorkspaceForIssue_sound (workspaces : list WorkspaceConfig)
    (issue : IssueContext) (workspace : WorkspaceConfig) :
  resolveWorkspaceForIssue workspaces issue = inl workspace ->
  exists teamId,
    issue_teamId issue = Some teamId /\ teamId <> ""
    /\ In workspace workspaces /\ ws_teamId workspace = teamId
    /\ ((exists projectId,
            issue_projectId issue = Some projectId /\ projectId <> ""
            /\ In projectId (ws_projectIds workspace)
            /\ forall other, In other workspaces -> listsProject teamId projectId other ->
                 other = workspace)
        \/ ((forall projectId other,
               issue_projectId issue = Some projectId -> projectId <> "" ->
               In other workspaces -> ~ listsProject teamId projectId other)
            /\ ws_projectIds workspace = []
            /\ forall other, In other workspaces -> catchAll teamId other ->
                 other = workspace)).
Proof.
  unfold resolveWorkspaceForIssue.
  destruct (issue_teamId issue) as [teamId |]; simpl; [| discriminate].
  destruct (Js.truthy teamId) eqn:Hteam; simpl; [| discriminate].
  apply Triggers.truthy_nonempty in Hteam.
  set (candidates := List.filter (fun w => String.eqb (ws_teamId w) teamId) workspaces).
  destruct (length candidates =? 0)%nat; [discriminate |].
  assert (forall w,
             match List.filter (fun w => (length (ws_projectIds w) =? 0)%nat) candidates with
             | [w'] => inl w'
             | _ :: _ :: _ =>
                 inr ("Multiple workspaces match teamId " +:+ teamId
                      +:+ " with no projectIds filter")
             | [] =>
                 inr ("No workspace configured for teamId " +:+ teamId +:+ " with projectId "
                      +:+ default "none" (issue_projectId issue))
             end = inl w ->
             In w workspaces /\ ws_teamId w = teamId /\ ws_projectIds w = []
             /\ forall other, In other workspaces -> catchAll teamId other -> other = w)
    as Hfallback.
  { intros w.
    destruct (List.filter _ candidates) as [| w' [| ? ?]] eqn:Hf; try discriminate.
    intros [= ->]. apply filter_singleton in Hf. destruct Hf as (Hin & Hempty & Huniq).
    apply candidates_In in Hin. destruct Hin as [Hin Hteam'].
    apply length_zero_eqb in Hempty. split_and!; auto.
    intros other Hother [Ht He]. apply Huniq.
    - apply candidates_In. auto.
    - now apply length_zero_eqb. }
  destruct (issue_projectId issue) as [projectId |]; simpl.
  2:{ intros H. apply Hfallback in H. destruct H as (Hin & Ht & He & Hu).
      exists teamId. split_and!; auto. right. split_and!; auto. intros; discriminate. }
  destruct (Js.truthy projectId) eqn:Hproj; simpl.
  2:{ intros H. apply Hfallback in H. destruct H as (Hin & Ht & He & Hu).
      exists teamId. split_and!; auto. right. split_and!; auto.
      intros p other [= <-] Hp. apply Triggers.truthy_nonempty in Hp. congruence. }
  apply Triggers.truthy_nonempty in Hproj.
  destruct (List.filter (fun w => Js.arrayIncludes (ws_projectIds w) projectId) candidates)
    as [| w' [| ? ?]] eqn:Hf; try discriminate.
  - intros H. apply Hfallback in H. destruct H as (Hin & Ht & He & Hu).
    exists teamId. split_and!; auto. right. split_and!; auto.
    intros p other [= <-] _ Hother [Hto Hpo].
    assert (Js.arrayIncludes (ws_projectIds other) projectId = false) as Hno.
    { apply (filter_nil_none _ _ Hf). apply candidates_In. auto. }
    apply Triggers.arrayIncludes_In in Hpo. congruence.
  - intros [= ->]. apply filter_singleton in Hf. destruct Hf as (Hin & Hlists & Huniq).
    apply candidates_In in Hin. destruct Hin as [Hin Ht].
    apply Triggers.arrayIncludes_In in Hlists.
    exists teamId. split_and!; auto. left. exists projectId. split_and!; auto.
    intros other Hother [Hto Hpo]. apply Huniq.
    + apply candidates_In. auto.
    + now apply Triggers.arrayIncludes_In.
Qed.

Definition acme : WorkspaceConfig :=
  {| ws_name := "acme"; ws_teamId := "team-1"; ws_projectIds := [];
     ws_localPath := "/srv/acme" |}.

Definition acmeMobile : WorkspaceConfig :=
  {| ws_name := "acme-mobile"; ws_teamId := "team-1"; ws_projectIds := ["p-7"];
     ws_localPath := "/srv/acme-mobile" |}.

Lemma resolveWorkspaceForIssue_sound_witness :
  exists teamId,
    Some "team-1" = Some teamId /\ teamId <> ""
    /\ In acmeMobile [acme; acmeMobile] /\ ws_teamId acmeMobile = teamId.
Proof.
  destruct (resolveWorkspaceForIssue_sound [acme; acmeMobile]
              {| issue_id := "i1"; issue_identifier := None;
                 issue_teamId := Some "team-1"; issue_projectId := Some "p-7" |}
              acmeMobile eq_refl) as (teamId & H1 & H2 & H3 & H4 & _).
  exists teamId. auto.
Defined.

(** X7: the call throws, instead of guessing, whenever the answer is not
    determined: when the issue has no team, when no workspace is configured
    for the team, when two workspaces of the team list the issue's project,
    and when none lists it and the team has two workspaces, or none, without
    a project list. *)
Theorem resolveWorkspaceForIssue_refuses (workspaces : list WorkspaceConfig)
    (issue : IssueContext) :
  (Js.truthyOpt (issue_teamId issue) = false ->
   resolveWorkspaceForIssue workspaces issue
   = inr "Issue teamId is required for workspace resolution")
  /\ (forall teamId, issue_teamId issue = Some teamId -> teamId <> "" ->
      (forall workspace, In workspace workspaces -> ws_teamId workspace <> teamId) ->
      resolveWorkspaceForIssue workspaces issue
      = inr ("No workspace configured for teamId " +:+ teamId))
  /\ (forall teamId projectId a b pre mid post,
        issue_teamId issue = Some teamId -> teamId <> "" ->
        issue_projectId issue = Some projectId -> projectId <> "" ->
        workspaces = pre ++ a :: mid ++ b :: post ->
        listsProject teamId projectId a -> listsProject teamId projectId b ->
        resolveWorkspaceForIssue workspaces issue
        = inr ("Multiple workspaces match projectId " +:+ projectId))
  /\ (forall teamId a b pre mid post,
        issue_teamId issue = Some teamId -> teamId <> "" ->
        Js.truthyOpt (issue_projectId issue) = false ->
        workspaces = pre ++ a :: mid ++ b :: post ->
        catchAll teamId a -> catchAll teamId b ->
        resolveWorkspaceForIssue workspaces issue
        = inr ("Multiple workspaces match teamId " +:+ teamId
               +:+ " with no projectIds filter")).
Proof.
  unfold resolveWorkspaceForIssue. split_and!.
  - intros ->. reflexivity.
  - intros teamId -> Hne Hnone. apply Triggers.truthy_nonempty in Hne. simpl. rewrite Hne.
    simpl.
    assert (List.filter (fun w => String.eqb (ws_teamId w) teamId) workspaces = []) as ->.
    { induction workspaces as [| w rest IH]; [reflexivity |]. simpl.
      destruct (String.eqb (ws_teamId w) teamId) eqn:Heq.
      - apply String.eqb_eq in Heq. exfalso. apply (Hnone w); [now left | exact Heq].
      - apply IH. intros w' Hw'. apply Hnone. now right. }
    reflexivity.
  - intros teamId projectId a b pre mid post -> Hne -> Hpne -> [Hta Hpa] [Htb Hpb].
    apply Triggers.truthy_nonempty in Hne, Hpne. simpl. rewrite Hne, Hpne. simpl.
    apply String.eqb_eq in Hta, Htb. apply Triggers.arrayIncludes_In in Hpa, Hpb.
    rewrite (filter_keeps_two _ pre mid post a b Hta Htb).
    rewrite (filter_keeps_two _ _ _ _ a b Hpa Hpb).
    destruct (two_or_more
                (List.filter (fun w => String.eqb (ws_teamId w) teamId) pre)
                (List.filter (fun w => String.eqb (ws_teamId w) teamId) mid)
                (List.filter (fun w => String.eqb (ws_teamId w) teamId) post) a b)
      as (x & y & rest & ->).
    match goal with
    | |- context [List.filter ?f ?l1 ++ a :: List.filter ?f ?l2 ++ b :: List.filter ?f ?l3] =>
        destruct (two_or_more (List.filter f l1) (List.filter f l2) (List.filter f l3) a b)
          as (x' & y' & rest' & ->)
    end.
    reflexivity.
  - intros teamId a b pre mid post -> Hne Hnp -> [Hta Hea] [Htb Heb].
    apply Triggers.truthy_nonempty in Hne. simpl. rewrite Hne, Hnp. simpl.
    apply String.eqb_eq in Hta, Htb.
    assert ((length (ws_projectIds a) =? 0)%nat = true) as Hla by now rewrite Hea.
    assert ((length (ws_projectIds b) =? 0)%nat = true) as Hlb by now rewrite Heb.
    rewrite (filter_keeps_two _ pre mid post a b Hta Htb).
    rewrite (filter_keeps_two _ _ _ _ a b Hla Hlb).
    destruct (two_or_more
                (List.filter (fun w => String.eqb (ws_teamId w) teamId) pre)
                (List.filter (fun w => String.eqb (ws_teamId w) teamId) mid)
                (List.filter (fun w => String.eqb (ws_teamId w) teamId) post) a b)
      as (x & y & rest & ->).
    match goal with
    | |- context [List.filter ?f ?l1 ++ a :: List.filter ?f ?l2 ++ b :: List.filter ?f ?l3] =>
        destruct (two_or_more (List.filter f l1) (List.filter f l2) (List.filter f l3) a b)
          as (x' & y' & rest' & ->)
    end.
    reflexivity.
Qed.

End Workspace.

Example resolveWorkspaceForIssue_examples :
  let issue project :=
    {| Workspace.issue_id := "i1"; Workspace.issue_identifier := None;
       Workspace.issue_teamId := Some "team-1"; Workspace.issue_projectId := project |} in
  let clone := {| Workspace.ws_name := "acme-2"; Workspace.ws_teamId := "team-1";
                  Workspace.ws_projectIds := []; Workspace.ws_localPath := "/srv/acme-2" |} in
  Workspace.resolveWorkspaceForIssue [Workspace.acme; Workspace.acmeMobile] (issue (Some "p-7"))
  = inl Workspace.acmeMobile
  /\ Workspace.resolveWorkspaceForIssue [Workspace.acme; Workspace.acmeMobile] (issue (Some "p-9"))
     = inl Workspace.acme
  /\ Workspace.resolveWorkspaceForIssue [Workspace.acme; Workspace.acmeMobile; clone] (issue None)
     = inr "Multiple workspaces match teamId team-1 with no projectIds filter"
  /\ Workspace.resolveWorkspaceForIssue [Workspace.acmeMobile] (issue (Some "p-9"))
     = inr "No workspace configured for teamId team-1 with projectId p-9".
Proof. cbv zeta. split_and!; reflexivity. Qed.

(** ** The request rate limit in front of both webhooks
    (src/middleware/ratelimit.ts) *)
Module RateLimit.

Record RateLimitState := { count : Z; resetAt : Z }.

Record RateLimitOptions := { enabled : bool; windowMs : Z; max : Z }.

(** What the middleware reads of a request. *)
Record RequestInfo := {
  xForwardedFor : option string;
  xRealIp : option string;
  rawUrl : option string
}.

(** [a || b] for [a : string | undefined] *)
Definition orElse (a : option string) (b : string) : string :=
  match a with
  | Some s => if Js.truthy s then s else b
  | None => b
  end.

Definition keyOf (r : RequestInfo) : string :=
  orElse (xForwardedFor r) (orElse (xRealIp r) (orElse (rawUrl r) "unknown")).

(** [Math.ceil(x / 1000)] for an integer [x]. *)
Definition ceilSeconds (x : Z) : Z := - ((- x) / 1000).

(** What the middleware does with a request: hand it on, or answer 429 with
    a [retry-after] header. *)
Inductive Verdict :=
| Next
| TooManyRequests (retryAfter : string).

Definition isNext (v : Verdict) : bool :=
  match v with Next => true | TooManyRequests _ => false end.

(** The middleware returned by [rateLimitMiddleware(options)], with the
    clock reading and the module's map [state] passed in; the map after the
    call is returned with the verdict. *)
Definition rateLimit (options : RateLimitOptions) (now : Z) (r : RequestInfo)
    (state : gmap string RateLimitState) : Verdict * gmap string RateLimitState :=
  if negb (enabled options) then (Next, state) else
  let key := keyOf r in
  let fresh := (Next, <[ key := {| count := 1; resetAt := now + windowMs options |} ]> state) in
  match state !! key with
  | None => fresh
  | Some record =>
      if resetAt record <=? now then fresh
      else
        let record := {| count := count record + 1; resetAt := resetAt record |} in
        let state := <[ key := record ]> state in
        if max options <? count record
        then (TooManyRequests (pretty (ceilSeconds (resetAt record - now))), state)
        else (Next, state)
  end.

(** Requests handled one after the other: the verdicts, oldest first, and
    the map after the last. *)
Fixpoint serve (options : RateLimitOptions) (requests : list (Z * RequestInfo))
    (state : gmap string RateLimitState) : list Verdict * gmap string RateLimitState :=
  match requests with
  | [] => ([], state)
  | (now, r) :: rest =>
      let '(verdict, state) := rateLimit options now r state in
      let '(verdicts, state) := serve options rest state in
      (verdict :: verdicts, state)
  end.

Definition passed (verdicts : list Verdict) : nat := length (List.filter isNext verdicts).

(** Inside a window: requests of one client arriving before the window of
    its record ends. *)
Lemma serve_inside_window (options : RateLimitOptions) (key : string)
    (requests : list (Z * RequestInfo)) (state : gmap string RateLimitState) (c r : Z) :
  enabled options = true ->
  state !! key = Some {| count := c; resetAt := r |} ->
  Forall (fun q : Z * RequestInfo => keyOf q.2 = key /\ q.1 < r) requests ->
  (serve options requests state).2 !! key
  = Some {| count := c + Z.of_nat (length requests); resetAt := r |}
  /\ Z.of_nat (passed (serve options requests state).1)
     = Z.max 0 (Z.min (Z.of_nat (length requests)) (max options - c))
  /\ (forall k, k <> key -> (serve options requests state).2 !! k = state !! k).
Proof.
  intros Hen. revert state c.
  induction requests as [| [now q] rest IH]; intros state c Hrec Hall.
  - simpl. split_and!; try (rewrite Hrec; do 2 f_equal; lia); [unfold passed; simpl; lia | auto].
  - inversion Hall as [| ? ? Hhd Hrest]; subst. destruct Hhd as [Hkey Hlt].
    simpl in Hkey, Hlt.
    set (state1 := <[ key := {| count := c + 1; resetAt := r |} ]> state).
    assert (exists verdict,
               rateLimit options now q state = (verdict, state1)
               /\ isNext verdict = negb (max options <? c + 1)) as (verdict & Hstep & Hnext).
    { unfold rateLimit. rewrite Hen, Hkey, Hrec. cbn [negb resetAt count].
      replace (r <=? now) with false by (symmetry; apply Z.leb_gt; lia).
      fold state1. destruct (max options <? c + 1); eexists; split; reflexivity. }
    assert (state1 !! key = Some {| count := c + 1; resetAt := r |}) as Hrec1
      by apply lookup_insert_eq.
    destruct (IH state1 (c + 1) Hrec1 Hrest) as (Hfinal & Hpassed & Hframe).
    cbn [serve]. rewrite Hstep.
    destruct (serve options rest state1) as [verdicts state2]. cbn [fst snd] in *.
    split_and!.
    + rewrite Hfinal. do 2 f_equal. simpl length. lia.
    + unfold passed in *. cbn [List.filter]. rewrite Hnext. simpl length.
      destruct (max options <? c + 1) eqn:Hmax; cbn [negb length];
        [apply Z.ltb_lt in Hmax | apply Z.ltb_ge in Hmax]; lia.
    + intros k Hk. rewrite (Hframe k Hk). unfold state1. now apply lookup_insert_ne.
Qed.

(** X8: take the requests of one client that arrive while no record of the
    client is current (none, or one whose window has ended), the first at
    [now] and the others before [now + windowMs].  The first is let through
    whatever [max] is; of the [n] others exactly the first [max - 1] are let
    through; the client's record counts all of them, also the refused ones;
    no other client's record changes. *)
Theorem rateLimit_window (options : RateLimitOptions) (now : Z) (first : RequestInfo)
    (others : list (Z * RequestInfo)) (state : gmap string RateLimitState) :
  enabled options = true ->
  match state !! keyOf first with
  | Some record => resetAt record <= now
  | None => True
  end ->
  Forall (fun q : Z * RequestInfo =>
            keyOf q.2 = keyOf first /\ q.1 < now + windowMs options) others ->
  let served := serve options ((now, first) :: others) state in
  head served.1 = Some Next
  /\ Z.of_nat (passed served.1)
     = 1 + Z.max 0 (Z.min (Z.of_nat (length others)) (max options - 1))
  /\ served.2 !! keyOf first
     = Some {| count := 1 + Z.of_nat (length others); resetAt := now + windowMs options |}
  /\ (forall k, k <> keyOf first -> served.2 !! k = state !! k).
Proof.
  intros Hen Hstale Hall. cbv zeta. cbn [serve].
  set (state1 := <[ keyOf first := {| count := 1; resetAt := now + windowMs options |} ]> state).
  assert (rateLimit options now first state = (Next, state1)) as ->.
  { unfold rateLimit. rewrite Hen. cbn [negb].
    destruct (state !! keyOf first) as [record |]; [| reflexivity].
    replace (resetAt record <=? now) with true by (symmetry; now apply Z.leb_le).
    reflexivity. }
  assert (state1 !! keyOf first = Some {| count := 1; resetAt := now + windowMs options |})
    as Hrec1 by apply lookup_insert_eq.
  destruct (serve_inside_window options (keyOf first) others state1 1 _ Hen Hrec1 Hall)
    as (Hfinal & Hpassed & Hframe).
  destruct (serve options others state1) as [verdicts state2]. cbn [fst snd] in *.
  split_and!.
  - reflexivity.
  - unfold passed in *. cbn [List.filter isNext length]. lia.
  - exact Hfinal.
  - intros k Hk. rewrite (Hframe k Hk). unfold state1. now apply lookup_insert_ne.
Qed.

Definition fromProxy : RequestInfo :=
  {| xForwardedFor := Some "203.0.113.9"; xRealIp := None; rawUrl := Some "http://h/webhook" |}.

Lemma rateLimit_window_witness :
  Z.of_nat (passed (serve {| enabled := true; windowMs := 60000; max := 2 |}
                      [(0, fromProxy); (10, fromProxy); (20, fromProxy); (30, fromProxy)] ∅).1)
  = 1 + Z.max 0 (Z.min 3 (2 - 1)).
Proof.
  apply (rateLimit_window {| enabled := true; windowMs := 60000; max := 2 |} 0 fromProxy
           [(10, fromProxy); (20, fromProxy); (30, fromProxy)] ∅).
  - reflexivity.
  - exact I.
  - repeat constructor.
Defined.

(** X9: a refusal names a waiting time of at least one second, and that
    time is the remaining part of the window rounded up to whole seconds; a
    request that arrives once the window has ended is let through and opens a
    new window of count 1; with the limit disabled every request is let
    through and the map is not touched. *)
Theorem rateLimit_verdicts (options : RateLimitOptions) (now : Z) (r : RequestInfo)
    (state : gmap string RateLimitState) :
  (forall retryAfter,
      (rateLimit options now r state).1 = TooManyRequests retryAfter ->
      exists record seconds,
        state !! keyOf r = Some record /\ now < resetAt record
        /\ max options <= count record
        /\ retryAfter = pretty seconds /\ 1 <= seconds
        /\ 1000 * (seconds - 1) < resetAt record - now <= 1000 * seconds)
  /\ (enabled options = true ->
      forall record, state !! keyOf r = Some record -> resetAt record <= now ->
      rateLimit options now r state
      = (Next, <[ keyOf r := {| count := 1; resetAt := now + windowMs options |} ]> state))
  /\ (enabled options = false -> rateLimit options now r state = (Next, state)).
Proof.
  split_and!.
  - intros retryAfter. unfold rateLimit.
    destruct (enabled options); cbn [negb]; [| discriminate].
    destruct (state !! keyOf r) as [record |]; [| discriminate].
    destruct (resetAt record <=? now) eqn:Hreset; [discriminate |].
    apply Z.leb_gt in Hreset. cbn [count resetAt].
    destruct (max options <? count record + 1) eqn:Hmax; [| discriminate].
    apply Z.ltb_lt in Hmax. intros [= <-].
    exists record, (ceilSeconds (resetAt record - now)).
    unfold ceilSeconds. split_and!; try first [reflexivity | lia].
    + pose proof (Z.div_mod (- (resetAt record - now)) 1000 ltac:(lia)).
      pose proof (Z.mod_pos_bound (- (resetAt record - now)) 1000 ltac:(lia)). lia.
    + pose proof (Z.div_mod (- (resetAt record - now)) 1000 ltac:(lia)).
      pose proof (Z.mod_pos_bound (- (resetAt record - now)) 1000 ltac:(lia)). lia.
    + pose proof (Z.div_mod (- (resetAt record - now)) 1000 ltac:(lia)).
      pose proof (Z.mod_pos_bound (- (resetAt record - now)) 1000 ltac:(lia)). lia.
  - intros Hen record Hrec Hreset. unfold rateLimit. rewrite Hen, Hrec. cbn [negb].
    replace (resetAt record <=? now) with true by (symmetry; now apply Z.leb_le).
    reflexivity.
  - intros Hen. unfold rateLimit. now rewrite Hen.
Qed.

End RateLimit.

(** ** Retrying the calls of the Linear API (src/linear.ts: withRetry,
    isRetryableError) *)
Module Retry.

Import Runner.

(** [isRetryableError(error)] *)
Definition isRetryableError (error : JsError) : bool :=
  if isErrorInstance error then
    let message := Js.toLowerCase (err_message error) in
    if Js.includes "rate limit" message || Js.includes "429" message then true
    else if Js.includes "timeout" message || Js.includes "timed out" message then true
    else Js.includes "502" message || Js.includes "503" message || Js.includes "504" message
  else false.

Inductive RetryOutcome (T : Type) :=
| Returned (value : T)
| Thrown (error : JsError)
| NoFuel.
Arguments Returned {T} value.
Arguments Thrown {T} error.
Arguments NoFuel {T}.

(** How a call of [withRetry] ends, how often it called [fn], and the
    delays it waited, oldest first. *)
Record RetryRun (T : Type) := {
  outcome : RetryOutcome T;
  calls : nat;
  delays : list Z
}.
Arguments outcome {T} r.
Arguments calls {T} r.
Arguments delays {T} r.

Section WithRetry.

Context {T : Type}.

(** [fn k] is what the call number [k] of [fn] does, counting from 0: it
    resolves with a value or rejects with an error. *)
Variable fn : nat -> T + JsError.
Variable retries : Z.
Variable baseDelayMs : Z.

(** The [while (true)] loop, with the local [attempt]. *)
Fixpoint withRetryLoop (fuel : nat) (attempt : Z) (called : nat) (waited : list Z)
    : RetryRun T :=
  match fuel with
  | O => {| outcome := NoFuel; calls := called; delays := waited |}
  | S fuel' =>
      match fn called with
      | inl value => {| outcome := Returned value; calls := S called; delays := waited |}
      | inr error =>
          let attempt := attempt + 1 in
          if (retries <? attempt) || negb (isRetryableError error)
          then {| outcome := Thrown error; calls := S called; delays := waited |}
          else withRetryLoop fuel' attempt (S called) (waited ++ [baseDelayMs * attempt])
      end
  end.

(** [withRetry(fn, retries, baseDelayMs)], with the fuel that is always
    enough. *)
Definition withRetry : RetryRun T :=
  withRetryLoop (S (Z.to_nat retries)) 0 0 [].

Definition failsRetryably (k : nat) : Prop :=
  exists error, fn k = inr error /\ isRetryableError error = true.

Lemma withRetryLoop_spec (fuel : nat) (called : nat) :
  (Z.of_nat fuel + Z.of_nat called = 1 + Z.max 0 retries) -> (1 <= fuel)%nat ->
  (forall k, (k < called)%nat -> failsRetryably k) ->
  let r := withRetryLoop fuel (Z.of_nat called) called
             (map (fun k => baseDelayMs * Z.of_nat k) (seq 1 called)) in
  (called < calls r)%nat
  /\ Z.of_nat (calls r) <= 1 + Z.max 0 retries
  /\ delays r = map (fun k => baseDelayMs * Z.of_nat k) (seq 1 (calls r - 1))
  /\ (forall k, (k < calls r - 1)%nat -> failsRetryably k)
  /\ match outcome r with
     | Returned value => fn (calls r - 1) = inl value
     | Thrown error =>
         fn (calls r - 1) = inr error
         /\ (isRetryableError error = false \/ retries < Z.of_nat (calls r))
     | NoFuel => False
     end.
Proof.
  revert called. induction fuel as [| fuel IH]; intros called Hsum Hpos Hfailed; [lia |].
  cbv zeta. cbn [withRetryLoop].
  destruct (fn called) as [value | error] eqn:Hcall.
  - cbn [calls delays outcome]. replace (S called - 1)%nat with called by lia.
    split_and!; auto; lia.
  - destruct ((retries <? Z.of_nat called + 1) || negb (isRetryableError error)) eqn:Hstop.
    + cbn [calls delays outcome]. replace (S called - 1)%nat with called by lia.
      split_and!; auto; try lia.
      apply orb_true_iff in Hstop. destruct Hstop as [Hover | Hno].
      * right. apply Z.ltb_lt in Hover. lia.
      * left. now apply negb_true_iff.
    + apply orb_false_iff in Hstop. destruct Hstop as [Hunder Hretry].
      apply Z.ltb_ge in Hunder. apply negb_false_iff in Hretry.
      replace (Z.of_nat called + 1) with (Z.of_nat (S called)) by lia.
      replace (map (fun k => baseDelayMs * Z.of_nat k) (seq 1 called)
               ++ [baseDelayMs * Z.of_nat (S called)])
        with (map (fun k => baseDelayMs * Z.of_nat k) (seq 1 (S called)))
        by (rewrite seq_S, map_app; reflexivity).
      assert (forall k, (k < S called)%nat -> failsRetryably k) as Hfailed'.
      { intros k Hk. destruct (Nat.eq_dec k called) as [-> | Hne].
        - exists error. auto.
        - apply Hfailed. lia. }
      destruct (IH (S called)) as (H1 & H2 & H3 & H4 & H5); auto; try lia.
      split_and!; auto; lia.
Qed.

(** X10: [withRetry] always ends: it calls [fn] at least once and at most
    [retries + 1] times (once when [retries] is negative), every call but
    the last having failed with a retryable error; before the call number
    [k + 1] it waits [baseDelayMs * k]; it returns the value of the last
    call, or throws the error of the last call, and it throws only an error
    that is not retryable or the error of the call number [retries + 1]. *)
Theorem withRetry_bounded :
  (1 <= calls withRetry)%nat
  /\ Z.of_nat (calls withRetry) <= 1 + Z.max 0 retries
  /\ delays withRetry
     = map (fun k => baseDelayMs * Z.of_nat k) (seq 1 (calls withRetry - 1))
  /\ (forall k, (k < calls withRetry - 1)%nat -> failsRetryably k)
  /\ match outcome withRetry with
     | Returned value => fn (calls withRetry - 1) = inl value
     | Thrown error =>
         fn (calls withRetry - 1) = inr error
         /\ (isRetryableError error = false \/ retries < Z.of_nat (calls withRetry))
     | NoFuel => False
     end.
Proof.
  pose proof (withRetryLoop_spec (S (Z.to_nat retries)) 0) as H.
  cbv zeta in H. unfold withRetry. simpl seq in H. simpl map in H. simpl Z.of_nat in H.
  destruct H as (H1 & H2 & H3 & H4 & H5); try lia.
  split_and!; auto; lia.
Qed.

End WithRetry.

Definition rateLimited : JsError :=
  {| isDOMException := false; isErrorInstance := true; err_name := "Error";
     err_message := "Rate limit exceeded (429)"; err_code := None |}.

Definition notFound : JsError :=
  {| isDOMException := false; isErrorInstance := true; err_name := "Error";
     err_message := "Entity not found"; err_code := None |}.

(** A call that is rate limited twice and then answers; one that stays
    rate limited; one that fails for good at once. *)
Example withRetry_examples :
  withRetry (fun k => if (k <? 2)%nat then inr rateLimited else inl "comment-1") 3 500
  = {| outcome := Returned "comment-1"; calls := 3; delays := [500; 1000] |}
  /\ withRetry (T := string) (fun _ => inr rateLimited) 3 500
     = {| outcome := Thrown rateLimited; calls := 4; delays := [500; 1000; 1500] |}
  /\ withRetry (T := string) (fun _ => inr notFound) 3 500
     = {| outcome := Thrown notFound; calls := 1; delays := [] |}.
Proof. split_and!; reflexivity. Qed.

End Retry.

(** ** The text the bot posts (src/webhook.ts: truncateForLinear,
    quoteMarkdown, formatRecentComments) *)
Module Text.

Definition nl : ascii := "010"%char.
Definition cr : ascii := "013"%char.

(** [s.substring(0, n)] for a non-negative integer [n]. *)
Fixpoint take (n : nat) (s : string) : string :=
  match n, s with
  | O, _ => EmptyString
  | S n', String c s' => String c (take n' s')
  | S _, EmptyString => EmptyString
  end.

(** No code unit of [s] is [c]. *)
Fixpoint lacks (c : ascii) (s : string) : bool :=
  match s with
  | EmptyString => true
  | String a s' => negb (Ascii.eqb a c) && lacks c s'
  end.

Lemma append_cons (c : ascii) (a b : string) : String c a +:+ b = String c (a +:+ b).
Proof. reflexivity. Qed.

Lemma length_append (a b : string) :
  String.length (a +:+ b) = (String.length a + String.length b)%nat.
Proof.
  induction a as [| c a IH]; [reflexivity |].
  rewrite append_cons. simpl. now rewrite IH.
Qed.

Lemma append_assoc (a b c : string) : (a +:+ b) +:+ c = a +:+ (b +:+ c).
Proof.
  induction a as [| x a IH]; [reflexivity |].
  rewrite !append_cons. now rewrite IH.
Qed.

Lemma append_nil_r (a : string) : a +:+ "" = a.
Proof.
  induction a as [| x a IH]; [reflexivity |]. rewrite append_cons. now rewrite IH.
Qed.

Lemma length_take (n : nat) (s : string) :
  String.length (take n s) = Nat.min n (String.length s).
Proof.
  revert s. induction n as [| n IH]; intros [| c s]; simpl; auto.
Qed.

Lemma take_all (n : nat) (s : string) : (String.length s <= n)%nat -> take n s = s.
Proof.
  revert s. induction n as [| n IH]; intros [| c s]; simpl; intros H; try reflexivity; try lia.
  rewrite IH; [reflexivity | lia].
Qed.

Lemma startsWith_append (p s : string) : Js.startsWith p (p +:+ s) = true.
Proof.
  induction p as [| c p IH]; [reflexivity |].
  rewrite append_cons. simpl. now rewrite Ascii.eqb_refl.
Qed.

Lemma startsWith_take (n : nat) (s : string) : Js.startsWith (take n s) s = true.
Proof.
  revert s. induction n as [| n IH]; intros [| c s]; simpl; auto.
  rewrite Ascii.eqb_refl. apply IH.
Qed.

Lemma lacks_append (c : ascii) (a b : string) :
  lacks c (a +:+ b) = lacks c a && lacks c b.
Proof.
  induction a as [| x a IH]; [reflexivity |].
  rewrite append_cons. simpl. rewrite IH. now rewrite andb_assoc.
Qed.

Lemma lacks_take (c : ascii) (n : nat) (s : string) :
  lacks c s = true -> lacks c (take n s) = true.
Proof.
  revert s. induction n as [| n IH]; intros [| x s]; simpl; auto.
  intros H. apply andb_true_iff in H. destruct H as [-> H]. simpl. auto.
Qed.

(** *** Lines *)

Lemma splitChar_cons (sep : ascii) (s : string) :
  exists first rest, Js.splitChar sep s = first :: rest.
Proof.
  induction s as [| c s (first & rest & IH)]; simpl; [eauto |].
  destruct (Ascii.eqb c sep); [eauto |]. rewrite IH. eauto.
Qed.

Lemma splitChar_lacks (sep : ascii) (s : string) :
  Forall (fun part => lacks sep part = true) (Js.splitChar sep s).
Proof.
  induction s as [| c s IH]; simpl; [repeat constructor |].
  destruct (Ascii.eqb c sep) eqn:Hc; [constructor; auto |].
  destruct (Js.splitChar sep s) as [| first rest]; [repeat constructor; simpl; now rewrite Hc |].
  inversion IH; subst. constructor; [simpl; now rewrite Hc | assumption].
Qed.

Lemma splitChar_append (sep : ascii) (a b : string) :
  lacks sep a = true ->
  Js.splitChar sep (a +:+ String sep b) = a :: Js.splitChar sep b.
Proof.
  induction a as [| c a IH].
  - intros _. change ("" +:+ String sep b) with (String sep b). simpl.
    now rewrite Ascii.eqb_refl.
  - intros H. simpl in H. apply andb_true_iff in H. destruct H as [Hc Ha].
    apply negb_true_iff in Hc. rewrite append_cons. simpl. rewrite Hc, (IH Ha). reflexivity.
Qed.

Lemma splitChar_whole (sep : ascii) (a : string) :
  lacks sep a = true -> Js.splitChar sep a = [a].
Proof.
  induction a as [| c a IH]; simpl; [reflexivity |].
  intros H. apply andb_true_iff in H. destruct H as [Hc Ha].
  apply negb_true_iff in Hc. rewrite Hc, (IH Ha). reflexivity.
Qed.

(** Splitting what was joined gives the parts back. *)
Lemma splitChar_join (sep : ascii) (parts : list string) :
  parts <> [] -> Forall (fun part => lacks sep part = true) parts ->
  Js.splitChar sep (Js.join (String sep EmptyString) parts) = parts.
Proof.
  induction parts as [| x [| y rest] IH]; intros Hne Hall.
  - now contradiction Hne.
  - simpl. inversion Hall; subst. now apply splitChar_whole.
  - inversion Hall as [| ? ? Hx Hrest]; subst.
    change (Js.join (String sep "") (x :: y :: rest))
      with (x +:+ String sep "" +:+ Js.join (String sep "") (y :: rest)).
    change (String sep "" +:+ Js.join (String sep "") (y :: rest))
      with (String sep (Js.join (String sep "") (y :: rest))).
    rewrite (splitChar_append _ _ _ Hx), IH; [reflexivity | discriminate | exact Hrest].
Qed.

(** Joining what was split gives the string back. *)
Lemma join_splitChar (sep : ascii) (s : string) :
  Js.join (String sep EmptyString) (Js.splitChar sep s) = s.
Proof.
  induction s as [| a s IH]; [reflexivity |]. simpl.
  destruct (splitChar_cons sep s) as (first & rest & Hs). rewrite Hs in *.
  destruct (Ascii.eqb a sep) eqn:Ha.
  - apply Ascii.eqb_eq in Ha. subst a.
    change (Js.join (String sep "") ("" :: first :: rest))
      with (String sep (Js.join (String sep "") (first :: rest))).
    now rewrite IH.
  - destruct rest as [| second rest].
    + simpl in *. now rewrite IH.
    + change (Js.join (String sep "") (String a first :: second :: rest))
        with (String a (Js.join (String sep "") (first :: second :: rest))).
      now rewrite IH.
Qed.

(** *** truncateForLinear *)

Definition truncatedMark : string := String nl (String nl "... (truncated)").

Definition truncateForLinear (text : string) (maxLength : Z) : string :=
  if Z.of_nat (String.length text) <=? maxLength then text
  else take (Z.to_nat maxLength) text +:+ truncatedMark.

(** X11: a text that fits is returned as it is; a longer one is cut to its
    first [maxLength] characters (none when [maxLength] is negative) followed
    by the 17 characters of the truncation mark, so the result is never longer
    than [max(0, maxLength) + 17] and says when something was cut. *)
Theorem truncateForLinear_bound (text : string) (maxLength : Z) :
  (Z.of_nat (String.length text) <= maxLength -> truncateForLinear text maxLength = text)
  /\ (maxLength < Z.of_nat (String.length text) ->
      Z.of_nat (String.length (truncateForLinear text maxLength)) = Z.max 0 maxLength + 17
      /\ Js.startsWith (take (Z.to_nat maxLength) text) text = true
      /\ truncateForLinear text maxLength = take (Z.to_nat maxLength) text +:+ truncatedMark)
  /\ Z.of_nat (String.length (truncateForLinear text maxLength))
     <= Z.max (Z.of_nat (String.length text)) (Z.max 0 maxLength + 17)
  /\ (0 <= maxLength ->
      Z.of_nat (String.length (truncateForLinear text maxLength)) <= maxLength + 17).
Proof.
  unfold truncateForLinear.
  destruct (Z.of_nat (String.length text) <=? maxLength) eqn:Hfit.
  - apply Z.leb_le in Hfit. split_and!; try lia; auto.
  - apply Z.leb_gt in Hfit.
    assert (Z.of_nat (String.length (take (Z.to_nat maxLength) text +:+ truncatedMark))
            = Z.max 0 maxLength + 17) as Hlen.
    { rewrite length_append, length_take. unfold truncatedMark.
      cbn [String.length]. lia. }
    split_and!; try lia; auto using startsWith_take.
Qed.

(** *** quoteMarkdown *)

Definition quoteMarkdown (text : string) : string :=
  let trimmed := Js.trim text in
  if negb (Js.truthy trimmed) then "> (empty)"
  else Js.join (String nl EmptyString)
         (map (fun line => "> " +:+ line) (Js.splitChar nl trimmed)).

(** X12: every line of a quotation starts with the quote mark [> ]; a blank
    text is quoted as [> (empty)]; otherwise the quotation has the lines of
    the trimmed text, in order, each behind the mark, so that removing the
    marks gives the trimmed text back. *)
Theorem quoteMarkdown_lines (text : string) :
  Forall (fun line => Js.startsWith "> " line = true)
    (Js.splitChar nl (quoteMarkdown text))
  /\ (Js.trim text = "" -> quoteMarkdown text = "> (empty)")
  /\ (Js.trim text <> "" ->
      Js.splitChar nl (quoteMarkdown text)
      = map (fun line => "> " +:+ line) (Js.splitChar nl (Js.trim text))
      /\ Js.join (String nl EmptyString)
           (map (Js.sliceFrom 2) (Js.splitChar nl (quoteMarkdown text)))
         = Js.trim text).
Proof.
  unfold quoteMarkdown. destruct (Js.trim text) as [| c trimmed] eqn:Htrim.
  - simpl. split_and!; [repeat constructor | reflexivity | intros H; now contradiction H].
  - cbn [Js.truthy negb].
    assert (Js.splitChar nl
              (Js.join (String nl "") (map (fun line => "> " +:+ line)
                                         (Js.splitChar nl (String c trimmed))))
            = map (fun line => "> " +:+ line) (Js.splitChar nl (String c trimmed))) as Hsplit.
    { apply splitChar_join.
      - destruct (splitChar_cons nl (String c trimmed)) as (first & rest & ->). discriminate.
      - apply Forall_map. eapply Forall_impl; [apply splitChar_lacks |].
        intros line Hline. exact Hline. }
    split_and!.
    + rewrite Hsplit. apply Forall_map. apply Forall_forall. intros line _. reflexivity.
    + discriminate.
    + intros _. split; [exact Hsplit |]. rewrite Hsplit, map_map.
      rewrite (map_ext _ (fun line => line)) by reflexivity. rewrite map_id.
      apply join_splitChar.
Qed.

(** *** formatRecentComments *)

Record IssueComment := { cm_id : string; cm_body : string; cm_createdAt : string }.

(** [array.slice(start)] for an integer [start]: a negative one counts from
    the end. *)
Definition sliceList {A : Type} (start : Z) (l : list A) : list A :=
  let len := Z.of_nat (length l) in
  let from := if start <? 0 then Z.max (len + start) 0 else Z.min start len in
  skipn (Z.to_nat from) l.

(** [s.replace(/\r?\n/g, ' ')] *)
Fixpoint oneLine (s : string) : string :=
  match s with
  | EmptyString => EmptyString
  | String c rest =>
      if Ascii.eqb c nl then String " " (oneLine rest)
      else if Ascii.eqb c cr then
        match rest with
        | String d rest' =>
            if Ascii.eqb d nl then String " " (oneLine rest') else String c (oneLine rest)
        | EmptyString => String c EmptyString
        end
      else String c (oneLine rest)
  end.

Definition excerptOf (body : string) : string :=
  let oneLine := oneLine (Js.trim body) in
  if (500 <? String.length oneLine)%nat
  then take 500 oneLine +:+ "... (truncated)"
  else oneLine.

Definition lineOf (comment : IssueComment) : string :=
  "- " +:+ cm_createdAt comment +:+ ": " +:+ excerptOf (cm_body comment).

(** [formatRecentComments(comments, excludeIds, maxComments)]; the set
    [excludeIds] is given by its elements. *)
Definition formatRecentComments (comments : list IssueComment) (excludeIds : list string)
    (maxComments : Z) : string :=
  let filtered :=
    List.filter (fun comment => negb (Js.arrayIncludes excludeIds (cm_id comment)))
      (List.filter (fun comment => Js.truthy (Js.trim (cm_body comment))) comments) in
  if (length filtered =? 0)%nat then "No comments."
  else
    let selected := sliceList (- maxComments) filtered in
    Js.join (String nl EmptyString) (map lineOf selected).

(** The comments that are neither blank nor excluded, in order. *)
Definition kept (comments : list IssueComment) (excludeIds : list string)
    : list IssueComment :=
  List.filter (fun comment => negb (Js.arrayIncludes excludeIds (cm_id comment)))
    (List.filter (fun comment => Js.truthy (Js.trim (cm_body comment))) comments).

Lemma oneLine_lacks (s : string) : lacks nl (oneLine s) = true.
Proof.
  assert (forall n s, (String.length s <= n)%nat -> lacks nl (oneLine s) = true) as H.
  { clear s. induction n as [| n IH]; intros [| c rest] Hlen;
      try reflexivity; try (simpl in Hlen; lia).
    assert (lacks nl (oneLine rest) = true) as Hrest by (apply IH; simpl in Hlen; lia).
    cbn [oneLine].
    destruct (Ascii.eqb c nl) eqn:Hc; [exact Hrest |].
    destruct (Ascii.eqb c cr) eqn:Hr.
    - destruct rest as [| d rest']; [cbn [lacks]; now rewrite Hc |].
      destruct (Ascii.eqb d nl) eqn:Hd.
      + cbn [lacks]. apply IH. simpl in Hlen. lia.
      + change (negb (Ascii.eqb c nl) && lacks nl (oneLine (String d rest')) = true).
        now rewrite Hc, Hrest.
    - change (negb (Ascii.eqb c nl) && lacks nl (oneLine rest) = true).
      now rewrite Hc, Hrest. }
  apply (H (String.length s)). lia.
Qed.

Lemma excerptOf_short (body : string) :
  (String.length (excerptOf body) <= 515)%nat /\ lacks nl (excerptOf body) = true.
Proof.
  unfold excerptOf.
  destruct (500 <? String.length (oneLine (Js.trim body)))%nat eqn:Hlong.
  - split.
    + rewrite length_append, length_take. cbn [String.length]. lia.
    + rewrite lacks_append, (lacks_take _ _ _ (oneLine_lacks _)). reflexivity.
  - apply Nat.ltb_ge in Hlong. split; [lia | apply oneLine_lacks].
Qed.

Lemma sliceList_last {A : Type} (n : Z) (l : list A) :
  0 <= n ->
  sliceList (- n) l
  = skipn (length l - (if n =? 0 then length l else Z.to_nat n)) l.
Proof.
  intros Hn. unfold sliceList.
  destruct (n =? 0) eqn:Hz.
  - apply Z.eqb_eq in Hz. subst n. change (- 0) with 0. change (0 <? 0) with false.
    cbv iota. rewrite Nat.sub_diag.
    replace (Z.to_nat (Z.min 0 (Z.of_nat (length l)))) with 0%nat by lia. reflexivity.
  - apply Z.eqb_neq in Hz. replace (- n <? 0) with true by (symmetry; apply Z.ltb_lt; lia).
    f_equal. lia.
Qed.

(** X13: the recent comments shown are the last [maxComments] of the
    comments that are neither blank nor excluded (all of them when
    [maxComments] is 0), one per line and in order; every line carries an
    excerpt of at most 515 characters without a line feed; when there is no
    such comment the text is [No comments.].  The timestamps are assumed to
    hold no line feed. *)
Theorem formatRecentComments_lines (comments : list IssueComment) (excludeIds : list string)
    (maxComments : Z) :
  0 <= maxComments ->
  Forall (fun comment => lacks nl (cm_createdAt comment) = true) comments ->
  let shown :=
    skipn (length (kept comments excludeIds)
           - (if maxComments =? 0 then length (kept comments excludeIds)
              else Z.to_nat maxComments))
      (kept comments excludeIds) in
  (kept comments excludeIds = [] ->
   formatRecentComments comments excludeIds maxComments = "No comments.")
  /\ (kept comments excludeIds <> [] ->
      shown <> []
      /\ Js.splitChar nl (formatRecentComments comments excludeIds maxComments)
         = map lineOf shown)
  /\ (exists earlier, kept comments excludeIds = earlier ++ shown)
  /\ (0 < maxComments -> Z.of_nat (length shown) <= maxComments)
  /\ Forall (fun comment =>
               In comment comments /\ ~ In (cm_id comment) excludeIds
               /\ Js.trim (cm_body comment) <> ""
               /\ (String.length (excerptOf (cm_body comment)) <= 515)%nat
               /\ lacks nl (lineOf comment) = true) shown.
Proof.
  intros Hmax Hstamps. cbv zeta.
  unfold formatRecentComments. fold (kept comments excludeIds).
  set (all := kept comments excludeIds).
  set (shown := skipn (length all - (if maxComments =? 0 then length all
                                     else Z.to_nat maxComments)) all).
  assert (Forall (fun comment =>
                    In comment comments /\ ~ In (cm_id comment) excludeIds
                    /\ Js.trim (cm_body comment) <> ""
                    /\ (String.length (excerptOf (cm_body comment)) <= 515)%nat
                    /\ lacks nl (lineOf comment) = true) all) as Hall.
  { apply List.Forall_forall. intros comment Hin. unfold all, kept in Hin.
    apply List.filter_In in Hin. destruct Hin as [Hin Hex].
    apply List.filter_In in Hin. destruct Hin as [Hin Hbody].
    split_and!.
    - exact Hin.
    - intros Hmem. apply Triggers.arrayIncludes_In in Hmem. rewrite Hmem in Hex. discriminate.
    - now apply Triggers.truthy_nonempty.
    - apply excerptOf_short.
    - unfold lineOf. rewrite !lacks_append.
      rewrite List.Forall_forall in Hstamps. rewrite (Hstamps _ Hin).
      rewrite (proj2 (excerptOf_short _)). reflexivity. }
  assert (all = firstn (length all - (if maxComments =? 0 then length all
                                      else Z.to_nat maxComments)) all ++ shown) as Hsplit
    by (unfold shown; now rewrite firstn_skipn).
  split_and!.
  - intros ->. reflexivity.
  - intros Hne.
    assert (shown <> []) as Hshown.
    { unfold shown. intros Hnil. apply (f_equal (@length _)) in Hnil.
      rewrite length_skipn in Hnil. simpl in Hnil.
      destruct all as [| first rest]; [now contradiction Hne |]. simpl length in *.
      destruct (maxComments =? 0) eqn:Hz; [lia |]. apply Z.eqb_neq in Hz. lia. }
    split; [exact Hshown |].
    destruct all as [| first rest] eqn:Hall'; [now contradiction Hne |].
    cbn [length Nat.eqb]. rewrite (sliceList_last _ _ Hmax). fold shown.
    apply splitChar_join.
    + destruct shown; [now contradiction Hshown | discriminate].
    + apply Forall_map. rewrite Hsplit in Hall. apply Forall_app in Hall.
      destruct Hall as [_ Hall]. fold shown in Hall.
      eapply Forall_impl; [exact Hall |]. intros comment (_ & _ & _ & _ & Hl). exact Hl.
  - eexists. exact Hsplit.
  - intros Hpos. unfold shown. rewrite length_skipn.
    replace (maxComments =? 0) with false by (symmetry; apply Z.eqb_neq; lia). lia.
  - rewrite Hsplit in Hall. apply Forall_app in Hall. apply Hall.
Qed.

Definition aComment (id body : string) : IssueComment :=
  {| cm_id := id; cm_body := body; cm_createdAt := "2026-01-01T00:00:00.000Z" |}.

Lemma formatRecentComments_lines_witness :
  let comments := [aComment "c1" "first"; aComment "c2" "  "; aComment "c3" "third";
                   aComment "c4" "fourth"] in
  0 <= 1
  /\ Forall (fun comment => lacks nl (cm_createdAt comment) = true) comments
  /\ Js.splitChar nl (formatRecentComments comments ["c4"] 1)
     = [lineOf (aComment "c3" "third")].
Proof.
  cbv zeta.
  assert (0 <= 1) as H1 by lia.
  assert (Forall (fun comment => lacks nl (cm_createdAt comment) = true)
            [aComment "c1" "first"; aComment "c2" "  "; aComment "c3" "third";
             aComment "c4" "fourth"]) as H2 by (repeat constructor).
  split_and!; [exact H1 | exact H2 |].
  destruct (formatRecentComments_lines _ ["c4"] 1 H1 H2) as (_ & H & _).
  apply H. vm_compute. discriminate.
Defined.

End Text.

(** ** Templates and issue identifiers (src/worktree.ts, src/webhook.ts,
    src/sandbox.ts: renderTemplate, normalizeIssueIdentifier) *)
Module Template.
Import Text.

Definition openBrace : ascii := "{"%char.
Definition closeBrace : ascii := "}"%char.

(** Every code unit of [s] satisfies [p]. *)
Fixpoint allChars (p : ascii -> bool) (s : string) : bool :=
  match s with
  | EmptyString => true
  | String c rest => p c && allChars p rest
  end.

(** What [\w+] takes at the start of [s]: the longest run of word
    characters. *)
Fixpoint spanWord (s : string) : string :=
  match s with
  | String c rest => if Js.isWordChar c then String c (spanWord rest) else EmptyString
  | EmptyString => EmptyString
  end.

(** A match of [/\{(\w+)\}/] that starts at the first code unit of [s]: its
    key.  The run of word characters cannot be given back, since what
    follows a shorter run is a word character and not the closing brace. *)
Definition placeholderAt (s : string) : option string :=
  match s with
  | String c rest =>
      if Ascii.eqb c openBrace then
        let key := spanWord rest in
        if Js.truthy key
           && Js.startsWith (String closeBrace EmptyString)
                (Js.sliceFrom (String.length key) rest)
        then Some key else None
      else None
  | EmptyString => None
  end.

Section Render.

(** [variables[key]], with [None] for [undefined] and [null]. *)
Variable variables : string -> option string.

(** [template.replace(/\{(\w+)\}/g, (_match, key) => variables[key] ?? '')]:
    the scan goes from left to right; where a placeholder starts its value
    is written and the scan goes on behind it ([skip] counts the code units
    of the placeholder that are still to be passed), elsewhere the code unit
    is copied. *)
Fixpoint replaceFrom (skip : nat) (s : string) : string :=
  match s with
  | EmptyString => EmptyString
  | String c rest =>
      match skip with
      | S skip' => replaceFrom skip' rest
      | O =>
          match placeholderAt s with
          | Some key =>
              default EmptyString (variables key)
              +:+ replaceFrom (String.length key + 1) rest
          | None => String c (replaceFrom 0 rest)
          end
      end
  end.

Definition renderTemplate (template : string) : string := replaceFrom 0 template.

Lemma replaceFrom_skip (a b : string) :
  replaceFrom (String.length a) (a +:+ b) = replaceFrom 0 b.
Proof.
  induction a as [| c a IH]; [now destruct b |].
  rewrite append_cons. exact IH.
Qed.

Lemma spanWord_key (key rest : string) :
  allChars Js.isWordChar key = true ->
  spanWord (key +:+ String closeBrace rest) = key.
Proof.
  induction key as [| c key IH]; intros Hword; [reflexivity |].
  simpl in Hword. apply andb_true_iff in Hword. destruct Hword as [Hc Hword].
  rewrite append_cons. cbn [spanWord]. rewrite Hc. now rewrite IH.
Qed.

Lemma sliceFrom_append (a b : string) : Js.sliceFrom (String.length a) (a +:+ b) = b.
Proof.
  induction a as [| c a IH]; [now destruct b |].
  rewrite append_cons. exact IH.
Qed.

Lemma placeholderAt_key (key rest : string) :
  key <> EmptyString -> allChars Js.isWordChar key = true ->
  placeholderAt (String openBrace (key +:+ String closeBrace rest)) = Some key.
Proof.
  intros Hne Hword. unfold placeholderAt. rewrite Ascii.eqb_refl. cbv zeta.
  rewrite (spanWord_key _ _ Hword), sliceFrom_append.
  destruct key as [| c key]; [now contradiction Hne |].
  cbn [Js.truthy Js.startsWith andb]. now rewrite Ascii.eqb_refl.
Qed.

Lemma renderTemplate_plain (template : string) :
  lacks openBrace template = true -> renderTemplate template = template.
Proof.
  unfold renderTemplate. induction template as [| c rest IH]; intros Hlacks; [reflexivity |].
  cbn [lacks] in Hlacks. apply andb_true_iff in Hlacks. destruct Hlacks as [Hc Hrest].
  apply negb_true_iff in Hc. cbn [replaceFrom placeholderAt]. rewrite Hc.
  now rewrite (IH Hrest).
Qed.

(** X14: a template is rendered from left to right: the text before the
    first opening brace is copied, a placeholder made of a non-empty run of
    word characters between braces is replaced by the value of its key (by
    nothing when the key has no value), the value itself is not scanned
    again, and the rest of the template is rendered in the same way. *)
Theorem renderTemplate_substitutes (before key after : string) :
  lacks openBrace before = true ->
  key <> EmptyString ->
  allChars Js.isWordChar key = true ->
  renderTemplate (before +:+ String openBrace (key +:+ String closeBrace after))
  = before +:+ default EmptyString (variables key) +:+ renderTemplate after.
Proof.
  intros Hbefore Hne Hword. unfold renderTemplate.
  induction before as [| c before IH].
  - change (EmptyString +:+ ?x) with x.
    change (replaceFrom 0 (String openBrace (key +:+ String closeBrace after)))
      with (match placeholderAt (String openBrace (key +:+ String closeBrace after)) with
            | Some key' =>
                default EmptyString (variables key')
                +:+ replaceFrom (String.length key' + 1) (key +:+ String closeBrace after)
            | None => String openBrace (replaceFrom 0 (key +:+ String closeBrace after))
            end).
    rewrite (placeholderAt_key _ _ Hne Hword). f_equal.
    change (String closeBrace after) with (String closeBrace EmptyString +:+ after).
    rewrite <- append_assoc.
    replace (String.length key + 1)%nat
      with (String.length (key +:+ String closeBrace EmptyString))
      by (rewrite length_append; reflexivity).
    apply replaceFrom_skip.
  - cbn [lacks] in Hbefore. apply andb_true_iff in Hbefore. destruct Hbefore as [Hc Hrest].
    apply negb_true_iff in Hc. rewrite !append_cons.
    cbn [replaceFrom placeholderAt]. rewrite Hc. now rewrite (IH Hrest).
Qed.

End Render.

Definition branchVariables (key : string) : option string :=
  if String.eqb key "ISSUE_ID" then Some "eng-123" else None.

Lemma renderTemplate_substitutes_witness :
  lacks openBrace "linear/" = true
  /\ "ISSUE_ID" <> EmptyString
  /\ allChars Js.isWordChar "ISSUE_ID" = true
  /\ renderTemplate branchVariables "linear/{ISSUE_ID}-{NAME}" = "linear/eng-123-".
Proof.
  assert (lacks openBrace "linear/" = true) as H1 by reflexivity.
  assert ("ISSUE_ID" <> EmptyString) as H2 by discriminate.
  assert (allChars Js.isWordChar "ISSUE_ID" = true) as H3 by reflexivity.
  split_and!; [exact H1 | exact H2 | exact H3 |].
  exact (renderTemplate_substitutes branchVariables "linear/" "ISSUE_ID" "-{NAME}" H1 H2 H3).
Defined.

(** *** normalizeIssueIdentifier *)

(** The class [[a-z0-9._-]]. *)
Definition isSafeChar (c : ascii) : bool :=
  let n := Js.code c in
  (((97 <=? n) && (n <=? 122)) || ((48 <=? n) && (n <=? 57))
   || (n =? 46) || (n =? 95) || (n =? 45))%N.

(** [s.replace(/[^a-z0-9._-]+/g, '-')]: every maximal run of code units
    outside the class becomes one hyphen; [inRun] tells that the run has
    begun. *)
Fixpoint dashRuns (inRun : bool) (s : string) : string :=
  match s with
  | EmptyString => EmptyString
  | String c rest =>
      if isSafeChar c then String c (dashRuns false rest)
      else if inRun then dashRuns true rest
      else String "-" (dashRuns true rest)
  end.

Definition normalizeIssueIdentifier (issueIdentifier : string) : string :=
  dashRuns false (Js.toLowerCase issueIdentifier).

Lemma dashRuns_safe (inRun : bool) (s : string) :
  allChars isSafeChar (dashRuns inRun s) = true.
Proof.
  revert inRun. induction s as [| c rest IH]; intros inRun; [reflexivity |].
  cbn [dashRuns]. destruct (isSafeChar c) eqn:Hc.
  - cbn [allChars]. now rewrite Hc, IH.
  - destruct inRun; [apply IH |]. cbn [allChars]. now rewrite IH.
Qed.

Lemma lowerChar_safe (c : ascii) : isSafeChar c = true -> Js.lowerChar c = c.
Proof.
  unfold isSafeChar, Js.lowerChar. cbv zeta. generalize (Js.code c). intros n Hsafe.
  replace (((65 <=? n) && (n <=? 90)
            || (192 <=? n) && (n <=? 222) && negb (n =? 215))%N) with false;
    [reflexivity |].
  symmetry. apply not_true_iff_false. intros Hup.
  rewrite !orb_true_iff, !andb_true_iff, !N.leb_le, !N.eqb_eq in Hsafe.
  rewrite !orb_true_iff, !andb_true_iff, !N.leb_le in Hup. lia.
Qed.

Lemma safe_fixed (s : string) :
  allChars isSafeChar s = true ->
  Js.toLowerCase s = s /\ forall inRun, dashRuns inRun s = s.
Proof.
  induction s as [| c rest IH]; intros Hsafe; [now split |].
  cbn [allChars] in Hsafe. apply andb_true_iff in Hsafe. destruct Hsafe as [Hc Hrest].
  destruct (IH Hrest) as [Hlow Hdash]. split.
  - cbn [Js.toLowerCase]. now rewrite (lowerChar_safe _ Hc), Hlow.
  - intros inRun. cbn [dashRuns]. now rewrite Hc, Hdash.
Qed.

(** X15: a normalised issue identifier holds only lower-case letters,
    digits, dots, underscores and hyphens, and normalising it again changes
    nothing; an identifier that holds only such characters is left as it
    is.  (Nothing is said of the length: lower-casing can lengthen a
    string, as it does for U+0130.) *)
Theorem normalizeIssueIdentifier_safe (issueIdentifier : string) :
  allChars isSafeChar (normalizeIssueIdentifier issueIdentifier) = true
  /\ normalizeIssueIdentifier (normalizeIssueIdentifier issueIdentifier)
     = normalizeIssueIdentifier issueIdentifier
  /\ (allChars isSafeChar issueIdentifier = true ->
      normalizeIssueIdentifier issueIdentifier = issueIdentifier).
Proof.
  assert (forall s, allChars isSafeChar s = true -> normalizeIssueIdentifier s = s) as Hfixed.
  { intros s Hs. unfold normalizeIssueIdentifier.
    destruct (safe_fixed s Hs) as [-> Hdash]. apply Hdash. }
  split_and!.
  - apply dashRuns_safe.
  - apply Hfixed, dashRuns_safe.
  - apply Hfixed.
Qed.

Example normalizeIssueIdentifier_examples :
  normalizeIssueIdentifier "ENG-123" = "eng-123"
  /\ normalizeIssueIdentifier "Team A/#42 !" = "team-a-42-"
  /\ normalizeIssueIdentifier "" = "".
Proof. now vm_compute. Qed.

End Template.

(** ** The permission policies compared (src/sandbox.ts:
    decidePermissionReply, isReviewWriteCommand) *)
Module PermissionFacts.
Import RegExp Permission Text.

Lemma includes_char (c : ascii) (s : string) :
  Js.includes (String c EmptyString) s = negb (lacks c s).
Proof.
  induction s as [| a s IH]; [reflexivity |].
  cbn [Js.includes Js.startsWith lacks]. rewrite IH, andb_true_r, negb_andb, negb_involutive.
  now rewrite (Ascii.eqb_sym c a).
Qed.

Lemma lacks_trimStart (c : ascii) (s : string) :
  Js.isWhiteSpace c = false -> lacks c (Js.trimStart s) = lacks c s.
Proof.
  intros Hc. induction s as [| a s IH]; [reflexivity |].
  cbn [Js.trimStart]. destruct (Js.isWhiteSpace a) eqn:Ha; [| reflexivity].
  rewrite IH. cbn [lacks]. destruct (Ascii.eqb_spec a c) as [-> | _]; [congruence | reflexivity].
Qed.

Lemma lacks_trimEnd (c : ascii) (s : string) :
  Js.isWhiteSpace c = false -> lacks c (Js.trimEnd s) = lacks c s.
Proof.
  intros Hc. induction s as [| a s IH]; [reflexivity |].
  cbn [Js.trimEnd lacks]. rewrite <- IH.
  destruct (Js.trimEnd s) as [| b r]; [| reflexivity].
  destruct (Js.isWhiteSpace a) eqn:Ha; cbn [lacks]; [| reflexivity].
  destruct (Ascii.eqb_spec a c) as [-> | _]; [congruence | reflexivity].
Qed.

Lemma lacks_trim (c : ascii) (s : string) :
  Js.isWhiteSpace c = false -> lacks c (Js.trim s) = lacks c s.
Proof.
  intros Hc. unfold Js.trim. now rewrite lacks_trimEnd, lacks_trimStart.
Qed.

(** A pattern of one character is found wherever the character stands. *)
Lemma test_char (c : ascii) (ignoreCase : bool) (s : string) :
  lacks c s = false -> test (Atom (AChar c)) ignoreCase s = true.
Proof.
  unfold test. generalize (@None ascii).
  induction s as [| a s IH]; intros prev Hhas; [discriminate |].
  cbn [lacks] in Hhas. cbn [searchFrom matchAt].
  destruct (Ascii.eqb_spec a c) as [-> | Hne].
  - unfold atomMatches. destruct ignoreCase; now rewrite Ascii.eqb_refl.
  - simpl in Hhas. rewrite (IH _ Hhas). apply orb_true_r.
Qed.

Lemma redirection_is_write (command : string) :
  Js.includes ">" command = true -> isReviewWriteCommand command = true.
Proof.
  intros Hinc. rewrite includes_char in Hinc. apply negb_true_iff in Hinc.
  unfold isReviewWriteCommand.
  assert (lacks ">" (Js.trim command) = false) as Htrim
    by (now rewrite lacks_trim).
  destruct (Js.trim command) as [| a rest] eqn:Hcmd; [discriminate |].
  cbn [Js.truthy negb]. apply existsb_exists. exists (lit ">"). split.
  - unfold denied. simpl. auto 10.
  - apply test_char. exact Htrim.
Qed.

(** X16: under the review policy a request whose command holds the
    character [>] is rejected, whatever else the metadata holds. *)
Theorem review_rejects_redirection (data : PermissionEventData) (command : string) :
  extractPermissionCommand (metadata data) = Ok (Some command) ->
  Js.includes ">" command = true ->
  decidePermissionReply data policyReview = Ok reject.
Proof.
  intros Hcmd Hinc. unfold decidePermissionReply.
  destruct (extractPermissionToolNames_returns (metadata data)) as [toolNames ->].
  cbn [bind]. destruct (existsb isLinearMcpTool toolNames); [reflexivity |].
  rewrite Hcmd. cbn [bind]. destruct (_ && _ && _); [reflexivity |].
  change (default "" (Some command)) with command.
  rewrite (redirection_is_write _ Hinc).
  destruct command; [discriminate | reflexivity].
Qed.

Definition redirecting : PermissionEventData :=
  {| permission_id := "p1"; perm_action := "bash";
     metadata := VObject [("input", VObject [("command", VString "cat notes >> ~/.zshrc")])] |}.

Lemma review_rejects_redirection_witness :
  extractPermissionCommand (metadata redirecting) = Ok (Some "cat notes >> ~/.zshrc")
  /\ Js.includes ">" "cat notes >> ~/.zshrc" = true
  /\ decidePermissionReply redirecting policyReview = Ok reject.
Proof.
  assert (extractPermissionCommand (metadata redirecting) = Ok (Some "cat notes >> ~/.zshrc"))
    as H1 by reflexivity.
  assert (Js.includes ">" "cat notes >> ~/.zshrc" = true) as H2 by reflexivity.
  split_and!; [exact H1 | exact H2 |].
  exact (review_rejects_redirection redirecting _ H1 H2).
Defined.

(** X17: the review policy is at least as strict as the mention-reply
    policy: what the latter rejects the former rejects; and where the review
    policy rejects a request that the mention-reply policy grants, the
    request carries a command that is on the list of write commands. *)
Theorem review_stricter_than_mention_reply (data : PermissionEventData) :
  (decidePermissionReply data policyMentionReply = Ok reject ->
   decidePermissionReply data policyReview = Ok reject)
  /\ (decidePermissionReply data policyReview = Ok reject ->
      decidePermissionReply data policyMentionReply = Ok once ->
      exists command,
        extractPermissionCommand (metadata data) = Ok (Some command)
        /\ isReviewWriteCommand command = true).
Proof.
  unfold decidePermissionReply.
  destruct (extractPermissionToolNames_returns (metadata data)) as [toolNames ->].
  cbn [bind]. destruct (existsb isLinearMcpTool toolNames); [split; [auto | discriminate] |].
  destruct (extractPermissionCommand_returns (metadata data)) as [cmd ->].
  cbn [bind]. destruct (_ && _ && _); [split; [auto | discriminate] |].
  split; [discriminate |].
  intros Hreview _. destruct cmd as [command |]; [| discriminate].
  exists command. split; [reflexivity |].
  change (default "" (Some command)) with command in Hreview.
  cbn [Js.truthyOpt] in Hreview.
  destruct (Js.truthy command); [| discriminate].
  destruct (isReviewWriteCommand command); [reflexivity | discriminate].
Qed.

End PermissionFacts.

(** ** The paths read from [git status --porcelain] (src/sandbox.ts:
    parseGitStatusFiles) *)
Module GitStatus.
Import Finalize Text Template.

Lemma allChars_append (p : ascii -> bool) (a b : string) :
  allChars p (a +:+ b) = allChars p a && allChars p b.
Proof.
  induction a as [| c a IH]; [reflexivity |].
  rewrite append_cons. cbn [allChars]. now rewrite IH, andb_assoc.
Qed.

Lemma trimStart_blank (s : string) :
  allChars Js.isWhiteSpace s = true -> Js.trimStart s = EmptyString.
Proof.
  induction s as [| c s IH]; [reflexivity |].
  cbn [allChars Js.trimStart]. intros H. apply andb_true_iff in H. destruct H as [-> H].
  now apply IH.
Qed.

Lemma blank_trimStart (s : string) :
  allChars Js.isWhiteSpace (Js.trimStart s) = true -> allChars Js.isWhiteSpace s = true.
Proof.
  induction s as [| c s IH]; [reflexivity |].
  cbn [Js.trimStart]. destruct (Js.isWhiteSpace c) eqn:Hc; [| auto].
  intros H. cbn [allChars]. now rewrite Hc, (IH H).
Qed.

Lemma blank_trimEnd (s : string) :
  Js.trimEnd s = EmptyString -> allChars Js.isWhiteSpace s = true.
Proof.
  induction s as [| c s IH]; [reflexivity |].
  cbn [Js.trimEnd allChars]. destruct (Js.trimEnd s); [| discriminate].
  destruct (Js.isWhiteSpace c); [| discriminate]. intros _. now apply IH.
Qed.

(** Only a string of white space trims to the empty string. *)
Lemma trim_blank (s : string) :
  Js.trim s = EmptyString <-> allChars Js.isWhiteSpace s = true.
Proof.
  unfold Js.trim. split.
  - intros H. apply blank_trimStart, blank_trimEnd, H.
  - intros H. now rewrite (trimStart_blank _ H).
Qed.

Lemma afterLast_none (sep s : string) :
  Js.includes sep s = false -> afterLast sep s = None.
Proof.
  induction s as [| c s IH]; cbn [Js.includes afterLast]; intros H.
  - apply orb_false_iff in H. destruct H as [-> _]. reflexivity.
  - apply orb_false_iff in H. destruct H as [Hhere Hrest].
    now rewrite (IH Hrest), Hhere.
Qed.

Lemma NoDup_snoc (files : list string) (path : string) :
  List.NoDup files -> ~ In path files -> List.NoDup (files ++ [path]).
Proof.
  intros Hnd Hnew. apply NoDup_ListNoDup. apply NoDup_ListNoDup in Hnd.
  apply NoDup_app. split_and!; [exact Hnd | | apply NoDup_singleton].
  intros x Hx Hx'. apply list_elem_of_singleton in Hx'. subst x.
  now apply list_elem_of_In in Hx.
Qed.

(** One step of the loop keeps the paths distinct and non-empty. *)
Lemma parseGitStatusLine_keeps (files : list string) (line : string) :
  List.NoDup files /\ Forall (fun path => path <> EmptyString) files ->
  List.NoDup (parseGitStatusLine files line)
  /\ Forall (fun path => path <> EmptyString) (parseGitStatusLine files line).
Proof.
  intros [Hnd Hne]. unfold parseGitStatusLine.
  destruct (negb (Js.truthy (Js.trim line))); [now split |].
  destruct (negb (Js.truthy (Js.trim (Js.sliceFrom 3 line)))); [now split |].
  set (path := match afterLast " -> " (Js.trim (Js.sliceFrom 3 line)) with
               | Some p => p
               | None => Js.trim (Js.sliceFrom 3 line)
               end).
  destruct (Js.truthy path) eqn:Hpath; [| now split].
  destruct (Js.arrayIncludes files path) eqn:Hinc; [now split |].
  cbn [negb andb]. split.
  - apply NoDup_snoc; [exact Hnd |].
    intros Hin. apply Triggers.arrayIncludes_In in Hin. congruence.
  - apply Forall_app. split; [exact Hne |]. constructor; [| constructor].
    now apply Triggers.truthy_nonempty.
Qed.

Lemma fold_keeps (lines : list string) (files : list string) :
  List.NoDup files /\ Forall (fun path => path <> EmptyString) files ->
  List.NoDup (fold_left parseGitStatusLine lines files)
  /\ Forall (fun path => path <> EmptyString) (fold_left parseGitStatusLine lines files).
Proof.
  revert files. induction lines as [| line lines IH]; intros files H; [exact H |].
  cbn [fold_left]. apply IH, parseGitStatusLine_keeps, H.
Qed.

(** A line of the porcelain format: two status letters, a space, the path. *)
Definition statusLine (entry : string * string) : string :=
  entry.1 +:+ " " +:+ entry.2.

(** A path as git prints it when it needs no quoting and names no rename. *)
Definition plainPath (path : string) : Prop :=
  path <> EmptyString /\ Js.trim path = path /\ lacks nl path = true
  /\ Js.includes " -> " path = false.

Definition statusCode (status : string) : Prop :=
  String.length status = 2%nat /\ lacks nl status = true.

Lemma parseGitStatusLine_plain (files : list string) (status path : string) :
  statusCode status -> plainPath path -> ~ In path files ->
  parseGitStatusLine files (statusLine (status, path)) = files ++ [path].
Proof.
  intros [Hlen _] (Hne & Htrim & _ & Harrow) Hnew.
  destruct status as [| x [| y [| z status]]]; try discriminate. clear Hlen.
  unfold parseGitStatusLine, statusLine. cbn [fst snd].
  change (String x (String y EmptyString) +:+ " " +:+ path)
    with (String x (String y (String " " path))).
  assert (Js.truthy (Js.trim (String x (String y (String " " path)))) = true) as Hline.
  { apply Triggers.truthy_nonempty. intros Hblank. apply trim_blank in Hblank.
    cbn [allChars] in Hblank. rewrite !andb_true_iff in Hblank.
    destruct Hblank as (_ & _ & _ & Hblank). apply trim_blank in Hblank. congruence. }
  rewrite Hline. cbn [negb Js.sliceFrom]. rewrite Htrim.
  assert (Js.truthy path = true) as Hpath by now apply Triggers.truthy_nonempty.
  rewrite Hpath, (afterLast_none _ _ Harrow), Hpath. cbn [negb].
  destruct (Js.arrayIncludes files path) eqn:Hinc; [| reflexivity].
  apply Triggers.arrayIncludes_In in Hinc. contradiction.
Qed.

Lemma fold_plain (entries : list (string * string)) (files : list string) :
  Forall (fun entry => statusCode entry.1 /\ plainPath entry.2) entries ->
  List.NoDup (files ++ map snd entries) ->
  fold_left parseGitStatusLine (map statusLine entries) files = files ++ map snd entries.
Proof.
  revert files. induction entries as [| [status path] entries IH]; intros files Hall Hnd.
  - simpl. now rewrite app_nil_r.
  - inversion Hall as [| ? ? [Hcode Hplain] Hrest]; subst. cbn [map fold_left snd] in *.
    rewrite (parseGitStatusLine_plain files status path Hcode Hplain).
    + rewrite IH; [now rewrite <- app_assoc | exact Hrest | now rewrite <- app_assoc].
    + intros Hin. apply List.NoDup_remove_2 in Hnd. apply Hnd, in_or_app. now left.
Qed.

(** X18: the paths read from a status output are pairwise distinct and none
    is empty.  Read back from the lines git prints for distinct plain paths
    (two status letters, a space, the path; no quoting, no rename), they are
    those paths, in order. *)
Theorem parseGitStatusFiles_paths :
  (forall output,
      List.NoDup (parseGitStatusFiles output)
      /\ Forall (fun path => path <> EmptyString) (parseGitStatusFiles output))
  /\ (forall entries,
        Forall (fun entry => statusCode entry.1 /\ plainPath entry.2) entries ->
        List.NoDup (map snd entries) ->
        parseGitStatusFiles (Js.join (String nl EmptyString) (map statusLine entries))
        = map snd entries).
Proof.
  split.
  - intros output. unfold parseGitStatusFiles. apply fold_keeps. split; constructor.
  - intros entries Hall Hnd. unfold parseGitStatusFiles.
    destruct entries as [| entry entries]; [reflexivity |].
    change "010"%char with nl. rewrite splitChar_join.
    + now apply fold_plain.
    + discriminate.
    + apply Forall_map. eapply Forall_impl; [exact Hall |].
      intros [status path] [[_ Hs] (_ & _ & Hp & _)]. unfold statusLine. cbn [fst snd] in *.
      rewrite !lacks_append, Hs, Hp. reflexivity.
Qed.

Example parseGitStatusFiles_rename :
  parseGitStatusFiles
    (Js.join (String nl EmptyString)
       [" M src/a.ts"; "R  old.ts -> new.ts"; "?? src/a.ts"; ""; "A  b.ts"])
  = ["src/a.ts"; "new.ts"; "b.ts"].
Proof. reflexivity. Qed.

End GitStatus.

(** ** The GitHub webhook (src/github-webhook.ts: verifyGitHubSignature,
    parseIssueIdFromBranch, isWorktreeRegistered, resolveWorkspace,
    createGitHubWebhookHandler; src/worktree.ts: getWorktreeSpec;
    src/config/validator.ts: validateGitHubConfig) *)
Module GithubWebhook.
Import Dedup Workspace Text Template.

(** [GitHubRepoSchema] and [GitHubSchema], the fields read here. *)
Record GitHubRepo := {
  repo_workspace : string;
  repo_repo : string;
  repo_remote : string;
  repo_bodyTemplatePath : option string
}.

Record CleanupConfig := {
  cleanup_enabled : bool;
  removeWorktreeOnMerge : bool;
  deleteBranchOnMerge : bool
}.

Record GitHubConfig := {
  github_enabled : bool;
  github_webhookSecret : option string;
  github_repos : list GitHubRepo;
  github_cleanup : CleanupConfig
}.

(** [WorktreeSchema] *)
Record WorktreeConfig := {
  nameTemplate : string;
  branchTemplate : string
}.

Record AppConfig := {
  github : GitHubConfig;
  worktree : WorktreeConfig;
  workspaces : list WorkspaceConfig
}.

(** What the handler reads of the parsed body: [payload?.action] ([None]
    unless it is a string), [Boolean(payload?.pull_request?.merged)],
    [String(payload?.repository?.full_name ?? '')] and
    [String(payload?.pull_request?.head?.ref ?? '')]. *)
Record PullRequestPayload := {
  pl_action : option string;
  pl_merged : bool;
  pl_repoFullName : string;
  pl_branch : string
}.

(** The body and the three headers the handler reads; an absent header is
    [None]. *)
Record Request := {
  rawBody : string;
  hubSignature256 : option string;
  githubEvent : option string;
  githubDelivery : option string
}.

(** The answers of the handler; the fields of an [ignored] answer that
    repeat the request are left out. *)
Inductive Body :=
| Disabled
| Failed (error : string)
| Ignored (reason : string)
| MergedCleanupDisabled (repoFullName branch : string)
| Merged (repoFullName branch issueId : string).

(** The handler answers, or its promise rejects. *)
Inductive Outcome :=
| Responds (status : Z) (body : Body)
| Rejects.

(** The git commands that change something. *)
Inductive Effect :=
| RemoveWorktree (basePath worktreePath : string)
| DeleteRemoteBranch (basePath remote branch : string).

(** [branchName.match(new RegExp(source))]: the constructor throws, there
    is no match, or there is one with its first group. *)
Inductive Exec :=
| SyntaxError
| NoMatch
| Matched (group1 : option string).

Inductive Parsed :=
| Throws
| NoIssue
| IssueId (issueId : string).

Record WorktreeSpec := {
  spec_path : string;
  spec_branch : string;
  spec_issueId : string
}.

(** [s.split(sep)[0]] *)
Fixpoint beforeFirst (sep s : string) : string :=
  if Js.startsWith sep s then EmptyString
  else match s with
       | EmptyString => EmptyString
       | String c s' => String c (beforeFirst sep s')
       end.

(** What follows the first occurrence of [sep] in [s]. *)
Fixpoint afterFirst (sep s : string) : string :=
  if Js.startsWith sep s then Js.sliceFrom (String.length sep) s
  else match s with
       | EmptyString => EmptyString
       | String _ s' => afterFirst sep s'
       end.

Section Handler.

(** [hmacSha256Hex secret body] is the hex digest the Web Crypto calls
    compute; [bufferFromHex] is [Buffer.from(_, 'hex')]; [parseJson] is
    [JSON.parse] followed by the reads of the handler, [None] when it throws;
    [stringMatch source input] is [input.match(new RegExp(source))];
    [pathIsAbsolute] and [pathJoin] are those of [path];
    [gitWorktreeList basePath] is the output of
    [git worktree list --porcelain], [None] when the command fails;
    [inherited key] is what the read of a key that a variables object does
    not own gives, as a string. *)
Variable hmacSha256Hex : string -> string -> string.
Variable bufferFromHex : string -> list Z.
Variable parseJson : string -> option PullRequestPayload.
Variable stringMatch : string -> string -> Exec.
Variable pathIsAbsolute : string -> bool.
Variable pathJoin : string -> string -> string.
Variable gitWorktreeList : string -> option string.
Variable inherited : string -> option string.

(** [fs.existsSync] and [process.cwd()], for the validator. *)
Variable existsSync : string -> bool.
Variable cwd : string.

Definition verifyGitHubSignature (body : string) (signatureHeader : option string)
    (secret : string) : bool :=
  match signatureHeader with
  | None => false
  | Some signatureHeader =>
      if negb (Js.truthy signatureHeader) then false
      else if negb (Js.startsWith "sha256=" signatureHeader) then false
      else
        let provided := Js.trim (Js.sliceFrom (String.length "sha256=") signatureHeader) in
        if negb (Js.truthy provided) then false
        else
          let computed := hmacSha256Hex secret body in
          let providedBytes := bufferFromHex provided in
          let computedBytes := bufferFromHex computed in
          if negb (length providedBytes =? length computedBytes)%nat
             || (length providedBytes =? 0)%nat
          then false
          else bool_decide (providedBytes = computedBytes)
  end.

Definition parseIssueIdFromBranch (branchName branchTemplate : string) : Parsed :=
  if negb (Js.includes "{ISSUE_ID}" branchTemplate) then NoIssue
  else
    let prefix := beforeFirst "{ISSUE_ID}" branchTemplate in
    let suffix := beforeFirst "{ISSUE_ID}" (afterFirst "{ISSUE_ID}" branchTemplate) in
    match stringMatch ("^" +:+ Triggers.escapeRegex prefix +:+ "(.+?)"
                       +:+ Triggers.escapeRegex suffix +:+ "$") branchName with
    | SyntaxError => Throws
    | NoMatch => NoIssue
    | Matched None => NoIssue
    | Matched (Some group1) =>
        let issueId := Js.trim group1 in
        if Js.truthy issueId then IssueId issueId else NoIssue
    end.

(** [isWorktreeRegistered(basePath, worktreePath)]: [None] when the git
    command fails. *)
Definition isWorktreeRegistered (basePath worktreePath : string) : option bool :=
  match gitWorktreeList basePath with
  | None => None
  | Some output =>
      Some (existsb
              (fun line =>
                 Js.startsWith "worktree " line
                 && String.eqb (Js.trim (Js.sliceFrom (String.length "worktree ") line))
                      worktreePath)
              (Js.splitChar nl output))
  end.

(** [resolveWorkspace(config, workspaceName)] *)
Definition resolveWorkspace (config : AppConfig) (workspaceName : string)
    : option WorkspaceConfig :=
  List.find (fun workspace => String.eqb (ws_name workspace) workspaceName)
    (workspaces config).

(** The variables object of [getWorktreeSpec]. *)
Definition worktreeVariables (workspace : WorkspaceConfig) (safeIssueId : string)
    (key : string) : option string :=
  if String.eqb key "ISSUE_ID" then Some safeIssueId
  else if String.eqb key "WORKSPACE_PATH" then Some (ws_localPath workspace)
  else if String.eqb key "WORKSPACE_NAME" then Some (ws_name workspace)
  else inherited key.

(** [getWorktreeSpec(workspace, issueIdentifier, config)] of src/worktree.ts *)
Definition getWorktreeSpec (workspace : WorkspaceConfig) (issueIdentifier : string)
    (config : WorktreeConfig) : WorktreeSpec :=
  let safeIssueId := normalizeIssueIdentifier issueIdentifier in
  let variables := worktreeVariables workspace safeIssueId in
  let branch := renderTemplate variables (branchTemplate config) in
  let rawPath := renderTemplate variables (nameTemplate config) in
  let worktreePath :=
    if pathIsAbsolute rawPath then rawPath else pathJoin (ws_localPath workspace) rawPath in
  {| spec_path := worktreePath; spec_branch := branch; spec_issueId := safeIssueId |}.

(** The part of the handler that follows the duplicate check. *)
Definition afterDuplicateCheck (config : AppConfig) (secret : string) (c : Request)
    : Outcome * list Effect :=
  if negb (verifyGitHubSignature (rawBody c) (hubSignature256 c) secret)
  then (Responds 401 (Failed "Invalid signature"), [])
  else
    match parseJson (rawBody c) with
    | None => (Responds 400 (Failed "Invalid payload"), [])
    | Some payload =>
        if negb (bool_decide (githubEvent c = Some "pull_request"))
        then (Responds 200 (Ignored "unsupported_event"), [])
        else
          let action := pl_action payload in
          let merged := pl_merged payload in
          let repoFullName := pl_repoFullName payload in
          let branch := pl_branch payload in
          if negb (bool_decide (action = Some "closed")) || negb merged
          then (Responds 200 (Ignored "not_merged"), [])
          else if negb (Js.truthy repoFullName) || negb (Js.truthy branch)
          then (Responds 200 (Ignored "missing_fields"), [])
          else
            match List.find (fun repo => String.eqb (Js.toLowerCase (repo_repo repo))
                                           (Js.toLowerCase repoFullName))
                    (github_repos (github config)) with
            | None => (Responds 200 (Ignored "repo_not_configured"), [])
            | Some repoConfig =>
                if negb (cleanup_enabled (github_cleanup (github config)))
                then (Responds 200 (MergedCleanupDisabled repoFullName branch), [])
                else
                  match resolveWorkspace config (repo_workspace repoConfig) with
                  | None => (Responds 500 (Failed "Workspace not found"), [])
                  | Some workspace =>
                      match parseIssueIdFromBranch branch (branchTemplate (worktree config)) with
                      | Throws => (Rejects, [])
                      | NoIssue => (Responds 200 (Ignored "branch_not_mapped"), [])
                      | IssueId issueId =>
                          let spec := getWorktreeSpec workspace issueId (worktree config) in
                          let removal :=
                            if removeWorktreeOnMerge (github_cleanup (github config)) then
                              if default false
                                   (isWorktreeRegistered (ws_localPath workspace) (spec_path spec))
                              then [RemoveWorktree (ws_localPath workspace) (spec_path spec)]
                              else []
                            else [] in
                          if deleteBranchOnMerge (github_cleanup (github config)) then
                            match parseIssueIdFromBranch branch
                                    (branchTemplate (worktree config)) with
                            | Throws => (Rejects, removal)
                            | NoIssue =>
                                (Responds 200 (Merged repoFullName branch issueId), removal)
                            | IssueId _ =>
                                (Responds 200 (Merged repoFullName branch issueId),
                                 removal
                                 ++ [DeleteRemoteBranch (ws_localPath workspace)
                                       (repo_remote repoConfig) branch])
                            end
                          else (Responds 200 (Merged repoFullName branch issueId), removal)
                      end
                  end
            end
    end.

(** [githubWebhookHandler(c)]: [now] is the clock reading of
    [isDuplicateGithubDelivery]; the result is the outcome, the map
    [processedGithubDeliveries] after the call, and the effects in order. *)
Definition githubWebhookHandler (config : AppConfig) (now : Z) (c : Request)
    (processedGithubDeliveries : gmap string Z)
    : Outcome * gmap string Z * list Effect :=
  if negb (github_enabled (github config))
     || negb (cleanup_enabled (github_cleanup (github config)))
  then (Responds 404 Disabled, processedGithubDeliveries, [])
  else
    let secret := github_webhookSecret (github config) in
    if negb (Js.truthyOpt secret)
    then (Responds 500 (Failed "GitHub webhook not configured"), processedGithubDeliveries, [])
    else
      let deliveryId := githubDelivery c in
      let '(duplicate, processedGithubDeliveries) :=
        if Js.truthyOpt deliveryId
        then isDuplicateGithubDelivery now (default "" deliveryId) processedGithubDeliveries
        else (false, processedGithubDeliveries) in
      if duplicate
      then (Responds 200 (Ignored "duplicate_delivery"), processedGithubDeliveries, [])
      else
        let '(outcome, effects) := afterDuplicateCheck config (default "" secret) c in
        (outcome, processedGithubDeliveries, effects).

(** The body of the loop of [validateGitHubConfig]: the errors one
    repository adds. *)
Definition repoErrors (workspaceNames : list string) (repo : GitHubRepo) : list string :=
  (if negb (Js.arrayIncludes workspaceNames (repo_workspace repo))
   then ["github.repos references unknown workspace: " +:+ repo_workspace repo]
   else [])
  ++ (if Js.truthyOpt (repo_bodyTemplatePath repo) then
        let bodyTemplatePath := default "" (repo_bodyTemplatePath repo) in
        let templatePath :=
          if pathIsAbsolute bodyTemplatePath then bodyTemplatePath
          else pathJoin cwd bodyTemplatePath in
        if negb (existsSync templatePath)
        then ["github.repos[].pr.bodyTemplatePath does not exist: " +:+ templatePath]
        else []
      else []).

(** [validateGitHubConfig(config, errors)]: the array [errors] after the
    call. *)
Definition validateGitHubConfig (config : AppConfig) (errors : list string) : list string :=
  if negb (github_enabled (github config)) then errors
  else if (length (github_repos (github config)) =? 0)%nat
  then errors ++ ["github.repos must be configured when github.enabled=true"]
  else
    let workspaceNames := map ws_name (workspaces config) in
    let errors :=
      fold_left (fun errors repo => errors ++ repoErrors workspaceNames repo)
        (github_repos (github config)) errors in
    if cleanup_enabled (github_cleanup (github config))
       && negb (Js.truthyOpt (github_webhookSecret (github config)))
    then errors ++ ["github.webhookSecret is required when github.cleanup.enabled=true"]
    else errors.

(** The configuration lets the handler work: the integration and its
    clean-up are enabled, and the secret is set. *)
Definition ready (config : AppConfig) : Prop :=
  github_enabled (github config) = true
  /\ cleanup_enabled (github_cleanup (github config)) = true
  /\ Js.truthyOpt (github_webhookSecret (github config)) = true.

Lemma afterDuplicateCheck_effect (config : AppConfig) (secret : string) (c : Request)
    (effect : Effect) :
  In effect (afterDuplicateCheck config secret c).2 ->
  exists payload repoConfig workspace issueId,
    verifyGitHubSignature (rawBody c) (hubSignature256 c) secret = true
    /\ parseJson (rawBody c) = Some payload
    /\ githubEvent c = Some "pull_request"
    /\ pl_action payload = Some "closed" /\ pl_merged payload = true
    /\ In repoConfig (github_repos (github config))
    /\ Js.toLowerCase (repo_repo repoConfig) = Js.toLowerCase (pl_repoFullName payload)
    /\ In workspace (workspaces config)
    /\ ws_name workspace = repo_workspace repoConfig
    /\ parseIssueIdFromBranch (pl_branch payload) (branchTemplate (worktree config))
       = IssueId issueId
    /\ ((effect = RemoveWorktree (ws_localPath workspace)
                    (spec_path (getWorktreeSpec workspace issueId (worktree config)))
         /\ removeWorktreeOnMerge (github_cleanup (github config)) = true
         /\ isWorktreeRegistered (ws_localPath workspace)
              (spec_path (getWorktreeSpec workspace issueId (worktree config)))
            = Some true)
        \/ (effect = DeleteRemoteBranch (ws_localPath workspace) (repo_remote repoConfig)
                       (pl_branch payload)
            /\ deleteBranchOnMerge (github_cleanup (github config)) = true)).
Proof.
  unfold afterDuplicateCheck.
  destruct (verifyGitHubSignature _ _ _) eqn:Hsig; cbn [negb]; [| intros []].
  destruct (parseJson (rawBody c)) as [payload |] eqn:Hparse; [| intros []].
  destruct (bool_decide (githubEvent c = Some "pull_request")) eqn:Hevent;
    cbn [negb]; [| intros []].
  apply bool_decide_eq_true in Hevent.
  destruct (bool_decide (pl_action payload = Some "closed")) eqn:Haction;
    cbn [negb orb]; [| intros []].
  apply bool_decide_eq_true in Haction.
  destruct (pl_merged payload) eqn:Hmerged; cbn [negb]; [| intros []].
  destruct (negb (Js.truthy (pl_repoFullName payload)) || negb (Js.truthy (pl_branch payload)));
    [intros [] |].
  destruct (List.find _ (github_repos (github config))) as [repoConfig |] eqn:Hrepo;
    [| intros []].
  apply List.find_some in Hrepo. destruct Hrepo as [Hrepo Hname].
  apply String.eqb_eq in Hname.
  destruct (cleanup_enabled (github_cleanup (github config))); cbn [negb]; [| intros []].
  destruct (resolveWorkspace config (repo_workspace repoConfig)) as [workspace |] eqn:Hws;
    [| intros []].
  apply List.find_some in Hws. destruct Hws as [Hws Hwsname].
  apply String.eqb_eq in Hwsname.
  destruct (parseIssueIdFromBranch _ _) as [| | issueId] eqn:Hparsed; [intros [] | intros [] |].
  intros Hin.
  exists payload, repoConfig, workspace, issueId.
  split_and!; try first [assumption | reflexivity].
  set (spec := getWorktreeSpec workspace issueId (worktree config)) in *.
  assert (forall removal,
             removal = (if removeWorktreeOnMerge (github_cleanup (github config)) then
                          if default false
                               (isWorktreeRegistered (ws_localPath workspace) (spec_path spec))
                          then [RemoveWorktree (ws_localPath workspace) (spec_path spec)]
                          else []
                        else []) ->
             In effect removal ->
             effect = RemoveWorktree (ws_localPath workspace) (spec_path spec)
             /\ removeWorktreeOnMerge (github_cleanup (github config)) = true
             /\ isWorktreeRegistered (ws_localPath workspace) (spec_path spec) = Some true)
    as Hremoval.
  { intros removal -> Hrem.
    destruct (removeWorktreeOnMerge _); [| destruct Hrem].
    destruct (isWorktreeRegistered _ _) as [[] |]; cbn [default] in Hrem;
      try destruct Hrem as [<- | []]; try destruct Hrem. auto. }
  destruct (deleteBranchOnMerge (github_cleanup (github config))) eqn:Hdelete.
  - cbn [snd] in Hin. apply in_app_or in Hin. destruct Hin as [Hin | [<- | []]].
    + left. now apply (Hremoval _ eq_refl).
    + right. now split.
  - left. now apply (Hremoval _ eq_refl).
Qed.

(** X19: a worktree is removed or a remote branch deleted only for a
    request that is not a repeated delivery, whose signature verifies, whose
    body parses, and that reports a merged, closed pull request of a
    configured repository whose workspace is configured and whose head branch
    matches the branch template; the branch deleted is the head branch of
    the pull request, on the remote configured for the repository, and the
    worktree removed is the registered worktree of the issue read from the
    branch. *)
Theorem cleanup_requires_merged_pull_request (config : AppConfig) (now : Z) (c : Request)
    (cache : gmap string Z) (effect : Effect) :
  In effect (githubWebhookHandler config now c cache).2 ->
  exists secret payload repoConfig workspace issueId,
    ready config
    /\ github_webhookSecret (github config) = Some secret
    /\ (forall deliveryId, githubDelivery c = Some deliveryId -> deliveryId <> "" ->
        (isDuplicateGithubDelivery now deliveryId cache).1 = false)
    /\ verifyGitHubSignature (rawBody c) (hubSignature256 c) secret = true
    /\ parseJson (rawBody c) = Some payload
    /\ githubEvent c = Some "pull_request"
    /\ pl_action payload = Some "closed" /\ pl_merged payload = true
    /\ In repoConfig (github_repos (github config))
    /\ Js.toLowerCase (repo_repo repoConfig) = Js.toLowerCase (pl_repoFullName payload)
    /\ In workspace (workspaces config)
    /\ ws_name workspace = repo_workspace repoConfig
    /\ parseIssueIdFromBranch (pl_branch payload) (branchTemplate (worktree config))
       = IssueId issueId
    /\ ((effect = RemoveWorktree (ws_localPath workspace)
                    (spec_path (getWorktreeSpec workspace issueId (worktree config)))
         /\ removeWorktreeOnMerge (github_cleanup (github config)) = true
         /\ isWorktreeRegistered (ws_localPath workspace)
              (spec_path (getWorktreeSpec workspace issueId (worktree config)))
            = Some true)
        \/ (effect = DeleteRemoteBranch (ws_localPath workspace) (repo_remote repoConfig)
                       (pl_branch payload)
            /\ deleteBranchOnMerge (github_cleanup (github config)) = true)).
Proof.
  unfold githubWebhookHandler, ready.
  destruct (github_enabled (github config)); cbn [negb orb]; [| intros []].
  destruct (cleanup_enabled (github_cleanup (github config))); cbn [negb]; [| intros []].
  destruct (github_webhookSecret (github config)) as [secret |] eqn:Hsecret;
    cbn [Js.truthyOpt]; [| intros []].
  destruct (Js.truthy secret) eqn:Htruthy; cbn [negb]; [| intros []].
  change (default "" (Some secret)) with secret.
  destruct (if Js.truthyOpt (githubDelivery c)
            then isDuplicateGithubDelivery now (default "" (githubDelivery c)) cache
            else (false, cache)) as [duplicate after] eqn:Hdup.
  destruct duplicate; [intros [] |].
  destruct (afterDuplicateCheck config secret c) as [outcome effects] eqn:Hafter.
  cbn [snd]. intros Hin.
  assert (In effect (afterDuplicateCheck config secret c).2) as Hin'
    by (now rewrite Hafter).
  destruct (afterDuplicateCheck_effect _ _ _ _ Hin')
    as (payload & repoConfig & workspace & issueId & H).
  exists secret, payload, repoConfig, workspace, issueId.
  split_and!; try first [reflexivity | apply H].
  intros deliveryId Hid Hne. rewrite Hid in Hdup. cbn [Js.truthyOpt] in Hdup.
  change (default "" (Some deliveryId)) with deliveryId in Hdup.
  apply Triggers.truthy_nonempty in Hne. rewrite Hne in Hdup. now rewrite Hdup.
Qed.

(** X20: the delivery id is recorded before the signature is checked.  With
    the handler enabled, a request that carries a delivery id not seen in the
    last five minutes leaves that id recorded at the time of the call, also
    when its signature is invalid and it is answered 401; a second request
    with the same id less than five minutes later is answered 200 [ignored,
    duplicate_delivery] whatever its signature and body, changes nothing and
    cleans nothing up. *)
Theorem delivery_recorded_before_verification (config : AppConfig) (now now' : Z)
    (c c' : Request) (cache : gmap string Z) (deliveryId : string) :
  ready config ->
  githubDelivery c = Some deliveryId -> githubDelivery c' = Some deliveryId ->
  deliveryId <> "" ->
  (isDuplicateGithubDelivery now deliveryId cache).1 = false ->
  now <> 0 -> now' - now < GITHUB_DEDUP_WINDOW_MS ->
  let after := (githubWebhookHandler config now c cache).1.2 in
  after !! deliveryId = Some now
  /\ (verifyGitHubSignature (rawBody c) (hubSignature256 c)
        (default "" (github_webhookSecret (github config))) = false ->
      (githubWebhookHandler config now c cache).1.1 = Responds 401 (Failed "Invalid signature")
      /\ (githubWebhookHandler config now c cache).2 = [])
  /\ githubWebhookHandler config now' c' after
     = (Responds 200 (Ignored "duplicate_delivery"), after, []).
Proof.
  intros (Henabled & Hcleanup & Hsecret) Hid Hid' Hne Hfresh Hnow Hwindow.
  apply Triggers.truthy_nonempty in Hne.
  assert (githubWebhookHandler config now c cache
          = ((afterDuplicateCheck config (default "" (github_webhookSecret (github config))) c).1,
             (isDuplicateGithubDelivery now deliveryId cache).2,
             (afterDuplicateCheck config (default "" (github_webhookSecret (github config))) c).2))
    as Hfirst.
  { unfold githubWebhookHandler. rewrite Henabled, Hcleanup, Hsecret, Hid.
    cbn [negb orb Js.truthyOpt]. change (default "" (Some deliveryId)) with deliveryId.
    rewrite Hne.
    destruct (isDuplicateGithubDelivery now deliveryId cache) as [duplicate after] eqn:Hdup.
    cbn [fst] in Hfresh. subst duplicate.
    now destruct (afterDuplicateCheck _ _ c). }
  assert ((isDuplicateGithubDelivery now deliveryId cache).2 !! deliveryId = Some now)
    as Hrecorded.
  { revert Hfresh. unfold isDuplicateGithubDelivery.
    destruct (withinWindow _ _ _); [discriminate |]. intros _. apply lookup_insert_eq. }
  cbv zeta. rewrite Hfirst. cbn [fst snd]. split_and!.
  - exact Hrecorded.
  - intros Hsig. unfold afterDuplicateCheck. rewrite Hsig. now split.
  - unfold githubWebhookHandler. rewrite Henabled, Hcleanup, Hsecret, Hid'.
    cbn [negb orb Js.truthyOpt]. change (default "" (Some deliveryId)) with deliveryId.
    rewrite Hne.
    now rewrite (github_second _ _ _ _ Hrecorded Hnow Hwindow).
Qed.







End Handler.

(** A merged pull request of a configured repository. *)
Definition cleanupConfig : AppConfig :=
  {| github :=
       {| github_enabled := true;
          github_webhookSecret := Some "s3cret";
          github_repos :=
            [{| repo_workspace := "app"; repo_repo := "Acme/App"; repo_remote := "origin";
                repo_bodyTemplatePath := None |}];
          github_cleanup :=
            {| cleanup_enabled := true; removeWorktreeOnMerge := true;
               deleteBranchOnMerge := true |} |};
     worktree :=
       {| nameTemplate := "{WORKSPACE_PATH}-worktrees/{ISSUE_ID}";
          branchTemplate := "fix/{ISSUE_ID}" |};
     workspaces :=
       [{| ws_name := "app"; ws_teamId := "team-1"; ws_projectIds := [];
           ws_localPath := "/srv/app" |}] |}.

Definition mergedPayload : PullRequestPayload :=
  {| pl_action := Some "closed"; pl_merged := true;
     pl_repoFullName := "acme/app"; pl_branch := "fix/eng-7" |}.

Definition mergedRequest : Request :=
  {| rawBody := "{}"; hubSignature256 := Some "sha256=ab";
     githubEvent := Some "pull_request"; githubDelivery := Some "d-1" |}.

Definition forgedRequest : Request :=
  {| rawBody := "{}"; hubSignature256 := None;
     githubEvent := Some "pull_request"; githubDelivery := Some "d-1" |}.

Definition oneByte (hex : string) : list Z :=
  if String.eqb hex "ab" then [171] else [].

Definition issueGroup (source input : string) : Exec :=
  if String.eqb source "^fix/(.+?)$" then Matched (Some (Js.sliceFrom 4 input)) else NoMatch.

Lemma cleanup_requires_merged_pull_request_witness :
  exists payload : PullRequestPayload, pl_merged payload = true.
Proof.
  destruct (cleanup_requires_merged_pull_request (fun _ _ => "ab") oneByte
              (fun _ => Some mergedPayload) issueGroup (fun _ => true)
              (fun a b => a +:+ "/" +:+ b) (fun _ => None) (fun _ => None)
              cleanupConfig 1000 mergedRequest ∅
              (DeleteRemoteBranch "/srv/app" "origin" "fix/eng-7"))
    as (secret & payload & repoConfig & workspace & issueId & H).
  - vm_compute. auto.
  - exists payload. apply H.
Defined.

Lemma delivery_recorded_before_verification_witness :
  (githubWebhookHandler (fun _ _ => "ab") oneByte (fun _ => Some mergedPayload) issueGroup
     (fun _ => true) (fun a b => a +:+ "/" +:+ b) (fun _ => None) (fun _ => None)
     cleanupConfig 2000 mergedRequest
     (githubWebhookHandler (fun _ _ => "ab") oneByte (fun _ => Some mergedPayload) issueGroup
        (fun _ => true) (fun a b => a +:+ "/" +:+ b) (fun _ => None) (fun _ => None)
        cleanupConfig 1000 forgedRequest ∅).1.2).1.1
  = Responds 200 (Ignored "duplicate_delivery").
Proof.
  assert (ready cleanupConfig) as Hready by (repeat split).
  assert (2000 - 1000 < GITHUB_DEDUP_WINDOW_MS) as Hwindow by (vm_compute; reflexivity).
  destruct (delivery_recorded_before_verification (fun _ _ => "ab") oneByte
              (fun _ => Some mergedPayload) issueGroup (fun _ => true)
              (fun a b => a +:+ "/" +:+ b) (fun _ => None) (fun _ => None)
              cleanupConfig 1000 2000 forgedRequest mergedRequest ∅ "d-1"
              Hready eq_refl eq_refl ltac:(discriminate) ltac:(vm_compute; reflexivity)
              ltac:(lia) Hwindow)
    as (_ & _ & H).
  now rewrite H.
Defined.

(** [new RegExp] on a pattern that holds [c++]: nothing to repeat. *)
Definition plusPlus (source input : string) : Exec :=
  if Js.includes "c++" source then SyntaxError else issueGroup source input.

Definition plusPlusConfig : AppConfig :=
  {| github := github cleanupConfig;
     worktree :=
       {| nameTemplate := "{WORKSPACE_PATH}-worktrees/{ISSUE_ID}";
          branchTemplate := "c++/{ISSUE_ID}" |};
     workspaces := workspaces cleanupConfig |}.


(** The validator accepts the branch template [c++/{ISSUE_ID}]; the handler
    then rejects on a merged pull request. *)
Example unescaped_branch_template_rejects :
  validateGitHubConfig (fun _ => true) (fun a b => a +:+ "/" +:+ b) (fun _ => true) "/srv"
    plusPlusConfig [] = []
  /\ (githubWebhookHandler (fun _ _ => "ab") oneByte (fun _ => Some mergedPayload) plusPlus
        (fun _ => true) (fun a b => a +:+ "/" +:+ b) (fun _ => None) (fun _ => None)
        plusPlusConfig 1000 mergedRequest ∅).1.1 = Rejects.
Proof. split; vm_compute; reflexivity. Qed.

Example merged_pull_request_cleanup :
  githubWebhookHandler (fun _ _ => "ab") oneByte (fun _ => Some mergedPayload) issueGroup
    (fun _ => true) (fun a b => a +:+ "/" +:+ b)
    (fun _ => Some "worktree /srv/app-worktrees/eng-7") (fun _ => None)
    cleanupConfig 1000 mergedRequest ∅
  = (Responds 200 (Merged "acme/app" "fix/eng-7" "eng-7"), {[ "d-1" := 1000 ]},
     [RemoveWorktree "/srv/app" "/srv/app-worktrees/eng-7";
      DeleteRemoteBranch "/srv/app" "origin" "fix/eng-7"]).
Proof. vm_compute. reflexivity. Qed.

End GithubWebhook.

(** ** The health report (src/health.ts: getHealthStatus and its four
    checks; src/index.ts: the [/health] route) *)
Module Health.

Inductive Level := ok | degraded | error.

Definition Level_eqb (a b : Level) : bool :=
  match a, b with
  | ok, ok | degraded, degraded | error, error => true
  | _, _ => false
  end.

(** An entry of [HealthStatus['checks']]. *)
Record CheckResult := {
  check_status : Level;
  check_message : option string
}.

(** What the four awaited calls do: [None] when the call succeeds, the
    message of the error when it throws ([error.message], or [String(error)]
    for a value that is not an [Error]). *)
Record Probes := {
  linearViewer : option string;
  rpCliVersion : option string;
  gitVersion : option string;
  sandboxHealth : option string
}.

Record HealthConfig := {
  contextEnabled : bool;
  enableHealthCheck : bool
}.

Definition passed : CheckResult := {| check_status := ok; check_message := None |}.

Definition failed (level : Level) (message : string) : CheckResult :=
  {| check_status := level; check_message := Some message |}.

Definition checkLinear (probes : Probes) : string * CheckResult :=
  match linearViewer probes with
  | None => ("linear", passed)
  | Some message => ("linear", failed error message)
  end.

Definition checkRpCli (config : HealthConfig) (probes : Probes) : string * CheckResult :=
  if negb (contextEnabled config) then ("rp-cli", failed degraded "context disabled")
  else
    match rpCliVersion probes with
    | None => ("rp-cli", passed)
    | Some message => ("rp-cli", failed degraded message)
    end.

Definition checkGit (probes : Probes) : string * CheckResult :=
  match gitVersion probes with
  | None => ("git", passed)
  | Some message => ("git", failed degraded message)
  end.

Definition checkSandbox (probes : Probes) : string * CheckResult :=
  match sandboxHealth probes with
  | None => ("sandbox", passed)
  | Some message => ("sandbox", failed degraded message)
  end.

(** [checks[name] = result] on an object whose keys keep their order of
    insertion. *)
Fixpoint setCheck (name : string) (result : CheckResult)
    (checks : list (string * CheckResult)) : list (string * CheckResult) :=
  match checks with
  | [] => [(name, result)]
  | (key, old) :: rest =>
      if String.eqb key name then (key, result) :: rest
      else (key, old) :: setCheck name result rest
  end.

(** [HealthStatus] without its timestamp, which is the clock's. *)
Record HealthStatus := {
  status : Level;
  checks : list (string * CheckResult)
}.

(** [statuses.includes(level)] *)
Definition includesLevel (statuses : list Level) (level : Level) : bool :=
  existsb (Level_eqb level) statuses.

(** [getHealthStatus(config)]: the four checks never reject, so every
    result of [Promise.allSettled] is fulfilled; the second component lists
    the increments of [healthCheckFailuresTotal], by check name. *)
Definition getHealthStatus (config : HealthConfig) (probes : Probes)
    : HealthStatus * list string :=
  let results :=
    [checkLinear probes; checkRpCli config probes; checkGit probes; checkSandbox probes] in
  let checks :=
    fold_left (fun checks result => setCheck result.1 result.2 checks) results [] in
  let failures :=
    map fst (List.filter (fun result => negb (Level_eqb (check_status result.2) ok)) results) in
  let statuses := map (fun check => check_status check.2) checks in
  let status :=
    if includesLevel statuses error then error
    else if includesLevel statuses degraded then degraded
    else ok in
  ({| status := status; checks := checks |}, failures).

(** The [/health] route: the HTTP status and the report. *)
Definition healthRoute (config : HealthConfig) (probes : Probes)
    : Z * option HealthStatus :=
  if negb (enableHealthCheck config) then (404, None)
  else (200, Some (getHealthStatus config probes).1).

(** X22: the report always holds the four checks linear, rp-cli, git and
    sandbox, in this order.  Its status is [error] exactly when the Linear
    check fails, and [ok] exactly when the context builder is enabled and all
    four calls succeed: an unreachable sandbox, a missing git or rp-cli and
    a disabled context builder only degrade it.  A failure is counted for
    every check that is not [ok].  When the route is enabled it answers 200
    whatever the status. *)
Theorem health_status_levels (config : HealthConfig) (probes : Probes) :
  let report := (getHealthStatus config probes).1 in
  map fst (checks report) = ["linear"; "rp-cli"; "git"; "sandbox"]
  /\ (status report = error <-> linearViewer probes <> None)
  /\ (status report = ok <->
      contextEnabled config = true /\ linearViewer probes = None
      /\ rpCliVersion probes = None /\ gitVersion probes = None
      /\ sandboxHealth probes = None)
  /\ (getHealthStatus config probes).2
     = map fst (List.filter (fun check => negb (Level_eqb (check_status check.2) ok))
                  (checks report))
  /\ (enableHealthCheck config = true ->
      healthRoute config probes = (200, Some report)).
Proof.
  destruct config as [context route], probes as [linear rpCli git sandbox].
  cbv zeta. split_and!.
  - destruct context, linear, rpCli, git, sandbox; reflexivity.
  - destruct context, linear, rpCli, git, sandbox; cbn; split; congruence.
  - destruct context, linear, rpCli, git, sandbox; cbn; split;
      first [discriminate | intros (? & ? & ? & ? & ?); discriminate | auto].
  - destruct context, linear, rpCli, git, sandbox; reflexivity.
  - cbn. intros ->. reflexivity.
Qed.

End Health.

(** ** Every run of the session runner (src/sandbox.ts: runSandboxAgent,
    handleEvent, finalizeResult) *)
Module RunnerFacts.
Import Permission Finalize Runner.

Tactic Notation "invert_bind" hyp(H) "as" ident(a) ident(st) ident(E) :=
  apply bindM_inv in H; destruct H as (a & st & E & H).

Ltac skip_bind H := apply bindM_inv in H; destruct H as (? & ? & _ & H).

Section EveryRun.

Variable rt : Runtime.
Variable runConfig : SandboxRunConfig.
Variable session : string.
Variable ws : Workspace.
Variable detectFileChanges : bool.
Variable permissionPolicy : Policy.
Variable formatSeconds : Z -> string.

Local Abbreviation finalize := (Runner.finalize ws detectFileChanges).
Local Abbreviation resultOf := (Runner.resultOf session).
Local Abbreviation handleEvent :=
  (Runner.handleEvent rt runConfig session ws detectFileChanges permissionPolicy).
Local Abbreviation handlePage :=
  (Runner.handlePage rt runConfig session ws detectFileChanges permissionPolicy).
Local Abbreviation pollLoop :=
  (Runner.pollLoop rt runConfig session ws detectFileChanges permissionPolicy).
Local Abbreviation streamLoop :=
  (Runner.streamLoop rt runConfig session ws detectFileChanges permissionPolicy).
Local Abbreviation streamPhase :=
  (Runner.streamPhase rt runConfig session ws detectFileChanges permissionPolicy).
Local Abbreviation afterStreaming :=
  (Runner.afterStreaming rt runConfig session ws detectFileChanges permissionPolicy).
Local Abbreviation mainLoop :=
  (Runner.mainLoop rt runConfig session ws detectFileChanges permissionPolicy).
Local Abbreviation run :=
  (Runner.run rt runConfig session ws detectFileChanges permissionPolicy formatSeconds).

(** The results the runner builds: success goes with the reason
    [completed], and the summary is that of the files seen, except in the
    result for a loop that was left without a verdict. *)
Definition shaped (st : RunState) (result : SandboxResult) : Prop :=
  exists ok why text err,
    result = finalize (resultOf st ok why text err)
    /\ ok = String.eqb why "completed"
    /\ (text = buildSummary (Runner.filesModified st)
        \/ (why = "terminated" /\ text = "Session ended unexpectedly")).

Lemma handleEvent_shaped (event : UniversalEvent) (st st' : RunState) (r : SandboxResult) :
  handleEvent event st = (Ret (Some r), st') -> shaped st' r.
Proof.
  destruct event as [| item | permData | question_id | endReason message | type];
    unfold Runner.handleEvent; intros H.
  - skip_bind H. discriminate.
  - do 2 skip_bind H. destruct item as [item |]; [| discriminate].
    do 3 skip_bind H. discriminate.
  - destruct (decidePermissionReply permData permissionPolicy); [| discriminate].
    do 2 skip_bind H. discriminate.
  - skip_bind H. discriminate.
  - unfold bindM, get, ret in H. injection H as <- <-. unfold shaped.
    eexists _, _, _, _. split; [reflexivity |]. split; [reflexivity | now left].
  - discriminate.
Qed.

Lemma handlePage_shaped (events : list (nat * UniversalEvent)) (st st' : RunState)
    (r : SandboxResult) :
  handlePage events st = (Ret (Some r), st') -> shaped st' r.
Proof.
  revert st. induction events as [| [sequence event] rest IH]; intros st H; [discriminate |].
  cbn [Runner.handlePage] in H. do 2 skip_bind H. invert_bind H as result st1 E.
  destruct result as [r1 |].
  - injection H as <- <-. eapply handleEvent_shaped. eassumption.
  - eapply IH. eassumption.
Qed.

Lemma pollLoop_shaped (fuel : nat) (hasMore : bool) (st st' : RunState) (r : SandboxResult) :
  pollLoop fuel hasMore st = (Ret (Some r), st') -> shaped st' r.
Proof.
  revert hasMore st. induction fuel as [| fuel IH]; intros hasMore st H; [discriminate |].
  cbn [Runner.pollLoop] in H. invert_bind H as isAborted st1 E1.
  destruct (hasMore && negb isAborted); [| discriminate].
  invert_bind H as response st2 E2. invert_bind H as result st3 E3.
  destruct result as [r1 |].
  - injection H as <- <-. eapply handlePage_shaped. eassumption.
  - destruct (length response.1 =? 0)%nat; [discriminate |]. eapply IH. eassumption.
Qed.

Lemma streamLoop_shaped (events : list (nat * UniversalEvent)) (st st' : RunState)
    (r : SandboxResult) :
  streamLoop events st = (Ret (Some r), st') -> shaped st' r.
Proof.
  revert st. induction events as [| [sequence event] rest IH]; intros st H;
    cbn [Runner.streamLoop] in H.
  - skip_bind H. destruct (streamEnd rt); [| discriminate].
    skip_bind H. discriminate.
  - skip_bind H. invert_bind H as isAborted st1 E1. destruct isAborted; [discriminate |].
    do 2 skip_bind H. invert_bind H as result st2 E2. destruct result as [r1 |].
    + injection H as <- <-. eapply handleEvent_shaped. eassumption.
    + eapply IH. eassumption.
Qed.

Lemma streamPhase_shaped (st st' : RunState) (r : SandboxResult) :
  streamPhase st = (Ret (Return r), st') -> shaped st' r.
Proof.
  unfold Runner.streamPhase. intros H. do 2 skip_bind H.
  unfold tryCatch in H.
  match type of H with
  | context [bindM ?m ?k ?s] => destruct (bindM m k s) as [[flow | e |] st1] eqn:E1
  end; try discriminate.
  - injection H as -> <-. invert_bind E1 as result st2 E2.
    destruct result as [r1 |]; [| discriminate].
    injection E1 as <- <-. eapply streamLoop_shaped. eassumption.
  - invert_bind H as isAborted st2 E2. destruct isAborted; [discriminate |].
    destruct (negb (isRetryableStreamError e)); discriminate.
Qed.

Lemma afterStreaming_shaped (fuel : nat) (continue : M (option SandboxResult))
    (st st' : RunState) (r : SandboxResult) :
  (forall st1, continue st1 = (Ret (Some r), st') -> shaped st' r) ->
  afterStreaming fuel continue st = (Ret (Some r), st') -> shaped st' r.
Proof.
  intros Hcont H. unfold Runner.afterStreaming, pollEvents in H. invert_bind H as result st1 E1.
  destruct result as [r1 |].
  - injection H as <- <-. eapply pollLoop_shaped. eassumption.
  - invert_bind H as st2 st3 E2. unfold get in E2. injection E2 as <- <-.
    destruct (sawFailed st1);
      [injection H as <- <-; unfold shaped; eexists _, _, _, _;
       split; [reflexivity |]; split; [reflexivity | now left] |].
    destruct (sawCompleted st1);
      [injection H as <- <-; unfold shaped; eexists _, _, _, _;
       split; [reflexivity |]; split; [reflexivity | now left] |].
    skip_bind H. eapply Hcont. eassumption.
Qed.

Lemma mainLoop_shaped (fuel : nat) (st st' : RunState) (r : SandboxResult) :
  mainLoop fuel st = (Ret (Some r), st') -> shaped st' r.
Proof.
  revert st. induction fuel as [| fuel IH]; intros st H; [discriminate |].
  cbn [Runner.mainLoop] in H. invert_bind H as isAborted st1 E1.
  destruct isAborted; [discriminate |].
  invert_bind H as st2 st3 E2. unfold get in E2. injection E2 as <- <-.
  invert_bind H as flow st4 E4. destruct flow as [| | r1].
  - eapply afterStreaming_shaped; [| eassumption]. intros st5. apply IH.
  - discriminate.
  - injection H as <- <-.
    destruct (negb (sentTurn st1)); [| discriminate].
    eapply streamPhase_shaped. eassumption.
Qed.

Lemma run_shaped (result : SandboxResult) :
  run.1 = Ret result -> shaped run.2 result.
Proof.
  destruct run as [o st'] eqn:Hrun. simpl. intros ->.
  unfold Runner.run, runSandboxAgent in Hrun. skip_bind Hrun.
  invert_bind Hrun as returned st1 E1.
  assert (forall r, returned = Some r -> shaped st1 r) as Hsome.
  { intros r ->. unfold tryCatch in E1.
    match type of E1 with
    | context [bindM ?m ?k ?s] => destruct (bindM m k s) as [[returned | e |] st2] eqn:E2
    end; try discriminate.
    - injection E1 as -> <-. invert_bind E2 as result1 st3 E3. destruct result1 as [r1 |].
      + injection E2 as <- <-. eapply mainLoop_shaped. eassumption.
      + invert_bind E2 as timedOut st4 E4. destruct timedOut; [| discriminate].
        skip_bind E2. invert_bind E2 as st5 st6 E5. unfold get in E5. injection E5 as <- <-.
        injection E2 as <- <-. unfold shaped, timeoutResult.
        eexists _, _, _, _. split; [reflexivity |]. split; [reflexivity | now left].
    - invert_bind E1 as timedOut st4 E4. destruct timedOut; [| discriminate].
      skip_bind E1. invert_bind E1 as st5 st6 E5. unfold get in E5. injection E5 as <- <-.
      injection E1 as <- <-. unfold shaped, timeoutResult.
      eexists _, _, _, _. split; [reflexivity |]. split; [reflexivity | now left]. }
  destruct returned as [r |].
  - injection Hrun as <- <-. now apply Hsome.
  - invert_bind Hrun as st2 st3 E2. unfold get in E2. injection E2 as <- <-.
    injection Hrun as <- <-. unfold shaped.
    eexists _, _, _, _. split; [reflexivity |]. split; [reflexivity | now right].
Qed.

(** Finalization returns its argument, or a result whose summary is that
    of its files. *)
Lemma finalizeResult_summary (result : SandboxResult) :
  finalize result = result
  \/ summary (finalize result) = buildSummary (Finalize.filesModified (finalize result)).
Proof.
  unfold Runner.finalize, finalizeResult.
  destruct detectFileChanges; simpl; [| auto].
  destruct (0 <? length (Finalize.filesModified result))%nat; [auto |].
  destruct (gitStatusPorcelain ws) as [output |]; [| auto].
  destruct (0 <? length (parseGitStatusFiles output))%nat; [simpl; auto |].
  destruct (getCommittedFiles ws) as [[committed |] queries]; [| auto].
  destruct (0 <? length committed)%nat; simpl; auto.
Qed.

(** X23: every result a run returns carries the session's id and the last
    assistant message as its answer; it reports success exactly when its
    reason is [completed]; and its summary is the summary of its
    [filesModified], except for the result of a loop left without a verdict,
    whose reason is [terminated] and whose summary may say that the session
    ended unexpectedly. *)
Theorem result_is_classified (result : SandboxResult) :
  run.1 = Ret result ->
  sessionId result = session
  /\ (success result = true <-> reason result = "completed")
  /\ answer result = orUndefined (lastAssistantMessage run.2)
  /\ (summary result = buildSummary (Finalize.filesModified result)
      \/ (reason result = "terminated" /\ summary result = "Session ended unexpectedly")).
Proof.
  intros Hres. destruct (run_shaped result Hres) as (ok & why & text & err & -> & -> & Htext).
  destruct (finalizeResult_frame ws (resultOf run.2 (String.eqb why "completed") why text err)
              detectFileChanges) as (Hs & Hid & Hr & Ha & _).
  fold (finalize (resultOf run.2 (String.eqb why "completed") why text err)) in Hs, Hid, Hr, Ha.
  rewrite Hs, Hid, Hr, Ha. cbn [success sessionId reason answer Runner.resultOf].
  split_and!; try reflexivity.
  - apply String.eqb_eq.
  - destruct (finalizeResult_summary (resultOf run.2 (String.eqb why "completed") why text err))
      as [-> | Hsum]; [| now left].
    cbn [summary Finalize.filesModified Runner.resultOf reason].
    destruct Htext as [-> | [-> ->]]; [now left | now right].
Qed.

Lemma countCalls_positive (p : Call -> bool) (tr : list (nat * Call)) :
  countCalls p tr = 0%nat \/ exists t c, In (t, c) tr /\ p c = true.
Proof.
  induction tr as [| [t c] tr IH]; [now left |].
  cbn [countCalls]. destruct (p c) eqn:Hp.
  - right. exists t, c. split; [now left | exact Hp].
  - destruct IH as [-> | (t' & c' & Hin & Hp')]; [now left |].
    right. exists t', c'. split; [now right | exact Hp'].
Qed.

(** X24: whatever the agent runtime does, also when it fails or its stream
    breaks, a run asks for the termination of the session at most once and
    never before the deadline; it requests no page of events, accepts no
    streamed event and does not stream the turn at or after the deadline; it
    streams the turn at most once; and the events it handles are an initial
    segment of the session's log, in order. *)
Theorem deadline_respected_in_every_run :
  (countCalls isTerminate (trace run.2) <= 1)%nat
  /\ (forall t, In (t, TerminateSession) (trace run.2) -> (abortAt rt <= t)%nat)
  /\ (forall t o l, In (t, GetEvents o l) (trace run.2) -> (t < abortAt rt)%nat)
  /\ (forall t sequence event,
        In (t, Handle FromStream sequence event) (trace run.2) -> (t < abortAt rt)%nat)
  /\ (forall t, In (t, StreamTurn) (trace run.2) -> (t < abortAt rt)%nat)
  /\ (countCalls isStreamTurn (trace run.2) <= 1)%nat
  /\ map snd (handledOf (trace run.2))
     = firstn (length (handledOf (trace run.2))) (log rt).
Proof.
  destruct (run_facts rt runConfig session ws detectFileChanges permissionPolicy formatSeconds)
    as [_ [Hgood _ _] _ _ _ _].
  split_and!.
  - destruct (countCalls_positive isTerminate (trace run.2)) as [-> | (t & c & Hin & Hp)];
      [lia |].
    destruct c; try discriminate.
    destruct (Good_terminate_tick _ _ _ Hgood Hin) as [_ ->]. lia.
  - intros t Hin. now destruct (Good_terminate_tick _ _ _ Hgood Hin).
  - intros t o l Hin. destruct (Good_In _ _ _ _ Hgood Hin) as [pre Hok]. apply Hok.
  - intros t sequence event Hin. destruct (Good_In _ _ _ _ Hgood Hin) as [pre Hok].
    now apply Hok.
  - intros t Hin. destruct (Good_In _ _ _ _ Hgood Hin) as [pre Hok]. apply Hok.
  - apply (Good_streamTurn_once rt), Hgood.
  - apply (Good_sequence rt), Hgood.
Qed.

End EveryRun.

Lemma result_is_classified_witness :
  exists result,
    (Runner.run editsThenDone fiveSeconds "s1" cleanWorkspace true policyDefault
       (fun _ => "5")).1 = Ret result
    /\ (success result = true <-> reason result = "completed")
    /\ answer result = Some "Done.".
Proof.
  eexists. split; [vm_compute; reflexivity |].
  destruct (result_is_classified editsThenDone fiveSeconds "s1" cleanWorkspace true
              policyDefault (fun _ => "5") _ ltac:(vm_compute; reflexivity))
    as (_ & Hsuccess & Hanswer & _).
  split; [exact Hsuccess | exact Hanswer].
Defined.

End RunnerFacts.

(** ** Layered configuration files and environment variables
    (src/config/loader.ts: mergeConfigs, deepMerge, interpolateEnv,
    resolveValue) *)
Module ConfigLoader.
Import Text.

(** A key of an object: any name but [__proto__].  The loader writes
    [output[key] = value]; for the key [__proto__] that assignment goes to
    the setter of [Object.prototype], which stores no property, and a read
    [output[key]] gives the prototype.  Objects with that key are left out:
    a key carries the proof that its name is another one.  The other names
    that [Object.prototype] defines are functions, which the loader treats
    as it treats an absent property, and an assignment under such a name
    creates an own property. *)
Record Key := {
  key_name : string;
  key_plain : String.eqb key_name "__proto__" = false
}.

(** The key of a name that is seen to differ from [__proto__]. *)
Local Abbreviation keyOf name := (Build_Key name eq_refl).

(** A value as the YAML and JSON parsers produce it.  A number is kept as
    its literal: the loader only copies it.  An object is the list of its own
    properties; the statements below read properties by key and do not
    depend on the order of the list. *)
#[local] Unset Elimination Schemes.
Inductive value :=
| VNull
| VBool (b : bool)
| VNumber (literal : string)
| VString (s : string)
| VArray (items : list value)
| VObject (fields : list (Key * value)).
#[local] Set Elimination Schemes.

(** [object[name]] for the own properties, [None] for [undefined]. *)
Fixpoint lookupField (name : string) (fields : list (Key * value)) : option value :=
  match fields with
  | [] => None
  | (k, v) :: rest => if String.eqb (key_name k) name then Some v else lookupField name rest
  end.

(** [output[key] = value]: a property that exists keeps its place. *)
Fixpoint setField (key : Key) (v : value) (fields : list (Key * value))
    : list (Key * value) :=
  match fields with
  | [] => [(key, v)]
  | (k, old) :: rest =>
      if String.eqb (key_name k) (key_name key) then (k, v) :: rest
      else (k, old) :: setField key v rest
  end.

(** [deepMerge(target, source)], by recursion on [source], which is given
    as the object value: the [forEach] over its entries is the inner loop. *)
Fixpoint deepMergeFields (target : list (Key * value)) (source : value) {struct source}
    : list (Key * value) :=
  match source with
  | VObject fields =>
      (fix entries (output : list (Key * value)) (fields : list (Key * value))
           {struct fields} : list (Key * value) :=
         match fields with
         | [] => output
         | (key, value) :: rest =>
             entries
               (setField key
                  match value with
                  | VArray items => VArray items
                  | VObject _ =>
                      match lookupField (key_name key) output with
                      | Some (VObject currentTarget) =>
                          VObject (deepMergeFields currentTarget value)
                      | _ => VObject (deepMergeFields [] value)
                      end
                  | _ => value
                  end
                  output)
               rest
         end) target fields
  | _ => target
  end.

Definition deepMerge (target source : list (Key * value)) : list (Key * value) :=
  deepMergeFields target (VObject source).

(** [mergeConfigs(configs)] *)
Definition mergeConfigs (configs : list (list (Key * value))) : list (Key * value) :=
  fold_left deepMerge configs [].

(** What one entry of the source leaves under its key. *)
Definition mergeEntry (current : option value) (v : value) : value :=
  match v with
  | VArray items => VArray items
  | VObject fields =>
      match current with
      | Some (VObject currentTarget) => VObject (deepMerge currentTarget fields)
      | _ => VObject (deepMerge [] fields)
      end
  | _ => v
  end.

Lemma deepMerge_nil (target : list (Key * value)) : deepMerge target [] = target.
Proof. reflexivity. Qed.

Lemma deepMerge_cons (target : list (Key * value)) (key : Key) (v : value)
    (rest : list (Key * value)) :
  deepMerge target ((key, v) :: rest)
  = deepMerge (setField key (mergeEntry (lookupField (key_name key) target) v) target) rest.
Proof. destruct v; reflexivity. Qed.

(** [value[k1][k2]...] through the own properties, where the value at
    every key but the last is an object. *)
Fixpoint getPath (v : value) (path : list string) : option value :=
  match path with
  | [] => Some v
  | key :: rest =>
      match v with
      | VObject fields =>
          match lookupField key fields with
          | Some x => getPath x rest
          | None => None
          end
      | _ => None
      end
  end.

Definition isObject (v : value) : bool :=
  match v with VObject _ => true | _ => false end.

(** The keys of an object are distinct, at every level that is merged. *)
#[local] Unset Elimination Schemes.
Inductive distinctKeys : value -> Prop :=
| distinct_object (fields : list (Key * value)) :
    List.NoDup (map (fun field => key_name field.1) fields) ->
    Forall (fun field => distinctKeys field.2) fields ->
    distinctKeys (VObject fields)
| distinct_other (v : value) : isObject v = false -> distinctKeys v.
#[local] Set Elimination Schemes.

Lemma lookupField_setField (key : Key) (name : string) (v : value)
    (fields : list (Key * value)) :
  lookupField name (setField key v fields)
  = if String.eqb (key_name key) name then Some v else lookupField name fields.
Proof.
  induction fields as [| [k' old] rest IH]; cbn [setField lookupField].
  - reflexivity.
  - destruct (String.eqb_spec (key_name k') (key_name key)) as [Heq | Hne];
      cbn [lookupField].
    + rewrite Heq. destruct (String.eqb (key_name key) name); reflexivity.
    + rewrite IH. destruct (String.eqb_spec (key_name k') name) as [Heq' | Hne'];
        [| reflexivity].
      destruct (String.eqb_spec (key_name key) name) as [Heq | _];
        [congruence | reflexivity].
Qed.

Lemma lookupField_In (name : string) (v : value) (fields : list (Key * value)) :
  lookupField name fields = Some v -> In v (map snd fields).
Proof.
  induction fields as [| [k x] rest IH]; cbn [lookupField map snd]; [discriminate |].
  destruct (String.eqb (key_name k) name); [intros [= ->]; now left | right; auto].
Qed.

Lemma lookupField_None (name : string) (fields : list (Key * value)) :
  lookupField name fields = None
  <-> ~ In name (map (fun field => key_name field.1) fields).
Proof.
  induction fields as [| [k x] rest IH]; cbn [lookupField map fst]; [tauto |].
  destruct (String.eqb_spec (key_name k) name) as [Heq | Hne].
  - split; [discriminate | intros H; contradiction H; now left].
  - rewrite IH. split; [intros H [? | ?]; tauto | intros H ?; apply H; now right].
Qed.

(** One level of the merge, key by key. *)
Lemma lookupField_deepMerge (name : string) (target source : list (Key * value)) :
  List.NoDup (map (fun field => key_name field.1) source) ->
  lookupField name (deepMerge target source)
  = match lookupField name source with
    | Some v => Some (mergeEntry (lookupField name target) v)
    | None => lookupField name target
    end.
Proof.
  revert target. induction source as [| [k v] rest IH]; intros target Hnd; [reflexivity |].
  cbn [map fst] in Hnd. inversion Hnd as [| ? ? Hnew Hrest]; subst.
  rewrite deepMerge_cons, (IH _ Hrest). cbn [lookupField].
  rewrite lookupField_setField.
  destruct (String.eqb_spec (key_name k) name) as [<- | Hne]; [| reflexivity].
  apply lookupField_None in Hnew. now rewrite Hnew.
Qed.

Lemma distinctKeys_field (name : string) (v : value) (fields : list (Key * value)) :
  Forall (fun field => distinctKeys field.2) fields ->
  lookupField name fields = Some v -> distinctKeys v.
Proof.
  induction fields as [| [k x] rest IH]; cbn [lookupField]; [discriminate |].
  intros Hall. inversion Hall as [| ? ? Hx Hrest]; subst.
  destruct (String.eqb (key_name k) name); [intros [= <-]; exact Hx | now apply IH].
Qed.

Lemma getPath_leaf (v : value) (path : list string) (leaf : value) :
  isObject v = false -> getPath v path = Some leaf -> path = [] /\ leaf = v.
Proof.
  destruct path as [| key rest]; cbn [getPath].
  - intros _ [= <-]. now split.
  - destruct v; try discriminate.
Qed.

(** The later file wins wherever it holds a value that is not an object. *)
Lemma deepMerge_wins (path : list string) :
  forall (target source : list (Key * value)) (leaf : value),
    distinctKeys (VObject source) -> path <> [] ->
    getPath (VObject source) path = Some leaf -> isObject leaf = false ->
    getPath (VObject (deepMerge target source)) path = Some leaf.
Proof.
  induction path as [| key rest IH]; intros target source leaf Hwf Hne Hget Hleaf;
    [now contradiction Hne |].
  inversion Hwf as [fields Hnd Hall | v Hv]; subst; [| discriminate].
  cbn [getPath] in *. rewrite (lookupField_deepMerge _ _ _ Hnd).
  destruct (lookupField key source) as [x |] eqn:Hx; [| discriminate].
  assert (distinctKeys x) as Hwfx.
  { apply (distinctKeys_field _ _ _ Hall Hx). }
  destruct x as [| b | n | s | items | fields];
    try (match type of Hget with
         | getPath ?x _ = _ =>
             destruct (getPath_leaf x rest leaf eq_refl Hget) as [-> ->]; reflexivity
         end).
  destruct rest as [| key' rest'].
  - cbn [getPath] in Hget. injection Hget as <-. cbn in Hleaf. discriminate Hleaf.
  - unfold mergeEntry.
    destruct (lookupField key target) as [[| | | | | current] |];
      apply IH; auto; discriminate.
Qed.

(** Where the later file is silent the earlier files are kept. *)
Lemma deepMerge_keeps (before : list string) :
  forall (target source fields : list (Key * value)) (key : string) (rest : list string),
    distinctKeys (VObject source) ->
    getPath (VObject source) before = Some (VObject fields) ->
    lookupField key fields = None ->
    getPath (VObject (deepMerge target source)) (before ++ key :: rest)
    = getPath (VObject target) (before ++ key :: rest).
Proof.
  induction before as [| k before IH]; intros target source fields key rest Hwf Hget Hnone;
    inversion Hwf as [fs Hnd Hall | v Hv]; subst; try discriminate.
  - cbn [getPath app] in *. injection Hget as <-.
    now rewrite (lookupField_deepMerge _ _ _ Hnd), Hnone.
  - cbn [getPath app] in *. rewrite (lookupField_deepMerge _ _ _ Hnd).
    destruct (lookupField k source) as [x |] eqn:Hx; [| discriminate].
    assert (distinctKeys x) as Hwfx.
    { apply (distinctKeys_field _ _ _ Hall Hx). }
    destruct x as [| b | n | s | items | xs];
      try (match type of Hget with
           | getPath ?x _ = _ =>
               destruct (getPath_leaf x before (VObject fields) eq_refl Hget) as [_ [=]]
           end).
    unfold mergeEntry.
    assert (forall y, isObject y = false -> getPath y (before ++ key :: rest) = None) as Hscalar.
    { intros y Hy. destruct before; destruct y; try reflexivity; discriminate. }
    assert (getPath (VObject []) (before ++ key :: rest) = None) as Hempty
      by (destruct before; reflexivity).
    destruct (lookupField k target) as [[| | | | | current] |];
      try (now apply (IH _ _ fields));
      (transitivity (getPath (VObject []) (before ++ key :: rest));
       [now apply (IH _ _ fields) | rewrite Hempty; symmetry]);
      first [reflexivity | now apply Hscalar].
Qed.

(** X25: configuration files are layered.  Wherever the last file holds a
    value that is not an object (a scalar, [null] or an array) the merged
    configuration holds that very value: arrays are replaced, not merged;
    wherever an object of the last file lacks a key, what the earlier files
    hold under that key is kept.  The keys of an object are distinct, and
    no object of a file has the key [__proto__], which an assignment does
    not store. *)
Theorem mergeConfigs_layers (earlier : list (list (Key * value)))
    (last : list (Key * value)) :
  distinctKeys (VObject last) ->
  (forall path leaf,
      path <> [] -> getPath (VObject last) path = Some leaf -> isObject leaf = false ->
      getPath (VObject (mergeConfigs (earlier ++ [last]))) path = Some leaf)
  /\ (forall before fields key rest,
        getPath (VObject last) before = Some (VObject fields) ->
        lookupField key fields = None ->
        getPath (VObject (mergeConfigs (earlier ++ [last]))) (before ++ key :: rest)
        = getPath (VObject (mergeConfigs earlier)) (before ++ key :: rest)).
Proof.
  intros Hwf. unfold mergeConfigs. rewrite fold_left_app. cbn [fold_left]. split.
  - intros path leaf Hne Hget Hleaf. now apply deepMerge_wins.
  - intros before fields key rest Hget Hnone. now apply (deepMerge_keeps _ _ _ fields).
Qed.

(** A home configuration and a local one that overrides the port and the
    triggers. *)
Definition homeConfig : list (Key * value) :=
  [(keyOf "server", VObject [(keyOf "port", VNumber "4747"); (keyOf "host", VString "0.0.0.0")]);
   (keyOf "triggers", VArray [VString "a"; VString "b"])].

Definition localConfig : list (Key * value) :=
  [(keyOf "server", VObject [(keyOf "port", VNumber "8080")]);
   (keyOf "triggers", VArray [VString "c"])].

Lemma mergeConfigs_layers_witness :
  getPath (VObject (mergeConfigs ([homeConfig] ++ [localConfig]))) ["server"; "port"]
  = Some (VNumber "8080")
  /\ getPath (VObject (mergeConfigs ([homeConfig] ++ [localConfig]))) (["server"] ++ "host" :: [])
     = getPath (VObject (mergeConfigs [homeConfig])) (["server"] ++ "host" :: []).
Proof.
  assert (distinctKeys (VObject localConfig)) as Hwf.
  { apply distinct_object.
    - constructor; [simpl; intros [H | []]; discriminate H |].
      constructor; [simpl; tauto | constructor].
    - constructor; [| constructor; [now apply distinct_other | constructor]].
      apply distinct_object.
      + constructor; [simpl; tauto | constructor].
      + constructor; [now apply distinct_other | constructor]. }
  destruct (mergeConfigs_layers [homeConfig] localConfig Hwf) as [Hwins Hkeeps].
  split.
  - apply Hwins; [discriminate | reflexivity | reflexivity].
  - apply (Hkeeps ["server"] [(keyOf "port", VNumber "8080")]); reflexivity.
Defined.

Example mergeConfigs_example :
  mergeConfigs [homeConfig; localConfig]
  = [(keyOf "server", VObject [(keyOf "port", VNumber "8080"); (keyOf "host", VString "0.0.0.0")]);
     (keyOf "triggers", VArray [VString "c"])].
Proof. reflexivity. Qed.

(** *** interpolateEnv *)

Definition dollar : ascii := "$"%char.
Definition openBrace : ascii := "{"%char.
Definition closeBrace : ascii := "}"%char.

(** What [[^}]+] takes at the start of [s]: the longest run of code units
    other than the closing brace. *)
Fixpoint spanName (s : string) : string :=
  match s with
  | String c rest => if Ascii.eqb c closeBrace then EmptyString else String c (spanName rest)
  | EmptyString => EmptyString
  end.

(** A match of [/\$\{([^}]+)\}/] that starts at the first code unit of [s]:
    the name.  The run cannot be given back, since what follows a shorter
    run is not the closing brace. *)
Definition referenceAt (s : string) : option string :=
  match s with
  | String c (String d rest) =>
      if Ascii.eqb c dollar && Ascii.eqb d openBrace then
        let name := spanName rest in
        if Js.truthy name
           && Js.startsWith (String closeBrace EmptyString)
                (Js.sliceFrom (String.length name) rest)
        then Some name else None
      else None
  | _ => None
  end.

(** An outcome of the loader: a value, or the message of the error
    thrown. *)
Inductive Loaded (A : Type) :=
| Ok (a : A)
| Throw (message : string).
Arguments Ok {A} a.
Arguments Throw {A} message.

Section Environment.

(** [process.env[varName]] *)
Variable env : string -> option string.

(** The [replace] call of [resolveValue] on a string: the text, and the
    names pushed onto [missing], in order.  [skip] counts the code units of
    a reference that are still to be passed. *)
Fixpoint resolveString (skip : nat) (s : string) : string * list string :=
  match s with
  | EmptyString => (EmptyString, [])
  | String c rest =>
      match skip with
      | S skip' => resolveString skip' rest
      | O =>
          match referenceAt s with
          | Some varName =>
              let after := resolveString (String.length varName + 2) rest in
              if Js.truthyOpt (env varName)
              then (default EmptyString (env varName) +:+ after.1, after.2)
              else (after.1, varName :: after.2)
          | None =>
              let after := resolveString 0 rest in
              (String c after.1, after.2)
          end
      end
  end.

(** [resolveValue(value, missing)]: the value, and the names pushed. *)
Fixpoint resolveValue (v : value) : value * list string :=
  match v with
  | VString s => (VString (resolveString 0 s).1, (resolveString 0 s).2)
  | VArray items =>
      (VArray (map (fun item => (resolveValue item).1) items),
       concat (map (fun item => (resolveValue item).2) items))
  | VObject fields =>
      (VObject (map (fun field : Key * value => (field.1, (resolveValue field.2).1)) fields),
       concat (map (fun field : Key * value => (resolveValue field.2).2) fields))
  | _ => (v, [])
  end.

(** [interpolateEnv(config)] *)
Definition interpolateEnv (config : list (Key * value))
    : Loaded (list (Key * value)) :=
  let missing := (resolveValue (VObject config)).2 in
  let resolved :=
    map (fun field : Key * value => (field.1, (resolveValue field.2).1)) config in
  if (0 <? length missing)%nat
  then Throw ("Missing environment variables: " +:+ Js.join ", " missing)
  else Ok resolved.

Lemma resolveString_skip (a b : string) :
  resolveString (String.length a) (a +:+ b) = resolveString 0 b.
Proof.
  induction a as [| c a IH]; [now destruct b |].
  rewrite append_cons. exact IH.
Qed.

Lemma spanName_name (name rest : string) :
  lacks closeBrace name = true ->
  spanName (name +:+ String closeBrace rest) = name.
Proof.
  induction name as [| c name IH]; intros Hname.
  - change (EmptyString +:+ ?x) with x. cbn [spanName]. now rewrite Ascii.eqb_refl.
  - cbn [lacks] in Hname. apply andb_true_iff in Hname. destruct Hname as [Hc Hname].
    apply negb_true_iff in Hc. rewrite append_cons. cbn [spanName]. rewrite Hc.
    now rewrite IH.
Qed.

Lemma referenceAt_name (name rest : string) :
  name <> EmptyString -> lacks closeBrace name = true ->
  referenceAt (String dollar (String openBrace (name +:+ String closeBrace rest)))
  = Some name.
Proof.
  intros Hne Hname. unfold referenceAt. rewrite !Ascii.eqb_refl. cbn [andb]. cbv zeta.
  rewrite (spanName_name _ _ Hname), Template.sliceFrom_append.
  destruct name as [| c name]; [now contradiction Hne |].
  cbn [Js.truthy Js.startsWith andb]. now rewrite Ascii.eqb_refl.
Qed.

Lemma referenceAt_other (c : ascii) (rest : string) :
  Ascii.eqb c dollar = false -> referenceAt (String c rest) = None.
Proof. intros Hc. unfold referenceAt. destruct rest; [reflexivity |]. now rewrite Hc. Qed.

(** A reference in a string: the text before it is copied, the value of
    the variable is written in its place, or the name noted as missing. *)
Lemma resolveString_reference (before name after : string) :
  lacks dollar before = true -> name <> EmptyString -> lacks closeBrace name = true ->
  resolveString 0
    (before +:+ String dollar (String openBrace (name +:+ String closeBrace after)))
  = if Js.truthyOpt (env name)
    then (before +:+ default EmptyString (env name) +:+ (resolveString 0 after).1,
          (resolveString 0 after).2)
    else (before +:+ (resolveString 0 after).1, name :: (resolveString 0 after).2).
Proof.
  intros Hbefore Hne Hname. induction before as [| c before IH].
  - change (EmptyString +:+ ?x) with x.
    change (resolveString 0
              (String dollar (String openBrace (name +:+ String closeBrace after))))
      with (match referenceAt
                    (String dollar (String openBrace (name +:+ String closeBrace after))) with
            | Some varName =>
                let rest :=
                  resolveString (String.length varName + 2)
                    (String openBrace (name +:+ String closeBrace after)) in
                if Js.truthyOpt (env varName)
                then (default EmptyString (env varName) +:+ rest.1, rest.2)
                else (rest.1, varName :: rest.2)
            | None =>
                let rest :=
                  resolveString 0 (String openBrace (name +:+ String closeBrace after)) in
                (String dollar rest.1, rest.2)
            end).
    rewrite (referenceAt_name _ _ Hne Hname). cbv zeta.
    assert (resolveString (String.length name + 2)
              (String openBrace (name +:+ String closeBrace after))
            = resolveString 0 after) as ->; [| reflexivity].
    replace (String.length name + 2)%nat with (S (S (String.length name))) by lia.
    change (resolveString (S (String.length name)) (name +:+ String closeBrace after)
            = resolveString 0 after).
    change (String closeBrace after) with (String closeBrace EmptyString +:+ after).
    rewrite <- append_assoc.
    replace (S (String.length name))
      with (String.length (name +:+ String closeBrace EmptyString))
      by (rewrite length_append; cbn [String.length]; lia).
    apply resolveString_skip.
  - cbn [lacks] in Hbefore. apply andb_true_iff in Hbefore. destruct Hbefore as [Hc Hrest].
    apply negb_true_iff in Hc. rewrite !append_cons.
    change (resolveString 0 (String c ?rest))
      with (match referenceAt (String c rest) with
            | Some varName =>
                let after := resolveString (String.length varName + 2) rest in
                if Js.truthyOpt (env varName)
                then (default EmptyString (env varName) +:+ after.1, after.2)
                else (after.1, varName :: after.2)
            | None => let after := resolveString 0 rest in (String c after.1, after.2)
            end).
    rewrite (referenceAt_other _ _ Hc). cbv zeta. rewrite (IH Hrest).
    destruct (Js.truthyOpt (env name)); reflexivity.
Qed.

Lemma lookupField_resolved (key : string) (fields : list (Key * value)) :
  lookupField key
    (map (fun field : Key * value => (field.1, (resolveValue field.2).1)) fields)
  = option_map (fun v => (resolveValue v).1) (lookupField key fields).
Proof.
  induction fields as [| [k v] rest IH]; [reflexivity |].
  cbn [map lookupField fst snd]. destruct (String.eqb (key_name k) key);
    [reflexivity | exact IH].
Qed.

(** Resolution goes through the objects key by key. *)
Lemma getPath_resolved (path : list string) :
  forall v x, getPath v path = Some x ->
    getPath (resolveValue v).1 path = Some (resolveValue x).1.
Proof.
  induction path as [| key rest IH]; intros v x Hget; cbn [getPath] in *.
  - now injection Hget as ->.
  - destruct v as [| | | | | fields]; try discriminate.
    cbn [resolveValue fst]. rewrite lookupField_resolved.
    destruct (lookupField key fields) as [y |]; [| discriminate].
    cbn [option_map]. now apply IH.
Qed.

(** A name missed below is missed above. *)
Lemma missing_below (path : list string) :
  forall v x name, getPath v path = Some x ->
    In name (resolveValue x).2 -> In name (resolveValue v).2.
Proof.
  induction path as [| key rest IH]; intros v x name Hget Hin; cbn [getPath] in *.
  - now injection Hget as ->.
  - destruct v as [| | | | | fields]; try discriminate.
    destruct (lookupField key fields) as [y |] eqn:Hy; [| discriminate].
    cbn [resolveValue snd]. apply in_concat.
    exists (resolveValue y).2. split; [| now apply (IH y x)].
    apply lookupField_In in Hy. apply in_map_iff in Hy. destruct Hy as (field & <- & Hy).
    now apply (in_map (fun field : Key * value => (resolveValue field.2).2) _ _ Hy).
Qed.

(** X26: a reference to an environment variable that is unset or empty is
    never replaced silently.  Take a configuration none of whose objects has
    the key [__proto__] and that holds, under a path of keys, a string with
    a reference [${name}] after a text without a dollar sign.  If the
    variable is unset or empty, loading throws, and the message names the
    variable; and if loading returns, the variable has a non-empty value,
    and the string holds the text before the reference, the value, and what
    the rest of the string resolves to. *)
Theorem interpolateEnv_reference (config : list (Key * value)) (path : list string)
    (before name after : string) :
  getPath (VObject config) path
  = Some (VString (before +:+ String dollar
                     (String openBrace (name +:+ String closeBrace after)))) ->
  lacks dollar before = true -> name <> EmptyString -> lacks closeBrace name = true ->
  (Js.truthyOpt (env name) = false ->
   exists missing,
     interpolateEnv config
     = Throw ("Missing environment variables: " +:+ Js.join ", " missing)
     /\ In name missing)
  /\ (forall resolved, interpolateEnv config = Ok resolved ->
      exists value,
        env name = Some value /\ value <> EmptyString
        /\ getPath (VObject resolved) path
           = Some (VString (before +:+ value +:+ (resolveString 0 after).1))).
Proof.
  intros Hget Hbefore Hne Hname.
  pose proof (resolveString_reference before name after Hbefore Hne Hname) as Href.
  assert (Js.truthyOpt (env name) = false -> In name (resolveValue (VObject config)).2)
    as Hmissing.
  { intros Hunset. apply (missing_below path _ _ _ Hget).
    cbn [resolveValue snd]. rewrite Href, Hunset. now left. }
  unfold interpolateEnv. split.
  - intros Hunset. specialize (Hmissing Hunset).
    destruct (resolveValue (VObject config)).2 as [| first rest] eqn:Hall;
      [destruct Hmissing |].
    cbn [length Nat.ltb Nat.leb]. eexists. split; [reflexivity | exact Hmissing].
  - intros resolved Hok.
    destruct (0 <? length (resolveValue (VObject config)).2)%nat eqn:Hlen; [discriminate |].
    injection Hok as <-.
    pose proof (getPath_resolved path _ _ Hget) as Hpath.
    cbn [resolveValue fst] in Hpath. rewrite Href in Hpath.
    destruct (Js.truthyOpt (env name)) eqn:Hset.
    + destruct (env name) as [value |]; [| discriminate].
      exists value. split_and!; [reflexivity | now apply Triggers.truthy_nonempty |].
      exact Hpath.
    + specialize (Hmissing eq_refl).
      destruct (resolveValue (VObject config)).2; [destruct Hmissing | discriminate].
Qed.

End Environment.

Definition keyFromEnv : list (Key * value) :=
  [(keyOf "linear", VObject [(keyOf "apiKey", VString "Bearer ${LINEAR_API_KEY}!")])].

Lemma interpolateEnv_reference_witness :
  exists missing,
    interpolateEnv (fun _ => None) keyFromEnv
    = Throw ("Missing environment variables: " +:+ Js.join ", " missing)
    /\ In "LINEAR_API_KEY" missing.
Proof.
  destruct (interpolateEnv_reference (fun _ => None) keyFromEnv ["linear"; "apiKey"]
              "Bearer " "LINEAR_API_KEY" "!" eq_refl eq_refl ltac:(discriminate) eq_refl)
    as [Hunset _].
  exact (Hunset eq_refl).
Defined.

Example interpolateEnv_examples :
  interpolateEnv (fun name => if String.eqb name "LINEAR_API_KEY" then Some "k1" else None)
    keyFromEnv
  = Ok [(keyOf "linear", VObject [(keyOf "apiKey", VString "Bearer k1!")])]
  /\ interpolateEnv (fun name => if String.eqb name "A" then Some "" else None)
       [(keyOf "a", VArray [VString "${A}-${B}"; VString "$ {A} ${}"]); (keyOf "b", VNull)]
     = Throw "Missing environment variables: A, B".
Proof. split; reflexivity. Qed.

End ConfigLoader.

(** ** First match wins (src/triggers/matcher.ts: matchTriggers;
    src/triggers/hashtag.ts, src/triggers/mention.ts: the patterns) *)
Module FirstMatch.

Import Triggers.

Section Compiles.

Variable newRegExp : string -> string -> option (string -> bool).

(** The pattern that the evaluator of a hashtag or mention rule builds is
    one the constructor accepts; a label rule builds none. *)
Definition compiles (trigger : TriggerConfig) : Prop :=
  match trigger_type trigger with
  | label => True
  | hashtag =>
      newRegExp
        (escapeRegex (if Js.startsWith "#" (trigger_value trigger)
                      then trigger_value trigger
                      else "#" +:+ trigger_value trigger) +:+ "\b") "i"
      <> None
  | mention =>
      newRegExp ("^\s*" +:+ escapeRegex (Js.trim (trigger_value trigger)) +:+ "\b") "i"
      <> None
  end.

Lemma compiles_returns (trigger : TriggerConfig) (context : TriggerContext) :
  compiles trigger ->
  exists verdict, kindMatcher newRegExp (trigger_type trigger) trigger context = Returns verdict.
Proof.
  unfold compiles, kindMatcher, hashtag_matches, mention_matches.
  destruct (trigger_type trigger); intros Hc.
  - eauto.
  - destruct (ctx_eventType context); [eauto |].
    destruct (ctx_comment context) as [comment |]; [| eauto].
    cbv zeta. destruct (newRegExp _ "i") as [test |]; [eauto | now contradiction Hc].
  - destruct (ctx_eventType context); [eauto |].
    destruct (ctx_comment context) as [comment |]; [| eauto].
    cbv zeta. destruct (negb _); [eauto |].
    destruct (newRegExp _ "i") as [test |]; [eauto | now contradiction Hc].
Qed.

Lemma compiles_declines (trigger : TriggerConfig) (context : TriggerContext) :
  compiles trigger ->
  (declines newRegExp trigger context <-> ~ accepts newRegExp trigger context).
Proof.
  intros Hc. split; [intros Hd Ha; now apply (accepts_not_declines _ _ _ Ha) |].
  intros Hna. unfold declines, accepts in *.
  destruct (compiles_returns trigger context Hc) as [[|] Hk]; [| now right].
  left. intros Hin. apply Hna. now split.
Qed.

Lemma compiles_all_declines (triggers : list TriggerConfig) (context : TriggerContext) :
  Forall compiles triggers ->
  (Forall (fun t => declines newRegExp t context) triggers
   <-> Forall (fun t => ~ accepts newRegExp t context) triggers).
Proof.
  induction 1 as [| t rest Hc _ IH]; [split; constructor |].
  split; intros H; inversion H; subst; constructor;
    try (now apply IH); now apply (compiles_declines t context Hc).
Qed.

(** X27: when the pattern of every hashtag and mention rule is one the
    constructor accepts, [matchTriggers] does not throw; it returns the first
    rule, in configured order, whose allowed operations contain the event's
    operation and whose matcher accepts the event; the loop body runs for the
    rules up to and including that one and for no later rule; and it returns
    nothing exactly when no rule accepts.  With two rules that accept, the
    first is returned. *)
Theorem matchTriggers_first_match (triggers : list TriggerConfig)
    (context : TriggerContext) :
  Forall compiles triggers ->
  matchTriggers newRegExp triggers context <> Throws
  /\ (forall m,
        matchTriggers newRegExp triggers context = Returns (Some m) <->
        exists pre trigger post,
          triggers = pre ++ trigger :: post
          /\ Forall (fun t => ~ accepts newRegExp t context) pre
          /\ accepts newRegExp trigger context
          /\ m = matchOf trigger
          /\ snd (matchTriggersVisited newRegExp triggers context) = pre ++ [trigger])
  /\ (matchTriggers newRegExp triggers context = Returns None <->
      Forall (fun t => ~ accepts newRegExp t context) triggers)
  /\ (forall first second rest,
        triggers = first :: second :: rest ->
        accepts newRegExp first context -> accepts newRegExp second context ->
        matchTriggers newRegExp triggers context = Returns (Some (matchOf first))).
Proof.
  intros Hall.
  destruct (matchTriggers_outcome newRegExp triggers context) as (Hsome & Hnone & Hthrows).
  assert (forall pre trigger post, triggers = pre ++ trigger :: post ->
                                   Forall compiles pre /\ compiles trigger) as Hparts.
  { intros pre trigger post ->. apply Forall_app in Hall. destruct Hall as [Hpre Hrest].
    inversion Hrest; subst. now split. }
  split_and!.
  - intros Ht. apply Hthrows in Ht. destruct Ht as (pre & t & post & Heq & _ & [_ Hk] & _).
    destruct (Hparts _ _ _ Heq) as [_ Hc].
    destruct (compiles_returns t context Hc) as [verdict Hv]. congruence.
  - intros m. rewrite Hsome. split.
    + intros (pre & t & post & Heq & Hpre & Hrest). exists pre, t, post.
      split; [exact Heq |]. split; [| exact Hrest].
      destruct (Hparts _ _ _ Heq) as [Hcs _]. now apply compiles_all_declines.
    + intros (pre & t & post & Heq & Hpre & Hrest). exists pre, t, post.
      split; [exact Heq |]. split; [| exact Hrest].
      destruct (Hparts _ _ _ Heq) as [Hcs _]. now apply compiles_all_declines.
  - rewrite Hnone. now apply compiles_all_declines.
  - intros first second rest -> Hfirst Hsecond. now apply matchTriggers_two_rules.
Qed.

End Compiles.

Lemma matchTriggers_first_match_witness :
  Forall (compiles rejectsPlusPlus) [fixRule; fixRule]
  /\ matchTriggers rejectsPlusPlus [fixRule; fixRule] fixComment
     = Returns (Some (matchOf fixRule)).
Proof.
  assert (Forall (compiles rejectsPlusPlus) [fixRule; fixRule]) as Hall.
  { repeat constructor; vm_compute; discriminate. }
  split; [exact Hall |].
  destruct (matchTriggers_first_match rejectsPlusPlus [fixRule; fixRule] fixComment Hall)
    as (_ & _ & _ & Hfirst).
  apply (Hfirst fixRule fixRule []); [reflexivity | |]; split; vm_compute; auto.
Defined.

End FirstMatch.
